(** * ice-visualizer: the scene bookkeeping and particle physics of src/app.js

    A shallow embedding of the parts of [src/app.js] that keep the scene
    graph consistent (nodes, connections, data pulses, visualization
    switching, the canvas click handler) and of the per-frame particle
    updates (matrix rain, storm, swarm, mouse gravity).

    Conventions of the embedding:
    - a JavaScript number is a real number ([R]): the rounding of the
      double-precision arithmetic and NaN are not represented;
    - the particle buffers are [Float32Array]s: what is written into them
      is rounded to the nearest float32 value ([fround]) where the
      buffers are created and in the matrix and swarm loops; the storm
      loop and the mouse-gravity step are kept over the unrounded
      numbers;
    - a JavaScript object has an identity, a reference of type [ref];
      mutable [userData] lives in maps from references to records;
    - [Math.random()] is the n-th value of a sequence [random], with the
      number of calls made so far kept in the state;
    - materials, lights, the camera and the DOM (apart from the two HUD
      counters) have no influence on the modelled functions and are left
      out. *)

From Stdlib Require Import Reals Lra Lia ZArith.
From stdpp Require Import gmap strings list fin_maps.

Abbreviation ref := nat (only parsing).

(** ** Arrays: [indexOf] and [splice] *)

Section js_array.
Context {A : Type} `{EqDecision A}.

(** [Array.prototype.indexOf]: the index of the first element strictly
    equal to [x], or -1. *)
Fixpoint indexOf_from (x : A) (l : list A) (i : Z) : Z :=
  match l with
  | [] => (-1)%Z
  | y :: l' => if decide (y = x) then i else indexOf_from x l' (i + 1)%Z
  end.

Definition indexOf (x : A) (l : list A) : Z := indexOf_from x l 0.

(** [Array.prototype.splice(start, 1)]: a negative [start] counts from the
    end of the array, and a [start] past the end deletes nothing. *)
Definition splice1 (l : list A) (start : Z) : list A :=
  let len := Z.of_nat (length l) in
  let s := if (start <? 0)%Z then Z.max (len + start) 0 else Z.min start len in
  take (Z.to_nat s) l ++ drop (S (Z.to_nat s)) l.

(** [arr.splice(arr.indexOf(x), 1)] *)
Definition remove_by_indexOf (l : list A) (x : A) : list A :=
  splice1 l (indexOf x l).
End js_array.

(** ** Vectors *)

Record Vector3 := mkVector3 { v_x : R; v_y : R; v_z : R }.

Definition Vector3_new : Vector3 := mkVector3 0 0 0.

Definition dot (a b : Vector3) : R :=
  (v_x a * v_x b + v_y a * v_y b + v_z a * v_z b)%R.

Definition v_length (a : Vector3) : R := sqrt (dot a a).

Definition v_sub (a b : Vector3) : Vector3 :=
  mkVector3 (v_x a - v_x b) (v_y a - v_y b) (v_z a - v_z b).

Definition distanceTo (a b : Vector3) : R := v_length (v_sub a b).

(** ** Presets and configuration *)

Record Colors := mkColors { primary : Z; secondary : Z; accent : Z }.

Record Preset := mkPreset {
  p_name : string;
  particleCount : nat;
  particleSize : R;
  particleSpeed : R;
  p_nodeCount : nat;
  p_connectionDistance : R;
  p_colors : Colors
}.

Definition neural : Preset :=
  mkPreset "Neural Network" 500 (3/100) (2/10000) 80 (35/10)
    (mkColors 0x02d7f2 0xff00aa 0xffeb0b).
Definition storm : Preset :=
  mkPreset "Data Storm" 2000 (2/100) (3/1000) 40 (25/10)
    (mkColors 0xff00aa 0xffeb0b 0x02d7f2).
Definition constellation : Preset :=
  mkPreset "Constellation" 300 (5/100) (1/10000) 50 5
    (mkColors 0xffffff 0x02d7f2 0xffeb0b).
Definition swarm : Preset :=
  mkPreset "Swarm Intelligence" 200 (6/100) (8/1000) 30 4
    (mkColors 0x00ff88 0x02d7f2 0xff00aa).
Definition matrix : Preset :=
  mkPreset "Matrix Rain" 1000 (25/1000) (2/1000) 60 3
    (mkColors 0x00ff00 0x00aa00 0xffffff).

(** The value of a property read [VIZ_PRESETS[key]]. [VIZ_PRESETS] is an
    object literal, so a key it does not own is looked up in
    [Object.prototype]: the names below yield that prototype's functions
    (or, for [__proto__], the prototype itself), none of which has a
    [nodeCount], [connectionDistance] or [colors] property. *)
Inductive PresetLookup :=
  | JUndefined
  | JPreset (p : Preset)
  | JInherited (name : string).

Definition Object_prototype_keys : list string :=
  ["constructor"; "hasOwnProperty"; "isPrototypeOf"; "propertyIsEnumerable";
   "toLocaleString"; "toString"; "valueOf"; "__proto__";
   "__defineGetter__"; "__defineSetter__"; "__lookupGetter__";
   "__lookupSetter__"].

Definition VIZ_PRESETS (key : string) : PresetLookup :=
  if decide (key = "neural") then JPreset neural
  else if decide (key = "storm") then JPreset storm
  else if decide (key = "constellation") then JPreset constellation
  else if decide (key = "swarm") then JPreset swarm
  else if decide (key = "matrix") then JPreset matrix
  else if decide (key ∈ Object_prototype_keys) then JInherited key
  else JUndefined.

Definition VIZ_PRESETS_keys : list string :=
  ["neural"; "storm"; "constellation"; "swarm"; "matrix"].

(** [!preset] is false for every object and function. *)
Definition truthy (v : PresetLookup) : bool :=
  match v with JUndefined => false | _ => true end.

(** [CONFIG]: [nodeCount] and [connectionDistance] are overwritten by
    [switchVisualization] and can then hold [undefined] ([None]). *)
Record Config := mkConfig {
  nodeCount : option nat;
  connectionDistance : option R;
  nodeSize : R;
  coreSize : R;
  fieldSize : R;
  cyan : option Z;
  magenta : option Z;
  yellow : option Z
}.

Definition CONFIG0 : Config :=
  mkConfig (Some 80) (Some (35/10)%R) (8/100) (15/100) 8
    (Some 0x02d7f2%Z) (Some 0xff00aa%Z) (Some 0xffeb0b%Z).

(** ** Scene objects *)

(** A node mesh: its position, scale and [userData]. *)
Record NodeData := mkNodeData {
  position : Vector3;
  scale : R;
  originalPosition : Vector3;
  phase : R;
  speed : R;
  color : option Z;
  isNew : bool
}.

(** A connection line: the two end points of its geometry and its
    [userData]; a property that the object literal does not set reads as
    [undefined] ([None], and [false] for [toCore]). *)
Record Line := mkLine {
  l_start : Vector3;
  l_end : Vector3;
  nodeIndex : option Z;
  toCore : bool;
  nodeIndex1 : option Z;
  nodeIndex2 : option Z
}.

Definition core_line (a b : Vector3) (i : Z) : Line :=
  mkLine a b (Some i) true None None.

Definition pair_line (a b : Vector3) (i j : Z) : Line :=
  mkLine a b None false (Some i) (Some j).

Definition no_line : Line := mkLine Vector3_new Vector3_new None false None None.

(** A data pulse: mesh position, material opacities and [userData]. *)
Record Pulse := mkPulse {
  pulse_position : Vector3;
  pulse_opacity : R;
  glow_opacity : R;
  p_start : Vector3;
  p_end : Vector3;
  progress : R;
  pulse_speed : R
}.

(** The particle system: the [position] buffer, the optional [velocity]
    buffer (both flat, three numbers per particle), [userData.preset],
    the rotation about y and the material opacity. *)
Record Points := mkPoints {
  pts_id : ref;
  positions : list R;
  velocities : option (list R);
  pts_preset : option Preset;
  rotation_y : R;
  pts_opacity : R
}.

(** ** The global state *)

Record State := mkState {
  scene : gset ref;               (* scene.children; an object occurs in it at most once *)
  nodes : list ref;
  connections : list ref;
  dataPulses : list ref;
  particleSystem : option Points;
  coreNode : option ref;
  currentViz : string;
  CONFIG : Config;
  addingNode : bool;
  mouseWorld : Vector3;
  meshes : gmap ref NodeData;
  lines : gmap ref Line;
  pulses : gmap ref Pulse;
  next_ref : ref;                 (* the next fresh object identity *)
  rng : nat;                      (* calls of Math.random so far *)
  hud_node_count : nat;
  hud_connection_count : nat;
  time : R
}.

Definition set_scene (f : gset ref → gset ref) (s : State) : State :=
  mkState (f (scene s)) (nodes s) (connections s) (dataPulses s) (particleSystem s)
    (coreNode s) (currentViz s) (CONFIG s) (addingNode s) (mouseWorld s) (meshes s)
    (lines s) (pulses s) (next_ref s) (rng s) (hud_node_count s) (hud_connection_count s) (time s).
Definition set_nodes (f : list ref → list ref) (s : State) : State :=
  mkState (scene s) (f (nodes s)) (connections s) (dataPulses s) (particleSystem s)
    (coreNode s) (currentViz s) (CONFIG s) (addingNode s) (mouseWorld s) (meshes s)
    (lines s) (pulses s) (next_ref s) (rng s) (hud_node_count s) (hud_connection_count s) (time s).
Definition set_connections (f : list ref → list ref) (s : State) : State :=
  mkState (scene s) (nodes s) (f (connections s)) (dataPulses s) (particleSystem s)
    (coreNode s) (currentViz s) (CONFIG s) (addingNode s) (mouseWorld s) (meshes s)
    (lines s) (pulses s) (next_ref s) (rng s) (hud_node_count s) (hud_connection_count s) (time s).
Definition set_dataPulses (f : list ref → list ref) (s : State) : State :=
  mkState (scene s) (nodes s) (connections s) (f (dataPulses s)) (particleSystem s)
    (coreNode s) (currentViz s) (CONFIG s) (addingNode s) (mouseWorld s) (meshes s)
    (lines s) (pulses s) (next_ref s) (rng s) (hud_node_count s) (hud_connection_count s) (time s).
Definition set_particleSystem (p : option Points) (s : State) : State :=
  mkState (scene s) (nodes s) (connections s) (dataPulses s) p
    (coreNode s) (currentViz s) (CONFIG s) (addingNode s) (mouseWorld s) (meshes s)
    (lines s) (pulses s) (next_ref s) (rng s) (hud_node_count s) (hud_connection_count s) (time s).
Definition set_coreNode (c : option ref) (s : State) : State :=
  mkState (scene s) (nodes s) (connections s) (dataPulses s) (particleSystem s)
    c (currentViz s) (CONFIG s) (addingNode s) (mouseWorld s) (meshes s)
    (lines s) (pulses s) (next_ref s) (rng s) (hud_node_count s) (hud_connection_count s) (time s).
Definition set_currentViz (k : string) (s : State) : State :=
  mkState (scene s) (nodes s) (connections s) (dataPulses s) (particleSystem s)
    (coreNode s) k (CONFIG s) (addingNode s) (mouseWorld s) (meshes s)
    (lines s) (pulses s) (next_ref s) (rng s) (hud_node_count s) (hud_connection_count s) (time s).
Definition set_CONFIG (f : Config → Config) (s : State) : State :=
  mkState (scene s) (nodes s) (connections s) (dataPulses s) (particleSystem s)
    (coreNode s) (currentViz s) (f (CONFIG s)) (addingNode s) (mouseWorld s) (meshes s)
    (lines s) (pulses s) (next_ref s) (rng s) (hud_node_count s) (hud_connection_count s) (time s).
Definition set_meshes (f : gmap ref NodeData → gmap ref NodeData) (s : State) : State :=
  mkState (scene s) (nodes s) (connections s) (dataPulses s) (particleSystem s)
    (coreNode s) (currentViz s) (CONFIG s) (addingNode s) (mouseWorld s) (f (meshes s))
    (lines s) (pulses s) (next_ref s) (rng s) (hud_node_count s) (hud_connection_count s) (time s).
Definition set_lines (f : gmap ref Line → gmap ref Line) (s : State) : State :=
  mkState (scene s) (nodes s) (connections s) (dataPulses s) (particleSystem s)
    (coreNode s) (currentViz s) (CONFIG s) (addingNode s) (mouseWorld s) (meshes s)
    (f (lines s)) (pulses s) (next_ref s) (rng s) (hud_node_count s) (hud_connection_count s) (time s).
Definition set_pulses (f : gmap ref Pulse → gmap ref Pulse) (s : State) : State :=
  mkState (scene s) (nodes s) (connections s) (dataPulses s) (particleSystem s)
    (coreNode s) (currentViz s) (CONFIG s) (addingNode s) (mouseWorld s) (meshes s)
    (lines s) (f (pulses s)) (next_ref s) (rng s) (hud_node_count s) (hud_connection_count s) (time s).
Definition set_next_ref (n : ref) (s : State) : State :=
  mkState (scene s) (nodes s) (connections s) (dataPulses s) (particleSystem s)
    (coreNode s) (currentViz s) (CONFIG s) (addingNode s) (mouseWorld s) (meshes s)
    (lines s) (pulses s) n (rng s) (hud_node_count s) (hud_connection_count s) (time s).
Definition set_rng (n : nat) (s : State) : State :=
  mkState (scene s) (nodes s) (connections s) (dataPulses s) (particleSystem s)
    (coreNode s) (currentViz s) (CONFIG s) (addingNode s) (mouseWorld s) (meshes s)
    (lines s) (pulses s) (next_ref s) n (hud_node_count s) (hud_connection_count s) (time s).
Definition set_hud (n c : nat) (s : State) : State :=
  mkState (scene s) (nodes s) (connections s) (dataPulses s) (particleSystem s)
    (coreNode s) (currentViz s) (CONFIG s) (addingNode s) (mouseWorld s) (meshes s)
    (lines s) (pulses s) (next_ref s) (rng s) n c (time s).

(** A call that returns normally, or throws a [TypeError]; either way with
    the state reached at that point. *)
Inductive outcome := Returned (s : State) | Threw (s : State).

Definition outcome_state (o : outcome) : State :=
  match o with Returned s | Threw s => s end.

Definition bind (o : outcome) (k : State → outcome) : outcome :=
  match o with Returned s => k s | Threw s => Threw s end.

(** [new]: a fresh object identity. *)
Definition alloc (s : State) : ref * State := (next_ref s, set_next_ref (S (next_ref s)) s).

(** [scene.add(o)] and [scene.remove(o)] *)
Definition scene_add (o : ref) : State → State := set_scene (λ c, c ∪ {[o]}).
Definition scene_remove (o : ref) : State → State := set_scene (λ c, c ∖ {[o]}).

Definition updateHUD (s : State) : State :=
  set_hud (length (nodes s)) (length (connections s)) s.

(** Comparisons and arithmetic on numbers that may be [undefined]: a
    comparison with [undefined] (or with the [NaN] it turns into) is
    false. *)
Global Instance Rlt_decision : RelDecision Rlt := Rlt_dec.
Global Instance Rle_decision : RelDecision Rle := Rle_dec.
Global Instance Req_decision : EqDecision R := Req_dec_T.

Definition lt_opt (a : R) (b : option R) : bool :=
  match b with Some b => bool_decide (a < b)%R | None => false end.

Definition strict_eq (a : option Z) (n : Z) : bool :=
  match a with Some m => bool_decide (m = n) | None => false end.

Definition gt_opt (a : option Z) (n : Z) : bool :=
  match a with Some m => bool_decide (n < m)%Z | None => false end.

(** [data.f--] under the guard [data.f > nodeIndex] *)
Definition dec_if_gt (a : option Z) (n : Z) : option Z :=
  if gt_opt a n then Z.pred <$> a else a.

Definition node_position (s : State) (r : ref) : Vector3 :=
  match meshes s !! r with Some d => position d | None => Vector3_new end.

Definition line_data (s : State) (c : ref) : Line :=
  default no_line (lines s !! c).

(** ** Deleting a node *)

Definition incident (idx : Z) (d : Line) : bool :=
  strict_eq (nodeIndex d) idx || strict_eq (nodeIndex1 d) idx
  || strict_eq (nodeIndex2 d) idx.

Definition shift_indices (idx : Z) (d : Line) : Line :=
  mkLine (l_start d) (l_end d)
    (dec_if_gt (nodeIndex d) idx) (toCore d)
    (dec_if_gt (nodeIndex1 d) idx) (dec_if_gt (nodeIndex2 d) idx).

(** [connectionsToRemove.forEach(conn => { scene.remove(conn);
    connections.splice(connections.indexOf(conn), 1); })] *)
Definition remove_connection (s : State) (conn : ref) : State :=
  set_connections (λ cs, remove_by_indexOf cs conn) (scene_remove conn s).

(** [connections.forEach(conn => { ... data.nodeIndex-- ... })]: the
    [userData] of each visited line object is updated in place. *)
Definition shift_connection (idx : Z) (s : State) (conn : ref) : State :=
  set_lines (λ h, <[conn := shift_indices idx (line_data s conn)]> h) s.

Definition deleteNode (node : ref) (s : State) : State :=
  let idx := indexOf node (nodes s) in
  if decide (idx = (-1)%Z) then s
  else
    let connectionsToRemove :=
      filter (λ conn, incident idx (line_data s conn) = true) (connections s) in
    let s := foldl remove_connection s connectionsToRemove in
    let s := scene_remove node s in
    let s := set_nodes (λ ns, splice1 ns idx) s in
    let s := foldl (shift_connection idx) s (connections s) in
    updateHUD s.

(** ** Creating connections *)

(** [scene.add(line); connections.push(line)] for a new line object *)
Definition add_line (d : Line) (s : State) : State :=
  let '(line, s) := alloc s in
  let s := set_lines (λ h, <[line := d]> h) s in
  let s := scene_add line s in
  set_connections (λ cs, cs ++ [line]) s.

Definition scale_opt (k : R) (a : option R) : option R := (λ x, x * k)%R <$> a.

Definition connect_to_core (i : nat) (s : State) : State :=
  match nodes s !! i with
  | None => s
  | Some ni =>
      let distToCore := v_length (node_position s ni) in
      if lt_opt distToCore (scale_opt (15/10) (connectionDistance (CONFIG s)))
      then add_line (core_line Vector3_new (node_position s ni) (Z.of_nat i)) s
      else s
  end.

Definition connect_pair (i : nat) (s : State) (j : nat) : State :=
  match nodes s !! i, nodes s !! j with
  | Some ni, Some nj =>
      let distance := distanceTo (node_position s ni) (node_position s nj) in
      if lt_opt distance (connectionDistance (CONFIG s))
      then add_line (pair_line (node_position s ni) (node_position s nj)
                       (Z.of_nat i) (Z.of_nat j)) s
      else s
  | _, _ => s
  end.

Definition createConnections (s : State) : State :=
  foldl (λ s i,
           let s := connect_to_core i s in
           foldl (connect_pair i) s (seq (S i) (length (nodes s) - S i)))
        s (seq 0 (length (nodes s))).

(** [preset.colors] for the value read from [VIZ_PRESETS]; reading a
    property of the [undefined] this yields for a non-preset throws. *)
Definition lookup_colors (v : PresetLookup) : option Colors :=
  match v with JPreset p => Some (p_colors p) | _ => None end.

Definition connect_new (newNode : ref) (s : State) (i : nat) : State :=
  match nodes s !! i with
  | None => s
  | Some ni =>
      let distance := distanceTo (node_position s newNode) (node_position s ni) in
      if lt_opt distance (scale_opt (15/10) (connectionDistance (CONFIG s)))
      then add_line (pair_line (node_position s newNode) (node_position s ni)
                       (Z.of_nat (length (nodes s)) - 1) (Z.of_nat i)) s
      else s
  end.

Definition connectNewNode (newNode : ref) (s : State) : outcome :=
  match lookup_colors (VIZ_PRESETS (currentViz s)) with
  | None => Threw s
  | Some _ =>
      Returned (foldl (connect_new newNode) s (seq 0 (length (nodes s) - 1)))
  end.

(** ** Typed arrays

    A [Float32Array] keeps of a number written into it the nearest
    float32 value, a tie going to the value with the even significand
    (this is [Math.fround]). The float32 values of exponent [e] are the
    multiples of [2^(e - 23)] between [2^e] and [2^(e + 1)]; below
    [2^-126] they are the multiples of [2^-149]. Numbers from
    [2^128 - 2^103] on, which a typed array keeps as [Infinity], are
    rounded like the others here. *)
Definition round_half_even (z : R) : Z :=
  let n := Int_part z in
  let f := frac_part z in
  if decide (f < 1/2)%R then n
  else if decide (1/2 < f)%R then (n + 1)%Z
  else if Z.even n then n else (n + 1)%Z.

Definition exponent (x : R) : Z := Z.max (Int_part (ln (Rabs x) / ln 2)) (-126).

Definition ulp (x : R) : R := powerRZ 2 (exponent x - 23).

Definition fround (x : R) : R :=
  if decide (x = 0)%R then 0%R
  else (IZR (round_half_even (x / ulp x)) * ulp x)%R.

(** ** Rays, planes and truthiness *)

Record Ray := mkRay { origin : Vector3; direction : Vector3 }.
Record Plane := mkPlane { normal : Vector3; constant : R }.

(** A variable that holds either [null] or a [Vector3] object, and
    ECMAScript's [ToBoolean] on it: every object is truthy. *)
Inductive ObjectOrNull := JNull | JObject (v : Vector3).

Definition ToBoolean (v : ObjectOrNull) : bool :=
  match v with JNull => false | JObject _ => true end.

(** [Math.atan2(y, x)] *)
Definition Math_atan2 (y x : R) : R :=
  if decide (0 < x)%R then atan (y / x)
  else if decide (x < 0)%R then
    if decide (0 <= y)%R then (atan (y / x) + PI)%R else (atan (y / x) - PI)%R
  else if decide (0 < y)%R then (PI / 2)%R
  else if decide (y < 0)%R then (- PI / 2)%R
  else 0%R.

Global Instance R_inhabited : Inhabited R := populate 0%R.

(** The accumulators of the swarm's neighbour loop *)
Record Flock := mkFlock {
  sep : Vector3; sepCount : nat;
  align : Vector3; alignCount : nat;
  coh : Vector3; cohCount : nat
}.

Definition Flock0 : Flock := mkFlock Vector3_new 0 Vector3_new 0 Vector3_new 0.

Section randomness.
Variable random : nat → R.

(** [Math.random()] *)
Definition Math_random (s : State) : R * State :=
  (random (rng s), set_rng (S (rng s)) s).

(** ** Adding a node *)

Definition addNode (pos : Vector3) (s : State) : outcome :=
  match lookup_colors (VIZ_PRESETS (currentViz s)) with
  | None => Threw s
  | Some colors =>
      let '(node, s) := alloc s in
      let '(r1, s) := Math_random s in
      let '(r2, s) := Math_random s in
      (* node.scale.setScalar(0), then the first, synchronous call of
         animateSpawn adds 0.1; the later calls run from
         requestAnimationFrame *)
      let data := mkNodeData pos (0 + 1/10) pos (r1 * PI * 2) (5/10 + r2 * (5/10))
                    (Some (accent colors)) true in
      let s := set_meshes (λ h, <[node := data]> h) s in
      let s := scene_add node s in
      let s := set_nodes (λ ns, ns ++ [node]) s in
      bind (connectNewNode node s) (λ s, Returned (updateHUD s))
  end.

(** ** The canvas click handler *)

(** The ray that [raycaster.setFromCamera(mouse, camera)] computes from
    the click is the handler's input; [Ray.distanceToPlane],
    [Ray.at] and [Ray.intersectPlane] are three.js's: the intersection
    is written into [target], which is returned, and when there is
    none the call returns [null] and leaves [target] as it was. *)
Definition distanceToPlane (ray : Ray) (plane : Plane) : option R :=
  let denominator := dot (normal plane) (direction ray) in
  if decide (denominator = 0%R) then
    if decide ((dot (normal plane) (origin ray) + constant plane)%R = 0%R)
    then Some 0%R else None
  else
    let t := (- (dot (origin ray) (normal plane) + constant plane) / denominator)%R in
    if decide (0 <= t)%R then Some t else None.

Definition at_ (ray : Ray) (t : R) : Vector3 :=
  mkVector3 (v_x (origin ray) + v_x (direction ray) * t)
            (v_y (origin ray) + v_y (direction ray) * t)
            (v_z (origin ray) + v_z (direction ray) * t).

Definition intersectPlane (ray : Ray) (plane : Plane) (target : Vector3)
  : ObjectOrNull * Vector3 :=
  match distanceToPlane ray plane with
  | None => (JNull, target)
  | Some t => (JObject (at_ ray t), at_ ray t)
  end.

Definition onCanvasClick (ray : Ray) (s : State) : outcome :=
  if negb (addingNode s) then Returned s
  else
    let plane := mkPlane (mkVector3 0 0 1) 0 in
    let intersectPoint := Vector3_new in
    (* the value returned by intersectPlane is dropped *)
    let '(_, intersectPoint) := intersectPlane ray plane intersectPoint in
    (* if (intersectPoint): the variable holds the Vector3 object *)
    if ToBoolean (JObject intersectPoint) then
      let x := Rmax (-10) (Rmin 10 (v_x intersectPoint)) in
      let y := Rmax (-10) (Rmin 10 (v_y intersectPoint)) in
      let '(r, s) := Math_random s in
      let z := ((r - 5/10) * 4)%R in
      let distFromCenter := sqrt (x ^ 2 + y ^ 2) in
      let '(x, y) :=
        if decide (distFromCenter < 2)%R then
          let angle := Math_atan2 y x in
          ((cos angle * (25/10))%R, (sin angle * (25/10))%R)
        else (x, y) in
      addNode (mkVector3 x y z) s
    else Returned s.

(** ** Rebuilding the scene *)

Definition clearScene (s : State) : State :=
  let s := foldl (λ s node, scene_remove node s) s (nodes s) in
  let s := set_nodes (λ _, []) s in
  let s := foldl (λ s conn, scene_remove conn s) s (connections s) in
  let s := set_connections (λ _, []) s in
  let s := match particleSystem s with
           | Some p => set_particleSystem None (scene_remove (pts_id p) s)
           | None => s
           end in
  match coreNode s with
  | Some c => set_coreNode None (scene_remove c s)
  | None => s
  end.

(** The glow sphere and the core are added to the scene; the inner core
    is a child of the core. *)
Definition createCoreNode (s : State) : State :=
  let '(glowSphere, s) := alloc s in
  let s := scene_add glowSphere s in
  let '(core, s) := alloc s in
  let s := scene_add core (set_coreNode (Some core) s) in
  let '(innerCore, s) := alloc s in
  s.

(** A point of the sphere of the given radius, from the two angles *)
Definition spherical (radius theta phi : R) : Vector3 :=
  mkVector3 (radius * sin phi * cos theta) (radius * sin phi * sin theta)
            (radius * cos phi).

Definition createNode (s : State) : State :=
  let '(r1, s) := Math_random s in
  let radius := (fieldSize (CONFIG s) * (3/10 + r1 * (7/10)))%R in
  let '(r2, s) := Math_random s in
  let theta := (r2 * PI * 2)%R in
  let '(r3, s) := Math_random s in
  let phi := acos (2 * r3 - 1) in
  let pos := spherical radius theta phi in
  let '(colorChoice, s) := Math_random s in
  let color :=
    if decide (colorChoice < 5/10)%R then cyan (CONFIG s)
    else if decide (colorChoice < 8/10)%R then magenta (CONFIG s)
    else yellow (CONFIG s) in
  let '(node, s) := alloc s in
  let '(r5, s) := Math_random s in
  let '(r6, s) := Math_random s in
  let data := mkNodeData pos 1 pos (r5 * PI * 2) (5/10 + r6 * (5/10)) color false in
  let s := set_meshes (λ h, <[node := data]> h) s in
  let s := scene_add node s in
  set_nodes (λ ns, ns ++ [node]) s.

Definition createNodes (s : State) : State :=
  Nat.iter (default 0 (nodeCount (CONFIG s))) createNode s.

(** One particle of [createParticlesForPreset]: its position and
    velocity triples as the two [Float32Array]s keep them; the last
    random number is the colour mix. *)
Definition createParticle (s : State) : (list R * list R) * State :=
  if decide (currentViz s = "matrix") then
    let '(r1, s) := Math_random s in
    let '(r2, s) := Math_random s in
    let '(r3, s) := Math_random s in
    let '(r4, s) := Math_random s in
    let '(mixRatio, s) := Math_random s in
    (([fround ((r1 - 5/10) * 20); fround (r2 * 20 - 5); fround ((r3 - 5/10) * 20)],
      [0%R; fround (- (2/100) - r4 * (3/100)); 0%R]), s)
  else if decide (currentViz s = "storm") then
    let '(r1, s) := Math_random s in
    let radius := (fieldSize (CONFIG s) * 2 * r1)%R in
    let '(r2, s) := Math_random s in
    let theta := (r2 * PI * 2)%R in
    let '(r3, s) := Math_random s in
    let phi := acos (2 * r3 - 1) in
    let pos := spherical radius theta phi in
    let '(r4, s) := Math_random s in
    let '(r5, s) := Math_random s in
    let '(r6, s) := Math_random s in
    let '(mixRatio, s) := Math_random s in
    (([fround (v_x pos); fround (v_y pos); fround (v_z pos)],
      [fround ((r4 - 5/10) * (2/100)); fround ((r5 - 5/10) * (2/100));
       fround ((r6 - 5/10) * (2/100))]), s)
  else if decide (currentViz s = "swarm") then
    let '(r1, s) := Math_random s in
    let radius := (fieldSize (CONFIG s) * (25/10) * r1)%R in
    let '(r2, s) := Math_random s in
    let theta := (r2 * PI * 2)%R in
    let '(r3, s) := Math_random s in
    let phi := acos (2 * r3 - 1) in
    let pos := spherical radius theta phi in
    let '(r4, s) := Math_random s in
    let '(r5, s) := Math_random s in
    let '(r6, s) := Math_random s in
    let '(mixRatio, s) := Math_random s in
    (([fround (v_x pos); fround (v_y pos); fround (v_z pos)],
      [fround ((r4 - 5/10) * (2/100)); fround ((r5 - 5/10) * (2/100));
       fround ((r6 - 5/10) * (2/100))]), s)
  else
    let '(r1, s) := Math_random s in
    let radius := (fieldSize (CONFIG s) * (15/10) * r1)%R in
    let '(r2, s) := Math_random s in
    let theta := (r2 * PI * 2)%R in
    let '(r3, s) := Math_random s in
    let phi := acos (2 * r3 - 1) in
    let pos := spherical radius theta phi in
    let '(mixRatio, s) := Math_random s in
    (([fround (v_x pos); fround (v_y pos); fround (v_z pos)], [0; 0; 0]%R), s).

Fixpoint createParticleBuffers (n : nat) (s : State) : (list R * list R) * State :=
  match n with
  | O => (([], []), s)
  | S n =>
      let '((p, v), s) := createParticle s in
      let '((ps, vs), s) := createParticleBuffers n s in
      ((p ++ ps, v ++ vs), s)
  end.

Definition createParticlesForPreset (preset : Preset) (s : State) : State :=
  let '((ps, vs), s) := createParticleBuffers (particleCount preset) s in
  let '(id, s) := alloc s in
  let opacity := if decide (currentViz s = "constellation") then (9/10)%R else (6/10)%R in
  let s := set_particleSystem (Some (mkPoints id ps (Some vs) (Some preset) 0 opacity)) s in
  scene_add id s.

(** ** Switching the visualization *)

Definition lookup_nodeCount (v : PresetLookup) : option nat :=
  match v with JPreset p => Some (p_nodeCount p) | _ => None end.

Definition lookup_connectionDistance (v : PresetLookup) : option R :=
  match v with JPreset p => Some (p_connectionDistance p) | _ => None end.

Definition switchVisualization (vizKey : string) (s : State) : outcome :=
  let preset := VIZ_PRESETS vizKey in
  if negb (truthy preset) then Returned s
  else
    let s := set_currentViz vizKey s in
    let s := set_CONFIG (λ c, mkConfig (lookup_nodeCount preset) (connectionDistance c)
               (nodeSize c) (coreSize c) (fieldSize c) (cyan c) (magenta c) (yellow c)) s in
    let s := set_CONFIG (λ c, mkConfig (nodeCount c) (lookup_connectionDistance preset)
               (nodeSize c) (coreSize c) (fieldSize c) (cyan c) (magenta c) (yellow c)) s in
    match preset with
    | JPreset p =>
        let colors := p_colors p in
        let s := set_CONFIG (λ c, mkConfig (nodeCount c) (connectionDistance c)
                   (nodeSize c) (coreSize c) (fieldSize c) (Some (primary colors))
                   (Some (secondary colors)) (Some (accent colors))) s in
        let s := clearScene s in
        let s := createCoreNode s in
        let s := createNodes s in
        let s := createConnections s in
        let s := createParticlesForPreset p s in
        (* updateLightsForPreset only recolours the lights *)
        Returned (updateHUD s)
    | _ =>
        (* preset.colors is undefined: reading its .primary throws *)
        Threw s
    end.

(** ** Data pulses *)

Definition spawnDataPulse (s : State) : outcome :=
  if decide (length (connections s) = 0) then Returned s
  else
    let '(r, s) := Math_random s in
    let k := Int_part (r * INR (length (connections s))) in
    match connections s !! Z.to_nat k, lookup_colors (VIZ_PRESETS (currentViz s)) with
    | Some conn, Some _ =>
        let line := line_data s conn in
        let '(pulse, s) := alloc s in
        let '(r2, s) := Math_random s in
        let data := mkPulse (l_start line) (9/10) (3/10) (l_start line) (l_end line)
                      0 (15/1000 + r2 * (2/100)) in
        let s := set_pulses (λ h, <[pulse := data]> h) s in
        let '(glow, s) := alloc s in
        let s := scene_add pulse s in
        Returned (set_dataPulses (λ l, l ++ [pulse]) s)
    | _, _ => Threw s
    end.

(** [lerpVectors(a, b, t)] *)
Definition lerpVectors (a b : Vector3) (t : R) : Vector3 :=
  mkVector3 (v_x a + (v_x b - v_x a) * t) (v_y a + (v_y b - v_y a) * t)
            (v_z a + (v_z b - v_z a) * t).

(** The body of [dataPulses.forEach]: [toRemove] and the pulse objects
    are updated in place. *)
Definition advance_pulse (acc : list ref * State) (pulse : ref) : list ref * State :=
  let '(toRemove, s) := acc in
  match pulses s !! pulse with
  | None => acc
  | Some d =>
      let t := (progress d + pulse_speed d)%R in
      if decide (1 <= t)%R then
        (toRemove ++ [pulse],
         set_pulses (λ h, <[pulse := mkPulse (pulse_position d) (pulse_opacity d)
                              (glow_opacity d) (p_start d) (p_end d) t (pulse_speed d)]> h) s)
      else
        let fade := if decide (t < 7/10)%R then (9/10)%R
                    else (9/10 * (1 - (t - 7/10) / (3/10)))%R in
        (toRemove,
         set_pulses (λ h, <[pulse := mkPulse (lerpVectors (p_start d) (p_end d) t) fade
                              (fade * (3/10)) (p_start d) (p_end d) t (pulse_speed d)]> h) s)
  end.

Definition remove_pulse (s : State) (pulse : ref) : State :=
  set_dataPulses (λ l, remove_by_indexOf l pulse) (scene_remove pulse s).

Definition animateDataPulses (s : State) : State :=
  let '(toRemove, s) := foldl advance_pulse ([], s) (dataPulses s) in
  foldl remove_pulse s toRemove.

(** ** Particle animation

    The loops [for (let i = 0; i < positions.length; i += 3)] visit the
    indices [stride3 (length positions)]. A buffer is read with [!!!]
    (the buffers have three entries per particle, so every read is in
    range) and written with [<[i:=x]>], which like a typed array ignores
    a write out of range; what the matrix and swarm loops write is
    rounded by [fround]. *)

Definition stride3 (len : nat) : list nat := (λ k, 3 * k) <$> seq 0 ((len + 2) / 3).

(** *** Matrix rain *)

Definition matrix_particle (V : option (list R)) (st : list R * nat) (i : nat)
  : list R * nat :=
  let '(P, n) := st in
  let P := <[i + 1 := fround (P !!! (i + 1)%nat +
              match V with Some V => V !!! (i + 1)%nat | None => - (3/100) end)]> P in
  if decide (P !!! (i + 1)%nat < -10)%R then
    let P := <[i + 1 := fround 15]> P in
    let P := <[i := fround ((random n - 5/10) * 20)]> P in
    let P := <[i + 2 := fround ((random (S n) - 5/10) * 20)]> P in
    (P, S (S n))
  else (P, n).

Definition matrix_frame (P : list R) (V : option (list R)) (n : nat) : list R * nat :=
  foldl (matrix_particle V) (P, n) (stride3 (length P)).

(** *** Storm *)

Definition storm_particle (st : list R * list R * nat) (i : nat) : list R * list R * nat :=
  let '(P, V, n) := st in
  let P := <[i := (P !!! i + V !!! i)%R]> P in
  let P := <[i + 1 := (P !!! (i + 1)%nat + V !!! (i + 1)%nat)%R]> P in
  let P := <[i + 2 := (P !!! (i + 2)%nat + V !!! (i + 2)%nat)%R]> P in
  let radius := sqrt (P !!! i ^ 2 + P !!! (i + 1)%nat ^ 2 + P !!! (i + 2)%nat ^ 2) in
  let V :=
    if decide (15 < radius)%R then
      let V := <[i := (V !!! i * - (8/10))%R]> V in
      let V := <[i + 1 := (V !!! (i + 1)%nat * - (8/10))%R]> V in
      <[i + 2 := (V !!! (i + 2)%nat * - (8/10))%R]> V
    else V in
  let V := <[i := (V !!! i + (random n - 5/10) * (1/1000))%R]> V in
  let V := <[i + 1 := (V !!! (i + 1)%nat + (random (n + 1) - 5/10) * (1/1000))%R]> V in
  let V := <[i + 2 := (V !!! (i + 2)%nat + (random (n + 2) - 5/10) * (1/1000))%R]> V in
  (P, V, n + 3).

Definition storm_frame (P V : list R) (n : nat) : list R * list R * nat :=
  foldl storm_particle (P, V, n) (stride3 (length P)).

(** *** Swarm *)

Definition perceptionRadius : R := 3.
Definition separationDist : R := 1.
Definition maxSpeed : R := 3/100.
Definition maxForce : R := 1/1000.

Definition triple (B : list R) (i : nat) : Vector3 :=
  mkVector3 (B !!! i) (B !!! (i + 1)%nat) (B !!! (i + 2)%nat).

(** The body of the inner loop over [j] for the particle at [i], whose
    position is [p]. *)
Definition flock_neighbour (P V : list R) (i : nat) (p : Vector3) (acc : Flock) (j : nat)
  : Flock :=
  if decide (i = j) then acc
  else
    let dx := (P !!! j - v_x p)%R in
    let dy := (P !!! (j + 1)%nat - v_y p)%R in
    let dz := (P !!! (j + 2)%nat - v_z p)%R in
    let dist := sqrt (dx * dx + dy * dy + dz * dz) in
    if decide (dist < perceptionRadius ∧ 0 < dist)%R then
      let acc :=
        if decide (dist < separationDist)%R then
          mkFlock (mkVector3 (v_x (sep acc) - dx / dist) (v_y (sep acc) - dy / dist)
                             (v_z (sep acc) - dz / dist))
                  (S (sepCount acc)) (align acc) (alignCount acc) (coh acc) (cohCount acc)
        else acc in
      mkFlock (sep acc) (sepCount acc)
        (mkVector3 (v_x (align acc) + V !!! j) (v_y (align acc) + V !!! (j + 1)%nat)
                   (v_z (align acc) + V !!! (j + 2)%nat))
        (S (alignCount acc))
        (mkVector3 (v_x (coh acc) + P !!! j) (v_y (coh acc) + P !!! (j + 1)%nat)
                   (v_z (coh acc) + P !!! (j + 2)%nat))
        (S (cohCount acc))
    else acc.

Definition flock (P V : list R) (i : nat) : Flock :=
  foldl (flock_neighbour P V i (triple P i)) Flock0 (stride3 (length P)).

(** The forces, in the order the code applies them *)
Definition separate (f : Flock) (v : Vector3) : Vector3 :=
  if decide (0 < sepCount f) then
    mkVector3 (v_x v + v_x (sep f) / INR (sepCount f) * maxForce * 2)
              (v_y v + v_y (sep f) / INR (sepCount f) * maxForce * 2)
              (v_z v + v_z (sep f) / INR (sepCount f) * maxForce * 2)
  else v.

Definition align_with (f : Flock) (v : Vector3) : Vector3 :=
  if decide (0 < alignCount f) then
    mkVector3 (v_x v + (v_x (align f) / INR (alignCount f) - v_x v) * maxForce)
              (v_y v + (v_y (align f) / INR (alignCount f) - v_y v) * maxForce)
              (v_z v + (v_z (align f) / INR (alignCount f) - v_z v) * maxForce)
  else v.

Definition cohere (f : Flock) (p v : Vector3) : Vector3 :=
  if decide (0 < cohCount f) then
    let targetX := (v_x (coh f) / INR (cohCount f) - v_x p)%R in
    let targetY := (v_y (coh f) / INR (cohCount f) - v_y p)%R in
    let targetZ := (v_z (coh f) / INR (cohCount f) - v_z p)%R in
    mkVector3 (v_x v + targetX * maxForce * (5/10)) (v_y v + targetY * maxForce * (5/10))
              (v_z v + targetZ * maxForce * (5/10))
  else v.

Definition soft_boundary (p v : Vector3) : Vector3 :=
  let distFromCenter := sqrt (v_x p * v_x p + v_y p * v_y p + v_z p * v_z p) in
  if decide (18 < distFromCenter)%R then
    mkVector3 (v_x v - v_x p * (3/10000)) (v_y v - v_y p * (3/10000))
              (v_z v - v_z p * (3/10000))
  else v.

Definition limit_speed (v : Vector3) : Vector3 :=
  let speed := sqrt (v_x v * v_x v + v_y v * v_y v + v_z v * v_z v) in
  if decide (maxSpeed < speed)%R then
    mkVector3 (v_x v / speed * maxSpeed) (v_y v / speed * maxSpeed)
              (v_z v / speed * maxSpeed)
  else v.

(** The new velocity of the particle at [i], as computed before it is
    written to the buffers *)
Definition steer (P V : list R) (i : nat) : Vector3 :=
  let p := triple P i in
  let f := flock P V i in
  limit_speed (soft_boundary p (cohere f p (align_with f (separate f (triple V i))))).

Definition swarm_particle (st : list R * list R) (i : nat) : list R * list R :=
  let '(P, V) := st in
  let v := steer P V i in
  let V := <[i := fround (v_x v)]> V in
  let V := <[i + 1 := fround (v_y v)]> V in
  let V := <[i + 2 := fround (v_z v)]> V in
  let P := <[i := fround (P !!! i + v_x v)]> P in
  let P := <[i + 1 := fround (P !!! (i + 1)%nat + v_y v)]> P in
  let P := <[i + 2 := fround (P !!! (i + 2)%nat + v_z v)]> P in
  (P, V).

Definition swarm_frame (P V : list R) : list R * list R :=
  foldl swarm_particle (P, V) (stride3 (length P)).

(** *** The dispatch on [currentViz] *)

Definition with_buffers (ps : Points) (P : list R) (V : option (list R)) : Points :=
  mkPoints (pts_id ps) P V (pts_preset ps) (rotation_y ps) (pts_opacity ps).

Definition rotate (ps : Points) (a : R) : Points :=
  mkPoints (pts_id ps) (positions ps) (velocities ps) (pts_preset ps)
    (rotation_y ps + a) (pts_opacity ps).

Definition with_opacity (ps : Points) (o : R) : Points :=
  mkPoints (pts_id ps) (positions ps) (velocities ps) (pts_preset ps)
    (rotation_y ps) o.

Definition animateParticles (s : State) : outcome :=
  match particleSystem s with
  | None => Returned s
  | Some ps =>
      let P := positions ps in
      let preset := pts_preset ps in
      if decide (currentViz s = "matrix") then
        let '(P, n) := matrix_frame P (velocities ps) (rng s) in
        Returned (set_rng n (set_particleSystem (Some (with_buffers ps P (velocities ps))) s))
      else if decide (currentViz s = "storm") then
        let '(ps, s) :=
          match velocities ps with
          | Some V =>
              let '(P, V, n) := storm_frame P V (rng s) in
              (with_buffers ps P (Some V), set_rng n s)
          | None => (ps, s)
          end in
        match preset with
        | Some pr => Returned (set_particleSystem (Some (rotate ps (particleSpeed pr * 2))) s)
        | None => Threw (set_particleSystem (Some ps) s)
        end
      else if decide (currentViz s = "swarm") then
        match velocities ps with
        | Some V =>
            let '(P, V) := swarm_frame P V in
            Returned (set_particleSystem (Some (with_buffers ps P (Some V))) s)
        | None =>
            (* velocities[i] on undefined throws in the first iteration;
               without a particle, attributes.velocity.needsUpdate = true
               throws after the loop *)
            Threw s
        end
      else if decide (currentViz s = "constellation") then
        let ps := with_opacity ps (7/10 + sin (time s * 2) * (2/10)) in
        match preset with
        | Some pr => Returned (set_particleSystem (Some (rotate ps (particleSpeed pr))) s)
        | None => Threw (set_particleSystem (Some ps) s)
        end
      else
        let a := match preset with
                 | Some pr => if decide (particleSpeed pr = 0%R) then (2/10000)%R
                              else particleSpeed pr
                 | None => (2/10000)%R
                 end in
        Returned (set_particleSystem (Some (rotate ps a)) s)
  end.

(** *** Mouse gravity *)

Definition mouseGravityStrength : R := 5/10.

Definition gravity_particle (m : Vector3) (P : list R) (i : nat) : list R :=
  let dx := (v_x m - P !!! i)%R in
  let dy := (v_y m - P !!! (i + 1)%nat)%R in
  let dz := (v_z m - P !!! (i + 2)%nat)%R in
  let dist := sqrt (dx * dx + dy * dy + dz * dz) in
  if decide (dist < 5 ∧ 1/10 < dist)%R then
    let force := (mouseGravityStrength * (1/100) / (dist * dist))%R in
    let P := <[i := (P !!! i + dx * force)%R]> P in
    let P := <[i + 1 := (P !!! (i + 1)%nat + dy * force)%R]> P in
    <[i + 2 := (P !!! (i + 2)%nat + dz * force)%R]> P
  else P.

Definition gravity_frame (m : Vector3) (P : list R) : list R :=
  foldl (gravity_particle m) P (stride3 (length P)).

(** [mouseWorld] always holds a [Vector3], so only a missing particle
    system makes the function return early. *)
Definition applyMouseGravity (s : State) : State :=
  match particleSystem s with
  | None => s
  | Some ps =>
      set_particleSystem
        (Some (with_buffers ps (gravity_frame (mouseWorld s) (positions ps)) (velocities ps))) s
  end.
End randomness.

(** ** Vocabulary of the statements *)

(** The indices a line stores, [nodes[i]], a line whose stored indices are
    all in range, two stored indices that name the same node in two
    versions of the array, and a line one of whose indices names a given
    node. *)
Definition stored (d : Line) : list (option Z) := [nodeIndex d; nodeIndex1 d; nodeIndex2 d].

Definition node_at (ns : list ref) (i : Z) : option ref :=
  if decide (0 ≤ i)%Z then ns !! Z.to_nat i else None.

Definition valid_indices (ns : list ref) (d : Line) : Prop :=
  ∀ i, Some i ∈ stored d → is_Some (node_at ns i).

Definition same_node (ns ns' : list ref) (o o' : option Z) : Prop :=
  match o, o' with
  | None, None => True
  | Some i, Some i' => is_Some (node_at ns' i') ∧ node_at ns' i' = node_at ns i
  | _, _ => False
  end.

Definition touches (ns : list ref) (d : Line) (node : ref) : Prop :=
  ∃ i, Some i ∈ stored d ∧ node_at ns i = Some node.

(** The shape the program keeps its graph in: no object occurs twice in
    [nodes] or in [connections], every object of the two arrays was
    allocated before, and the indices stored in the lines are in range. *)
Definition graph_ok (s : State) : Prop :=
  NoDup (nodes s) ∧ NoDup (connections s)
  ∧ (∀ r, r ∈ nodes s ∨ r ∈ connections s → r < next_ref s)
  ∧ (∀ c, c ∈ connections s → valid_indices (nodes s) (line_data s c)).

(** Likewise for the pulses: distinct, allocated objects with their data *)
Definition pulses_ok (s : State) : Prop :=
  NoDup (dataPulses s)
  ∧ (∀ p, p ∈ dataPulses s → p < next_ref s ∧ is_Some (pulses s !! p)).

(** A pulse that this call of [animateDataPulses] carries to the end of
    its line: its progress plus its speed is at least 1. *)
Definition completes (s : State) (p : ref) : Prop :=
  match pulses s !! p with
  | Some d => (1 <= progress d + pulse_speed d)%R
  | None => False
  end.

Global Instance completes_dec s p : Decision (completes s p).
Proof. unfold completes. destruct (pulses s !! p); apply _. Defined.

(** The fall speed of particle [k] in the matrix rain: the stored
    velocity is negative, and 0.03 stands in when there is no velocity
    buffer. *)
Definition fall_speed (V : option (list R)) (k : nat) : R :=
  match V with Some V => (- V !!! (3 * k + 1)%nat)%R | None => (3/100)%R end.

(** The height at which particle [k] is stored once it has fallen by
    its fall speed, and the number of particles before [k] that a frame
    finds below -10 then. *)
Definition fallen (P : list R) (V : option (list R)) (k : nat) : R :=
  fround (P !!! (3 * k + 1)%nat - fall_speed V k).

Definition resets_before (P : list R) (V : option (list R)) (k : nat) : nat :=
  length (filter (λ j, (fallen P V j < -10)%R) (seq 0 k)).

(** What a frame of the matrix rain does to particle [k]: [P] is the
    position buffer before the frame, [P'] after it, and [n] the number
    of calls of [Math.random] made before the frame. Every particle put
    back at the top takes the next two random numbers. *)
Definition rain_drop_ok (random : nat → R) (n : nat) (P : list R) (V : option (list R))
    (P' : list R) (k : nat) : Prop :=
  let y := fallen P V k in
  let c := n + 2 * resets_before P V k in
  ((y < -10)%R →
     P' !!! (3 * k + 1) = 15%R
     ∧ P' !!! (3 * k) = fround ((random c - 5/10) * 20)
     ∧ P' !!! (3 * k + 2) = fround ((random (S c) - 5/10) * 20))
  ∧ (¬ (y < -10)%R →
       P' !!! (3 * k + 1) = y
       ∧ P' !!! (3 * k) = P !!! (3 * k) ∧ P' !!! (3 * k + 2) = P !!! (3 * k + 2)).

(** What a frame of the storm does to particle [k]: [P], [V] are the
    buffers before the frame, [P'], [V'] after it, and [c] the number of
    calls of [Math.random] made before the particle's turn. *)
Definition storm_ok (random : nat → R) (c : nat) (P V P' V' : list R) (k : nat) : Prop :=
  let x := (P !!! (3 * k)%nat + V !!! (3 * k)%nat)%R in
  let y := (P !!! (3 * k + 1)%nat + V !!! (3 * k + 1)%nat)%R in
  let z := (P !!! (3 * k + 2)%nat + V !!! (3 * k + 2)%nat)%R in
  let bounce (v : R) : R :=
    if decide (15 < sqrt (x ^ 2 + y ^ 2 + z ^ 2))%R then (v * - (8/10))%R else v in
  let turbulence (j : nat) : R := ((random (c + j)%nat - 5/10) * (1/1000))%R in
  P' !!! (3 * k) = x ∧ P' !!! (3 * k + 1) = y ∧ P' !!! (3 * k + 2) = z
  ∧ V' !!! (3 * k) = (bounce (V !!! (3 * k)%nat) + turbulence 0%nat)%R
  ∧ V' !!! (3 * k + 1) = (bounce (V !!! (3 * k + 1)%nat) + turbulence 1%nat)%R
  ∧ V' !!! (3 * k + 2) = (bounce (V !!! (3 * k + 2)%nat) + turbulence 2%nat)%R.

(** What the mouse-gravity step does to particle [k], for the cursor at
    [m]: [P] is the position buffer before the step, [P'] after it. *)
Definition gravity_ok (m : Vector3) (P P' : list R) (k : nat) : Prop :=
  let dx := (v_x m - P !!! (3 * k)%nat)%R in
  let dy := (v_y m - P !!! (3 * k + 1)%nat)%R in
  let dz := (v_z m - P !!! (3 * k + 2)%nat)%R in
  let d := sqrt (dx * dx + dy * dy + dz * dz) in
  ((1/10 < d < 5)%R →
     P' !!! (3 * k) = (P !!! (3 * k)%nat + dx * (5/1000 / (d * d)))%R
     ∧ P' !!! (3 * k + 1) = (P !!! (3 * k + 1)%nat + dy * (5/1000 / (d * d)))%R
     ∧ P' !!! (3 * k + 2) = (P !!! (3 * k + 2)%nat + dz * (5/1000 / (d * d)))%R)
  ∧ ((d <= 1/10 ∨ 5 <= d)%R →
       P' !!! (3 * k) = P !!! (3 * k) ∧ P' !!! (3 * k + 1) = P !!! (3 * k + 1)
       ∧ P' !!! (3 * k + 2) = P !!! (3 * k + 2)).

(** *** The swarm, as described

    The neighbours of the particle at [i] within radius [r] are the other
    particles whose distance from it is positive and below [r]; the
    separation force is computed from those within [separationDist], the
    alignment and cohesion averages from those within
    [perceptionRadius]. *)
Definition v_add (a b : Vector3) : Vector3 :=
  mkVector3 (v_x a + v_x b) (v_y a + v_y b) (v_z a + v_z b).

Definition v_sum (l : list Vector3) : Vector3 := foldr v_add Vector3_new l.

Definition boid_distance (P : list R) (i j : nat) : R :=
  let dx := (P !!! j - P !!! i)%R in
  let dy := (P !!! (j + 1)%nat - P !!! (i + 1)%nat)%R in
  let dz := (P !!! (j + 2)%nat - P !!! (i + 2)%nat)%R in
  sqrt (dx * dx + dy * dy + dz * dz).

Definition near (P : list R) (i : nat) (r : R) (j : nat) : Prop :=
  i ≠ j ∧ (boid_distance P i j < r)%R ∧ (0 < boid_distance P i j)%R.

Global Instance near_dec P i r j : Decision (near P i r j).
Proof. unfold near. apply _. Defined.

(** The unit vector from the particle at [j] towards the one at [i] *)
Definition away (P : list R) (i j : nat) : Vector3 :=
  let d := boid_distance P i j in
  mkVector3 (- ((P !!! j - P !!! i) / d)) (- ((P !!! (j + 1)%nat - P !!! (i + 1)%nat) / d))
            (- ((P !!! (j + 2)%nat - P !!! (i + 2)%nat) / d)).

Definition flock_over (P V : list R) (i : nat) (others : list nat) : Flock :=
  let close := filter (near P i separationDist) others in
  let seen := filter (near P i perceptionRadius) others in
  mkFlock (v_sum (away P i <$> close)) (length close)
          (v_sum (triple V <$> seen)) (length seen)
          (v_sum (triple P <$> seen)) (length seen).

Definition flock_described (P V : list R) (i : nat) : Flock :=
  flock_over P V i (stride3 (length P)).

Definition flock_add (a b : Flock) : Flock :=
  mkFlock (v_add (sep a) (sep b)) (sepCount a + sepCount b)
          (v_add (align a) (align b)) (alignCount a + alignCount b)
          (v_add (coh a) (coh b)) (cohCount a + cohCount b).

(** The buffers after the first [k] particles of a swarm frame *)
Definition swarm_prefix (k : nat) (P V : list R) : list R * list R :=
  foldl swarm_particle (P, V) ((λ k, 3 * k) <$> seq 0 k).

(** The update of a particle in words. Its neighbours within [r] are
    the other particles of the buffer at a distance below [r] (and above
    0). The separation force is 0.002 times the mean of the unit vectors
    away from the neighbours within 1; alignment adds 0.001 times the
    difference between the mean velocity of the neighbours within 3 and
    the particle's velocity; cohesion adds 0.0005 times the vector from
    the particle to the mean position of the neighbours within 3; a
    particle farther than 18 from the centre is pushed back by 0.0003
    times its position. A force whose neighbours are missing is zero. *)
Definition v_scale (c : R) (a : Vector3) : Vector3 :=
  mkVector3 (c * v_x a) (c * v_y a) (c * v_z a).

Definition neighbours (P : list R) (i : nat) (r : R) : list nat :=
  filter (λ j, i ≠ j ∧ (0 < boid_distance P i j < r)%R) (stride3 (length P)).

Definition mean (l : list Vector3) : Vector3 := v_scale (/ INR (length l)) (v_sum l).

Definition separation_force (P : list R) (i : nat) : Vector3 :=
  match neighbours P i 1 with
  | [] => Vector3_new
  | close => v_scale (2/1000) (mean (away P i <$> close))
  end.

Definition alignment_force (P V : list R) (i : nat) (v : Vector3) : Vector3 :=
  match neighbours P i 3 with
  | [] => Vector3_new
  | seen => v_scale (1/1000) (v_sub (mean (triple V <$> seen)) v)
  end.

Definition cohesion_force (P : list R) (i : nat) : Vector3 :=
  match neighbours P i 3 with
  | [] => Vector3_new
  | seen => v_scale (5/10000) (v_sub (mean (triple P <$> seen)) (triple P i))
  end.

Definition boundary_force (P : list R) (i : nat) : Vector3 :=
  if decide (18 < v_length (triple P i))%R then v_scale (- (3/10000)) (triple P i)
  else Vector3_new.

(** The velocity of the particle at [i] with the forces applied one
    after the other, alignment steering the velocity that separation has
    already changed *)
Definition steered (P V : list R) (i : nat) : Vector3 :=
  let v1 := v_add (triple V i) (separation_force P i) in
  let v2 := v_add v1 (alignment_force P V i v1) in
  v_add (v_add v2 (cohesion_force P i)) (boundary_force P i).

(** The speed limit: a velocity longer than 0.03 is rescaled to the
    length 0.03, any other is kept. *)
Definition clamped (u : Vector3) : Vector3 :=
  if decide (3/100 < v_length u)%R then v_scale (3/100 / v_length u) u else u.

(** A vector as a typed array keeps it, coordinate by coordinate, and the
    buffers after the first [k] particles of a frame: particle after
    particle, the clamped velocity is written to the velocity buffer and
    added to the position. *)
Definition fround3 (v : Vector3) : Vector3 :=
  mkVector3 (fround (v_x v)) (fround (v_y v)) (fround (v_z v)).

Definition write3 (B : list R) (i : nat) (v : Vector3) : list R :=
  <[i + 2 := v_z v]> (<[i + 1 := v_y v]> (<[i := v_x v]> B)).

Definition flocked (st : list R * list R) (k : nat) : list R * list R :=
  let v := clamped (steered st.1 st.2 (3 * k)) in
  (write3 st.1 (3 * k) (fround3 (v_add (triple st.1 (3 * k)) v)),
   write3 st.2 (3 * k) (fround3 v)).

Definition swarm_after (k : nat) (P V : list R) : list R * list R :=
  foldl flocked (P, V) (seq 0 k).

(** *** Vocabulary of the further properties *)

(** A point that a typed array keeps of a point within [r] of the
    origin *)
Definition stored_within (p : Vector3) (r : R) : Prop :=
  ∃ q, p = fround3 q ∧ (v_length q <= r)%R.

(** The particle buffers hold three numbers per particle, in the
    position buffer and, when there is one, in the velocity buffer. *)
Definition particles_ok (s : State) : Prop :=
  match particleSystem s with
  | None => True
  | Some ps =>
      ∃ N, length (positions ps) = 3 * N
           ∧ ∀ V, velocities ps = Some V → length V = 3 * N
  end.

(** A node as [createNodes] places it: at rest, at its original position,
    in the shell between 0.3 and 1 times the field size around the
    origin. *)
Definition in_shell (fs : R) (d : NodeData) : Prop :=
  (3/10 * fs <= v_length (position d) <= fs)%R
  ∧ originalPosition d = position d ∧ scale d = 1%R ∧ isNew d = false.

(** The lines that [createConnections] and [connectNewNode] decide to
    create, read off the node positions: node [i] is joined to the core
    when it is closer to the origin than 1.5 times the connection
    distance, two nodes are joined when they are closer to each other than
    the connection distance, and a new node is joined to an existing one
    when they are closer than 1.5 times the connection distance. *)
Definition core_line_of (s : State) (i : nat) : list Line :=
  match nodes s !! i with
  | Some ni =>
      if lt_opt (v_length (node_position s ni))
                (scale_opt (15/10) (connectionDistance (CONFIG s)))
      then [core_line Vector3_new (node_position s ni) (Z.of_nat i)] else []
  | None => []
  end.

Definition pair_line_of (s : State) (i j : nat) : list Line :=
  match nodes s !! i, nodes s !! j with
  | Some ni, Some nj =>
      if lt_opt (distanceTo (node_position s ni) (node_position s nj))
                (connectionDistance (CONFIG s))
      then [pair_line (node_position s ni) (node_position s nj) (Z.of_nat i) (Z.of_nat j)]
      else []
  | _, _ => []
  end.

Definition new_line_of (s : State) (newNode : ref) (i : nat) : list Line :=
  match nodes s !! i with
  | Some ni =>
      if lt_opt (distanceTo (node_position s newNode) (node_position s ni))
                (scale_opt (15/10) (connectionDistance (CONFIG s)))
      then [pair_line (node_position s newNode) (node_position s ni)
              (Z.of_nat (length (nodes s)) - 1) (Z.of_nat i)]
      else []
  | None => []
  end.

Definition lines_described (s : State) : list Line :=
  flat_map (λ i, core_line_of s i
                 ++ flat_map (pair_line_of s i) (seq (S i) (length (nodes s) - S i)))
           (seq 0 (length (nodes s))).

(** Two states with the same nodes at the same places and the same
    configuration *)
Definition same_geometry (s s' : State) : Prop :=
  nodes s' = nodes s ∧ meshes s' = meshes s ∧ CONFIG s' = CONFIG s.

(** The connections of [s'] that [s] did not have yet *)
Definition new_connections (s s' : State) : list ref :=
  drop (length (connections s)) (connections s').

(** [a < b] for a bound [b] that may be undefined *)
Definition closer_than (a : R) (b : option R) : Prop := ∃ c, b = Some c ∧ (a < c)%R.

Definition nodes_close (s : State) (i j : nat) : Prop :=
  ∃ ni nj, nodes s !! i = Some ni ∧ nodes s !! j = Some nj
    ∧ closer_than (distanceTo (node_position s ni) (node_position s nj))
        (connectionDistance (CONFIG s)).

Definition node_near_core (s : State) (i : nat) : Prop :=
  ∃ ni, nodes s !! i = Some ni
    ∧ closer_than (v_length (node_position s ni))
        (scale_opt (15/10) (connectionDistance (CONFIG s))).

Definition node_near (s : State) (pos : Vector3) (i : nat) : Prop :=
  ∃ ni, nodes s !! i = Some ni
    ∧ closer_than (distanceTo pos (node_position s ni))
        (scale_opt (15/10) (connectionDistance (CONFIG s))).

(** What a call of [animateDataPulses] does to the pulse [d]: it moves on
    by its speed along the same line, and while it has not arrived it is
    drawn at that point of the line, its opacity 0.9 up to 0.7 of the way
    and falling to 0 from there, the glow at 0.3 of it. *)
Definition pulse_advanced (d d' : Pulse) : Prop :=
  progress d' = (progress d + pulse_speed d)%R
  ∧ pulse_speed d' = pulse_speed d ∧ p_start d' = p_start d ∧ p_end d' = p_end d
  ∧ ((progress d' < 1)%R →
       pulse_position d' = lerpVectors (p_start d) (p_end d) (progress d')
       ∧ pulse_opacity d' = Rmin (9/10) (3 * (1 - progress d'))
       ∧ glow_opacity d' = (pulse_opacity d' * (3/10))%R).

(** The objects that [clearScene] takes out of the scene: the nodes, the
    connections, the particle system and the core *)
Definition cleared (s : State) : gset ref :=
  list_to_set (nodes s) ∪ list_to_set (connections s)
  ∪ match particleSystem s with Some ps => {[pts_id ps]} | None => ∅ end
  ∪ match coreNode s with Some c => {[c]} | None => ∅ end.

(** ** Sample states *)

Definition empty_state : State :=
  mkState ∅ [] [] [] None None "neural" CONFIG0 false Vector3_new ∅ ∅ ∅ 0 0 0 0 0.

(** Three nodes 0, 1, 2 and three lines: 3 joins node 0 to the core, 4
    joins nodes 0 and 2, 5 joins nodes 1 and 2. *)
Definition sample_lines : gmap ref Line :=
  <[3 := core_line Vector3_new (mkVector3 3 0 0) 0]>
  (<[4 := pair_line (mkVector3 3 0 0) (mkVector3 3 2 0) 0 2]>
  (<[5 := pair_line (mkVector3 0 (-9) 0) (mkVector3 3 2 0) 1 2]> ∅)).

Definition sample_node (p : Vector3) : NodeData :=
  mkNodeData p 1 p 0 (5/10) (Some 0x02d7f2%Z) false.

Definition sample_meshes : gmap ref NodeData :=
  <[0 := sample_node (mkVector3 3 0 0)]>
  (<[1 := sample_node (mkVector3 0 (-9) 0)]>
  (<[2 := sample_node (mkVector3 3 2 0)]> ∅)).

Definition sample_state : State :=
  mkState (list_to_set [0; 1; 2; 3; 4; 5]) [0; 1; 2] [3; 4; 5] [] None None "neural"
    CONFIG0 true Vector3_new sample_meshes sample_lines ∅ 6 0 3 3 0.

(** A click whose ray leaves the camera at (12, 0, 1) heading away from
    the plane z = 0. *)
Definition miss_ray : Ray := mkRay (mkVector3 12 0 1) (mkVector3 (-8/10) 0 (6/10)).

(** Two pulses in flight: 10 is at 0.99 and moves by 0.02 a frame, 11 is
    at 0.1 and moves by 0.03. *)
Definition sample_pulses : gmap ref Pulse :=
  <[10 := mkPulse Vector3_new (9/10) (3/10) Vector3_new Vector3_new (99/100) (2/100)]>
  (<[11 := mkPulse Vector3_new (9/10) (3/10) Vector3_new Vector3_new (1/10) (3/100)]> ∅).

Definition pulse_state : State :=
  mkState (list_to_set [10; 11]) [] [] [10; 11] None None "neural"
    CONFIG0 false Vector3_new ∅ ∅ sample_pulses 12 0 0 0 0.

(** Two rain drops, the first about to fall below the threshold. *)
Definition rain : Points :=
  mkPoints 20 [1; -(639/64); 2; 4; 5; 6]%R (Some [0; -(1/32); 0; 0; -(1/32); 0]%R)
    (Some matrix) 0 (6/10).

Definition rain_state : State :=
  mkState (list_to_set [20]) [] [] [] (Some rain) None "matrix"
    CONFIG0 false Vector3_new ∅ ∅ ∅ 21 0 0 0 0.

(** Two storm particles, the second one about to cross the boundary. *)
Definition gale : Points :=
  mkPoints 30 [1; 2; 2; 0; 15; 0]%R (Some [1/100; 0; 0; 0; 1/100; 0]%R)
    (Some storm) 0 (6/10).

Definition storm_state : State :=
  mkState (list_to_set [30]) [] [] [] (Some gale) None "storm"
    CONFIG0 false Vector3_new ∅ ∅ ∅ 31 0 0 0 0.

(** The rain with the cursor at (4, 5, 8), two units from the second drop *)
Definition cursor_state : State :=
  mkState (list_to_set [20]) [] [] [] (Some rain) None "matrix"
    CONFIG0 false (mkVector3 4 5 8) ∅ ∅ ∅ 21 0 0 0 0.

(** Three boids: the second is 0.5 away from the first, the third far
    from both; the first one is too fast. *)
Definition boids : Points :=
  mkPoints 40 [0; 0; 0; 5/10; 0; 0; 9; 9; 9]%R
    (Some [1; 0; 0; 0; 1/128; 0; 0; 0; 1/128]%R) (Some swarm) 0 (6/10).

Definition swarm_state : State :=
  mkState (list_to_set [40]) [] [] [] (Some boids) None "swarm"
    CONFIG0 false Vector3_new ∅ ∅ ∅ 41 0 0 0 0.

(** A rain drop at the threshold, for a [Math.random] that returns
    1 - 2^-27 *)
Definition late_drop : Points :=
  mkPoints 20 [0; -10; 0]%R (Some [0; -(1/32); 0]%R) (Some matrix) 0 (6/10).

Definition late_state : State :=
  mkState (list_to_set [20]) [] [] [] (Some late_drop) None "matrix"
    CONFIG0 false Vector3_new ∅ ∅ ∅ 21 0 0 0 0.

Definition almost_one : nat → R := λ _, (1 - 1 / 2 ^ 27)%R.

(** A single boid that is a little too fast, its speed being 17/512 *)
Definition fast_boid : Points :=
  mkPoints 40 [0; 0; 0]%R (Some [0; 1/64; 15/512]%R) (Some swarm) 0 (6/10).

Definition fast_state : State :=
  mkState (list_to_set [40]) [] [] [] (Some fast_boid) None "swarm"
    CONFIG0 false Vector3_new ∅ ∅ ∅ 41 0 0 0 0.

(** * The frame loop, the handlers and the controls

    The remaining functions work on globals and object fields that the
    functions above never read. [App] adds them to the state: the
    animation mode, the frame counter, the effect switches, the switch of
    the UI, the recording, and for the objects of the scene the rotation
    (about x and y; an object not in the map is unrotated, as three.js
    creates it), the emissive intensity of a node material and the
    opacity of a line material once the animation has written them. A
    recorded frame, the PNG of the canvas, is identified with the number
    of the animation frame that drew it; [gifs] lists the recordings
    handed to the GIF encoder. Camera, renderer, DOM classes and the FPS
    display are not part of the model. *)

Definition set_time (t : R) (s : State) : State :=
  mkState (scene s) (nodes s) (connections s) (dataPulses s) (particleSystem s)
    (coreNode s) (currentViz s) (CONFIG s) (addingNode s) (mouseWorld s) (meshes s)
    (lines s) (pulses s) (next_ref s) (rng s) (hud_node_count s) (hud_connection_count s) t.
Definition set_mouseWorld (v : Vector3) (s : State) : State :=
  mkState (scene s) (nodes s) (connections s) (dataPulses s) (particleSystem s)
    (coreNode s) (currentViz s) (CONFIG s) (addingNode s) v (meshes s)
    (lines s) (pulses s) (next_ref s) (rng s) (hud_node_count s) (hud_connection_count s) (time s).
Definition set_addingNode (b : bool) (s : State) : State :=
  mkState (scene s) (nodes s) (connections s) (dataPulses s) (particleSystem s)
    (coreNode s) (currentViz s) (CONFIG s) b (mouseWorld s) (meshes s)
    (lines s) (pulses s) (next_ref s) (rng s) (hud_node_count s) (hud_connection_count s) (time s).

Record App := mkApp {
  state : State;
  currentMode : string;
  frameCount : nat;
  bloomEnabled : bool;
  pulsesEnabled : bool;
  uiHidden : bool;
  isRecording : bool;
  recordedFrames : list nat;
  gifs : list (list nat);
  rotation : gmap ref (R * R);
  emissiveIntensity : gmap ref R;
  line_opacity : gmap ref R
}.

Definition with_state (f : State → State) (a : App) : App :=
  mkApp (f (state a)) (currentMode a) (frameCount a) (bloomEnabled a) (pulsesEnabled a)
    (uiHidden a) (isRecording a) (recordedFrames a) (gifs a) (rotation a)
    (emissiveIntensity a) (line_opacity a).
Definition set_currentMode (m : string) (a : App) : App :=
  mkApp (state a) m (frameCount a) (bloomEnabled a) (pulsesEnabled a)
    (uiHidden a) (isRecording a) (recordedFrames a) (gifs a) (rotation a)
    (emissiveIntensity a) (line_opacity a).
Definition set_frameCount (n : nat) (a : App) : App :=
  mkApp (state a) (currentMode a) n (bloomEnabled a) (pulsesEnabled a)
    (uiHidden a) (isRecording a) (recordedFrames a) (gifs a) (rotation a)
    (emissiveIntensity a) (line_opacity a).
Definition set_bloomEnabled (b : bool) (a : App) : App :=
  mkApp (state a) (currentMode a) (frameCount a) b (pulsesEnabled a)
    (uiHidden a) (isRecording a) (recordedFrames a) (gifs a) (rotation a)
    (emissiveIntensity a) (line_opacity a).
Definition set_pulsesEnabled (b : bool) (a : App) : App :=
  mkApp (state a) (currentMode a) (frameCount a) (bloomEnabled a) b
    (uiHidden a) (isRecording a) (recordedFrames a) (gifs a) (rotation a)
    (emissiveIntensity a) (line_opacity a).
Definition set_uiHidden (b : bool) (a : App) : App :=
  mkApp (state a) (currentMode a) (frameCount a) (bloomEnabled a) (pulsesEnabled a)
    b (isRecording a) (recordedFrames a) (gifs a) (rotation a)
    (emissiveIntensity a) (line_opacity a).
Definition set_isRecording (b : bool) (a : App) : App :=
  mkApp (state a) (currentMode a) (frameCount a) (bloomEnabled a) (pulsesEnabled a)
    (uiHidden a) b (recordedFrames a) (gifs a) (rotation a)
    (emissiveIntensity a) (line_opacity a).
Definition set_recordedFrames (l : list nat) (a : App) : App :=
  mkApp (state a) (currentMode a) (frameCount a) (bloomEnabled a) (pulsesEnabled a)
    (uiHidden a) (isRecording a) l (gifs a) (rotation a)
    (emissiveIntensity a) (line_opacity a).
Definition set_gifs (g : list (list nat)) (a : App) : App :=
  mkApp (state a) (currentMode a) (frameCount a) (bloomEnabled a) (pulsesEnabled a)
    (uiHidden a) (isRecording a) (recordedFrames a) g (rotation a)
    (emissiveIntensity a) (line_opacity a).
Definition set_rotation (f : gmap ref (R * R) → gmap ref (R * R)) (a : App) : App :=
  mkApp (state a) (currentMode a) (frameCount a) (bloomEnabled a) (pulsesEnabled a)
    (uiHidden a) (isRecording a) (recordedFrames a) (gifs a) (f (rotation a))
    (emissiveIntensity a) (line_opacity a).
Definition set_emissiveIntensity (f : gmap ref R → gmap ref R) (a : App) : App :=
  mkApp (state a) (currentMode a) (frameCount a) (bloomEnabled a) (pulsesEnabled a)
    (uiHidden a) (isRecording a) (recordedFrames a) (gifs a) (rotation a)
    (f (emissiveIntensity a)) (line_opacity a).
Definition set_line_opacity (f : gmap ref R → gmap ref R) (a : App) : App :=
  mkApp (state a) (currentMode a) (frameCount a) (bloomEnabled a) (pulsesEnabled a)
    (uiHidden a) (isRecording a) (recordedFrames a) (gifs a) (rotation a)
    (emissiveIntensity a) (f (line_opacity a)).

(** A handler that returns normally, or throws a [TypeError]; either way
    with the state reached at that point. *)
Inductive completion := Normal (a : App) | TypeError (a : App).

Definition completion_app (c : completion) : App :=
  match c with Normal a | TypeError a => a end.

Definition and_then (c : completion) (k : App → completion) : completion :=
  match c with Normal a => k a | TypeError a => TypeError a end.

(** A call of one of the functions above from a handler *)
Definition call (f : State → outcome) (a : App) : completion :=
  match f (state a) with
  | Returned s => Normal (with_state (λ _, s) a)
  | Threw s => TypeError (with_state (λ _, s) a)
  end.

(** [o.rotation.x += dx; o.rotation.y += dy] *)
Definition turn (o : ref) (dx dy : R) : App → App :=
  set_rotation (λ h, let r := default (0, 0)%R (h !! o) in
                     <[o := (r.1 + dx, r.2 + dy)%R]> h).

(** ** Node and connection animation *)

Definition with_position (d : NodeData) (p : Vector3) : NodeData :=
  mkNodeData p (scale d) (originalPosition d) (phase d) (speed d) (color d) (isNew d).

Definition with_scale (d : NodeData) (k : R) : NodeData :=
  mkNodeData (position d) k (originalPosition d) (phase d) (speed d) (color d) (isNew d).

(** [v.multiplyScalar(k)] *)
Definition multiplyScalar (v : Vector3) (k : R) : Vector3 :=
  mkVector3 (v_x v * k) (v_y v * k) (v_z v * k).

(** The body of [nodes.forEach] in [animateNodes]; the [switch] has no
    default case, so any other mode only rotates the node. *)
Definition animateNode (a : App) (node : ref) : App :=
  let s := state a in
  let a :=
    match meshes s !! node with
    | None => a
    | Some data =>
        if decide (currentMode a = "orbit") then
          let floatOffset := (sin (time s * speed data + phase data) * (1/10))%R in
          let p := mkVector3 (v_x (position data))
                     (v_y (originalPosition data) + floatOffset) (v_z (position data)) in
          with_state (set_meshes (λ h, <[node := with_position data p]> h)) a
        else if decide (currentMode a = "pulse") then
          let pulseScale :=
            (1 + sin (time s * 2 - v_length (position data) * (5/10)) * (3/10))%R in
          let a := with_state (set_meshes (λ h, <[node := with_scale data pulseScale]> h)) a in
          set_emissiveIntensity
            (λ h, <[node := (3/10 + sin (time s * 3 + phase data) * (3/10))%R]> h) a
        else if decide (currentMode a = "expand") then
          let expandFactor := (1 + sin (time s * (5/10)) * (5/10))%R in
          let p := multiplyScalar (originalPosition data) expandFactor in
          with_state (set_meshes (λ h, <[node := with_position data p]> h)) a
        else a
    end in
  turn node (1/100) (1/100) a.

Definition animateNodes (a : App) : App := foldl animateNode a (nodes (state a)).

Definition with_start (d : Line) (p : Vector3) : Line :=
  mkLine p (l_end d) (nodeIndex d) (toCore d) (nodeIndex1 d) (nodeIndex2 d).

Definition with_end (d : Line) (p : Vector3) : Line :=
  mkLine (l_start d) p (nodeIndex d) (toCore d) (nodeIndex1 d) (nodeIndex2 d).

(** [nodes[i]] for a stored index that may be [undefined] *)
Definition nodes_at (s : State) (i : option Z) : option ref := i ≫= node_at (nodes s).

(** The body of [connections.forEach] in [animateConnections]. Reading
    [.position] of a node that [nodes[...]] did not find throws; for a
    line between two nodes that happens for the second node only after
    the first three coordinates have been written. *)
Definition animateConnection (a : App) (index : nat) (line : ref) : completion :=
  let s := state a in
  let opacity := (2/10 + sin (time s * 2 + INR index * (1/10)) * (15/100))%R in
  let a := set_line_opacity (λ h, <[line := opacity]> h) a in
  let d := line_data s line in
  if toCore d then
    match nodes_at s (nodeIndex d) with
    | None => TypeError a
    | Some node =>
        Normal (with_state
                  (set_lines (λ h, <[line := with_end d (node_position s node)]> h)) a)
    end
  else if decide (nodeIndex1 d ≠ None) then
    match nodes_at s (nodeIndex1 d) with
    | None => TypeError a
    | Some node1 =>
        let d := with_start d (node_position s node1) in
        let a := with_state (set_lines (λ h, <[line := d]> h)) a in
        match nodes_at s (nodeIndex2 d) with
        | None => TypeError a
        | Some node2 =>
            Normal (with_state
                      (set_lines (λ h, <[line := with_end d (node_position s node2)]> h)) a)
        end
    end
  else Normal a.

(** [connections.forEach]: an exception ends the loop *)
Fixpoint animateConnections_from (index : nat) (ls : list ref) (a : App) : completion :=
  match ls with
  | [] => Normal a
  | line :: ls =>
      and_then (animateConnection a index line) (animateConnections_from (S index) ls)
  end.

Definition animateConnections (a : App) : completion :=
  animateConnections_from 0 (connections (state a)) a.

(** ** Recording *)

Definition createGif (a : App) : App := set_gifs (gifs a ++ [recordedFrames a]) a.

Definition stopRecording (a : App) : App :=
  let a := set_isRecording false a in
  if decide (length (recordedFrames a) < 5) then a else createGif a.

Definition startRecording (a : App) : App :=
  set_recordedFrames [] (set_isRecording true a).

Definition toggleRecording (a : App) : App :=
  if isRecording a then stopRecording a else startRecording a.

Definition captureFrame (a : App) : App :=
  if negb (isRecording a) then a
  else if decide (frameCount a mod 3 ≠ 0) then a
  else if decide (50 ≤ length (recordedFrames a)) then stopRecording a
  else set_recordedFrames (recordedFrames a ++ [frameCount a]) a.

(** The timer that [startRecording] sets, five seconds later *)
Definition recordingTimeout (a : App) : App :=
  if isRecording a then stopRecording a else a.

(** The encoder's [finished] callback of [createGif] *)
Definition gifFinished (a : App) : App := set_recordedFrames [] a.

(** ** The handlers *)

(** [dataPulses.forEach(p => scene.remove(p)); dataPulses = []] *)
Definition clearPulses (s : State) : State :=
  set_dataPulses (λ _, []) (foldl (λ s p, scene_remove p s) s (dataPulses s)).

(** [nodes.forEach(node => node.scale.setScalar(1))] *)
Definition resetScales (s : State) : State :=
  foldl (λ s node,
           match meshes s !! node with
           | Some data => set_meshes (λ h, <[node := with_scale data 1]> h) s
           | None => s
           end) s (nodes s).

Definition toggleUI (a : App) : App := set_uiHidden (negb (uiHidden a)) a.

(** The ray of [raycaster.setFromCamera(mouse, camera)] is the handler's
    input; [intersectPlane] writes the point into [mouseWorld] when there
    is one. *)
Definition onMouseMove (ray : Ray) (s : State) : State :=
  let plane := mkPlane (mkVector3 0 0 1) 0 in
  let '(_, target) := intersectPlane ray plane (mouseWorld s) in
  set_mouseWorld target s.

(** The objects of [raycaster.intersectObjects(nodes)], nearest first,
    are the handler's input. *)
Definition onRightClick (intersects : list ref) (s : State) : State :=
  match intersects with
  | object :: _ => deleteNode object s
  | [] => s
  end.

(** A later call of [animateSpawn], which [addNode] defines for the node
    it adds and calls once itself: from [requestAnimationFrame], as long
    as the scale was below the target at the call before. *)
Definition animateSpawn (node : ref) (s : State) : State :=
  match meshes s !! node with
  | None => s
  | Some data =>
      let targetScale := (15/10)%R in
      if decide (scale data < targetScale)%R
      then set_meshes (λ h, <[node := with_scale data (scale data + 1/10)]> h) s
      else set_meshes (λ h, <[node := with_scale data targetScale]> h) s
  end.

Section frames.
Variable random : nat → R.

(** The first particle system, of [init]: 500 particles, no velocity
    buffer and no preset in [userData]. *)
Definition createParticle0 (s : State) : list R * State :=
  let '(r1, s) := Math_random random s in
  let radius := (fieldSize (CONFIG s) * (15/10) * r1)%R in
  let '(r2, s) := Math_random random s in
  let theta := (r2 * PI * 2)%R in
  let '(r3, s) := Math_random random s in
  let phi := acos (2 * r3 - 1) in
  let pos := spherical radius theta phi in
  let '(mixRatio, s) := Math_random random s in
  ([fround (v_x pos); fround (v_y pos); fround (v_z pos)], s).

Fixpoint createParticleBuffer (n : nat) (s : State) : list R * State :=
  match n with
  | O => ([], s)
  | S n =>
      let '(p, s) := createParticle0 s in
      let '(ps, s) := createParticleBuffer n s in
      (p ++ ps, s)
  end.

Definition createParticles (s : State) : State :=
  let '(ps, s) := createParticleBuffer 500 s in
  let '(id, s) := alloc s in
  let s := set_particleSystem (Some (mkPoints id ps None None 0 (6/10))) s in
  scene_add id s.

(** The ambient light and the three point lights *)
Definition createLights (s : State) : State :=
  let '(ambient, s) := alloc s in
  let s := scene_add ambient s in
  let '(light1, s) := alloc s in
  let s := scene_add light1 s in
  let '(light2, s) := alloc s in
  let s := scene_add light2 s in
  let '(light3, s) := alloc s in
  scene_add light3 s.

(** [CONFIG.nodeCount = preset.nodeCount] and the four assignments after
    it, for a preset object *)
Definition configure (p : Preset) : State → State :=
  set_CONFIG (λ c, mkConfig (Some (p_nodeCount p)) (Some (p_connectionDistance p))
                (nodeSize c) (coreSize c) (fieldSize c) (Some (primary (p_colors p)))
                (Some (secondary (p_colors p))) (Some (accent (p_colors p)))).

Definition resetScene (a : App) : App :=
  let a := if isRecording a then stopRecording a else a in
  let a := with_state clearPulses a in
  let a := with_state (set_currentViz "neural") a in
  let preset := neural in
  let a := with_state (configure preset) a in
  let a := with_state clearScene a in
  let a := with_state createCoreNode a in
  let a := with_state (createNodes random) a in
  let a := with_state createConnections a in
  let a := with_state (createParticlesForPreset random preset) a in
  let a := set_currentMode "orbit" a in
  let a := set_bloomEnabled true a in
  let a := set_pulsesEnabled true a in
  let a := with_state (set_addingNode false) a in
  with_state updateHUD a.

(** The click handler of the mode buttons, for the button's [data-mode] *)
Definition onModeClick (mode : string) (a : App) : App :=
  if decide (mode = "reset") then resetScene a
  else
    let a := set_currentMode mode a in
    if decide (mode ≠ "pulse") then with_state resetScales a else a.

Definition onAddNodeClick : App → App :=
  with_state (λ s, set_addingNode (negb (addingNode s)) s).

Definition onBloomClick (a : App) : App := set_bloomEnabled (negb (bloomEnabled a)) a.

Definition onPulsesClick (a : App) : App :=
  let a := set_pulsesEnabled (negb (pulsesEnabled a)) a in
  if negb (pulsesEnabled a) then with_state clearPulses a else a.

Definition onKeyDown (key : string) (a : App) : App :=
  if decide (key = "h" ∨ key = "H") then toggleUI a else a.

(** ** A frame *)

Definition animate (a : App) : completion :=
  let a := with_state (λ s, set_time (time s + 16/1000) s) a in
  let a := set_frameCount (S (frameCount a)) a in
  let a := match coreNode (state a) with
           | Some core => turn core (5/1000) (8/1000) a
           | None => a
           end in
  let a := animateNodes a in
  and_then (animateConnections a) (λ a,
  and_then (call (animateParticles random) a) (λ a,
  let a := with_state applyMouseGravity a in
  and_then
    (if pulsesEnabled a then
       let a := with_state animateDataPulses a in
       if decide (frameCount a mod 30 = 0 ∧ 0 < length (connections (state a)))
       then call (spawnDataPulse random) a
       else Normal a
     else Normal a) (λ a,
  Normal (if isRecording a then captureFrame a else a)))).

(** ** Start-up *)

(** The globals as the script initialises them *)
Definition App0 : App :=
  mkApp empty_state "orbit" 0 true true false false [] [] ∅ ∅ ∅.

(** [init], up to the first call of [animate] *)
Definition init_scene (s : State) : State :=
  let s := createLights s in
  let s := createCoreNode s in
  let s := createNodes random s in
  let s := createConnections s in
  let s := createParticles s in
  updateHUD s.

Definition init : completion := animate (with_state init_scene App0).

(** ** Events

    What the browser can call once [init] has run: the animation frame,
    the listeners that [init] and [setupControls] register, the spawn
    animation of a node, the timer of [startRecording] and the callback
    of [createGif]. The resize listener and the screenshot button touch
    nothing of the state. *)
Inductive Event :=
  | Frame
  | SpawnFrame (node : ref)
  | MouseMove (ray : Ray)
  | Click (ray : Ray)
  | ContextMenu (intersects : list ref)
  | ModeButton (mode : string)
  | VizSelect (value : string)
  | AddNodeButton
  | BloomButton
  | PulsesButton
  | RecordButton
  | HideUIButton
  | KeyDown (key : string)
  | RecordingTimer
  | GifFinished.

Definition handle (e : Event) (a : App) : completion :=
  match e with
  | Frame => animate a
  | SpawnFrame node => Normal (with_state (animateSpawn node) a)
  | MouseMove ray => Normal (with_state (onMouseMove ray) a)
  | Click ray => call (onCanvasClick random ray) a
  | ContextMenu intersects => Normal (with_state (onRightClick intersects) a)
  | ModeButton mode => Normal (onModeClick mode a)
  | VizSelect value => call (switchVisualization random value) a
  | AddNodeButton => Normal (onAddNodeClick a)
  | BloomButton => Normal (onBloomClick a)
  | PulsesButton => Normal (onPulsesClick a)
  | RecordButton => Normal (toggleRecording a)
  | HideUIButton => Normal (toggleUI a)
  | KeyDown key => Normal (onKeyDown key a)
  | RecordingTimer => Normal (recordingTimeout a)
  | GifFinished => Normal (gifFinished a)
  end.

(** The events of a session in turn; an exception ends the handler that
    threw it, not the session. *)
Definition run (es : list Event) (a : App) : App :=
  foldl (λ a e, completion_app (handle e a)) a es.
End frames.

(** The sample graph as the state of a running program *)
Definition sample_app : App :=
  mkApp sample_state "orbit" 0 true true false false [] [] ∅ ∅ ∅.

(** ** Vocabulary of the statements about the whole program *)

(** A line as the program creates it: a line to the core with the index
    of its node, or a line between two nodes with their two indices. *)
Definition line_form (d : Line) : Prop :=
  (toCore d = true ∧ is_Some (nodeIndex d) ∧ nodeIndex1 d = None ∧ nodeIndex2 d = None)
  ∨ (toCore d = false ∧ nodeIndex d = None
     ∧ is_Some (nodeIndex1 d) ∧ is_Some (nodeIndex2 d)).

Definition lines_ok (s : State) : Prop :=
  ∀ c, c ∈ connections s → line_form (line_data s c).

Definition meshes_ok (s : State) : Prop :=
  ∀ n, n ∈ nodes s → is_Some (meshes s !! n).

Definition hud_ok (s : State) : Prop :=
  hud_node_count s = length (nodes s) ∧ hud_connection_count s = length (connections s).

(** The current visualization is a key of [VIZ_PRESETS] itself. *)
Definition preset_ok (s : State) : Prop :=
  is_Some (lookup_colors (VIZ_PRESETS (currentViz s))).

(** Outside the neural visualization the particle system is one made by
    [createParticlesForPreset]: it knows its preset and has velocities. *)
Definition particles_fit (s : State) : Prop :=
  match particleSystem s with
  | None => True
  | Some ps =>
      currentViz s = "neural" ∨ (is_Some (pts_preset ps) ∧ is_Some (velocities ps))
  end.

(** The three parts of the state that the functions work on: the graph
    with its display, the pulses, and the particle system with the
    visualization it belongs to. *)
Definition graph_view (s : State) :=
  (nodes s, connections s, meshes s, lines s, (hud_node_count s, hud_connection_count s)).
Definition pulse_view (s : State) := (dataPulses s, pulses s).
Definition particle_view (s : State) := (particleSystem s, currentViz s).

Definition graph_part (s : State) : Prop :=
  graph_ok s ∧ lines_ok s ∧ meshes_ok s ∧ hud_ok s.

Definition particle_part (s : State) : Prop :=
  particles_ok s ∧ particles_fit s ∧ preset_ok s.

Definition state_ok (s : State) : Prop :=
  graph_part s ∧ pulses_ok s ∧ particle_part s.

(** At most 50 frames are held, each drawn by a frame whose number is a
    multiple of 3, and what went to the encoder had 5 to 50 such frames. *)
Definition recording_ok (a : App) : Prop :=
  length (recordedFrames a) ≤ 50
  ∧ (∀ f, f ∈ recordedFrames a → f mod 3 = 0)
  ∧ (∀ g, g ∈ gifs a → 5 ≤ length g ≤ 50 ∧ ∀ f, f ∈ g → f mod 3 = 0).

Definition app_ok (a : App) : Prop :=
  state_ok (state a)
  ∧ (pulsesEnabled a = false → dataPulses (state a) = [])
  ∧ recording_ok a.

(** What a frame does to the data [d] of a node, by animation mode:
    [orbit] moves it along y within 0.1 of its original height, [pulse]
    scales it between 0.7 and 1.3, [expand] puts it at its original
    position scaled by a factor between 0.5 and 1.5, any other mode leaves
    it alone; the [userData] is never changed. *)
Definition node_animated (mode : string) (d d' : NodeData) : Prop :=
  originalPosition d' = originalPosition d ∧ phase d' = phase d ∧ speed d' = speed d
  ∧ color d' = color d ∧ isNew d' = isNew d
  ∧ (mode = "orbit" →
       scale d' = scale d ∧ v_x (position d') = v_x (position d)
       ∧ v_z (position d') = v_z (position d)
       ∧ (Rabs (v_y (position d') - v_y (originalPosition d)) <= 1/10)%R)
  ∧ (mode = "pulse" → position d' = position d ∧ (7/10 <= scale d' <= 13/10)%R)
  ∧ (mode = "expand" →
       scale d' = scale d
       ∧ ∃ k, (1/2 <= k <= 3/2)%R ∧ position d' = multiplyScalar (originalPosition d) k)
  ∧ (mode ≠ "orbit" → mode ≠ "pulse" → mode ≠ "expand" → d' = d).

(** The rotation of an object *)
Definition rotation_of (a : App) (o : ref) : R * R := default (0, 0)%R (rotation a !! o).

(** [a'] differs from [a] at most in the node data and in the rotations
    and emissive intensities *)
Definition nodes_moved (a a' : App) : Prop :=
  state a' = set_meshes (λ _, meshes (state a')) (state a)
  ∧ a' = mkApp (state a') (currentMode a) (frameCount a) (bloomEnabled a) (pulsesEnabled a)
           (uiHidden a) (isRecording a) (recordedFrames a) (gifs a) (rotation a')
           (emissiveIntensity a') (line_opacity a).

(** What a frame does to the line [d] in the state [s]: its [userData]
    stays, a line to the core keeps its start and ends at its node, a
    line between two nodes starts at the first and ends at the second. *)
Definition line_follows (s : State) (d d' : Line) : Prop :=
  nodeIndex d' = nodeIndex d ∧ toCore d' = toCore d
  ∧ nodeIndex1 d' = nodeIndex1 d ∧ nodeIndex2 d' = nodeIndex2 d
  ∧ (toCore d = true →
       l_start d' = l_start d
       ∧ ∃ node, nodes_at s (nodeIndex d) = Some node ∧ l_end d' = node_position s node)
  ∧ (toCore d = false →
       ∃ node1 node2,
         nodes_at s (nodeIndex1 d) = Some node1 ∧ nodes_at s (nodeIndex2 d) = Some node2
         ∧ l_start d' = node_position s node1 ∧ l_end d' = node_position s node2).

(** [a'] differs from [a] at most in the line data and the line
    opacities *)
Definition lines_moved (a a' : App) : Prop :=
  state a' = set_lines (λ _, lines (state a')) (state a)
  ∧ a' = mkApp (state a') (currentMode a) (frameCount a) (bloomEnabled a) (pulsesEnabled a)
           (uiHidden a) (isRecording a) (recordedFrames a) (gifs a) (rotation a)
           (emissiveIntensity a) (line_opacity a').

(** The opacity that [animateConnections] gives the line at [index] *)
Definition pulse_opacity_at (t : R) (index : nat) : R :=
  (2/10 + sin (t * 2 + INR index * (1/10)) * (15/100))%R.

(** The switches and the recording *)
Definition controls (a : App) :=
  (currentMode a, pulsesEnabled a, bloomEnabled a, uiHidden a,
   (isRecording a, recordedFrames a, gifs a)).

(** The value of the visualization dropdown is not a name that
    [VIZ_PRESETS] only inherits. *)
Definition event_ok (e : Event) : Prop :=
  match e with
  | VizSelect value => ∀ name, VIZ_PRESETS value ≠ JInherited name
  | _ => True
  end.

(** * Properties *)

(** ** Arrays *)

Section js_array_facts.
Context {A : Type} `{EqDecision A}.
Implicit Types (l pre : list A) (x : A).

Lemma indexOf_from_absent x l i : x ∉ l → indexOf_from x l i = (-1)%Z.
Proof.
  revert i. induction l as [|y l IH]; intros i Hx; simpl; [done|].
  apply not_elem_of_cons in Hx as [Hne Hl].
  rewrite decide_False by congruence. by apply IH.
Qed.

Lemma indexOf_from_first x pre l i :
  x ∉ pre → indexOf_from x (pre ++ x :: l) i = (i + Z.of_nat (length pre))%Z.
Proof.
  revert i. induction pre as [|y pre IH]; intros i Hx; simpl.
  - rewrite decide_True by done. lia.
  - apply not_elem_of_cons in Hx as [Hne Hl].
    rewrite decide_False by congruence. rewrite IH by done. lia.
Qed.

Lemma indexOf_first x pre l : x ∉ pre → indexOf x (pre ++ x :: l) = Z.of_nat (length pre).
Proof. intros. unfold indexOf. by rewrite indexOf_from_first. Qed.

Lemma indexOf_absent x l : x ∉ l → indexOf x l = (-1)%Z.
Proof. apply indexOf_from_absent. Qed.

(** An element of the array splits it at its first occurrence. *)
Lemma elem_of_first_split x l : x ∈ l → ∃ pre post, l = pre ++ x :: post ∧ x ∉ pre.
Proof.
  induction l as [|y l IH]; intros Hx; [by apply elem_of_nil in Hx|].
  destruct (decide (y = x)) as [->|Hne].
  - exists [], l. split; [done|]. apply not_elem_of_nil.
  - apply elem_of_cons in Hx as [->|Hx]; [done|].
    destruct (IH Hx) as (pre & post & -> & Hpre).
    exists (y :: pre), post. split; [done|].
    apply not_elem_of_cons. split; [congruence|done].
Qed.

Lemma indexOf_present x l : x ∈ l → indexOf x l ≠ (-1)%Z.
Proof.
  intros (pre & post & -> & Hpre)%elem_of_first_split.
  rewrite indexOf_first by done. lia.
Qed.

Lemma splice1_at pre x l : splice1 (pre ++ x :: l) (Z.of_nat (length pre)) = pre ++ l.
Proof.
  unfold splice1. rewrite length_app. simpl.
  replace (Z.of_nat (length pre) <? 0)%Z with false by (symmetry; apply Z.ltb_ge; lia).
  rewrite Z.min_l by lia. rewrite Nat2Z.id.
  rewrite take_app_length.
  replace (S (length pre)) with (length (pre ++ [x])) by (rewrite length_app; simpl; lia).
  replace (pre ++ x :: l) with ((pre ++ [x]) ++ l) by (by rewrite <- app_assoc).
  by rewrite drop_app_length.
Qed.

Lemma remove_by_indexOf_first x pre l :
  x ∉ pre → remove_by_indexOf (pre ++ x :: l) x = pre ++ l.
Proof. intros. unfold remove_by_indexOf. rewrite indexOf_first by done. apply splice1_at. Qed.

(** Removing, one by one, the elements that a predicate selects leaves
    exactly the elements it rejects, in their order. *)
Lemma foldl_remove_selected (P : A → Prop) `{∀ x, Decision (P x)} pre l :
  Forall (λ x, ¬ P x) pre →
  foldl remove_by_indexOf (pre ++ l) (filter P l) = pre ++ filter (λ x, ¬ P x) l.
Proof.
  revert pre. induction l as [|y l IH]; intros pre Hpre; [done|].
  rewrite !filter_cons. destruct (decide (P y)) as [Hy|Hy].
  - rewrite decide_False by tauto. simpl.
    rewrite remove_by_indexOf_first; [by apply IH|].
    intros Hin. rewrite Forall_forall in Hpre. by apply (Hpre y).
  - rewrite decide_True by done.
    replace (pre ++ y :: l) with ((pre ++ [y]) ++ l) by (by rewrite <- app_assoc).
    rewrite IH; [by rewrite <- app_assoc|].
    apply Forall_app. split; [done|]. by apply Forall_singleton.
Qed.

Lemma foldl_remove_filter (P : A → Prop) `{∀ x, Decision (P x)} l :
  foldl remove_by_indexOf l (filter P l) = filter (λ x, ¬ P x) l.
Proof. apply (foldl_remove_selected P [] l). constructor. Qed.
End js_array_facts.

(** ** Typed arrays

    The rounding of a [Float32Array]: exact on the float32 values, in
    keeping with the order, and off by at most half the spacing. *)

Lemma Int_part_bounds z : (IZR (Int_part z) <= z < IZR (Int_part z) + 1)%R.
Proof. destruct (base_Int_part z). lra. Qed.

Lemma Int_part_unique z n : (IZR n <= z < IZR n + 1)%R → Int_part z = n.
Proof. intros H. symmetry. apply Int_part_spec. lra. Qed.

Lemma frac_part_eq z : frac_part z = (z - IZR (Int_part z))%R.
Proof. pose proof (Rplus_Int_part_frac_part z). lra. Qed.

Lemma Int_part_le z z' : (z <= z')%R → (Int_part z ≤ Int_part z')%Z.
Proof.
  intros H. pose proof (Int_part_bounds z). pose proof (Int_part_bounds z').
  apply Z.lt_succ_r. apply lt_IZR. rewrite succ_IZR. lra.
Qed.

Lemma round_half_even_error z : (Rabs (IZR (round_half_even z) - z) <= 1/2)%R.
Proof.
  unfold round_half_even. cbv zeta. rewrite frac_part_eq.
  pose proof (Int_part_bounds z).
  repeat case_decide; try destruct (Z.even _); rewrite ?plus_IZR;
    apply Rabs_le; lra.
Qed.

Lemma round_half_even_near z n :
  (IZR n - 1/2 < z < IZR n + 1/2)%R → round_half_even z = n.
Proof.
  intros H. unfold round_half_even. cbv zeta. rewrite frac_part_eq.
  pose proof (Int_part_bounds z) as Hb.
  destruct (decide (IZR n <= z)%R) as [Hn|Hn].
  - rewrite (Int_part_unique z n) by lra. rewrite decide_True by lra. done.
  - rewrite (Int_part_unique z (n - 1)) by (rewrite minus_IZR; lra).
    rewrite minus_IZR. rewrite decide_False by lra. rewrite decide_True by lra. lia.
Qed.

Lemma round_half_even_IZR n : round_half_even (IZR n) = n.
Proof. apply round_half_even_near. lra. Qed.

Lemma round_half_even_mono z z' :
  (z <= z')%R → (round_half_even z ≤ round_half_even z')%Z.
Proof.
  intros H. pose proof (Int_part_le z z' H) as Hn.
  pose proof (Int_part_bounds z) as Hb. pose proof (Int_part_bounds z') as Hb'.
  unfold round_half_even. cbv zeta. rewrite !frac_part_eq.
  destruct (decide (Int_part z = Int_part z')) as [E|E].
  - rewrite E in *. repeat case_decide; try destruct (Z.even _); first [lia|exfalso; lra].
  - repeat case_decide; repeat destruct (Z.even _); lia.
Qed.

Lemma round_half_even_opp z : round_half_even (- z) = (- round_half_even z)%Z.
Proof.
  pose proof (Int_part_bounds z) as Hb.
  unfold round_half_even. cbv zeta. rewrite !frac_part_eq.
  destruct (decide (z = IZR (Int_part z))) as [E|E].
  - rewrite (Int_part_unique (- z) (- Int_part z)) by (rewrite opp_IZR; lra).
    rewrite opp_IZR. rewrite !decide_True by lra. done.
  - rewrite (Int_part_unique (- z) (- Int_part z - 1))
      by (rewrite minus_IZR, opp_IZR; lra).
    rewrite minus_IZR, opp_IZR.
    destruct (decide (z - IZR (Int_part z) < 1/2)%R) as [H1|H1].
    + rewrite decide_False by lra. rewrite decide_True by lra. lia.
    + destruct (decide (1/2 < z - IZR (Int_part z))%R) as [H2|H2].
      * rewrite decide_True by lra. lia.
      * rewrite decide_False by lra. rewrite decide_False by lra.
        replace (- Int_part z - 1)%Z with (- (Int_part z + 1))%Z by lia.
        rewrite Z.even_opp, Z.even_add. simpl.
        destruct (Z.even (Int_part z)); simpl; lia.
Qed.

(** Powers of two *)
Lemma pow2_pos k : (0 < powerRZ 2 k)%R.
Proof. apply powerRZ_lt. lra. Qed.

Lemma pow2_exp k : powerRZ 2 k = exp (IZR k * ln 2).
Proof. rewrite powerRZ_Rpower by lra. done. Qed.

Lemma pow2_le k k' : (k ≤ k')%Z → (powerRZ 2 k <= powerRZ 2 k')%R.
Proof.
  intros H. rewrite !pow2_exp. pose proof ln_lt_2 as L.
  destruct (decide (k = k')) as [->|Hne]; [lra|].
  left. apply exp_increasing. apply Rmult_lt_compat_r; [lra|].
  apply IZR_lt. lia.
Qed.

Lemma pow2_lt k k' : (k < k')%Z → (powerRZ 2 k < powerRZ 2 k')%R.
Proof.
  intros H. rewrite !pow2_exp. pose proof ln_lt_2 as L.
  apply exp_increasing. apply Rmult_lt_compat_r; [lra|]. by apply IZR_lt.
Qed.

Lemma pow2_S k : powerRZ 2 (k + 1) = (2 * powerRZ 2 k)%R.
Proof. rewrite powerRZ_add by lra. simpl. lra. Qed.

Lemma pow2_split k j : powerRZ 2 k = (powerRZ 2 (k - j) * powerRZ 2 j)%R.
Proof. rewrite <- powerRZ_add by lra. f_equal. lia. Qed.

(** The exponent of a number *)
Lemma ilog2_bounds x :
  x ≠ 0%R →
  let n := Int_part (ln (Rabs x) / ln 2) in
  (powerRZ 2 n <= Rabs x < powerRZ 2 (n + 1))%R.
Proof.
  intros Hx n. pose proof ln_lt_2 as L.
  assert (Ha : (0 < Rabs x)%R) by (by apply Rabs_pos_lt).
  pose proof (Int_part_bounds (ln (Rabs x) / ln 2)) as Hb. fold n in Hb.
  assert (H1 : (IZR n * ln 2 <= ln (Rabs x))%R).
  { apply Rmult_le_reg_r with (/ ln 2)%R; [apply Rinv_0_lt_compat; lra|].
    rewrite Rmult_assoc, Rinv_r by lra. unfold Rdiv in Hb. lra. }
  assert (H2 : (ln (Rabs x) < IZR (n + 1) * ln 2)%R).
  { rewrite plus_IZR. apply Rmult_lt_reg_r with (/ ln 2)%R; [apply Rinv_0_lt_compat; lra|].
    rewrite Rmult_assoc, Rinv_r by lra. unfold Rdiv in Hb. lra. }
  rewrite !pow2_exp. pose proof (exp_ln (Rabs x) Ha) as Hex. split.
  - rewrite <- Hex.
    destruct H1 as [H1|H1]; [left; by apply exp_increasing|right; by rewrite H1].
  - rewrite <- Hex. by apply exp_increasing.
Qed.

Lemma ilog2_unique x k :
  (powerRZ 2 k <= Rabs x < powerRZ 2 (k + 1))%R → Int_part (ln (Rabs x) / ln 2) = k.
Proof.
  intros H. assert (Hx : x ≠ 0%R).
  { intros ->. rewrite Rabs_R0 in H. pose proof (pow2_pos k). lra. }
  pose proof (ilog2_bounds x Hx) as Hb. cbv zeta in Hb.
  set (n := Int_part (ln (Rabs x) / ln 2)) in *.
  destruct (Z.lt_trichotomy n k) as [Hlt|[Heq|Hgt]]; [|done|].
  - pose proof (pow2_le (n + 1) k ltac:(lia)). lra.
  - pose proof (pow2_le (k + 1) n ltac:(lia)). lra.
Qed.

Lemma exponent_normal x k :
  (-126 ≤ k)%Z → (powerRZ 2 k <= Rabs x < powerRZ 2 (k + 1))%R → exponent x = k.
Proof. intros Hk H. unfold exponent. rewrite (ilog2_unique x k H). lia. Qed.

Lemma exponent_bounds x :
  x ≠ 0%R →
  (-126 ≤ exponent x)%Z
  ∧ (Rabs x < powerRZ 2 (exponent x + 1))%R
  ∧ ((-126 < exponent x)%Z → (powerRZ 2 (exponent x) <= Rabs x)%R).
Proof.
  intros Hx. pose proof (ilog2_bounds x Hx) as Hb. cbv zeta in Hb.
  unfold exponent. set (n := Int_part (ln (Rabs x) / ln 2)) in *.
  split; [lia|]. split.
  - pose proof (pow2_le (n + 1) (Z.max n (-126) + 1) ltac:(lia)). lra.
  - intros Hn. replace (Z.max n (-126)) with n by lia. lra.
Qed.

Lemma exponent_opp x : exponent (- x) = exponent x.
Proof. unfold exponent. by rewrite Rabs_Ropp. Qed.

Lemma exponent_le x y :
  x ≠ 0%R → (Rabs x <= Rabs y)%R → (exponent x ≤ exponent y)%Z.
Proof.
  intros Hx Hxy.
  assert (Hy : y ≠ 0%R).
  { intros ->. rewrite Rabs_R0 in Hxy. pose proof (Rabs_pos_lt x Hx). lra. }
  destruct (exponent_bounds x Hx) as (X1 & X2 & X3).
  destruct (exponent_bounds y Hy) as (Y1 & Y2 & Y3).
  destruct (decide (exponent x ≤ exponent y)%Z) as [|Hgt]; [done|].
  assert (Hn : (-126 < exponent x)%Z) by lia. specialize (X3 Hn).
  pose proof (pow2_le (exponent y + 1) (exponent x) ltac:(lia)). lra.
Qed.

Lemma ulp_pos x : (0 < ulp x)%R.
Proof. apply pow2_pos. Qed.

Lemma ulp_opp x : ulp (- x) = ulp x.
Proof. unfold ulp. by rewrite exponent_opp. Qed.

(** The stored value *)
Lemma fround_0 : fround 0 = 0%R.
Proof. unfold fround. by rewrite decide_True. Qed.

Lemma fround_opp x : fround (- x) = (- fround x)%R.
Proof.
  unfold fround. destruct (decide (x = 0%R)) as [->|Hx].
  - rewrite Ropp_0. rewrite decide_True by done. lra.
  - rewrite decide_False by lra. rewrite ulp_opp.
    replace (- x / ulp x)%R with (- (x / ulp x))%R by (unfold Rdiv; lra).
    rewrite round_half_even_opp, opp_IZR. lra.
Qed.

(** A number that is a multiple of the spacing at its exponent is stored
    as it is. *)
Lemma fround_exact x k n :
  (-126 ≤ k)%Z → (powerRZ 2 k <= Rabs x < powerRZ 2 (k + 1))%R →
  x = (IZR n * powerRZ 2 (k - 23))%R → fround x = x.
Proof.
  intros Hk Hx Hn. unfold fround.
  assert (x ≠ 0%R).
  { intros ->. rewrite Rabs_R0 in Hx. pose proof (pow2_pos k). lra. }
  rewrite decide_False by done. unfold ulp. rewrite (exponent_normal x k Hk Hx).
  pose proof (pow2_pos (k - 23)).
  replace (x / powerRZ 2 (k - 23))%R with (IZR n) by (rewrite Hn; field; lra).
  rewrite round_half_even_IZR. lra.
Qed.

(** The stored value of a number with exponent [k] whose quotient by the
    spacing is nearer to [n] than to any other integer *)
Lemma fround_near x k n :
  (-126 ≤ k)%Z → (powerRZ 2 k <= Rabs x < powerRZ 2 (k + 1))%R →
  (IZR n - 1/2 < x / powerRZ 2 (k - 23) < IZR n + 1/2)%R →
  fround x = (IZR n * powerRZ 2 (k - 23))%R.
Proof.
  intros Hk Hx Hn. unfold fround.
  assert (x ≠ 0%R).
  { intros ->. rewrite Rabs_R0 in Hx. pose proof (pow2_pos k). lra. }
  rewrite decide_False by done. unfold ulp. rewrite (exponent_normal x k Hk Hx).
  by rewrite (round_half_even_near _ n).
Qed.

Lemma fround_pos_bounds x :
  (0 < x)%R →
  (0 <= fround x <= powerRZ 2 (exponent x + 1))%R
  ∧ ((-126 < exponent x)%Z → (powerRZ 2 (exponent x) <= fround x)%R).
Proof.
  intros Hx. assert (Hx0 : x ≠ 0%R) by lra.
  destruct (exponent_bounds x Hx0) as (E1 & E2 & E3).
  rewrite Rabs_pos_eq in E2, E3 by lra.
  unfold fround. rewrite decide_False by done. unfold ulp.
  set (e := exponent x) in *. set (u := powerRZ 2 (e - 23)).
  assert (Hu : (0 < u)%R) by apply pow2_pos.
  assert (H24 : powerRZ 2 (e + 1) = (IZR (2 ^ 24) * u)%R).
  { subst u. rewrite (pow2_split (e + 1) (e - 23)).
    replace (e + 1 - (e - 23))%Z with 24%Z by lia. simpl. lra. }
  assert (H23 : powerRZ 2 e = (IZR (2 ^ 23) * u)%R).
  { subst u. rewrite (pow2_split e (e - 23)).
    replace (e - (e - 23))%Z with 23%Z by lia. simpl. lra. }
  assert (Hz : (0 <= x / u)%R) by (apply Rmult_le_pos; [lra|left; by apply Rinv_0_lt_compat]).
  assert (Hz2 : (x / u <= IZR (2 ^ 24))%R).
  { apply Rmult_le_reg_r with u; [done|]. unfold Rdiv. rewrite Rmult_assoc, Rinv_l by lra. lra. }
  pose proof (round_half_even_mono 0 (x / u) Hz) as M0.
  change 0%R with (IZR 0) in M0. rewrite round_half_even_IZR in M0.
  pose proof (round_half_even_mono (x / u) (IZR (2 ^ 24)) Hz2) as M1.
  rewrite round_half_even_IZR in M1.
  apply IZR_le in M0, M1. split.
  - rewrite H24. split; [apply Rmult_le_pos; lra|]. apply Rmult_le_compat_r; lra.
  - intros Hn. specialize (E3 Hn). rewrite H23.
    assert (Hz3 : (IZR (2 ^ 23) <= x / u)%R).
    { apply Rmult_le_reg_r with u; [done|]. unfold Rdiv. rewrite Rmult_assoc, Rinv_l by lra. lra. }
    pose proof (round_half_even_mono _ _ Hz3) as M2. rewrite round_half_even_IZR in M2.
    apply IZR_le in M2. apply Rmult_le_compat_r; lra.
Qed.

Lemma fround_mono_pos x y : (0 < x)%R → (x <= y)%R → (fround x <= fround y)%R.
Proof.
  intros Hx Hxy. assert (Hy : (0 < y)%R) by lra.
  pose proof (exponent_le x y ltac:(lra)) as He.
  rewrite !Rabs_pos_eq in He by lra. specialize (He Hxy).
  destruct (decide (exponent x = exponent y)) as [E|E].
  - unfold fround. rewrite !decide_False by lra. unfold ulp. rewrite E.
    pose proof (pow2_pos (exponent y - 23)) as Hu.
    apply Rmult_le_compat_r; [lra|]. apply IZR_le. apply round_half_even_mono.
    apply Rmult_le_compat_r; [left; by apply Rinv_0_lt_compat|done].
  - destruct (fround_pos_bounds x Hx) as [[_ X2] _].
    destruct (fround_pos_bounds y Hy) as [_ Y2].
    destruct (exponent_bounds y ltac:(lra)) as (Y0 & _).
    destruct (exponent_bounds x ltac:(lra)) as (X0 & _).
    specialize (Y2 ltac:(lia)).
    pose proof (pow2_le (exponent x + 1) (exponent y) ltac:(lia)). lra.
Qed.

(** Rounding keeps the order. *)
Lemma fround_mono x y : (x <= y)%R → (fround x <= fround y)%R.
Proof.
  intros Hxy.
  destruct (Rtotal_order x 0) as [Hx|[->|Hx]]; destruct (Rtotal_order y 0) as [Hy|[->|Hy]];
    try lra; rewrite ?fround_0.
  - pose proof (fround_mono_pos (- y) (- x) ltac:(lra) ltac:(lra)) as H.
    rewrite !fround_opp in H. lra.
  - destruct (fround_pos_bounds (- x) ltac:(lra)) as [[H _] _]. rewrite fround_opp in H. lra.
  - destruct (fround_pos_bounds (- x) ltac:(lra)) as [[H _] _]. rewrite fround_opp in H.
    destruct (fround_pos_bounds y Hy) as [[H' _] _]. lra.
  - destruct (fround_pos_bounds y Hy) as [[H' _] _]. lra.
  - by apply fround_mono_pos.
Qed.

(** The rounding error is at most half the spacing: a 2^-24th of the
    number, or 2^-150 for the numbers below 2^-126. *)
Lemma fround_error x :
  (Rabs (fround x - x) <= Rabs x * powerRZ 2 (-24) + powerRZ 2 (-150))%R.
Proof.
  pose proof (pow2_pos (-24)) as P24. pose proof (pow2_pos (-150)) as P150.
  unfold fround. destruct (decide (x = 0%R)) as [->|Hx].
  { rewrite Rminus_0_r, Rabs_R0. lra. }
  destruct (exponent_bounds x Hx) as (E1 & E2 & E3).
  pose proof (ulp_pos x) as Hu. unfold ulp in *. set (e := exponent x) in *.
  set (u := powerRZ 2 (e - 23)) in *.
  pose proof (round_half_even_error (x / u)) as Hr.
  set (n := round_half_even (x / u)) in *.
  replace (IZR n * u - x)%R with ((IZR n - x / u) * u)%R by (field; lra).
  rewrite Rabs_mult, (Rabs_pos_eq u) by lra.
  assert (Hhalf : (Rabs (IZR n - x / u) * u <= u / 2)%R) by nra.
  pose proof (Rabs_pos x) as Hax.
  destruct (decide (e = -126)%Z) as [He|He].
  - assert (u / 2 = powerRZ 2 (-150))%R as Hu2.
    { subst u. rewrite He. change (-126 - 23)%Z with (-150 + 1)%Z. rewrite pow2_S. lra. }
    nra.
  - specialize (E3 ltac:(lia)).
    assert (u / 2 = powerRZ 2 e * powerRZ 2 (-24))%R as Hu2.
    { subst u. rewrite <- powerRZ_add by lra.
      replace (e - 23)%Z with (e + -24 + 1)%Z by lia. rewrite pow2_S. lra. }
    nra.
Qed.

(** The values of this program that are stored as they are, and the
    stored values of some that are not *)
Lemma fround_10 : fround 10 = 10%R.
Proof.
  apply (fround_exact 10 3 10485760); [lia| |].
  - rewrite Rabs_pos_eq by lra. simpl. lra.
  - simpl. lra.
Qed.

Lemma fround_15 : fround 15 = 15%R.
Proof.
  apply (fround_exact 15 3 15728640); [lia| |].
  - rewrite Rabs_pos_eq by lra. simpl. lra.
  - simpl. lra.
Qed.

Lemma fround_5 : fround 5 = 5%R.
Proof.
  apply (fround_exact 5 2 10485760); [lia| |].
  - rewrite Rabs_pos_eq by lra. simpl. lra.
  - simpl. lra.
Qed.

Lemma fround_m10 : fround (-10) = (-10)%R.
Proof.
  apply (fround_exact _ 3 (-10485760)); [lia| |].
  - rewrite Rabs_left by lra. simpl. lra.
  - simpl. lra.
Qed.

Lemma fround_m5 : fround (-5) = (-5)%R.
Proof.
  apply (fround_exact _ 2 (-10485760)); [lia| |].
  - rewrite Rabs_left by lra. simpl. lra.
  - simpl. lra.
Qed.

Lemma fround_between a b x :
  (a <= x <= b)%R → (fround a <= fround x <= fround b)%R.
Proof. intros [H1 H2]. split; by apply fround_mono. Qed.

(** A number within [-10, 10] is stored within [-10, 10], and a number
    less than 2^-21 away from 10 is stored as 10. *)
Lemma fround_spread x : (-10 <= x <= 10)%R → (-10 <= fround x <= 10)%R.
Proof.
  intros H. pose proof (fround_between (-10) 10 x H) as Hb.
  rewrite fround_m10, fround_10 in Hb. lra.
Qed.

Lemma fround_to_10 x : (10 - 1 / 2 ^ 22 <= x <= 10)%R → fround x = 10%R.
Proof.
  intros H. rewrite (fround_near x 3 10485760); [simpl; lra|lia| |].
  - rewrite Rabs_pos_eq by lra. simpl. lra.
  - simpl. lra.
Qed.

Lemma fround_height x : x = (- (321/32))%R → fround x = x.
Proof.
  intros ->. apply (fround_exact _ 3 (-10518528)); [lia| |].
  - rewrite Rabs_Ropp, Rabs_pos_eq by lra. simpl. lra.
  - simpl. lra.
Qed.

Lemma fround_2_100 : fround (2/100) = (5368709 / 2 ^ 28)%R.
Proof.
  rewrite (fround_near _ (-6) 10737418); [simpl; lra|lia| |].
  - rewrite Rabs_pos_eq by lra. simpl. lra.
  - simpl. lra.
Qed.

Lemma fround_5_100 : fround (5/100) = (13421773 / 2 ^ 28)%R.
Proof.
  rewrite (fround_near _ (-5) 13421773); [simpl; lra|lia| |].
  - rewrite Rabs_pos_eq by lra. simpl. lra.
  - simpl. lra.
Qed.

Lemma fround_1_100 : fround (1/100) = (5368709 / 2 ^ 29)%R.
Proof.
  rewrite (fround_near _ (-7) 10737418); [simpl; lra|lia| |].
  - rewrite Rabs_pos_eq by lra. simpl. lra.
  - simpl. lra.
Qed.

Lemma fround_zero x : x = 0%R → fround x = 0%R.
Proof. intros ->. apply fround_0. Qed.

Lemma fround_clamped_y x : x = (8 / 17 * (3/100))%R → fround x = (7579354 / 2 ^ 29)%R.
Proof.
  intros ->. rewrite (fround_near _ (-7) 15158708); [simpl; lra|lia| |].
  - rewrite Rabs_pos_eq by lra. simpl. lra.
  - simpl. lra.
Qed.

Lemma fround_clamped_z x : x = (15 / 17 * (3/100))%R → fround x = (14211289 / 2 ^ 29)%R.
Proof.
  intros ->. rewrite (fround_near _ (-6) 14211289); [simpl; lra|lia| |].
  - rewrite Rabs_pos_eq by lra. simpl. lra.
  - simpl. lra.
Qed.

(** The magnitude of a stored number *)
Lemma fround_abs x :
  (Rabs (fround x) <= Rabs x * (1 + powerRZ 2 (-24)) + powerRZ 2 (-150))%R.
Proof.
  pose proof (fround_error x) as He.
  pose proof (Rabs_triang (fround x - x) x) as Ht.
  replace (fround x - x + x)%R with (fround x) in Ht by lra. lra.
Qed.


(** ** Deleting a node *)

Lemma remove_connections_connections xs s :
  connections (foldl remove_connection s xs) = foldl remove_by_indexOf (connections s) xs.
Proof. revert s. induction xs as [|x xs IH]; intros s; simpl; [done|]. by rewrite IH. Qed.

Lemma remove_connections_nodes xs s : nodes (foldl remove_connection s xs) = nodes s.
Proof. revert s. induction xs as [|x xs IH]; intros s; simpl; [done|]. by rewrite IH. Qed.

Lemma remove_connections_lines xs s : lines (foldl remove_connection s xs) = lines s.
Proof. revert s. induction xs as [|x xs IH]; intros s; simpl; [done|]. by rewrite IH. Qed.

Lemma remove_connections_scene xs s :
  scene (foldl remove_connection s xs) = scene s ∖ list_to_set xs.
Proof.
  revert s. induction xs as [|x xs IH]; intros s; simpl.
  - set_solver.
  - rewrite IH. simpl. set_solver.
Qed.

Lemma shift_connections_connections idx xs s :
  connections (foldl (shift_connection idx) s xs) = connections s.
Proof. revert s. induction xs as [|x xs IH]; intros s; simpl; [done|]. by rewrite IH. Qed.

Lemma shift_connections_nodes idx xs s :
  nodes (foldl (shift_connection idx) s xs) = nodes s.
Proof. revert s. induction xs as [|x xs IH]; intros s; simpl; [done|]. by rewrite IH. Qed.

Lemma shift_connections_scene idx xs s :
  scene (foldl (shift_connection idx) s xs) = scene s.
Proof. revert s. induction xs as [|x xs IH]; intros s; simpl; [done|]. by rewrite IH. Qed.

Lemma shift_connections_other idx xs s c :
  c ∉ xs → lines (foldl (shift_connection idx) s xs) !! c = lines s !! c.
Proof.
  revert s. induction xs as [|x xs IH]; intros s Hc; simpl; [done|].
  apply not_elem_of_cons in Hc as [Hne Hc].
  rewrite IH by done. simpl. by rewrite lookup_insert_ne.
Qed.

(** Each line object of a duplicate-free array is shifted exactly once. *)
Lemma shift_connections_visited idx xs s c :
  NoDup xs → c ∈ xs →
  lines (foldl (shift_connection idx) s xs) !! c = Some (shift_indices idx (line_data s c)).
Proof.
  revert s. induction xs as [|x xs IH]; intros s Hnd Hc; [by apply elem_of_nil in Hc|].
  apply NoDup_cons in Hnd as [Hx Hnd]. simpl.
  apply elem_of_cons in Hc as [->|Hc].
  - rewrite shift_connections_other by done. simpl. by rewrite lookup_insert_eq.
  - rewrite IH by done. f_equal. f_equal. unfold line_data. simpl.
    rewrite lookup_insert_ne; [done|]. intros ->. done.
Qed.

(** What [deleteNode] leaves behind when the node is in the array *)
Lemma deleteNode_present node s pre post :
  nodes s = pre ++ node :: post → node ∉ pre →
  let idx := Z.of_nat (length pre) in
  let s' := deleteNode node s in
  nodes s' = pre ++ post
  ∧ connections s' = filter (λ c, ¬ incident idx (line_data s c) = true) (connections s)
  ∧ (NoDup (connections s) → ∀ c, c ∈ connections s' →
       line_data s' c = shift_indices idx (line_data s c))
  ∧ scene s' = scene s ∖ list_to_set
       (filter (λ c, incident idx (line_data s c) = true) (connections s)) ∖ {[node]}.
Proof.
  intros Hn Hpre idx s'. subst s'. unfold deleteNode.
  rewrite Hn, indexOf_first by done. fold idx.
  rewrite decide_False by (subst idx; lia).
  set (rm := filter _ (connections s)).
  set (s1 := foldl remove_connection s rm).
  assert (Hc1 : connections s1 = filter (λ c, ¬ incident idx (line_data s c) = true) (connections s)).
  { subst s1 rm. rewrite remove_connections_connections.
    apply (foldl_remove_filter (λ c, incident idx (line_data s c) = true)). }
  simpl. rewrite shift_connections_nodes, shift_connections_connections,
    shift_connections_scene. simpl.
  repeat split.
  - subst s1. rewrite remove_connections_nodes, Hn. subst idx. apply splice1_at.
  - done.
  - intros Hnd c Hc. unfold line_data at 1. simpl.
    rewrite shift_connections_visited; simpl.
    + f_equal. unfold line_data. simpl. subst s1. by rewrite remove_connections_lines.
    + rewrite Hc1. by apply NoDup_filter.
    + done.
  - subst s1. by rewrite remove_connections_scene.
Qed.

Lemma node_at_Some ns i n : node_at ns i = Some n → (0 ≤ i)%Z ∧ ns !! Z.to_nat i = Some n.
Proof. unfold node_at. case_decide; [done|]. discriminate. Qed.

(** Removing the element at [length pre] shifts the later ones down by one. *)
Lemma node_at_shift pre (node : ref) post i :
  i ≠ Z.of_nat (length pre) → is_Some (node_at (pre ++ node :: post) i) →
  node_at (pre ++ post) (if bool_decide (Z.of_nat (length pre) < i)%Z then Z.pred i else i)
  = node_at (pre ++ node :: post) i.
Proof.
  intros Hne [n Hn]. apply node_at_Some in Hn as [Hi Hn].
  unfold node_at. case_bool_decide as Hlt.
  - rewrite !decide_True by lia.
    rewrite !lookup_app_r by lia.
    replace (Z.to_nat i - length pre) with (S (Z.to_nat (Z.pred i) - length pre)) by lia.
    done.
  - rewrite !decide_True by lia.
    by rewrite !lookup_app_l by lia.
Qed.

Lemma same_node_shift pre (node : ref) post o :
  strict_eq o (Z.of_nat (length pre)) = false →
  (∀ i, o = Some i → is_Some (node_at (pre ++ node :: post) i)) →
  same_node (pre ++ node :: post) (pre ++ post) o (dec_if_gt o (Z.of_nat (length pre))).
Proof.
  intros Hne Hv. destruct o as [i|]; [|done].
  simpl in Hne. apply bool_decide_eq_false in Hne.
  specialize (Hv i eq_refl). unfold dec_if_gt, gt_opt.
  pose proof (node_at_shift pre node post i Hne Hv) as Hs.
  destruct (bool_decide (Z.of_nat (length pre) < i)%Z); simpl; rewrite Hs; done.
Qed.

(** C8: [deleteNode] called with an object that is not in [nodes] changes
    nothing: the arrays, the scene and every other part of the state are
    as before. *)
Theorem deleteNode_absent node s : node ∉ nodes s → deleteNode node s = s.
Proof.
  intros Hn. unfold deleteNode. rewrite indexOf_absent by done.
  by rewrite decide_True.
Qed.

Lemma deleteNode_absent_witness :
  (7 ∉ nodes sample_state) ∧ deleteNode 7 sample_state = sample_state.
Proof.
  assert (H : 7 ∉ nodes sample_state) by (simpl; set_solver).
  split; [exact H | exact (deleteNode_absent 7 sample_state H)].
Defined.

(** The lines that survive a deletion, and what their indices name *)
Lemma deleteNode_keeps node s :
  node ∈ nodes s → NoDup (nodes s) → NoDup (connections s) →
  (∀ c, c ∈ connections s → valid_indices (nodes s) (line_data s c)) →
  let s' := deleteNode node s in
  (node ∉ nodes s')
  ∧ (∀ c, c ∈ connections s' →
       c ∈ connections s
       ∧ Forall2 (same_node (nodes s) (nodes s'))
           (stored (line_data s c)) (stored (line_data s' c)))
  ∧ (∀ c, c ∈ connections s → touches (nodes s) (line_data s c) node →
       c ∉ connections s').
Proof.
  intros Hin Hnn Hnc Hvalid s'.
  destruct (elem_of_first_split _ _ Hin) as (pre & post & Hn & Hpre).
  destruct (deleteNode_present node s pre post Hn Hpre) as (Hn' & Hc' & Hd' & _).
  fold s' in Hn', Hc', Hd'. specialize (Hd' Hnc).
  rewrite Hn in Hnn. apply NoDup_app in Hnn as (_ & Hdisj & Hnd).
  apply NoDup_cons in Hnd as [Hpost _].
  split; [|split].
  - rewrite Hn'. intros [?|?]%elem_of_app; done.
  - intros c Hc. pose proof Hc as Hc0. rewrite Hc' in Hc0.
    apply list_elem_of_filter in Hc0 as [Hinc Hc0]. split; [done|].
    rewrite (Hd' c Hc), Hn, Hn'.
    apply not_true_is_false in Hinc. unfold incident in Hinc.
    apply orb_false_iff in Hinc as [Hinc H3]. apply orb_false_iff in Hinc as [H1 H2].
    specialize (Hvalid c Hc0). rewrite Hn in Hvalid. unfold valid_indices in Hvalid.
    unfold stored. simpl.
    assert (Hfield : ∀ o, o ∈ stored (line_data s c) →
              strict_eq o (Z.of_nat (length pre)) = false →
              same_node (pre ++ node :: post) (pre ++ post) o
                (dec_if_gt o (Z.of_nat (length pre)))).
    { intros o Ho Hne. apply same_node_shift; [done|]. intros i ->. by apply Hvalid. }
    unfold stored in Hfield.
    rewrite !Forall2_cons. repeat split; try (apply Hfield; [set_solver|done]).
    apply Forall2_nil_2.
  - intros c Hc (i & Hi & Hat) Hc1. rewrite Hc' in Hc1.
    apply list_elem_of_filter in Hc1 as [Hinc _]. apply Hinc.
    apply node_at_Some in Hat as [Hi0 Hat]. rewrite Hn in Hat.
    assert (Z.to_nat i = length pre) as Hidx.
    { destruct (lt_eq_lt_dec (Z.to_nat i) (length pre)) as [[Hlt|Heq]|Hgt]; [|done|].
      - rewrite lookup_app_l in Hat by done.
        exfalso. apply Hpre. by eapply list_elem_of_lookup_2.
      - rewrite lookup_app_r in Hat by lia.
        destruct (Z.to_nat i - length pre) as [|k] eqn:Hk; [lia|].
        simpl in Hat. exfalso. apply Hpost. by eapply list_elem_of_lookup_2. }
    assert (i = Z.of_nat (length pre)) as -> by lia.
    unfold incident, stored in *.
    apply elem_of_cons in Hi as [Hi|Hi]; [rewrite <- Hi; simpl; by rewrite bool_decide_true|].
    apply elem_of_cons in Hi as [Hi|Hi];
      [rewrite <- Hi; simpl; rewrite bool_decide_true by done; by rewrite orb_true_r|].
    apply list_elem_of_singleton in Hi. rewrite <- Hi. simpl.
    rewrite bool_decide_true by done. by rewrite !orb_true_r.
Qed.

Lemma sample_state_valid c :
  c ∈ connections sample_state → valid_indices (nodes sample_state) (line_data sample_state c).
Proof.
  simpl. intros Hc i Hi.
  assert (c = 3 ∨ c = 4 ∨ c = 5) as [-> | [-> | ->]] by set_solver;
    vm_compute in Hi; set_unfold in Hi;
    destruct Hi as [Hi|[Hi|[Hi|[]]]]; try discriminate;
    simplify_eq; vm_compute; eauto.
Qed.


(** ** Data pulses *)

Lemma filter_ext_elem {A} (P Q : A → Prop) `{∀ x, Decision (P x)} `{∀ x, Decision (Q x)}
    (l : list A) :
  (∀ x, x ∈ l → P x ↔ Q x) → filter P l = filter Q l.
Proof.
  induction l as [|x l IH]; intros HPQ; [done|].
  rewrite !filter_cons.
  assert (Hx : P x ↔ Q x) by (apply HPQ; left).
  rewrite IH by (intros y Hy; apply HPQ; by right).
  destruct (decide (P x)), (decide (Q x)); tauto.
Qed.

(** One step of the [forEach]: only the visited pulse object changes, its
    progress grows by its speed, and it is queued for removal exactly when
    that reaches 1. *)
Lemma advance_pulse_step rm s x :
  let r := advance_pulse (rm, s) x in
  r.1 = rm ++ (if decide (completes s x) then [x] else [])
  ∧ dataPulses r.2 = dataPulses s
  ∧ scene r.2 = scene s
  ∧ (∀ p, p ≠ x → pulses r.2 !! p = pulses s !! p)
  ∧ (∀ d, pulses s !! x = Some d →
       ∃ d', pulses r.2 !! x = Some d' ∧ progress d' = (progress d + pulse_speed d)%R).
Proof.
  unfold advance_pulse.
  destruct (decide (completes s x)) as [Hc|Hc]; unfold completes in Hc;
    destruct (pulses s !! x) as [d|] eqn:Hd; simpl; try done.
  - rewrite decide_True by done. simpl.
    repeat split; [by intros p Hp; rewrite lookup_insert_ne|].
    intros d0 [= <-]. rewrite lookup_insert_eq. eauto.
  - rewrite decide_False by done. simpl. rewrite app_nil_r.
    repeat split; [by intros p Hp; rewrite lookup_insert_ne|].
    intros d0 [= <-]. rewrite lookup_insert_eq. eauto.
  - rewrite app_nil_r. repeat split. intros d. by rewrite Hd.
Qed.

Lemma advance_pulses_spec xs rm s :
  NoDup xs →
  let r := foldl advance_pulse (rm, s) xs in
  r.1 = rm ++ filter (completes s) xs
  ∧ dataPulses r.2 = dataPulses s
  ∧ scene r.2 = scene s
  ∧ (∀ p, p ∉ xs → pulses r.2 !! p = pulses s !! p)
  ∧ (∀ p d, p ∈ xs → pulses s !! p = Some d →
       ∃ d', pulses r.2 !! p = Some d' ∧ progress d' = (progress d + pulse_speed d)%R).
Proof.
  revert rm s. induction xs as [|x xs IH]; intros rm s Hnd; cbv zeta; cbn [foldl].
  - simpl. rewrite app_nil_r. repeat split. intros p d Hp. by apply elem_of_nil in Hp.
  - apply NoDup_cons in Hnd as [Hx Hnd].
    pose proof (advance_pulse_step rm s x) as Hstep. cbv zeta in Hstep.
    destruct Hstep as (Hrm & Hdp & Hsc & Hother & Hself).
    destruct (advance_pulse (rm, s) x) as [rm1 s1]. simpl in *.
    pose proof (IH rm1 s1 Hnd) as IH1. cbv zeta in IH1.
    destruct IH1 as (IHrm & IHdp & IHsc & IHother & IHin).
    assert (Hsame : filter (completes s1) xs = filter (completes s) xs).
    { apply filter_ext_elem. intros p Hp. unfold completes.
      rewrite Hother; [done|]. intros ->. done. }
    repeat split.
    + rewrite IHrm, Hrm, Hsame, filter_cons, <- app_assoc.
      by destruct (decide (completes s x)).
    + congruence.
    + congruence.
    + intros p [Hne Hp]%not_elem_of_cons. rewrite IHother by done. by apply Hother.
    + intros p d [->|Hp]%elem_of_cons Hd.
      * rewrite IHother by done. by apply Hself.
      * apply IHin; [done|]. rewrite Hother; [done|]. intros ->. done.
Qed.

Lemma remove_pulses_dataPulses xs s :
  dataPulses (foldl remove_pulse s xs) = foldl remove_by_indexOf (dataPulses s) xs.
Proof. revert s. induction xs as [|x xs IH]; intros s; simpl; [done|]. by rewrite IH. Qed.

Lemma remove_pulses_pulses xs s : pulses (foldl remove_pulse s xs) = pulses s.
Proof. revert s. induction xs as [|x xs IH]; intros s; simpl; [done|]. by rewrite IH. Qed.

Lemma remove_pulses_scene xs s : scene (foldl remove_pulse s xs) = scene s ∖ list_to_set xs.
Proof.
  revert s. induction xs as [|x xs IH]; intros s; simpl.
  - set_solver.
  - rewrite IH. simpl. set_solver.
Qed.

(** The arrays and the pulse objects after a call *)
Lemma animateDataPulses_spec s :
  NoDup (dataPulses s) →
  let s' := animateDataPulses s in
  dataPulses s' = filter (λ p, ¬ completes s p) (dataPulses s)
  ∧ scene s' = scene s ∖ list_to_set (filter (completes s) (dataPulses s))
  ∧ (∀ p d, p ∈ dataPulses s → pulses s !! p = Some d →
       ∃ d', pulses s' !! p = Some d' ∧ progress d' = (progress d + pulse_speed d)%R).
Proof.
  intros Hnd. cbv zeta. unfold animateDataPulses.
  pose proof (advance_pulses_spec (dataPulses s) [] s Hnd) as Hloop. cbv zeta in Hloop.
  destruct Hloop as (Hrm & Hdp & Hsc & _ & Hin).
  destruct (foldl advance_pulse ([], s) (dataPulses s)) as [rm s1]. simpl in *.
  subst rm. repeat split.
  - rewrite remove_pulses_dataPulses, Hdp. apply foldl_remove_filter.
  - by rewrite remove_pulses_scene, Hsc.
  - intros p d Hp Hd. rewrite remove_pulses_pulses. by apply Hin.
Qed.


(** ** The canvas click handler *)

Lemma add_line_nodes d s : nodes (add_line d s) = nodes s.
Proof. done. Qed.

Lemma add_line_scene d s o : o ∈ scene s → o ∈ scene (add_line d s).
Proof. unfold add_line. simpl. set_solver. Qed.

Lemma add_line_connections d s : connections (add_line d s) = connections s ++ [next_ref s].
Proof. done. Qed.

Lemma connect_new_nodes n s i : nodes (connect_new n s i) = nodes s.
Proof.
  unfold connect_new. destruct (nodes s !! i); [|done].
  by destruct (lt_opt _ _).
Qed.

Lemma connect_new_scene n s i o : o ∈ scene s → o ∈ scene (connect_new n s i).
Proof.
  unfold connect_new. destruct (nodes s !! i); [|done].
  destruct (lt_opt _ _); [apply add_line_scene|done].
Qed.

Lemma connect_new_connections n s i :
  connections s `prefix_of` connections (connect_new n s i).
Proof.
  unfold connect_new. destruct (nodes s !! i); [|done].
  destruct (lt_opt _ _); [|done]. rewrite add_line_connections. by apply prefix_app_r.
Qed.

Lemma connect_new_meshes n s i : meshes (connect_new n s i) = meshes s.
Proof.
  unfold connect_new. destruct (nodes s !! i); [|done].
  by destruct (lt_opt _ _).
Qed.

Lemma foldl_connect_new n xs s :
  let s' := foldl (connect_new n) s xs in
  nodes s' = nodes s ∧ meshes s' = meshes s
  ∧ scene s ⊆ scene s' ∧ connections s `prefix_of` connections s'.
Proof.
  revert s. induction xs as [|i xs IH]; intros s; cbv zeta; cbn [foldl]; [done|].
  specialize (IH (connect_new n s i)). cbv zeta in IH. destruct IH as (Hn & Hm & Hs & Hc).
  rewrite Hn, Hm, connect_new_nodes, connect_new_meshes. repeat split.
  - intros o Ho. apply Hs. by apply connect_new_scene.
  - etrans; [apply connect_new_connections|done].
Qed.

Section click.
Variable random : nat → R.

(** A click in add-node mode always adds a node: whatever the ray, the
    handler returns with a fresh node object appended to [nodes] and
    present in the scene. *)
Lemma addNode_adds pos s :
  is_Some (lookup_colors (VIZ_PRESETS (currentViz s))) →
  ∃ s', addNode random pos s = Returned s'
        ∧ nodes s' = nodes s ++ [next_ref s]
        ∧ next_ref s ∈ scene s'
        ∧ connections s `prefix_of` connections s'
        ∧ (position <$> meshes s' !! next_ref s) = Some pos.
Proof.
  intros [colors Hcol]. unfold addNode. rewrite Hcol. simpl.
  unfold connectNewNode. simpl. rewrite Hcol. simpl.
  eexists. split; [done|]. simpl.
  match goal with |- context [foldl ?f ?s0 ?xs] =>
    pose proof (foldl_connect_new (next_ref s) xs s0) as H end.
  cbv zeta in H. destruct H as (Hn & Hm & Hs & Hc). simpl in *.
  rewrite Hn, Hm. repeat split; [set_solver|done|].
  by rewrite lookup_insert_eq.
Qed.

Lemma Math_atan2_origin : Math_atan2 0 0 = 0%R.
Proof. unfold Math_atan2. repeat (rewrite decide_False by lra). done. Qed.

(** When the ray misses the plane, [intersectPoint] is still the fresh
    vector (0, 0, 0), the test on it succeeds, and a node is placed at
    (2.5, 0, z). *)
Lemma onCanvasClick_miss ray s :
  addingNode s = true →
  distanceToPlane ray (mkPlane (mkVector3 0 0 1) 0) = None →
  is_Some (lookup_colors (VIZ_PRESETS (currentViz s))) →
  ∃ s', onCanvasClick random ray s = Returned s'
        ∧ nodes s' = nodes s ++ [next_ref s]
        ∧ next_ref s ∈ scene s'
        ∧ (position <$> meshes s' !! next_ref s)
          = Some (mkVector3 (25/10) 0 ((random (rng s) - 5/10) * 4)).
Proof.
  intros Hadd Hmiss Hcol. unfold onCanvasClick, intersectPlane.
  rewrite Hadd, Hmiss. simpl.
  assert (Hclamp : Rmax (-10) (Rmin 10 0) = 0%R).
  { rewrite Rmin_right by lra. rewrite Rmax_right by lra. done. }
  rewrite Hclamp.
  replace (0 * (0 * 1) + 0 * (0 * 1))%R with 0%R by lra.
  rewrite sqrt_0. rewrite decide_True by lra.
  rewrite Math_atan2_origin, cos_0, sin_0.
  replace (1 * (25 / 10))%R with (25/10)%R by lra.
  replace (0 * (25 / 10))%R with 0%R by lra.
  match goal with |- context [addNode random ?pos ?s0] =>
    destruct (addNode_adds pos s0) as (s' & Hret & Hn & Hsc & _ & Hpos); [done|] end.
  exists s'. simpl in *. done.
Qed.
End click.

Lemma miss_ray_misses : distanceToPlane miss_ray (mkPlane (mkVector3 0 0 1) 0) = None.
Proof.
  unfold distanceToPlane, miss_ray, dot. simpl.
  rewrite decide_False by lra.
  rewrite decide_False; [done|].
  replace (0 * (-8 / 10) + 0 * 0 + 1 * (6 / 10))%R with (6/10)%R by lra. lra.
Qed.

(** C1, on the code: with add-node mode on and a ray that does not meet
    the plane z = 0, the click handler does not return without effect; it
    appends a new node object to [nodes] and adds it to the scene. *)
Theorem onCanvasClick_missed_ray_adds_node (random : nat → R) :
  addingNode sample_state = true
  ∧ distanceToPlane miss_ray (mkPlane (mkVector3 0 0 1) 0) = None
  ∧ ∃ s', onCanvasClick random miss_ray sample_state = Returned s'
          ∧ nodes s' = [0; 1; 2; 6]
          ∧ 6 ∈ scene s'
          ∧ (position <$> meshes s' !! 6)
            = Some (mkVector3 (25/10) 0 ((random 0 - 5/10) * 4)).
Proof.
  split; [done|]. split; [apply miss_ray_misses|].
  apply (onCanvasClick_miss random miss_ray sample_state);
    [done | apply miss_ray_misses | by eexists].
Qed.

(** ** Switching the visualization *)

(** A key that neither [VIZ_PRESETS] nor [Object.prototype] defines reads
    as [undefined], and the call returns at its guard. *)
Lemma switchVisualization_undefined (random : nat → R) vizKey s :
  VIZ_PRESETS vizKey = JUndefined → switchVisualization random vizKey s = Returned s.
Proof. intros Hk. unfold switchVisualization. by rewrite Hk. Qed.

Lemma VIZ_PRESETS_undefined vizKey :
  vizKey ∉ VIZ_PRESETS_keys → vizKey ∉ Object_prototype_keys →
  VIZ_PRESETS vizKey = JUndefined.
Proof.
  intros Hk Hp. unfold VIZ_PRESETS, VIZ_PRESETS_keys in *.
  repeat (rewrite decide_False; [|set_solver]). done.
Qed.

(** C9, on the code: ["constructor"] is not one of the five preset keys,
    yet [VIZ_PRESETS["constructor"]] is the inherited [Object] function,
    which passes the guard; the call overwrites [currentViz],
    [CONFIG.nodeCount] and [CONFIG.connectionDistance] and then throws. *)
Theorem switchVisualization_inherited_key (random : nat → R) :
  ("constructor" ∉ VIZ_PRESETS_keys)
  ∧ ∃ s', switchVisualization random "constructor" sample_state = Threw s'
          ∧ currentViz sample_state = "neural"
          ∧ currentViz s' = "constructor"
          ∧ nodeCount (CONFIG sample_state) = Some 80
          ∧ nodeCount (CONFIG s') = None
          ∧ connectionDistance (CONFIG s') = None.
Proof.
  split.
  - unfold VIZ_PRESETS_keys. set_solver.
  - eexists. split; [reflexivity|]. done.
Qed.

(** ** Particle buffers *)

Lemma stride3_triples N : stride3 (3 * N) = (λ k, 3 * k) <$> seq 0 N.
Proof.
  unfold stride3. f_equal. f_equal.
  replace (3 * N + 2) with (2 + N * 3) by lia.
  rewrite Nat.div_add by lia. done.
Qed.

(** A loop over a buffer of [N] particles establishes what each of its
    iterations maintains. *)
Lemma stride3_ind {S : Type} (body : S → nat → S) (Inv : nat → S → Prop) N s0 :
  Inv 0 s0 →
  (∀ m s, m < N → Inv m s → Inv (Datatypes.S m) (body s (3 * m))) →
  Inv N (foldl body s0 (stride3 (3 * N))).
Proof.
  intros H0 Hstep. rewrite stride3_triples.
  assert (Hgen : ∀ m, m ≤ N → Inv m (foldl body s0 ((λ k, 3 * k) <$> seq 0 m))).
  { induction m as [|m IH]; intros Hm; [done|].
    rewrite seq_S, fmap_app, foldl_app. simpl. apply Hstep; [lia|]. apply IH. lia. }
  by apply Hgen.
Qed.

Ltac buf :=
  repeat first
    [ rewrite list_lookup_total_insert_eq by (rewrite ?length_insert; lia)
    | rewrite list_lookup_total_insert_ne by lia ].

#[local] Arguments Nat.mul : simpl never.
#[local] Arguments matrix_particle : simpl never.
#[local] Arguments storm_particle : simpl never.
#[local] Arguments gravity_particle : simpl never.

Section particles.
Variable random : nat → R.
Hypothesis random_range : ∀ n, (0 <= random n < 1)%R.

Lemma random_spread n : (-10 <= (random n - 5/10) * 20 <= 10)%R.
Proof. pose proof (random_range n). lra. Qed.

(** *** Matrix rain *)

Lemma resets_before_S P V k :
  resets_before P V (S k)
  = resets_before P V k + (if decide (fallen P V k < -10)%R then 1 else 0).
Proof.
  unfold resets_before. rewrite seq_S, filter_app, length_app. f_equal.
  rewrite filter_cons, filter_nil. simpl. by case_decide.
Qed.

Lemma matrix_particle_spec V P n m :
  3 * m + 2 < length P →
  let r := matrix_particle random V (P, n) (3 * m) in
  let y := fallen P V m in
  length r.1 = length P
  ∧ (∀ idx, idx < 3 * m ∨ 3 * m + 3 ≤ idx → r.1 !!! idx = P !!! idx)
  ∧ ((y < -10)%R →
       r.2 = S (S n) ∧ r.1 !!! (3 * m + 1) = 15%R
       ∧ r.1 !!! (3 * m) = fround ((random n - 5/10) * 20)
       ∧ r.1 !!! (3 * m + 2) = fround ((random (S n) - 5/10) * 20))
  ∧ (¬ (y < -10)%R →
       r.2 = n ∧ r.1 !!! (3 * m + 1) = y
       ∧ r.1 !!! (3 * m) = P !!! (3 * m) ∧ r.1 !!! (3 * m + 2) = P !!! (3 * m + 2)).
Proof.
  intros Hlen r y. subst r. unfold matrix_particle.
  set (v := match V with Some V0 => V0 !!! (3 * m + 1) | None => (- (3/100))%R end).
  assert (Hy : fround (P !!! (3 * m + 1)%nat + v) = y).
  { subst y v. unfold fallen, fall_speed. f_equal. destruct V; lra. }
  rewrite list_lookup_total_insert_eq by lia. rewrite Hy, fround_15.
  destruct (decide (y < -10)%R) as [Hlt|Hge]; simpl;
    rewrite !length_insert; (split; [done|]);
    (split; [intros idx Hidx; by buf|]); (split; [intros ?|intros ?]); try done;
    repeat split; by buf.
Qed.

Lemma matrix_frame_spec P V n N :
  length P = 3 * N →
  let r := matrix_frame random P V n in
  length r.1 = length P ∧ r.2 = n + 2 * resets_before P V N
  ∧ ∀ k, k < N → rain_drop_ok random n P V r.1 k.
Proof.
  intros Hlen r. subst r. unfold matrix_frame. rewrite Hlen.
  pose (Inv := λ (m : nat) (st : list R * nat),
    length st.1 = 3 * N ∧ st.2 = n + 2 * resets_before P V m
    ∧ (∀ idx, 3 * m ≤ idx → st.1 !!! idx = P !!! idx)
    ∧ ∀ k, k < m → rain_drop_ok random n P V st.1 k).
  cut (Inv N (foldl (matrix_particle random V) (P, n) (stride3 (3 * N)))).
  { intros (H1 & H2 & _ & H4). done. }
  apply stride3_ind.
  - repeat split; simpl; try done; try lia.
  - intros m [P1 n1] Hm (HL & Hn & Hrest & Hdone). simpl in *.
    pose proof (matrix_particle_spec V P1 n1 m ltac:(lia)) as Hs. cbv zeta in Hs.
    destruct Hs as (HL' & Hframe & Hlt & Hge).
    assert (Hy : fallen P1 V m = fallen P V m).
    { unfold fallen. by rewrite (Hrest (3 * m + 1)) by lia. }
    rewrite Hy in Hlt, Hge.
    rewrite (Hrest (3 * m)), (Hrest (3 * m + 2)) in Hge by lia.
    split; [lia|]. split.
    { rewrite resets_before_S. case_decide as Hd.
      - destruct (Hlt Hd) as [-> _]. lia.
      - destruct (Hge Hd) as [-> _]. lia. }
    split.
    + intros idx Hidx. rewrite Hframe by lia. apply Hrest. lia.
    + intros k Hk. unfold rain_drop_ok. cbv zeta.
      destruct (decide (k = m)) as [->|Hne].
      * rewrite <- Hn. split; [intros Hd; by destruct (Hlt Hd) as (? & ? & ? & ?)|].
        intros Hd. by destruct (Hge Hd) as (? & ? & ? & ?).
      * destruct (Hdone k ltac:(lia)) as [Hk1 Hk2].
        rewrite !Hframe by lia. done.
Qed.

(** C5: a frame of the matrix rain stores every particle at the height
    it has after falling by its fall speed (0.03 without a velocity
    buffer), rounded to float32; a particle that is then below -10
    instead gets y = 15 and x and z drawn with the next two calls of
    [Math.random] and stored in [-10, 10], both ends included; the x
    and z of the other particles stay as they were. Every reset, and
    nothing else, advances the random sequence, by two. *)
Theorem animateParticles_matrix s ps N :
  particleSystem s = Some ps → currentViz s = "matrix" →
  length (positions ps) = 3 * N →
  ∃ s' ps',
    animateParticles random s = Returned s' ∧ particleSystem s' = Some ps'
    ∧ length (positions ps') = 3 * N
    ∧ rng s' = rng s + 2 * resets_before (positions ps) (velocities ps) N
    ∧ ∀ k, k < N →
        rain_drop_ok random (rng s) (positions ps) (velocities ps) (positions ps') k
        ∧ ((fallen (positions ps) (velocities ps) k < -10)%R →
             (-10 <= positions ps' !!! (3 * k)%nat <= 10)%R
             ∧ (-10 <= positions ps' !!! (3 * k + 2)%nat <= 10)%R).
Proof.
  intros Hps Hviz Hlen. unfold animateParticles. rewrite Hps, Hviz.
  rewrite decide_True by done.
  pose proof (matrix_frame_spec (positions ps) (velocities ps) (rng s) N Hlen) as Hf.
  cbv zeta in Hf. destruct Hf as (HL & Hrng & Hdrops).
  destruct (matrix_frame random (positions ps) (velocities ps) (rng s)) as [P' n'].
  simpl in *. eexists _, _. split; [done|]. simpl. split; [done|]. simpl.
  split; [lia|]. split; [done|]. intros k Hk. split; [by apply Hdrops|].
  intros Hy. destruct (Hdrops k Hk) as [Hlt _].
  destruct (Hlt Hy) as (_ & -> & ->). split; apply fround_spread, random_spread.
Qed.

(** *** Storm *)


Lemma storm_particle_spec P V n m :
  3 * m + 2 < length P → 3 * m + 2 < length V →
  let r := storm_particle random (P, V, n) (3 * m) in
  length r.1.1 = length P ∧ length r.1.2 = length V ∧ r.2 = n + 3
  ∧ (∀ idx, idx < 3 * m ∨ 3 * m + 3 ≤ idx →
       r.1.1 !!! idx = P !!! idx ∧ r.1.2 !!! idx = V !!! idx)
  ∧ storm_ok random n P V r.1.1 r.1.2 m.
Proof.
  intros HP HV r. subst r. unfold storm_particle, storm_ok. cbv zeta. buf.
  replace (n + 0) with n by lia.
  destruct (decide (15 < sqrt _)%R) as [Hb|Hb]; cbn [fst snd];
    rewrite !length_insert; (split; [done|]); (split; [done|]); (split; [done|]);
    (split; [intros idx Hidx; by buf|]); buf; repeat split; reflexivity.
Qed.

Lemma storm_frame_spec P V n N :
  length P = 3 * N → length V = 3 * N →
  let r := storm_frame random P V n in
  length r.1.1 = 3 * N ∧ length r.1.2 = 3 * N
  ∧ ∀ k, k < N → storm_ok random (n + 3 * k) P V r.1.1 r.1.2 k.
Proof.
  intros HP HV r. subst r. unfold storm_frame. rewrite HP.
  pose (Inv := λ (m : nat) (st : list R * list R * nat),
    length st.1.1 = 3 * N ∧ length st.1.2 = 3 * N ∧ st.2 = n + 3 * m
    ∧ (∀ idx, 3 * m ≤ idx → st.1.1 !!! idx = P !!! idx ∧ st.1.2 !!! idx = V !!! idx)
    ∧ ∀ k, k < m → storm_ok random (n + 3 * k) P V st.1.1 st.1.2 k).
  cut (Inv N (foldl (storm_particle random) (P, V, n) (stride3 (3 * N)))).
  { intros (H1 & H2 & _ & _ & H4). done. }
  apply stride3_ind.
  - repeat split; cbn [fst snd]; try done; try lia.
  - intros m [[P1 V1] n1] Hm (HL & HL2 & Hn & Hrest & Hdone). cbn [fst snd] in *.
    pose proof (storm_particle_spec P1 V1 n1 m ltac:(lia) ltac:(lia)) as Hs.
    cbv zeta in Hs. destruct Hs as (HL' & HL2' & Hn' & Hframe & Hnew).
    split; [lia|]. split; [lia|]. split; [lia|]. split.
    + intros idx Hidx. destruct (Hframe idx ltac:(lia)) as [-> ->]. apply Hrest. lia.
    + intros k Hk. destruct (decide (k = m)) as [->|Hne].
      * unfold storm_ok in *. cbv zeta in *.
        destruct (Hrest (3 * m) ltac:(lia)) as [E0 F0].
        destruct (Hrest (3 * m + 1) ltac:(lia)) as [E1 F1].
        destruct (Hrest (3 * m + 2) ltac:(lia)) as [E2 F2].
        subst n1. rewrite E0, E1, E2, F0, F1, F2 in Hnew. exact Hnew.
      * pose proof (Hdone k ltac:(lia)) as Hk1. unfold storm_ok in *. cbv zeta in *.
        destruct (Hframe (3 * k) ltac:(lia)) as [-> ->].
        destruct (Hframe (3 * k + 1) ltac:(lia)) as [-> ->].
        destruct (Hframe (3 * k + 2) ltac:(lia)) as [-> ->].
        done.
Qed.

End particles.

(** ** Mouse gravity *)

Lemma gravity_particle_spec mw P m :
  3 * m + 2 < length P →
  let P' := gravity_particle mw P (3 * m) in
  length P' = length P
  ∧ (∀ idx, idx < 3 * m ∨ 3 * m + 3 ≤ idx → P' !!! idx = P !!! idx)
  ∧ gravity_ok mw P P' m.
Proof.
  intros HP P'. subst P'. unfold gravity_particle, gravity_ok. cbv zeta.
  set (d := sqrt _).
  unfold mouseGravityStrength.
  replace (5 / 10 * (1 / 100))%R with (5/1000)%R by lra.
  destruct (decide (d < 5 ∧ 1/10 < d)%R) as [Hd|Hd].
  - rewrite !length_insert. split; [done|]. split; [intros idx Hidx; by buf|].
    split; [intros _; buf; repeat split; reflexivity|]. intros Hout. lra.
  - split; [done|]. split; [done|]. split; [|done]. intros Hin. lra.
Qed.

Lemma gravity_frame_spec mw P N :
  length P = 3 * N →
  let P' := gravity_frame mw P in
  length P' = 3 * N ∧ ∀ k, k < N → gravity_ok mw P P' k.
Proof.
  intros HP P'. subst P'. unfold gravity_frame. rewrite HP.
  pose (Inv := λ (m : nat) (P1 : list R),
    length P1 = 3 * N
    ∧ (∀ idx, 3 * m ≤ idx → P1 !!! idx = P !!! idx)
    ∧ ∀ k, k < m → gravity_ok mw P P1 k).
  cut (Inv N (foldl (gravity_particle mw) P (stride3 (3 * N)))).
  { intros (H1 & _ & H3). done. }
  apply stride3_ind.
  - repeat split; try done; lia.
  - intros m P1 Hm (HL & Hrest & Hdone).
    pose proof (gravity_particle_spec mw P1 m ltac:(lia)) as Hs.
    cbv zeta in Hs. destruct Hs as (HL' & Hframe & Hnew).
    split; [lia|]. split.
    + intros idx Hidx. rewrite Hframe by lia. apply Hrest. lia.
    + intros k Hk. destruct (decide (k = m)) as [->|Hne].
      * unfold gravity_ok in *. cbv zeta in *.
        rewrite (Hrest (3 * m)), (Hrest (3 * m + 1)), (Hrest (3 * m + 2)) in Hnew by lia.
        exact Hnew.
      * pose proof (Hdone k ltac:(lia)) as Hk1. unfold gravity_ok in *. cbv zeta in *.
        rewrite (Hframe (3 * k)), (Hframe (3 * k + 1)), (Hframe (3 * k + 2)) by lia.
        exact Hk1.
Qed.


(** ** The swarm *)

Lemma Vector3_eq a b : v_x a = v_x b → v_y a = v_y b → v_z a = v_z b → a = b.
Proof. destruct a, b. simpl. by intros -> -> ->. Qed.

Lemma Flock_eq a b :
  sep a = sep b → sepCount a = sepCount b → align a = align b →
  alignCount a = alignCount b → coh a = coh b → cohCount a = cohCount b → a = b.
Proof. destruct a, b. simpl. by intros -> -> -> -> -> ->. Qed.

Lemma v_add_0_r a : v_add a Vector3_new = a.
Proof. apply Vector3_eq; simpl; lra. Qed.

Lemma v_add_0_l a : v_add Vector3_new a = a.
Proof. apply Vector3_eq; simpl; lra. Qed.

Lemma v_add_assoc a b c : v_add (v_add a b) c = v_add a (v_add b c).
Proof. apply Vector3_eq; simpl; lra. Qed.

Lemma flock_add_assoc a b c : flock_add (flock_add a b) c = flock_add a (flock_add b c).
Proof. apply Flock_eq; simpl; rewrite ?v_add_assoc; try done; lia. Qed.

Lemma flock_over_nil P V i : flock_over P V i [] = Flock0.
Proof. done. Qed.

Lemma flock_add_0_r a : flock_add a Flock0 = a.
Proof. apply Flock_eq; simpl; rewrite ?v_add_0_r; try done; lia. Qed.

Lemma flock_over_cons P V i j others :
  flock_over P V i (j :: others)
  = flock_add (flock_over P V i [j]) (flock_over P V i others).
Proof.
  unfold flock_over. cbv zeta. rewrite !filter_cons, !filter_nil.
  destruct (decide (near P i separationDist j)), (decide (near P i perceptionRadius j));
    apply Flock_eq; simpl; rewrite ?v_add_0_r, ?v_add_0_l; done.
Qed.

(** One turn of the inner loop adds the contribution of the particle at
    [j], if it is a neighbour. *)
Lemma flock_neighbour_spec P V i acc j :
  flock_neighbour P V i (triple P i) acc j = flock_add acc (flock_over P V i [j]).
Proof.
  unfold flock_neighbour, flock_over. cbv zeta. rewrite !filter_cons, !filter_nil.
  destruct (decide (near P i separationDist j)) as [N1|N1];
    destruct (decide (near P i perceptionRadius j)) as [N3|N3];
    unfold near, boid_distance, separationDist, perceptionRadius in *; simpl in *;
    destruct (decide (i = j)) as [Hij|Hij]; try tauto;
    try (symmetry; apply Flock_eq; simpl; rewrite ?v_add_0_r; done);
    match goal with |- context [sqrt ?e] => set (d := sqrt e) in * end.
  - rewrite decide_True by tauto. rewrite decide_True by tauto.
    apply Flock_eq; simpl; try lia; apply Vector3_eq; simpl;
      unfold boid_distance; simpl; fold d; lra.
  - exfalso. apply N3. split; [done|]. split; lra.
  - rewrite decide_True by tauto. rewrite decide_False by tauto.
    apply Flock_eq; simpl; try lia; try (apply Vector3_eq; simpl; lra).
  - rewrite decide_False by tauto.
    apply Flock_eq; simpl; rewrite ?v_add_0_r; done || lia.
Qed.

Lemma flock_loop P V i others acc :
  foldl (flock_neighbour P V i (triple P i)) acc others
  = flock_add acc (flock_over P V i others).
Proof.
  revert acc. induction others as [|j others IH]; intros acc; cbn [foldl].
  - by rewrite flock_over_nil, flock_add_0_r.
  - rewrite IH, flock_neighbour_spec, (flock_over_cons P V i j others).
    apply flock_add_assoc.
Qed.

Lemma flock_add_0_l a : flock_add Flock0 a = a.
Proof. apply Flock_eq; simpl; rewrite ?v_add_0_l; done. Qed.

(** The accumulators of the neighbour loop are the sums over the
    neighbours as described. *)
Lemma flock_is_described P V i : flock P V i = flock_described P V i.
Proof. unfold flock, flock_described. by rewrite flock_loop, flock_add_0_l. Qed.

(** The speed limit *)
Lemma limit_speed_bound v :
  (v_length (limit_speed v) <= maxSpeed)%R
  ∧ ((maxSpeed < v_length v)%R → v_length (limit_speed v) = maxSpeed)
  ∧ ((v_length v <= maxSpeed)%R → limit_speed v = v).
Proof.
  unfold limit_speed, v_length, dot. cbv zeta.
  set (S := (v_x v * v_x v + v_y v * v_y v + v_z v * v_z v)%R).
  assert (HS : (0 <= S)%R) by (subst S; nra).
  pose proof (sqrt_sqrt S HS) as Hsq. set (sp := sqrt S) in *.
  unfold maxSpeed.
  destruct (decide (3/100 < sp)%R) as [Hfast|Hslow].
  - assert (Hclamped :
      sqrt (v_x v / sp * (3/100) * (v_x v / sp * (3/100))
            + v_y v / sp * (3/100) * (v_y v / sp * (3/100))
            + v_z v / sp * (3/100) * (v_z v / sp * (3/100))) = (3/100)%R).
    { replace (v_x v / sp * (3/100) * (v_x v / sp * (3/100))
               + v_y v / sp * (3/100) * (v_y v / sp * (3/100))
               + v_z v / sp * (3/100) * (v_z v / sp * (3/100)))%R
        with ((3/100) * (3/100))%R.
      - apply sqrt_square. lra.
      - transitivity (S / (sp * sp) * ((3/100) * (3/100)))%R.
        + rewrite Hsq. field. nra.
        + subst S. field. lra. }
    simpl. rewrite Hclamped. split; [lra|]. split; [done|]. intros. lra.
  - fold S. fold sp. split; [lra|]. split; [intros; lra|done].
Qed.

#[local] Arguments limit_speed : simpl never.
#[local] Arguments steer : simpl never.

(** The loop computes the update that the words describe. *)
Lemma neighbours_near P i r : neighbours P i r = filter (near P i r) (stride3 (length P)).
Proof.
  unfold neighbours. apply list_filter_iff. intros j. unfold near.
  split; intros (? & ?); (split; [done|]); lra.
Qed.

Lemma v_add_scale_mean v (c : R) (l : list Vector3) :
  l ≠ [] →
  v_add v (v_scale c (mean l))
  = mkVector3 (v_x v + v_x (v_sum l) / INR (length l) * c)
              (v_y v + v_y (v_sum l) / INR (length l) * c)
              (v_z v + v_z (v_sum l) / INR (length l) * c).
Proof.
  intros Hl. assert (Hn : INR (length l) ≠ 0%R).
  { apply not_0_INR. destruct l; [done|simpl; lia]. }
  apply Vector3_eq; simpl; field; done.
Qed.

Lemma separate_described P V i others v :
  separate (flock_over P V i others) v
  = v_add v (match filter (near P i 1) others with
             | [] => Vector3_new
             | close => v_scale (2/1000) (mean (away P i <$> close))
             end).
Proof.
  unfold separate, flock_over, separationDist. cbn [sep sepCount].
  destruct (filter (near P i 1) others) as [|j close] eqn:E.
  - rewrite decide_False by (simpl; lia). by rewrite v_add_0_r.
  - rewrite decide_True by (simpl; lia). rewrite v_add_scale_mean by done.
    rewrite length_fmap. unfold maxForce. apply Vector3_eq; simpl; lra.
Qed.

Lemma align_described P V i others v :
  align_with (flock_over P V i others) v
  = v_add v (match filter (near P i 3) others with
             | [] => Vector3_new
             | seen => v_scale (1/1000) (v_sub (mean (triple V <$> seen)) v)
             end).
Proof.
  unfold align_with, flock_over, perceptionRadius. cbn [align alignCount].
  destruct (filter (near P i 3) others) as [|j seen] eqn:E.
  - rewrite decide_False by (simpl; lia). by rewrite v_add_0_r.
  - rewrite decide_True by (simpl; lia).
    assert (Hn : INR (length (j :: seen)) ≠ 0%R) by (apply not_0_INR; simpl; lia).
    unfold mean, maxForce. rewrite length_fmap.
    apply Vector3_eq; simpl; field; done.
Qed.

Lemma cohere_described P V i others p v :
  cohere (flock_over P V i others) p v
  = v_add v (match filter (near P i 3) others with
             | [] => Vector3_new
             | seen => v_scale (5/10000) (v_sub (mean (triple P <$> seen)) p)
             end).
Proof.
  unfold cohere, flock_over, perceptionRadius. cbn [coh cohCount].
  destruct (filter (near P i 3) others) as [|j seen] eqn:E.
  - rewrite decide_False by (simpl; lia). by rewrite v_add_0_r.
  - rewrite decide_True by (simpl; lia).
    assert (Hn : INR (length (j :: seen)) ≠ 0%R) by (apply not_0_INR; simpl; lia).
    unfold mean, maxForce. rewrite length_fmap.
    apply Vector3_eq; simpl; field; done.
Qed.

Lemma soft_boundary_described P i v :
  soft_boundary (triple P i) v = v_add v (boundary_force P i).
Proof.
  unfold soft_boundary, boundary_force, v_length, dot. cbv zeta.
  case_decide; [|by rewrite v_add_0_r]. apply Vector3_eq; simpl; lra.
Qed.

Lemma limit_speed_described u : limit_speed u = clamped u.
Proof.
  unfold limit_speed, clamped, v_length, dot, maxSpeed. cbv zeta.
  case_decide as Hfast; [|done]. apply Vector3_eq; simpl; field; lra.
Qed.

Lemma steer_described P V i : steer P V i = clamped (steered P V i).
Proof.
  unfold steer, steered. cbv zeta. rewrite limit_speed_described. f_equal.
  rewrite flock_is_described. unfold flock_described.
  rewrite soft_boundary_described. f_equal.
  rewrite cohere_described. unfold cohesion_force. rewrite neighbours_near. f_equal.
  rewrite align_described. unfold alignment_force. rewrite neighbours_near.
  rewrite separate_described. unfold separation_force. by rewrite neighbours_near.
Qed.

(** The speed limit as described *)
Lemma clamped_bound u :
  (v_length (clamped u) <= 3/100)%R
  ∧ ((3/100 < v_length u)%R → v_length (clamped u) = (3/100)%R)
  ∧ ((v_length u <= 3/100)%R → clamped u = u).
Proof.
  rewrite <- limit_speed_described.
  destruct (limit_speed_bound u) as (H1 & H2 & H3). unfold maxSpeed in *. done.
Qed.

Lemma component_le_length v :
  (Rabs (v_x v) <= v_length v)%R ∧ (Rabs (v_y v) <= v_length v)%R
  ∧ (Rabs (v_z v) <= v_length v)%R.
Proof.
  unfold v_length, dot.
  repeat split; rewrite <- sqrt_Rsqr_abs; apply sqrt_le_1_alt; unfold Rsqr; nra.
Qed.

(** A vector of length at most 0.03 is stored with a length of at most
    0.03 (1 + 2^-23). *)
Lemma fround3_length v :
  (v_length v <= 3/100)%R → (v_length (fround3 v) <= 3/100 * (1 + 1 / 2 ^ 23))%R.
Proof.
  intros Hv. destruct (component_le_length v) as (Hx & Hy & Hz).
  pose proof (fround_abs (v_x v)) as Fx. pose proof (fround_abs (v_y v)) as Fy.
  pose proof (fround_abs (v_z v)) as Fz.
  assert (He : powerRZ 2 (-24) = (1 / 2 ^ 24)%R) by (simpl; lra).
  assert (Hd : (0 < powerRZ 2 (-150) <= 1 / 2 ^ 50)%R).
  { split; [apply pow2_pos|]. pose proof (pow2_le (-150) (-50) ltac:(lia)) as H.
    replace (powerRZ 2 (-50)) with (1 / 2 ^ 50)%R in H by (simpl; lra). done. }
  rewrite He in Fx, Fy, Fz. set (d := powerRZ 2 (-150)) in *.
  assert (Hsq : (v_x v * v_x v + v_y v * v_y v + v_z v * v_z v <= (3/100) * (3/100))%R).
  { unfold v_length, dot in Hv.
    assert (H0 : (0 <= v_x v * v_x v + v_y v * v_y v + v_z v * v_z v)%R) by nra.
    pose proof (sqrt_sqrt _ H0) as Hs. pose proof (sqrt_pos (v_x v * v_x v + v_y v * v_y v + v_z v * v_z v)).
    nra. }
  unfold v_length, dot, fround3. cbn [v_x v_y v_z].
  set (a := Rabs (v_x v)) in *. set (b := Rabs (v_y v)) in *. set (c := Rabs (v_z v)) in *.
  assert (Rabs_sq : ∀ x, (x * x = Rabs x * Rabs x)%R).
  { intros x. unfold Rabs. destruct (Rcase_abs x); lra. }
  rewrite (Rabs_sq (fround (v_x v))), (Rabs_sq (fround (v_y v))), (Rabs_sq (fround (v_z v))).
  rewrite (Rabs_sq (v_x v)), (Rabs_sq (v_y v)), (Rabs_sq (v_z v)) in Hsq.
  fold a b c in Hsq.
  pose proof (Rabs_pos (fround (v_x v))) as Px. pose proof (Rabs_pos (fround (v_y v))) as Py.
  pose proof (Rabs_pos (fround (v_z v))) as Pz.
  set (a' := Rabs (fround (v_x v))) in *. set (b' := Rabs (fround (v_y v))) in *.
  set (c' := Rabs (fround (v_z v))) in *.
  assert (Ha : (0 <= a)%R) by apply Rabs_pos. assert (Hb : (0 <= b)%R) by apply Rabs_pos.
  assert (Hc : (0 <= c)%R) by apply Rabs_pos.
  set (e := (1 / 2 ^ 24)%R) in *.
  assert (Hev : e = (1 / 16777216)%R) by (subst e; simpl; lra).
  assert (Hd' : (d <= e / 1000000)%R).
  { destruct Hd as [_ Hd]. replace (1 / 2 ^ 50)%R with (e / 2 ^ 26)%R in Hd by (subst e; simpl; lra).
    assert (e / 2 ^ 26 <= e / 1000000)%R by (rewrite Hev; simpl; lra). lra. }
  rewrite <- (sqrt_square (3/100 * (1 + 1 / 2 ^ 23))) by (simpl; lra).
  apply sqrt_le_1_alt.
  replace (1 / 2 ^ 23)%R with (2 * e)%R by (rewrite Hev; simpl; lra).
  assert (Ua : (a' * a' <= (a * (1 + e) + d) * (a * (1 + e) + d))%R) by nra.
  assert (Ub : (b' * b' <= (b * (1 + e) + d) * (b * (1 + e) + d))%R) by nra.
  assert (Uc : (c' * c' <= (c * (1 + e) + d) * (c * (1 + e) + d))%R) by nra.
  assert (La : (a <= 3/100)%R) by lra. assert (Lb : (b <= 3/100)%R) by lra.
  assert (Lc : (c <= 3/100)%R) by lra.
  assert (He0 : (0 < e <= 1)%R) by (rewrite Hev; lra).
  assert (Hd0 : (0 < d)%R) by apply Hd.
  assert (Sa : ((a * (1 + e) + d) * (a * (1 + e) + d)
                <= a * a * ((1 + e) * (1 + e)) + 2 * (3/100) * 2 * d + d * d)%R) by nra.
  assert (Sb : ((b * (1 + e) + d) * (b * (1 + e) + d)
                <= b * b * ((1 + e) * (1 + e)) + 2 * (3/100) * 2 * d + d * d)%R) by nra.
  assert (Sc : ((c * (1 + e) + d) * (c * (1 + e) + d)
                <= c * c * ((1 + e) * (1 + e)) + 2 * (3/100) * 2 * d + d * d)%R) by nra.
  assert (Hsum : ((a * a + b * b + c * c) * ((1 + e) * (1 + e))
                  <= (3/100) * (3/100) * ((1 + e) * (1 + e)))%R) by nra.
  assert (Hdd : (d * d <= d)%R) by nra.
  nra.
Qed.

Lemma swarm_particle_spec P V m :
  3 * m + 2 < length P → 3 * m + 2 < length V →
  let r := swarm_particle (P, V) (3 * m) in
  length r.1 = length P ∧ length r.2 = length V
  ∧ (∀ idx, idx < 3 * m ∨ 3 * m + 3 ≤ idx → r.1 !!! idx = P !!! idx ∧ r.2 !!! idx = V !!! idx)
  ∧ triple r.2 (3 * m) = fround3 (steer P V (3 * m))
  ∧ triple r.1 (3 * m) = fround3 (v_add (triple P (3 * m)) (steer P V (3 * m))).
Proof.
  intros HP HV r. subst r. unfold swarm_particle. cbn [fst snd].
  rewrite !length_insert. split; [done|]. split; [done|].
  split; [intros idx Hidx; by buf|]. split.
  - apply Vector3_eq; unfold triple, fround3; simpl; by buf.
  - apply Vector3_eq; unfold triple, fround3; simpl; by buf.
Qed.

Lemma swarm_particle_flocked st m : swarm_particle st (3 * m) = flocked st m.
Proof.
  destruct st as [P V]. unfold swarm_particle, flocked, write3. cbn [fst snd].
  rewrite <- steer_described. set (v := steer P V (3 * m)).
  unfold fround3, v_add, triple. cbn [v_x v_y v_z]. f_equal.
  rewrite !list_lookup_total_insert_ne by lia. done.
Qed.

Lemma swarm_prefix_S k P V :
  swarm_prefix (S k) P V = swarm_particle (swarm_prefix k P V) (3 * k).
Proof. unfold swarm_prefix. by rewrite seq_S, fmap_app, foldl_app. Qed.

Lemma swarm_prefix_after k P V : swarm_prefix k P V = swarm_after k P V.
Proof.
  induction k as [|k IH]; [done|].
  rewrite swarm_prefix_S, IH, swarm_particle_flocked.
  unfold swarm_after. by rewrite seq_S, foldl_app.
Qed.

(** After a swarm frame the buffers are as described, and the velocity
    and the position of each particle are the ones written at its turn. *)
Lemma swarm_frame_spec P V N :
  length P = 3 * N → length V = 3 * N →
  swarm_frame P V = swarm_after N P V
  ∧ ∀ k, k < N →
      let Pk := (swarm_after k P V).1 in
      let Vk := (swarm_after k P V).2 in
      length Pk = 3 * N
      ∧ triple Pk (3 * k) = triple P (3 * k)
      ∧ triple (swarm_frame P V).2 (3 * k) = fround3 (clamped (steered Pk Vk (3 * k)))
      ∧ triple (swarm_frame P V).1 (3 * k)
        = fround3 (v_add (triple P (3 * k)) (clamped (steered Pk Vk (3 * k)))).
Proof.
  intros HP HV. unfold swarm_frame. rewrite HP.
  pose (Inv := λ (m : nat) (st : list R * list R),
    st = swarm_after m P V ∧ length st.1 = 3 * N ∧ length st.2 = 3 * N
    ∧ (∀ idx, 3 * m ≤ idx → st.1 !!! idx = P !!! idx)
    ∧ ∀ k, k < m →
        let Pk := (swarm_after k P V).1 in
        let Vk := (swarm_after k P V).2 in
        length Pk = 3 * N
        ∧ triple Pk (3 * k) = triple P (3 * k)
        ∧ triple st.2 (3 * k) = fround3 (clamped (steered Pk Vk (3 * k)))
        ∧ triple st.1 (3 * k)
          = fround3 (v_add (triple P (3 * k)) (clamped (steered Pk Vk (3 * k))))).
  cut (Inv N (foldl swarm_particle (P, V) (stride3 (3 * N)))).
  { intros (H1 & _ & _ & _ & H4). split; [exact H1|exact H4]. }
  apply stride3_ind.
  - split; [reflexivity|]. split; [exact HP|]. split; [exact HV|].
    split; [reflexivity|]. intros k0 Hk0. lia.
  - intros m [P1 V1] Hm (Heq & HL1 & HL2 & Hrest & Hdone). cbn [fst snd] in *.
    pose proof (swarm_particle_spec P1 V1 m ltac:(lia) ltac:(lia)) as Hs.
    cbv zeta in Hs. destruct Hs as (HL1' & HL2' & Hframe & Hv & Hp).
    split.
    { rewrite swarm_particle_flocked, Heq. unfold swarm_after. by rewrite seq_S, foldl_app. }
    split; [lia|]. split; [lia|]. split.
    { intros idx Hidx. destruct (Hframe idx ltac:(lia)) as [-> _]. apply Hrest. lia. }
    intros k Hk. cbv zeta. destruct (decide (k = m)) as [->|Hne].
    + rewrite <- Heq. cbn [fst snd].
      assert (Hsame : triple P1 (3 * m) = triple P (3 * m)).
      { unfold triple. by rewrite (Hrest (3 * m)), (Hrest (3 * m + 1)), (Hrest (3 * m + 2)) by lia. }
      split; [done|]. split; [done|].
      rewrite Hv, Hp, steer_described, Hsame. done.
    + destruct (Hdone k ltac:(lia)) as (D1 & D2 & D3 & D4).
      split; [done|]. split; [done|]. rewrite <- D3, <- D4. unfold triple.
      destruct (Hframe (3 * k) ltac:(lia)) as [-> ->].
      destruct (Hframe (3 * k + 1) ltac:(lia)) as [-> ->].
      destruct (Hframe (3 * k + 2) ltac:(lia)) as [-> ->].
      done.
Qed.

(** The neighbours of a particle are the other particles of the buffer
    at a distance within the radius, and no others. *)
Lemma neighbours_spec P N k r j :
  length P = 3 * N →
  3 * j ∈ neighbours P (3 * k) r
  ↔ j < N ∧ j ≠ k ∧ (0 < boid_distance P (3 * k) (3 * j) < r)%R.
Proof.
  intros HP. unfold neighbours. rewrite list_elem_of_filter, HP, stride3_triples.
  rewrite list_elem_of_fmap. split.
  - intros ((Hne & Hd) & j' & Hj & Hin). apply elem_of_seq in Hin.
    assert (j' = j) by lia. subst j'. split; [lia|]. split; [lia|done].
  - intros (Hj & Hne & Hd). split; [split; [lia|done]|].
    exists j. split; [done|]. apply elem_of_seq. lia.
Qed.

Section swarm_frame_facts.
Variable random : nat → R.

Lemma animateParticles_swarm s ps V :
  particleSystem s = Some ps → currentViz s = "swarm" → velocities ps = Some V →
  ∃ s' ps',
    animateParticles random s = Returned s' ∧ particleSystem s' = Some ps'
    ∧ positions ps' = (swarm_frame (positions ps) V).1
    ∧ velocities ps' = Some (swarm_frame (positions ps) V).2.
Proof.
  intros Hps Hviz HV. unfold animateParticles. rewrite Hps, Hviz, HV.
  rewrite decide_False by done. rewrite decide_False by done.
  rewrite decide_True by done.
  destruct (swarm_frame (positions ps) V) as [P' V']. simpl.
  eexists _, _. split; [reflexivity|]. split; [reflexivity|]. done.
Qed.

(** C3: in a swarm frame the particles are updated one after the other,
    each from the buffers as they are at its turn. A particle is compared
    with every other particle of the buffer: its neighbours within a
    radius are exactly the other particles at a distance below the radius
    (and above 0). The velocity stored for it is the float32 rounding of
    the speed-limited velocity that results from adding to its velocity
    the separation force, computed from the neighbours within 1, and the
    alignment and cohesion terms, computed from the means over the
    neighbours within 3, and the push back from the boundary. *)
Theorem animateParticles_swarm_flocking s ps V N :
  particleSystem s = Some ps → currentViz s = "swarm" → velocities ps = Some V →
  length (positions ps) = 3 * N → length V = 3 * N →
  ∃ s' ps' V',
    animateParticles random s = Returned s' ∧ particleSystem s' = Some ps'
    ∧ velocities ps' = Some V'
    ∧ (positions ps', V') = swarm_after N (positions ps) V
    ∧ ∀ k, k < N →
        let Pk := (swarm_after k (positions ps) V).1 in
        let Vk := (swarm_after k (positions ps) V).2 in
        (∀ j r, 3 * j ∈ neighbours Pk (3 * k) r
                ↔ j < N ∧ j ≠ k ∧ (0 < boid_distance Pk (3 * k) (3 * j) < r)%R)
        ∧ triple V' (3 * k) = fround3 (clamped (steered Pk Vk (3 * k))).
Proof.
  intros Hps Hviz HV HLP HLV.
  destruct (animateParticles_swarm s ps V Hps Hviz HV) as (s' & ps' & Hret & Hps' & HP' & HV').
  exists s', ps', (swarm_frame (positions ps) V).2.
  split; [done|]. split; [done|]. split; [done|].
  destruct (swarm_frame_spec (positions ps) V N HLP HLV) as [Hall Heach].
  split; [by rewrite HP', <- Hall, <- surjective_pairing|].
  intros k Hk. cbv zeta. destruct (Heach k Hk) as (HLk & _ & Hv & _).
  split; [|done]. intros j r. by apply neighbours_spec.
Qed.

(** C4: after the particle update of a swarm frame the velocity stored
    for a particle is the float32 rounding of its speed-limited velocity.
    The speed limit leaves a velocity of magnitude at most 0.03 as it is
    and rescales a faster one to the magnitude 0.03; the stored velocity
    has a magnitude of at most 0.03 (1 + 2^-23). *)
Theorem animateParticles_swarm_speed s ps V N :
  particleSystem s = Some ps → currentViz s = "swarm" → velocities ps = Some V →
  length (positions ps) = 3 * N → length V = 3 * N →
  ∃ s' ps' V',
    animateParticles random s = Returned s' ∧ particleSystem s' = Some ps'
    ∧ velocities ps' = Some V'
    ∧ ∀ k, k < N →
        let u := steered (swarm_after k (positions ps) V).1
                         (swarm_after k (positions ps) V).2 (3 * k) in
        triple V' (3 * k) = fround3 (clamped u)
        ∧ ((3/100 < v_length u)%R → v_length (clamped u) = (3/100)%R)
        ∧ ((v_length u <= 3/100)%R → clamped u = u)
        ∧ (v_length (triple V' (3 * k)) <= 3/100 * (1 + 1 / 2 ^ 23))%R.
Proof.
  intros Hps Hviz HV HLP HLV.
  destruct (animateParticles_swarm s ps V Hps Hviz HV) as (s' & ps' & Hret & Hps' & _ & HV').
  exists s', ps', (swarm_frame (positions ps) V).2.
  split; [done|]. split; [done|]. split; [done|].
  intros k Hk. cbv zeta.
  destruct (swarm_frame_spec (positions ps) V N HLP HLV) as [_ Heach].
  destruct (Heach k Hk) as (_ & _ & Hv & _). rewrite Hv.
  match goal with |- context [clamped ?u] =>
    destruct (clamped_bound u) as (Hb & Hfast & Hslow) end.
  split; [done|]. split; [done|]. split; [done|]. by apply fround3_length.
Qed.
End swarm_frame_facts.

(** ** The frame theorems at the sample states

    [Math.random] is taken to return 0.5 at every call. *)

Lemma half_in_range : ∀ n : nat, (0 <= (λ _ : nat, (1/2)%R) n < 1)%R.
Proof. intros n. simpl. lra. Qed.

Lemma animateParticles_matrix_witness :
  ∃ s' ps',
    animateParticles (λ _, (1/2)%R) rain_state = Returned s' ∧ particleSystem s' = Some ps'
    ∧ length (positions ps') = 3 * 2
    ∧ rng s' = rng rain_state + 2 * resets_before (positions rain) (velocities rain) 2
    ∧ ∀ k, k < 2 →
        rain_drop_ok (λ _, (1/2)%R) (rng rain_state) (positions rain) (velocities rain)
          (positions ps') k
        ∧ ((fallen (positions rain) (velocities rain) k < -10)%R →
             (-10 <= positions ps' !!! (3 * k)%nat <= 10)%R
             ∧ (-10 <= positions ps' !!! (3 * k + 2)%nat <= 10)%R).
Proof.
  apply (animateParticles_matrix (λ _, (1/2)%R) half_in_range rain_state rain 2);
    reflexivity.
Defined.

Lemma almost_one_range : ∀ n : nat, (0 <= almost_one n < 1)%R.
Proof. intros n. unfold almost_one. simpl. lra. Qed.

(** C5, the interval: [Math.random] can return 1 - 2^-27, and the x and z
    drawn for a particle that is put back at the top are then stored as
    10, the float32 value nearest to 10 - 20 / 2^27. *)
Theorem animateParticles_matrix_reaches_10 :
  (∀ n : nat, (0 <= almost_one n < 1)%R)
  ∧ ∃ s' ps',
      animateParticles almost_one late_state = Returned s' ∧ particleSystem s' = Some ps'
      ∧ positions ps' !!! 0 = 10%R ∧ positions ps' !!! 1 = 15%R
      ∧ positions ps' !!! 2 = 10%R.
Proof.
  split; [apply almost_one_range|].
  assert (Hps : particleSystem late_state = Some late_drop) by done.
  assert (Hviz : currentViz late_state = "matrix") by done.
  unfold animateParticles. rewrite Hps, Hviz. rewrite decide_True by done.
  pose proof (matrix_frame_spec almost_one (positions late_drop) (velocities late_drop)
                (rng late_state) 1 eq_refl) as Hf.
  cbv zeta in Hf. destruct Hf as (_ & _ & Hdrops).
  destruct (matrix_frame almost_one (positions late_drop) (velocities late_drop)
              (rng late_state)) as [P' n'].
  cbn [fst snd] in Hdrops. eexists _, _. split; [reflexivity|]. split; [reflexivity|].
  destruct (Hdrops 0 ltac:(lia)) as [Hreset _]. cbv zeta in Hreset.
  assert (Hy : fallen (positions late_drop) (velocities late_drop) 0 = (- (321/32))%R).
  { unfold fallen, fall_speed, late_drop. cbn [positions velocities].
    change (3 * 0 + 1) with 1. cbn [lookup_total list_lookup_total].
    replace (-10 - - - (1 / 32))%R with (- (321/32))%R by lra. by apply fround_height. }
  rewrite Hy in Hreset. destruct Hreset as (H1 & H0 & H2); [lra|].
  change (3 * 0 + 1) with 1 in H1. change (3 * 0) with 0 in H0.
  change (3 * 0 + 2) with 2 in H2.
  cbn [positions with_buffers]. rewrite H0, H1, H2.
  unfold almost_one. repeat split; try done; apply fround_to_10; simpl; lra.
Qed.



Lemma animateParticles_swarm_flocking_witness :
  ∃ s' ps' V',
    animateParticles (λ _, (1/2)%R) swarm_state = Returned s' ∧ particleSystem s' = Some ps'
    ∧ velocities ps' = Some V'
    ∧ (positions ps', V')
      = swarm_after 3 (positions boids) [1; 0; 0; 0; 1/128; 0; 0; 0; 1/128]%R
    ∧ ∀ k, k < 3 →
        let Pk := (swarm_after k (positions boids)
                     [1; 0; 0; 0; 1/128; 0; 0; 0; 1/128]%R).1 in
        let Vk := (swarm_after k (positions boids)
                     [1; 0; 0; 0; 1/128; 0; 0; 0; 1/128]%R).2 in
        (∀ j r, 3 * j ∈ neighbours Pk (3 * k) r
                ↔ j < 3 ∧ j ≠ k ∧ (0 < boid_distance Pk (3 * k) (3 * j) < r)%R)
        ∧ triple V' (3 * k) = fround3 (clamped (steered Pk Vk (3 * k))).
Proof.
  apply (animateParticles_swarm_flocking (λ _, (1/2)%R) swarm_state boids
           [1; 0; 0; 0; 1/128; 0; 0; 0; 1/128]%R 3); reflexivity.
Defined.

Lemma animateParticles_swarm_speed_witness :
  ∃ s' ps' V',
    animateParticles (λ _, (1/2)%R) swarm_state = Returned s' ∧ particleSystem s' = Some ps'
    ∧ velocities ps' = Some V'
    ∧ ∀ k, k < 3 →
        let u := steered (swarm_after k (positions boids)
                            [1; 0; 0; 0; 1/128; 0; 0; 0; 1/128]%R).1
                         (swarm_after k (positions boids)
                            [1; 0; 0; 0; 1/128; 0; 0; 0; 1/128]%R).2 (3 * k) in
        triple V' (3 * k) = fround3 (clamped u)
        ∧ ((3/100 < v_length u)%R → v_length (clamped u) = (3/100)%R)
        ∧ ((v_length u <= 3/100)%R → clamped u = u)
        ∧ (v_length (triple V' (3 * k)) <= 3/100 * (1 + 1 / 2 ^ 23))%R.
Proof.
  apply (animateParticles_swarm_speed (λ _, (1/2)%R) swarm_state boids
           [1; 0; 0; 0; 1/128; 0; 0; 0; 1/128]%R 3); reflexivity.
Defined.

(** The single boid of [fast_state] has no neighbour and is near the
    centre, so its velocity (0, 1/64, 15/512) of length 17/512 is only
    rescaled, to 0.03 (0, 8/17, 15/17). *)
Lemma fast_boid_clamped :
  clamped (steered [0; 0; 0]%R [0; 1/64; 15/512]%R 0)
  = mkVector3 0 (8 / 17 * (3/100)) (15 / 17 * (3/100)).
Proof.
  assert (Hn : ∀ r, neighbours [0; 0; 0]%R 0 r = []).
  { intros r. unfold neighbours. change (stride3 (length [0; 0; 0]%R)) with [0].
    rewrite filter_cons, filter_nil. by rewrite decide_False by (intros [? _]; done). }
  assert (Hu : steered [0; 0; 0]%R [0; 1/64; 15/512]%R 0 = mkVector3 0 (1/64) (15/512)).
  { unfold steered, separation_force, alignment_force, cohesion_force, boundary_force.
    cbv zeta. rewrite !Hn. unfold v_length, dot, triple.
    cbn [lookup_total list_lookup_total Nat.add v_x v_y v_z].
    replace (0 * 0 + 0 * 0 + 0 * 0)%R with 0%R by lra. rewrite sqrt_0.
    rewrite decide_False by lra. apply Vector3_eq; simpl; lra. }
  rewrite Hu. unfold clamped, v_length, dot. cbn [v_x v_y v_z].
  replace (0 * 0 + 1 / 64 * (1 / 64) + 15 / 512 * (15 / 512))%R
    with ((17/512) * (17/512))%R by lra.
  rewrite sqrt_square by lra. rewrite decide_True by lra.
  apply Vector3_eq; simpl; lra.
Qed.

(** C4, the bound: the velocity of that boid is stored as
    (0, 7579354, 14211289) / 2^29, the float32 values nearest to the
    components of the rescaled velocity, and the length of this vector
    is above 0.03. *)
Theorem animateParticles_swarm_speed_exceeded :
  ∃ s' ps' V',
    animateParticles (λ _, (1/2)%R) fast_state = Returned s' ∧ particleSystem s' = Some ps'
    ∧ velocities ps' = Some V'
    ∧ triple V' 0 = mkVector3 0 (7579354 / 2 ^ 29) (14211289 / 2 ^ 29)
    ∧ (3/100 < v_length (triple V' 0))%R.
Proof.
  destruct (animateParticles_swarm (λ _, (1/2)%R) fast_state fast_boid
              [0; 1/64; 15/512]%R eq_refl eq_refl eq_refl)
    as (s' & ps' & Hret & Hps' & _ & HV').
  exists s', ps', (swarm_frame (positions fast_boid) [0; 1/64; 15/512]%R).2.
  split; [done|]. split; [done|]. split; [done|].
  destruct (swarm_frame_spec (positions fast_boid) [0; 1/64; 15/512]%R 1 eq_refl eq_refl)
    as [_ Heach].
  destruct (Heach 0 ltac:(lia)) as (_ & _ & Hv & _).
  change (3 * 0) with 0 in Hv.
  change (swarm_after 0 (positions fast_boid) [0; 1/64; 15/512]%R)
    with (positions fast_boid, [0; 1/64; 15/512]%R) in Hv.
  cbn [fst snd] in Hv. change (positions fast_boid) with [0; 0; 0]%R in Hv at 2.
  rewrite fast_boid_clamped in Hv. unfold fround3 in Hv. cbn [v_x v_y v_z] in Hv.
  rewrite fround_0, (fround_clamped_y _ eq_refl), (fround_clamped_z _ eq_refl) in Hv.
  rewrite Hv. split; [done|]. unfold v_length, dot. cbn [v_x v_y v_z].
  rewrite <- (sqrt_square (3/100)) at 1 by lra. apply sqrt_lt_1_alt. simpl. lra.
Qed.

(** ** The graph stays well formed

    The hypotheses of the statements about [deleteNode] hold in every
    state the program builds: they hold in the empty scene and every
    function that edits the graph keeps them. *)

Lemma graph_ok_empty : graph_ok empty_state.
Proof.
  unfold graph_ok. simpl. split; [apply NoDup_nil_2|]. split; [apply NoDup_nil_2|].
  split; [intros r [Hr|Hr]; by apply elem_of_nil in Hr|].
  intros c Hc. by apply elem_of_nil in Hc.
Qed.

(** A step that leaves the graph alone and only allocates *)
Lemma graph_ok_frame s s' :
  nodes s' = nodes s → connections s' = connections s → lines s' = lines s →
  next_ref s ≤ next_ref s' → graph_ok s → graph_ok s'.
Proof.
  intros Hn Hc Hl Hr (H1 & H2 & H3 & H4). unfold graph_ok, line_data.
  rewrite Hn, Hc, Hl. repeat split; try done.
  intros r Hin. specialize (H3 r Hin). lia.
Qed.

Lemma add_line_ok d s : graph_ok s → valid_indices (nodes s) d → graph_ok (add_line d s).
Proof.
  intros (H1 & H2 & H3 & H4) Hd. unfold graph_ok, add_line. simpl.
  split; [done|]. split; [|split].
  - apply NoDup_app. split; [done|]. split; [|apply NoDup_singleton].
    intros c Hc Hc'. apply list_elem_of_singleton in Hc'. subst c.
    specialize (H3 (next_ref s) (or_intror Hc)). lia.
  - intros r [Hr|Hr].
    + specialize (H3 r (or_introl Hr)). lia.
    + apply elem_of_app in Hr as [Hr|Hr].
      * specialize (H3 r (or_intror Hr)). lia.
      * apply list_elem_of_singleton in Hr. lia.
  - intros c Hc. unfold line_data. simpl.
    apply elem_of_app in Hc as [Hc|Hc].
    + rewrite lookup_insert_ne; [by apply H4|].
      intros <-. specialize (H3 (next_ref s) (or_intror Hc)). lia.
    + apply list_elem_of_singleton in Hc. subst c. by rewrite lookup_insert_eq.
Qed.

Lemma node_at_of_lookup (ns : list ref) i n :
  ns !! i = Some n → node_at ns (Z.of_nat i) = Some n.
Proof. intros Hi. unfold node_at. rewrite decide_True by lia. by rewrite Nat2Z.id. Qed.

Lemma valid_core_line ns a b i n : ns !! i = Some n → valid_indices ns (core_line a b (Z.of_nat i)).
Proof.
  intros Hi j Hj. unfold stored in Hj. simpl in Hj.
  apply elem_of_cons in Hj as [Hj|Hj]; [|set_solver].
  injection Hj as ->. erewrite node_at_of_lookup; done.
Qed.

Lemma valid_pair_line ns a b i j n m :
  ns !! i = Some n → ns !! j = Some m →
  valid_indices ns (pair_line a b (Z.of_nat i) (Z.of_nat j)).
Proof.
  intros Hi Hj k Hk. unfold stored in Hk. simpl in Hk.
  apply elem_of_cons in Hk as [Hk|Hk]; [done|].
  apply elem_of_cons in Hk as [Hk|Hk].
  - injection Hk as ->. erewrite node_at_of_lookup; done.
  - apply list_elem_of_singleton in Hk. injection Hk as ->.
    erewrite node_at_of_lookup; done.
Qed.

Lemma foldl_preserves {A S : Type} (ok : S → Prop) (f : S → A → S) (l : list A) s :
  (∀ s x, ok s → ok (f s x)) → ok s → ok (foldl f s l).
Proof.
  intros Hf. revert s. induction l as [|x l IH]; intros s Hs; simpl; [done|].
  apply IH. by apply Hf.
Qed.

Lemma connect_to_core_ok i s : graph_ok s → graph_ok (connect_to_core i s).
Proof.
  intros Hs. unfold connect_to_core. destruct (nodes s !! i) as [ni|] eqn:Hi; [|done].
  destruct (lt_opt _ _); [|done]. apply add_line_ok; [done|]. by eapply valid_core_line.
Qed.

Lemma connect_pair_ok i s j : graph_ok s → graph_ok (connect_pair i s j).
Proof.
  intros Hs. unfold connect_pair. destruct (nodes s !! i) as [ni|] eqn:Hi; [|done].
  destruct (nodes s !! j) as [nj|] eqn:Hj; [|done].
  destruct (lt_opt _ _); [|done]. apply add_line_ok; [done|]. by eapply valid_pair_line.
Qed.

Lemma createConnections_ok s : graph_ok s → graph_ok (createConnections s).
Proof.
  intros Hs. unfold createConnections. apply foldl_preserves; [|done].
  intros s1 i Hs1. apply foldl_preserves; [|by apply connect_to_core_ok].
  intros s2 j Hs2. by apply connect_pair_ok.
Qed.

Lemma connect_new_ok n s i :
  n ∈ nodes s → graph_ok s → graph_ok (connect_new n s i).
Proof.
  intros Hn Hs. unfold connect_new. destruct (nodes s !! i) as [ni|] eqn:Hi; [|done].
  destruct (lt_opt _ _); [|done]. apply add_line_ok; [done|].
  assert (Hlen : length (nodes s) ≠ 0).
  { apply lookup_lt_Some in Hi. lia. }
  destruct (nodes s !! (length (nodes s) - 1)) as [last|] eqn:Hlast.
  - replace (Z.of_nat (length (nodes s)) - 1)%Z with (Z.of_nat (length (nodes s) - 1)) by lia.
    by eapply valid_pair_line.
  - apply lookup_ge_None in Hlast. lia.
Qed.

Lemma node_at_app_l (ns ms : list ref) i : is_Some (node_at ns i) → is_Some (node_at (ns ++ ms) i).
Proof.
  intros [n Hn]. apply node_at_Some in Hn as [Hi Hn]. exists n.
  unfold node_at. rewrite decide_True by done. by apply lookup_app_l_Some.
Qed.

(** Pushing a newly allocated node *)
Lemma push_node_ok d s :
  graph_ok s →
  graph_ok (set_nodes (λ ns, ns ++ [next_ref s])
              (set_meshes (λ h, <[next_ref s := d]> h) (set_next_ref (S (next_ref s)) s))).
Proof.
  intros (H1 & H2 & H3 & H4). unfold graph_ok. simpl. split; [|split; [done|split]].
  - apply NoDup_app. split; [done|]. split; [|apply NoDup_singleton].
    intros n Hn Hn'. apply list_elem_of_singleton in Hn'. subst n.
    specialize (H3 (next_ref s) (or_introl Hn)). lia.
  - intros r [Hr|Hr].
    + apply elem_of_app in Hr as [Hr|Hr].
      * specialize (H3 r (or_introl Hr)). lia.
      * apply list_elem_of_singleton in Hr. lia.
    + specialize (H3 r (or_intror Hr)). lia.
  - intros c Hc i Hi. apply node_at_app_l. by apply (H4 c Hc).
Qed.

Lemma updateHUD_ok s : graph_ok s → graph_ok (updateHUD s).
Proof. apply graph_ok_frame; done. Qed.

Section graph_invariant.
Variable random : nat → R.

Lemma addNode_ok pos s s' :
  graph_ok s → addNode random pos s = Returned s' → graph_ok s'.
Proof.
  intros Hs. unfold addNode.
  destruct (lookup_colors (VIZ_PRESETS (currentViz s))) as [colors|] eqn:Hcol; [|done].
  simpl. unfold connectNewNode. simpl. rewrite Hcol. simpl. intros [= <-].
  apply updateHUD_ok.
  match goal with |- graph_ok (foldl _ ?s0 _) => assert (Hs0 : graph_ok s0) end.
  { eapply graph_ok_frame; [| | | |apply (push_node_ok
      (mkNodeData pos (0 + 1/10) pos (random (rng s) * PI * 2)
         (5/10 + random (S (rng s)) * (5/10)) (Some (accent colors)) true) s Hs)];
      simpl; done. }
  match goal with |- graph_ok (foldl ?f ?s0 ?l) =>
    cut (graph_ok (foldl f s0 l) ∧ next_ref s ∈ nodes (foldl f s0 l)); [tauto|];
    apply (foldl_preserves (λ st, graph_ok st ∧ next_ref s ∈ nodes st)) end.
  - intros st i [Hst Hin]. split; [by apply connect_new_ok|].
    by rewrite connect_new_nodes.
  - split; [done|]. simpl. set_solver.
Qed.

Lemma next_ref_remove_connections xs s : next_ref (foldl remove_connection s xs) = next_ref s.
Proof. revert s. induction xs as [|x xs IH]; intros s; simpl; [done|]. by rewrite IH. Qed.

Lemma next_ref_shift_connections idx xs s :
  next_ref (foldl (shift_connection idx) s xs) = next_ref s.
Proof. revert s. induction xs as [|x xs IH]; intros s; simpl; [done|]. by rewrite IH. Qed.

Lemma deleteNode_next_ref node s : next_ref (deleteNode node s) = next_ref s.
Proof.
  unfold deleteNode. case_decide; [done|]. simpl.
  rewrite next_ref_shift_connections. simpl. apply next_ref_remove_connections.
Qed.

Lemma deleteNode_ok node s : graph_ok s → graph_ok (deleteNode node s).
Proof.
  intros Hs. destruct (decide (node ∈ nodes s)) as [Hin|Hout].
  2: { unfold deleteNode. rewrite indexOf_absent by done. by rewrite decide_True. }
  destruct Hs as (H1 & H2 & H3 & H4).
  pose proof (deleteNode_keeps node s Hin H1 H2 H4) as Hdel. cbv zeta in Hdel.
  destruct Hdel as (_ & Hkept & _).
  destruct (elem_of_first_split _ _ Hin) as (pre & post & Hn & Hpre).
  destruct (deleteNode_present node s pre post Hn Hpre) as (Hn' & Hc' & _ & _).
  unfold graph_ok. rewrite deleteNode_next_ref. split; [|split; [|split]].
  - rewrite Hn'. rewrite Hn in H1. apply NoDup_app in H1 as (Ha & Hb & Hc).
    apply NoDup_cons in Hc as [_ Hc]. apply NoDup_app. split; [done|]. split; [|done].
    intros x Hx Hx'. apply (Hb x Hx). by right.
  - rewrite Hc'. by apply NoDup_filter.
  - intros r [Hr|Hr].
    + apply H3. left. rewrite Hn' in Hr. rewrite Hn.
      apply elem_of_app in Hr as [Hr|Hr]; apply elem_of_app; [by left|right; by right].
    + apply H3. right. by apply Hkept.
  - intros c Hc i Hi. destruct (Hkept c Hc) as [_ Hsame].
    unfold stored in *. rewrite !Forall2_cons in Hsame.
    destruct Hsame as (S1 & S2 & S3 & _).
    apply elem_of_cons in Hi as [Hi|Hi];
      [rewrite <- Hi in S1; by destruct (nodeIndex (line_data s c)); destruct S1|].
    apply elem_of_cons in Hi as [Hi|Hi];
      [rewrite <- Hi in S2; by destruct (nodeIndex1 (line_data s c)); destruct S2|].
    apply list_elem_of_singleton in Hi.
    rewrite <- Hi in S3. by destruct (nodeIndex2 (line_data s c)); destruct S3.
Qed.

Lemma createNode_ok s : graph_ok s → graph_ok (createNode random s).
Proof.
  intros Hs. unfold createNode. simpl.
  match goal with |- context [mkNodeData ?a ?b ?c ?d ?e ?f ?g] =>
    eapply graph_ok_frame; [| | | |apply (push_node_ok (mkNodeData a b c d e f g) s Hs)] end;
    simpl; done.
Qed.

Lemma createNodes_ok s : graph_ok s → graph_ok (createNodes random s).
Proof.
  unfold createNodes. generalize (default 0 (nodeCount (CONFIG s))). intros n.
  induction n as [|n IH]; intros Hs; simpl; [done|]. by apply createNode_ok, IH.
Qed.

Lemma scene_removes_nodes l s : nodes (foldl (λ s o, scene_remove o s) s l) = nodes s.
Proof. revert s. induction l as [|x l IH]; intros s; simpl; [done|]. by rewrite IH. Qed.

Lemma scene_removes_next_ref l s :
  next_ref (foldl (λ s o, scene_remove o s) s l) = next_ref s.
Proof. revert s. induction l as [|x l IH]; intros s; simpl; [done|]. by rewrite IH. Qed.

Lemma clearScene_graph s :
  nodes (clearScene s) = [] ∧ connections (clearScene s) = []
  ∧ next_ref (clearScene s) = next_ref s.
Proof.
  unfold clearScene. cbv zeta.
  destruct (coreNode _); destruct (particleSystem _); simpl;
    rewrite ?scene_removes_nodes, ?scene_removes_next_ref; simpl;
    rewrite ?scene_removes_next_ref; done.
Qed.

Lemma clearScene_ok s : graph_ok (clearScene s).
Proof.
  destruct (clearScene_graph s) as (Hn & Hc & _). unfold graph_ok. rewrite Hn, Hc.
  split; [apply NoDup_nil_2|]. split; [apply NoDup_nil_2|].
  split; [intros r [Hr|Hr]; by apply elem_of_nil in Hr|].
  intros c Hc'. by apply elem_of_nil in Hc'.
Qed.

Lemma createCoreNode_ok s : graph_ok s → graph_ok (createCoreNode s).
Proof. apply graph_ok_frame; simpl; try done. lia. Qed.

Lemma createParticleBuffers_graph n s :
  let s' := (createParticleBuffers random n s).2 in
  nodes s' = nodes s ∧ connections s' = connections s ∧ lines s' = lines s
  ∧ next_ref s' = next_ref s ∧ currentViz s' = currentViz s.
Proof.
  revert s. induction n as [|n IH]; intros s; cbv zeta; simpl; [done|].
  destruct (createParticle random s) as [[p v] s1] eqn:Hp.
  assert (Hs1 : nodes s1 = nodes s ∧ connections s1 = connections s ∧ lines s1 = lines s
                ∧ next_ref s1 = next_ref s ∧ currentViz s1 = currentViz s).
  { unfold createParticle in Hp. repeat case_decide; simpl in Hp;
      injection Hp as _ _ <-; done. }
  specialize (IH s1). cbv zeta in IH.
  destruct (createParticleBuffers random n s1) as [[ps vs] s2]. simpl in *.
  destruct IH as (I1 & I2 & I3 & I4 & I5). destruct Hs1 as (J1 & J2 & J3 & J4 & J5).
  repeat split; congruence.
Qed.

Lemma createParticlesForPreset_ok preset s :
  graph_ok s → graph_ok (createParticlesForPreset random preset s).
Proof.
  unfold createParticlesForPreset.
  pose proof (createParticleBuffers_graph (particleCount preset) s) as Hb. cbv zeta in Hb.
  destruct (createParticleBuffers random (particleCount preset) s) as [[ps vs] s1].
  simpl in *. destruct Hb as (Hn & Hc & Hl & Hr & _).
  apply graph_ok_frame; simpl; try done. lia.
Qed.

(** Whatever the key, [switchVisualization] leaves a well-formed graph. *)
Lemma switchVisualization_ok vizKey s :
  graph_ok s → graph_ok (outcome_state (switchVisualization random vizKey s)).
Proof.
  intros Hs. unfold switchVisualization.
  destruct (VIZ_PRESETS vizKey) as [|p|name]; simpl; [done| |].
  - apply updateHUD_ok, createParticlesForPreset_ok, createConnections_ok, createNodes_ok,
      createCoreNode_ok, clearScene_ok.
  - revert Hs. by apply graph_ok_frame.
Qed.
End graph_invariant.

(** C2: in a well-formed graph, after [deleteNode] has removed a node of
    [nodes], every line that is still in [connections] was there before,
    each index it stores ([nodeIndex], [nodeIndex1], [nodeIndex2]) is in
    range for the new [nodes] and names the node object it named before,
    and no line that stored an index of the deleted node is left; the
    graph is well formed again. *)
Theorem deleteNode_indices node s :
  graph_ok s → node ∈ nodes s →
  let s' := deleteNode node s in
  (node ∉ nodes s')
  ∧ (∀ c, c ∈ connections s' →
       c ∈ connections s
       ∧ Forall2 (same_node (nodes s) (nodes s'))
           (stored (line_data s c)) (stored (line_data s' c)))
  ∧ (∀ c, c ∈ connections s → touches (nodes s) (line_data s c) node →
       c ∉ connections s')
  ∧ graph_ok s'.
Proof.
  intros Hs Hin s'. pose proof (deleteNode_ok node s Hs) as Hs'.
  destruct Hs as (H1 & H2 & _ & H4).
  destruct (deleteNode_keeps node s Hin H1 H2 H4) as (K1 & K2 & K3). done.
Qed.

Lemma sample_state_ok : graph_ok sample_state.
Proof.
  unfold graph_ok. simpl.
  split; [repeat (apply NoDup_cons; split; [set_solver|]); apply NoDup_nil_2|].
  split; [repeat (apply NoDup_cons; split; [set_solver|]); apply NoDup_nil_2|].
  split; [|apply sample_state_valid].
  intros r Hr. assert (r = 0 ∨ r = 1 ∨ r = 2 ∨ r = 3 ∨ r = 4 ∨ r = 5) by set_solver. lia.
Qed.

Lemma deleteNode_indices_witness :
  let s' := deleteNode 1 sample_state in
  (1 ∉ nodes s')
  ∧ (∀ c, c ∈ connections s' →
       c ∈ connections sample_state
       ∧ Forall2 (same_node (nodes sample_state) (nodes s'))
           (stored (line_data sample_state c)) (stored (line_data s' c)))
  ∧ (∀ c, c ∈ connections sample_state →
       touches (nodes sample_state) (line_data sample_state c) 1 →
       c ∉ connections s')
  ∧ graph_ok s'.
Proof.
  apply (deleteNode_indices 1 sample_state).
  - apply sample_state_ok.
  - simpl. set_solver.
Defined.

(** ** The pulses stay well formed *)

Lemma pulses_ok_empty : pulses_ok empty_state.
Proof.
  unfold pulses_ok. simpl. split; [apply NoDup_nil_2|].
  intros p Hp. by apply elem_of_nil in Hp.
Qed.

Lemma advance_pulse_next_ref acc x : next_ref (advance_pulse acc x).2 = next_ref acc.2.
Proof.
  destruct acc as [rm s]. unfold advance_pulse.
  destruct (pulses s !! x); [|done]. by case_decide.
Qed.

Lemma advance_pulses_next_ref xs acc :
  next_ref (foldl advance_pulse acc xs).2 = next_ref acc.2.
Proof.
  revert acc. induction xs as [|x xs IH]; intros acc; cbn [foldl]; [done|].
  by rewrite IH, advance_pulse_next_ref.
Qed.

Lemma remove_pulses_next_ref xs s : next_ref (foldl remove_pulse s xs) = next_ref s.
Proof. revert s. induction xs as [|x xs IH]; intros s; simpl; [done|]. by rewrite IH. Qed.

Lemma animateDataPulses_next_ref s : next_ref (animateDataPulses s) = next_ref s.
Proof.
  unfold animateDataPulses.
  pose proof (advance_pulses_next_ref (dataPulses s) ([], s)) as H.
  destruct (foldl advance_pulse ([], s) (dataPulses s)) as [rm s1]. simpl in *.
  by rewrite remove_pulses_next_ref.
Qed.

Lemma animateDataPulses_ok s : pulses_ok s → pulses_ok (animateDataPulses s).
Proof.
  intros [Hnd Hobj].
  pose proof (animateDataPulses_spec s Hnd) as Hspec. cbv zeta in Hspec.
  destruct Hspec as (Hdp & _ & Hprog).
  unfold pulses_ok. rewrite Hdp, animateDataPulses_next_ref.
  split; [by apply NoDup_filter|].
  intros p [_ Hp]%list_elem_of_filter. destruct (Hobj p Hp) as [Hlt [d Hd]].
  split; [done|]. destruct (Hprog p d Hp Hd) as (d' & -> & _). by eexists.
Qed.

(** C10: in a well-formed state, after a call of [animateDataPulses]
    every pulse still in [dataPulses] has progress below 1, and every
    pulse of the array whose progress the call brought to 1 or more is
    gone from [dataPulses] and from the scene; the state is well formed
    again. *)
Theorem animateDataPulses_progress s :
  pulses_ok s →
  let s' := animateDataPulses s in
  (∀ p, p ∈ dataPulses s' → ∃ d, pulses s' !! p = Some d ∧ (progress d < 1)%R)
  ∧ (∀ p d, p ∈ dataPulses s → pulses s' !! p = Some d → (1 <= progress d)%R →
       (p ∉ dataPulses s') ∧ (p ∉ scene s'))
  ∧ pulses_ok s'.
Proof.
  intros Hok s'. pose proof (animateDataPulses_ok s Hok) as Hok'. fold s' in Hok'.
  destruct Hok as [Hnd Hobj].
  pose proof (animateDataPulses_spec s Hnd) as Hspec. cbv zeta in Hspec.
  fold s' in Hspec. destruct Hspec as (Hdp & Hsc & Hprog).
  assert (Hdone : ∀ p d, p ∈ dataPulses s → pulses s' !! p = Some d →
            (1 <= progress d)%R → completes s p).
  { intros p d Hp Hd Hge. destruct (Hobj p Hp) as [_ [d0 Hd0]].
    destruct (Hprog p d0 Hp Hd0) as (d' & Hd' & Heq).
    unfold completes. rewrite Hd0. rewrite Hd in Hd'. injection Hd' as <-. lra. }
  split; [|split; [|done]].
  - intros p Hp. rewrite Hdp in Hp. apply list_elem_of_filter in Hp as [Hnot Hp].
    destruct (Hobj p Hp) as [_ [d0 Hd0]].
    destruct (Hprog p d0 Hp Hd0) as (d' & Hd' & Heq).
    exists d'. split; [done|]. unfold completes in Hnot. rewrite Hd0 in Hnot. lra.
  - intros p d Hp Hd Hge. pose proof (Hdone p d Hp Hd Hge) as Hc. split.
    + rewrite Hdp. intros [Hnot _]%list_elem_of_filter. done.
    + rewrite Hsc. apply not_elem_of_difference. right.
      apply elem_of_list_to_set, list_elem_of_filter. done.
Qed.

Lemma pulse_state_ok : pulses_ok pulse_state.
Proof.
  unfold pulses_ok. simpl. split.
  - repeat (apply NoDup_cons; split; [set_solver|]). apply NoDup_nil_2.
  - intros p Hp.
    assert (p = 10 ∨ p = 11) as [-> | ->] by set_solver; (split; [lia|]);
      vm_compute; eauto.
Qed.

Lemma animateDataPulses_progress_witness :
  let s' := animateDataPulses pulse_state in
  (∀ p, p ∈ dataPulses s' → ∃ d, pulses s' !! p = Some d ∧ (progress d < 1)%R)
  ∧ (∀ p d, p ∈ dataPulses pulse_state → pulses s' !! p = Some d → (1 <= progress d)%R →
       (p ∉ dataPulses s') ∧ (p ∉ scene s'))
  ∧ pulses_ok s'.
Proof. apply (animateDataPulses_progress pulse_state), pulse_state_ok. Defined.

Lemma spawnDataPulse_ok (random : nat → R) s :
  pulses_ok s → pulses_ok (outcome_state (spawnDataPulse random s)).
Proof.
  intros [Hnd Hobj]. unfold spawnDataPulse. case_decide; [done|]. simpl.
  destruct (connections s !! _) as [conn|]; [|done].
  destruct (lookup_colors _); [|done]. simpl.
  unfold pulses_ok. simpl. split.
  - apply NoDup_app. split; [done|]. split; [|apply NoDup_singleton].
    intros p Hp Hp'. apply list_elem_of_singleton in Hp'. subst p.
    destruct (Hobj _ Hp). lia.
  - intros p [Hp|Hp]%elem_of_app.
    + destruct (Hobj p Hp) as [Hlt Hsome]. split; [lia|].
      rewrite lookup_insert_ne by lia. done.
    + apply list_elem_of_singleton in Hp. subst p. split; [lia|].
      rewrite lookup_insert_eq. by eexists.
Qed.

(** ** The sample states, evaluated *)

(** Deleting node 1 of the sample graph drops the line 5 that joined it to
    node 2, and the line 4 between the nodes 0 and 2 now stores the
    indices 0 and 1. *)
Example deleteNode_sample :
  nodes (deleteNode 1 sample_state) = [0; 2]
  ∧ connections (deleteNode 1 sample_state) = [3; 4]
  ∧ stored (line_data (deleteNode 1 sample_state) 3) = [Some 0%Z; None; None]
  ∧ stored (line_data (deleteNode 1 sample_state) 4) = [None; Some 0%Z; Some 1%Z]
  ∧ hud_connection_count (deleteNode 1 sample_state) = 2.
Proof. vm_compute. done. Qed.

(** Of the two sample pulses, the one that reaches the end of its line is
    removed and the other advances. *)
Example animateDataPulses_sample :
  dataPulses (animateDataPulses pulse_state) = [11]
  ∧ (10 ∉ scene (animateDataPulses pulse_state))
  ∧ 11 ∈ scene (animateDataPulses pulse_state).
Proof.
  assert (Hnd : NoDup (dataPulses pulse_state)).
  { simpl. repeat (apply NoDup_cons; split; [set_solver|]). apply NoDup_nil_2. }
  pose proof (animateDataPulses_spec pulse_state Hnd) as Hspec. cbv zeta in Hspec.
  destruct Hspec as (Hdp & Hsc & _).
  assert (H10 : completes pulse_state 10).
  { unfold completes. replace (pulses pulse_state !! 10) with
      (Some (mkPulse Vector3_new (9/10) (3/10) Vector3_new Vector3_new (99/100) (2/100)))
      by reflexivity. simpl. lra. }
  assert (H11 : ¬ completes pulse_state 11).
  { unfold completes. replace (pulses pulse_state !! 11) with
      (Some (mkPulse Vector3_new (9/10) (3/10) Vector3_new Vector3_new (1/10) (3/100)))
      by reflexivity. simpl. lra. }
  rewrite Hdp, Hsc. simpl dataPulses.
  rewrite !filter_cons, !filter_nil.
  rewrite (decide_False (P := ¬ completes pulse_state 10)) by tauto.
  rewrite (decide_True (P := ¬ completes pulse_state 11)) by done.
  rewrite (decide_True (P := completes pulse_state 10)) by done.
  rewrite (decide_False (P := completes pulse_state 11)) by done.
  simpl. split; [done|]. split; set_solver.
Qed.

(** With [Math.random] returning 0.5, a frame of the sample rain resets
    the first drop to (0, 15, 0) and lowers the second by 1/32. *)
Example rain_sample :
  let P' := (matrix_frame (λ _, (1/2)%R) (positions rain) (velocities rain) 0).1 in
  P' !!! 0 = 0%R ∧ P' !!! 1 = 15%R ∧ P' !!! 2 = 0%R
  ∧ P' !!! 3 = 4%R ∧ P' !!! 4 = (159/32)%R ∧ P' !!! 5 = 6%R.
Proof.
  pose proof (matrix_frame_spec (λ _, (1/2)%R) (positions rain) (velocities rain) 0 2
                eq_refl) as Hf.
  cbv zeta in Hf. destruct Hf as (_ & _ & Hdrops). cbv zeta.
  destruct (Hdrops 0 ltac:(lia)) as [H0 _]. destruct (Hdrops 1 ltac:(lia)) as [_ H1].
  cbv zeta in H0, H1.
  assert (F0 : fallen (positions rain) (velocities rain) 0 = (- (641/64))%R).
  { unfold fallen, fall_speed, rain. cbn [positions velocities].
    change (3 * 0 + 1) with 1. cbn [lookup_total list_lookup_total].
    replace (- (639 / 64) - - - (1 / 32))%R with (- (641/64))%R by lra.
    apply (fround_exact _ 3 (-10502144)); [lia| |].
    - rewrite Rabs_Ropp, Rabs_pos_eq by lra. simpl. lra.
    - simpl. lra. }
  assert (F1 : fallen (positions rain) (velocities rain) 1 = (159/32)%R).
  { unfold fallen, fall_speed, rain. cbn [positions velocities].
    change (3 * 1 + 1) with 4. cbn [lookup_total list_lookup_total].
    replace (5 - - - (1 / 32))%R with (159/32)%R by lra.
    apply (fround_exact _ 2 10420224); [lia| |].
    - rewrite Rabs_pos_eq by lra. simpl. lra.
    - simpl. lra. }
  rewrite F0 in H0. rewrite F1 in H1.
  destruct H0 as (Hy & Hx & Hz); [lra|].
  destruct H1 as (Hy1 & Hx1 & Hz1); [lra|].
  change (3 * 0 + 1)%nat with 1%nat in *. change (3 * 0 + 2)%nat with 2%nat in *.
  change (3 * 0)%nat with 0%nat in *. change (3 * 1 + 1)%nat with 4%nat in *.
  change (3 * 1 + 2)%nat with 5%nat in *. change (3 * 1)%nat with 3%nat in *.
  rewrite Hy, Hx, Hz, Hy1, Hx1, Hz1.
  rewrite !(fround_zero ((1 / 2 - 5 / 10) * 20)) by lra. done.
Qed.

(** At the start of a frame of the sample swarm, the first boid has one
    neighbour, the second boid, for separation as well as for alignment
    and cohesion; the third boid is out of sight. *)
Example boids_sample :
  let P := positions boids in
  let V := [1; 0; 0; 0; 1/128; 0; 0; 0; 1/128]%R in
  sepCount (flock P V 0) = 1 ∧ alignCount (flock P V 0) = 1 ∧ cohCount (flock P V 0) = 1
  ∧ align (flock P V 0) = mkVector3 0 (1/128) 0
  ∧ coh (flock P V 0) = mkVector3 (5/10) 0 0.
Proof.
  cbv zeta. rewrite flock_is_described. unfold flock_described, flock_over. cbv zeta.
  change (stride3 (length (positions boids))) with [0; 3; 6].
  set (P := positions boids).
  assert (D3 : boid_distance P 0 3 = (5/10)%R).
  { unfold boid_distance, P. simpl.
    replace ((5/10 - 0) * (5/10 - 0) + (0 - 0) * (0 - 0) + (0 - 0) * (0 - 0))%R
      with ((5/10) * (5/10))%R by lra.
    apply sqrt_square. lra. }
  assert (D6 : (3 <= boid_distance P 0 6)%R).
  { unfold boid_distance, P. simpl.
    rewrite <- (sqrt_square 3) at 1 by lra. apply sqrt_le_1_alt. lra. }
  assert (N0 : ∀ r, ¬ near P 0 r 0) by (intros r [H _]; done).
  assert (N3 : ∀ r, (5/10 < r)%R → near P 0 r 3).
  { intros r Hr. unfold near. rewrite D3. split; [done|]. lra. }
  assert (N6 : ∀ r, (r <= 3)%R → ¬ near P 0 r 6).
  { intros r Hr (_ & H & _). lra. }
  unfold separationDist, perceptionRadius.
  rewrite !filter_cons, !filter_nil.
  rewrite !(decide_False (P := near P 0 _ 0)) by apply N0.
  rewrite !(decide_True (P := near P 0 _ 3)) by (apply N3; lra).
  rewrite !(decide_False (P := near P 0 _ 6)) by (apply N6; lra).
  simpl. repeat split; apply Vector3_eq; simpl; lra.
Qed.

(** With [Math.random] returning 0.5 the turbulence vanishes: the first
    sample storm particle keeps its velocity, the second one crosses the
    boundary and has its velocity reversed and damped. *)
Example gale_sample :
  let r := storm_frame (λ _, (1/2)%R) (positions gale) [1/100; 0; 0; 0; 1/100; 0]%R 0 in
  r.1.1 !!! 0 = (101/100)%R ∧ r.1.2 !!! 0 = (1/100)%R
  ∧ r.1.1 !!! 4 = (1501/100)%R ∧ r.1.2 !!! 4 = (- (8/1000))%R.
Proof.
  pose proof (storm_frame_spec (λ _, (1/2)%R) (positions gale)
                [1/100; 0; 0; 0; 1/100; 0]%R 0 2 eq_refl eq_refl) as Hf.
  cbv zeta in Hf. destruct Hf as (_ & _ & Hok). cbv zeta.
  pose proof (Hok 0 ltac:(lia)) as H0. pose proof (Hok 1 ltac:(lia)) as H1.
  unfold storm_ok, gale in *. cbn [positions] in *. cbv zeta in H0, H1.
  destruct H0 as (Hx0 & _ & _ & Hv0 & _). destruct H1 as (_ & Hy1 & _ & _ & Hv1 & _).
  change (3 * 0)%nat with 0%nat in *. change (3 * 1 + 1)%nat with 4%nat in *.
  rewrite Hx0, Hv0, Hy1, Hv1. simpl.
  rewrite decide_False; [rewrite decide_True|].
  - repeat split; lra.
  - rewrite <- (sqrt_square 15) at 1 by lra. apply sqrt_lt_1_alt. lra.
  - apply Rle_not_lt. rewrite <- (sqrt_square 15) at 1 by lra. apply sqrt_le_1_alt. lra.
Qed.

(** The cursor of the sample state pulls the second drop, which is two
    units away, by 0.005 / 4 of the distance, and leaves the first. *)
Example cursor_sample :
  let P' := gravity_frame (mouseWorld cursor_state) (positions rain) in
  P' !!! 1 = (- (639/64))%R ∧ P' !!! 3 = 4%R ∧ P' !!! 4 = 5%R ∧ P' !!! 5 = (60025/10000)%R.
Proof.
  pose proof (gravity_frame_spec (mouseWorld cursor_state) (positions rain) 2 eq_refl) as Hf.
  cbv zeta in Hf. destruct Hf as [_ Hok]. cbv zeta.
  pose proof (Hok 0 ltac:(lia)) as H0. pose proof (Hok 1 ltac:(lia)) as H1.
  unfold gravity_ok, rain, cursor_state in *. cbn [positions mouseWorld] in *.
  cbv zeta in H0, H1.
  change (3 * 0 + 1)%nat with 1%nat in *. change (3 * 0 + 2)%nat with 2%nat in *.
  change (3 * 0)%nat with 0%nat in *. change (3 * 1 + 1)%nat with 4%nat in *.
  change (3 * 1 + 2)%nat with 5%nat in *. change (3 * 1)%nat with 3%nat in *.
  simpl in H0, H1.
  assert (D1 : sqrt ((4 - 4) * (4 - 4) + (5 - 5) * (5 - 5) + (8 - 6) * (8 - 6)) = 2%R).
  { replace ((4 - 4) * (4 - 4) + (5 - 5) * (5 - 5) + (8 - 6) * (8 - 6))%R with (2 * 2)%R by lra.
    apply sqrt_square. lra. }
  assert (D0 : (5 <= sqrt ((4 - 1) * (4 - 1) + (5 - - (639 / 64)) * (5 - - (639 / 64))
                           + (8 - 2) * (8 - 2)))%R).
  { rewrite <- (sqrt_square 5) at 1 by lra. apply sqrt_le_1_alt. lra. }
  rewrite D1 in H1. destruct H0 as [_ H0]. destruct H1 as [H1 _].
  destruct (H0 (or_intror D0)) as (_ & Hy0 & _).
  destruct H1 as (Hx1 & Hy1 & Hz1); [lra|].
  rewrite Hy0, Hx1, Hy1, Hz1. repeat split; lra.
Qed.

(** * Further properties of the code *)

(** ** Creating the particles *)

Section particle_creation.
Variable random : nat → R.

Lemma createParticle_shape s :
  let r := createParticle random s in
  length r.1.1 = 3 ∧ length r.1.2 = 3
  ∧ currentViz r.2 = currentViz s ∧ CONFIG r.2 = CONFIG s
  ∧ scene r.2 = scene s ∧ particleSystem r.2 = particleSystem s
  ∧ next_ref r.2 = next_ref s ∧ dataPulses r.2 = dataPulses s.
Proof. cbv zeta. unfold createParticle. repeat case_decide; simpl; done. Qed.

Lemma createParticleBuffers_shape n s :
  let r := createParticleBuffers random n s in
  length r.1.1 = 3 * n ∧ length r.1.2 = 3 * n
  ∧ currentViz r.2 = currentViz s ∧ CONFIG r.2 = CONFIG s
  ∧ scene r.2 = scene s ∧ particleSystem r.2 = particleSystem s
  ∧ next_ref r.2 = next_ref s ∧ dataPulses r.2 = dataPulses s.
Proof.
  revert s. induction n as [|n IH]; intros s; cbv zeta; cbn [createParticleBuffers].
  - simpl. repeat split; lia.
  - pose proof (createParticle_shape s) as Hp. cbv zeta in Hp.
    destruct (createParticle random s) as [[p v] s1]. cbn [fst snd] in Hp.
    specialize (IH s1). cbv zeta in IH.
    destruct (createParticleBuffers random n s1) as [[ps vs] s2]. cbn [fst snd] in *.
    destruct Hp as (P1 & P2 & P3 & P4 & P5 & P6 & P7 & P8).
    destruct IH as (I1 & I2 & I3 & I4 & I5 & I6 & I7 & I8).
    rewrite !length_app. repeat split; try congruence; lia.
Qed.

(** X1: [createParticlesForPreset] installs a particle system whose
    position and velocity buffers both have exactly three entries per
    particle of the preset, which remembers the preset, starts unrotated
    and is an object of the scene. *)
Theorem createParticlesForPreset_buffers preset s :
  ∃ ps V,
    particleSystem (createParticlesForPreset random preset s) = Some ps
    ∧ velocities ps = Some V
    ∧ length (positions ps) = 3 * particleCount preset
    ∧ length V = 3 * particleCount preset
    ∧ pts_preset ps = Some preset ∧ rotation_y ps = 0%R
    ∧ pts_id ps ∈ scene (createParticlesForPreset random preset s).
Proof.
  unfold createParticlesForPreset.
  pose proof (createParticleBuffers_shape (particleCount preset) s) as Hb. cbv zeta in Hb.
  destruct (createParticleBuffers random (particleCount preset) s) as [[ps vs] s1].
  cbn [fst snd] in Hb. destruct Hb as (H1 & H2 & _). simpl.
  eexists _, _. repeat split; try done. simpl. set_solver.
Qed.

Lemma triple_app_l (p ps : list R) : length p = 3 → triple (p ++ ps) 0 = triple p 0.
Proof. intros Hp. unfold triple. by rewrite !lookup_total_app_l by (simpl; lia). Qed.

Lemma triple_app_r (p ps : list R) k :
  length p = 3 → triple (p ++ ps) (3 * S k) = triple ps (3 * k).
Proof.
  intros Hp. unfold triple. rewrite !lookup_total_app_r by lia. rewrite Hp.
  replace (3 * S k - 3) with (3 * k) by lia.
  replace (3 * S k + 1 - 3) with (3 * k + 1) by lia.
  replace (3 * S k + 2 - 3) with (3 * k + 2) by lia. done.
Qed.

(** What holds of each created particle holds of each triple of the
    buffers. *)
Lemma createParticleBuffers_each (Q : Vector3 → Vector3 → Prop) n s :
  (∀ s', currentViz s' = currentViz s → CONFIG s' = CONFIG s →
     Q (triple (createParticle random s').1.1 0) (triple (createParticle random s').1.2 0)) →
  ∀ k, k < n →
    Q (triple (createParticleBuffers random n s).1.1 (3 * k))
      (triple (createParticleBuffers random n s).1.2 (3 * k)).
Proof.
  revert s. induction n as [|n IH]; intros s HQ k Hk; [lia|].
  cbn [createParticleBuffers].
  pose proof (createParticle_shape s) as Hp. cbv zeta in Hp.
  pose proof (HQ s eq_refl eq_refl) as HQ0.
  destruct (createParticle random s) as [[p v] s1]. cbn [fst snd] in Hp, HQ0.
  destruct Hp as (P1 & P2 & P3 & P4 & _).
  specialize (IH s1).
  destruct (createParticleBuffers random n s1) as [[ps vs] s2]. cbn [fst snd] in *.
  destruct k as [|k].
  - change (3 * 0) with 0. by rewrite !triple_app_l.
  - rewrite !triple_app_r by done. apply IH; [|lia].
    intros s' Hv Hc. apply HQ; congruence.
Qed.

Lemma spherical_length radius theta phi :
  (0 <= radius)%R → v_length (spherical radius theta phi) = radius.
Proof.
  intros Hr. unfold v_length, dot, spherical. simpl.
  pose proof (sin2_cos2 theta) as Ht. pose proof (sin2_cos2 phi) as Hp.
  unfold Rsqr in Ht, Hp.
  replace (radius * sin phi * cos theta * (radius * sin phi * cos theta)
           + radius * sin phi * sin theta * (radius * sin phi * sin theta)
           + radius * cos phi * (radius * cos phi))%R
    with (radius * radius
          * (sin phi * sin phi * (sin theta * sin theta + cos theta * cos theta)
             + cos phi * cos phi))%R by ring.
  rewrite Ht, Rmult_1_r, Hp, Rmult_1_r. by apply sqrt_square.
Qed.

Section with_range.
Hypothesis random_range : ∀ n, (0 <= random n < 1)%R.

(** X2: in the matrix visualization every created particle is stored
    with x and z in [-10, 10], y in [-5, 15] and a velocity that points
    straight down, with a fall speed between the float32 values nearest
    to 0.02 and to 0.05. *)
Theorem createParticlesForPreset_matrix preset s :
  currentViz s = "matrix" →
  ∃ ps V,
    particleSystem (createParticlesForPreset random preset s) = Some ps
    ∧ velocities ps = Some V
    ∧ ∀ k, k < particleCount preset →
        let p := triple (positions ps) (3 * k) in
        let v := triple V (3 * k) in
        (-10 <= v_x p <= 10)%R ∧ (-5 <= v_y p <= 15)%R ∧ (-10 <= v_z p <= 10)%R
        ∧ v_x v = 0%R ∧ v_z v = 0%R
        ∧ (5368709 / 2 ^ 28 <= fall_speed (Some V) k <= 13421773 / 2 ^ 28)%R.
Proof.
  intros Hviz. unfold createParticlesForPreset.
  pose proof (createParticleBuffers_each
    (λ p v, (-10 <= v_x p <= 10)%R ∧ (-5 <= v_y p <= 15)%R ∧ (-10 <= v_z p <= 10)%R
            ∧ v_x v = 0%R ∧ v_z v = 0%R
            ∧ (5368709 / 2 ^ 28 <= - v_y v <= 13421773 / 2 ^ 28)%R)
    (particleCount preset) s) as Heach.
  destruct (createParticleBuffers random (particleCount preset) s) as [[ps vs] s1].
  cbn [fst snd] in Heach. simpl. eexists _, _. split; [done|]. split; [done|]. simpl.
  intros k Hk. apply Heach; [|done].
  intros s' Hv _. unfold createParticle. rewrite Hv, Hviz.
  rewrite decide_True by done. cbn [Math_random fst snd rng set_rng triple v_x v_y v_z].
  unfold triple. cbn [lookup_total list_lookup_total Nat.add v_x v_y v_z].
  set (r1 := random (rng s')). set (r2 := random (S (rng s'))).
  set (r3 := random (S (S (rng s')))). set (r4 := random (S (S (S (rng s'))))).
  pose proof (random_range (rng s')) as R1. pose proof (random_range (S (rng s'))) as R2.
  pose proof (random_range (S (S (rng s')))) as R3.
  pose proof (random_range (S (S (S (rng s'))))) as R4. fold r1 r2 r3 r4 in R1, R2, R3, R4.
  pose proof (fround_between (-5) 15 (r2 * 20 - 5) ltac:(lra)) as Hy.
  rewrite fround_m5, fround_15 in Hy.
  pose proof (fround_between (- (5/100)) (- (2/100)) (- (2/100) - r4 * (3/100)) ltac:(lra))
    as Hf.
  rewrite !fround_opp, fround_2_100, fround_5_100 in Hf.
  split; [apply fround_spread; lra|]. split; [done|].
  split; [apply fround_spread; lra|]. split; [done|]. split; [done|]. lra.
Qed.

(** X3: outside the matrix visualization a created particle is stored at
    the float32 rounding of a point within the radius the visualization
    prescribes, twice the field size for the storm, 2.5 times for the
    swarm and 1.5 times otherwise; storm and swarm particles get velocity
    components of at most 0.01 in magnitude, the others a zero
    velocity. *)
Theorem createParticlesForPreset_sphere preset s :
  currentViz s ≠ "matrix" → (0 <= fieldSize (CONFIG s))%R →
  ∃ ps V,
    particleSystem (createParticlesForPreset random preset s) = Some ps
    ∧ velocities ps = Some V
    ∧ ∀ k, k < particleCount preset →
        let p := triple (positions ps) (3 * k) in
        let v := triple V (3 * k) in
        (currentViz s = "storm" →
           stored_within p (fieldSize (CONFIG s) * 2)
           ∧ (Rabs (v_x v) <= 1/100)%R ∧ (Rabs (v_y v) <= 1/100)%R
           ∧ (Rabs (v_z v) <= 1/100)%R)
        ∧ (currentViz s = "swarm" →
             stored_within p (fieldSize (CONFIG s) * (25/10))
             ∧ (Rabs (v_x v) <= 1/100)%R ∧ (Rabs (v_y v) <= 1/100)%R
             ∧ (Rabs (v_z v) <= 1/100)%R)
        ∧ (currentViz s ≠ "storm" → currentViz s ≠ "swarm" →
             stored_within p (fieldSize (CONFIG s) * (15/10)) ∧ v = Vector3_new).
Proof.
  intros Hviz Hfs. unfold createParticlesForPreset.
  pose proof (createParticleBuffers_each
    (λ p v,
       (currentViz s = "storm" →
          stored_within p (fieldSize (CONFIG s) * 2)
          ∧ (Rabs (v_x v) <= 1/100)%R ∧ (Rabs (v_y v) <= 1/100)%R
          ∧ (Rabs (v_z v) <= 1/100)%R)
       ∧ (currentViz s = "swarm" →
            stored_within p (fieldSize (CONFIG s) * (25/10))
            ∧ (Rabs (v_x v) <= 1/100)%R ∧ (Rabs (v_y v) <= 1/100)%R
            ∧ (Rabs (v_z v) <= 1/100)%R)
       ∧ (currentViz s ≠ "storm" → currentViz s ≠ "swarm" →
            stored_within p (fieldSize (CONFIG s) * (15/10)) ∧ v = Vector3_new))
    (particleCount preset) s) as Heach.
  destruct (createParticleBuffers random (particleCount preset) s) as [[ps vs] s1].
  cbn [fst snd] in Heach. simpl. eexists _, _. split; [done|]. split; [done|]. simpl.
  intros k Hk. apply Heach; [|done].
  intros s' Hv Hc. unfold createParticle. rewrite Hv.
  rewrite decide_False by done.
  pose proof (random_range (rng s')) as R0.
  assert (Hlen : ∀ c radius theta phi,
            (0 <= c)%R → radius = (fieldSize (CONFIG s) * c * random (rng s'))%R →
            stored_within (triple [fround (v_x (spherical radius theta phi));
                                   fround (v_y (spherical radius theta phi));
                                   fround (v_z (spherical radius theta phi))] 0)
              (fieldSize (CONFIG s) * c)).
  { intros c radius theta phi Hc0 ->.
    exists (spherical (fieldSize (CONFIG s) * c * random (rng s')) theta phi).
    split; [done|].
    assert (H0 : (0 <= fieldSize (CONFIG s) * c)%R) by (apply Rmult_le_pos; lra).
    rewrite spherical_length by (apply Rmult_le_pos; lra). nra. }
  assert (Hvel : ∀ n, (Rabs (fround ((random n - 5/10) * (2/100))) <= 1/100)%R).
  { intros n. pose proof (random_range n) as Rn.
    pose proof (fround_between (- (1/100)) (1/100) ((random n - 5/10) * (2/100)) ltac:(lra))
      as Hb.
    rewrite fround_opp, fround_1_100 in Hb. apply Rabs_le. simpl in Hb. lra. }
  destruct (decide (currentViz s = "storm")) as [Hst|Hst];
    [|destruct (decide (currentViz s = "swarm")) as [Hsw|Hsw]]; simpl; rewrite Hc.
  - split; [intros _|split; [intros E; rewrite Hst in E; discriminate|done]].
    split; [by apply Hlen; [lra|]|]. unfold triple. simpl.
    repeat split; apply Hvel.
  - split; [done|]. split; [intros _|done].
    split; [by apply Hlen; [lra|]|]. unfold triple. simpl.
    repeat split; apply Hvel.
  - split; [done|]. split; [done|]. intros _ _.
    split; [by apply Hlen; [lra|]|]. done.
Qed.
End with_range.
End particle_creation.

(** ** The particle buffers between frames *)

#[local] Arguments swarm_particle : simpl never.

Lemma swarm_frame_lengths P V N :
  length P = 3 * N → length V = 3 * N →
  length (swarm_frame P V).1 = 3 * N ∧ length (swarm_frame P V).2 = 3 * N.
Proof.
  intros HP HV. unfold swarm_frame. rewrite HP.
  apply (stride3_ind swarm_particle
           (λ _ st, length st.1 = 3 * N ∧ length st.2 = 3 * N)); [done|].
  intros m [P1 V1] Hm [H1 H2]. cbn [fst snd] in *.
  pose proof (swarm_particle_spec P1 V1 m ltac:(lia) ltac:(lia)) as Hs.
  cbv zeta in Hs. destruct Hs as (-> & -> & _). done.
Qed.

Section buffers.
Variable random : nat → R.

Lemma animateParticles_frame s :
  let s' := outcome_state (animateParticles random s) in
  nodes s' = nodes s ∧ connections s' = connections s ∧ dataPulses s' = dataPulses s
  ∧ scene s' = scene s ∧ lines s' = lines s ∧ meshes s' = meshes s
  ∧ pulses s' = pulses s ∧ next_ref s' = next_ref s ∧ currentViz s' = currentViz s.
Proof.
  cbv zeta. unfold animateParticles. destruct (particleSystem s) as [ps|]; [|done].
  destruct (decide (currentViz s = "matrix")); [by destruct (matrix_frame _ _ _ _)|].
  destruct (decide (currentViz s = "storm")).
  { destruct (velocities ps) as [V|]; [|by destruct (pts_preset ps)].
    destruct (storm_frame _ _ _ _) as [[P' V'] n']. by destruct (pts_preset ps). }
  destruct (decide (currentViz s = "swarm")).
  { destruct (velocities ps) as [V|]; [by destruct (swarm_frame _ _)|done]. }
  destruct (decide (currentViz s = "constellation")); [by destruct (pts_preset ps)|done].
Qed.

Lemma animateParticles_keeps_shape s :
  particles_ok s → particles_ok (outcome_state (animateParticles random s)).
Proof.
  unfold particles_ok, animateParticles.
  destruct (particleSystem s) as [ps|] eqn:Hps; [|simpl; by rewrite Hps].
  intros (N & HP & HV).
  destruct (decide (currentViz s = "matrix")).
  { pose proof (matrix_frame_spec random (positions ps) (velocities ps) (rng s) N HP) as Hf.
    cbv zeta in Hf. destruct Hf as [HL _].
    destruct (matrix_frame _ _ _ _) as [P' n']. simpl in *.
    exists N. split; [lia|done]. }
  destruct (decide (currentViz s = "storm")).
  { destruct (velocities ps) as [V|] eqn:HVs.
    - pose proof (storm_frame_spec random (positions ps) V (rng s) N HP (HV V eq_refl)) as Hf.
      cbv zeta in Hf. destruct Hf as (HL1 & HL2 & _).
      destruct (storm_frame _ _ _ _) as [[P' V'] n']. cbn [fst snd] in *.
      destruct (pts_preset ps); simpl; exists N; (split; [done|]); by intros ? [= <-].
    - destruct (pts_preset ps); simpl; exists N; (split; [done|]); by rewrite HVs. }
  destruct (decide (currentViz s = "swarm")).
  { destruct (velocities ps) as [V|] eqn:HVs.
    - destruct (swarm_frame_lengths (positions ps) V N HP (HV V eq_refl)) as [HL1 HL2].
      destruct (swarm_frame _ _) as [P' V']. simpl in *.
      exists N. split; [done|]. by intros ? [= <-].
    - simpl. rewrite Hps. exists N. split; [done|]. by rewrite HVs. }
  destruct (decide (currentViz s = "constellation")).
  { destruct (pts_preset ps); simpl; by exists N. }
  simpl. by exists N.
Qed.
End buffers.

Lemma applyMouseGravity_keeps_shape s : particles_ok s → particles_ok (applyMouseGravity s).
Proof.
  unfold particles_ok, applyMouseGravity.
  destruct (particleSystem s) as [ps|] eqn:Hps; [|by rewrite Hps].
  intros (N & HP & HV). simpl. exists N. split; [|done].
  by apply gravity_frame_spec.
Qed.

(** ** Bounds on the motion of the particles *)

Section motion.
Variable random : nat → R.

(** X4: the particle update of a frame and the mouse-gravity step keep
    the buffers at three entries per particle, whatever the visualization
    and whether or not the update throws; the particle update leaves the
    graph, the pulses and the scene alone. *)
Theorem frame_keeps_buffers s :
  particles_ok s →
  let s' := outcome_state (animateParticles random s) in
  particles_ok s' ∧ particles_ok (applyMouseGravity s')
  ∧ nodes s' = nodes s ∧ connections s' = connections s
  ∧ dataPulses s' = dataPulses s ∧ scene s' = scene s.
Proof.
  intros Hok s'. pose proof (animateParticles_keeps_shape random s Hok) as Hok'.
  fold s' in Hok'. pose proof (animateParticles_frame random s) as Hf. cbv zeta in Hf.
  fold s' in Hf. destruct Hf as (F1 & F2 & F3 & F4 & _).
  split; [done|]. split; [by apply applyMouseGravity_keeps_shape|done].
Qed.

(** X5: after a frame of the matrix rain no particle is stored below
    -10: each particle either fell by its fall speed to a stored height
    of at least -10 or was put back at height 15. *)
Theorem animateParticles_matrix_floor s ps N :
  particleSystem s = Some ps → currentViz s = "matrix" →
  length (positions ps) = 3 * N →
  ∃ s' ps',
    animateParticles random s = Returned s' ∧ particleSystem s' = Some ps'
    ∧ ∀ k, k < N →
        let y := fallen (positions ps) (velocities ps) k in
        let y' := positions ps' !!! (3 * k + 1)%nat in
        (-10 <= y')%R ∧ (y' = 15%R ∨ y' = y).
Proof.
  intros Hps Hviz Hlen. unfold animateParticles. rewrite Hps, Hviz.
  rewrite decide_True by done.
  pose proof (matrix_frame_spec random (positions ps) (velocities ps) (rng s) N Hlen) as Hf.
  cbv zeta in Hf. destruct Hf as (_ & _ & Hdrops).
  destruct (matrix_frame random (positions ps) (velocities ps) (rng s)) as [P' n'].
  simpl in *. eexists _, _. split; [done|]. split; [done|]. simpl.
  intros k Hk. destruct (Hdrops k Hk) as [Hlt Hge].
  destruct (decide (fallen (positions ps) (velocities ps) k < -10)%R) as [Hy|Hy].
  - destruct (Hlt Hy) as [-> _]. split; [lra|by left].
  - destruct (Hge Hy) as [-> _]. split; [lra|by right].
Qed.

(** X6: in a swarm frame every particle is moved by the velocity
    computed for it in that frame, as it is before it is rounded and
    stored: the new position is the float32 rounding of a point that is
    no farther than 0.03 from the old position. *)
Theorem animateParticles_swarm_step s ps V N :
  particleSystem s = Some ps → currentViz s = "swarm" → velocities ps = Some V →
  length (positions ps) = 3 * N → length V = 3 * N →
  ∃ s' ps' V',
    animateParticles random s = Returned s' ∧ particleSystem s' = Some ps'
    ∧ velocities ps' = Some V'
    ∧ ∀ k, k < N →
        let p := triple (positions ps) (3 * k) in
        let v := clamped (steered (swarm_after k (positions ps) V).1
                                  (swarm_after k (positions ps) V).2 (3 * k)) in
        triple (positions ps') (3 * k) = fround3 (v_add p v)
        ∧ triple V' (3 * k) = fround3 v
        ∧ (distanceTo (v_add p v) p <= 3/100)%R.
Proof.
  intros Hps Hviz HV HLP HLV.
  destruct (animateParticles_swarm random s ps V Hps Hviz HV)
    as (s' & ps' & Hret & Hps' & HP' & HV').
  exists s', ps', (swarm_frame (positions ps) V).2.
  split; [done|]. split; [done|]. split; [done|].
  intros k Hk. cbv zeta. rewrite HP'.
  destruct (swarm_frame_spec (positions ps) V N HLP HLV) as [_ Heach].
  destruct (Heach k Hk) as (_ & _ & Hv & Hp). split; [done|]. split; [done|].
  match goal with |- context [clamped ?u] =>
    destruct (clamped_bound u) as (Hb & _ & _); set (w := clamped u) in * end.
  unfold distanceTo.
  replace (v_sub (v_add (triple (positions ps) (3 * k)) w) (triple (positions ps) (3 * k)))
    with w; [done|].
  apply Vector3_eq; simpl; lra.
Qed.
End motion.


(** ** Creating the nodes *)

Section node_creation.
Variable random : nat → R.
Hypothesis random_range : ∀ n, (0 <= random n < 1)%R.

Lemma createNode_spec s :
  (0 <= fieldSize (CONFIG s))%R →
  let s' := createNode random s in
  nodes s' = nodes s ++ [next_ref s] ∧ next_ref s' = S (next_ref s)
  ∧ scene s' = scene s ∪ {[next_ref s]}
  ∧ (∃ d, meshes s' !! next_ref s = Some d ∧ in_shell (fieldSize (CONFIG s)) d)
  ∧ (∀ x, x ≠ next_ref s → meshes s' !! x = meshes s !! x)
  ∧ connections s' = connections s ∧ lines s' = lines s ∧ CONFIG s' = CONFIG s
  ∧ currentViz s' = currentViz s ∧ dataPulses s' = dataPulses s
  ∧ particleSystem s' = particleSystem s ∧ coreNode s' = coreNode s.
Proof.
  intros Hfs. cbv zeta. unfold createNode. simpl.
  split; [done|]. split; [done|]. split; [done|]. split.
  - eexists. rewrite lookup_insert_eq. split; [done|].
    unfold in_shell. simpl. split; [|done].
    pose proof (random_range (rng s)) as Hr.
    assert (H0 : (0 <= fieldSize (CONFIG s) * (3/10 + random (rng s) * (7/10)))%R)
      by (apply Rmult_le_pos; lra).
    rewrite spherical_length by done. split; nra.
  - split; [by intros x Hx; rewrite lookup_insert_ne|done].
Qed.

Lemma createNodes_spec n s :
  (0 <= fieldSize (CONFIG s))%R →
  let s' := Nat.iter n (createNode random) s in
  nodes s' = nodes s ++ seq (next_ref s) n ∧ next_ref s' = next_ref s + n
  ∧ scene s' = scene s ∪ list_to_set (seq (next_ref s) n)
  ∧ (∀ x, x ∈ seq (next_ref s) n →
       ∃ d, meshes s' !! x = Some d ∧ in_shell (fieldSize (CONFIG s)) d)
  ∧ (∀ x, x < next_ref s → meshes s' !! x = meshes s !! x)
  ∧ connections s' = connections s ∧ lines s' = lines s ∧ CONFIG s' = CONFIG s
  ∧ currentViz s' = currentViz s ∧ dataPulses s' = dataPulses s
  ∧ particleSystem s' = particleSystem s ∧ coreNode s' = coreNode s.
Proof.
  intros Hfs. cbv zeta. induction n as [|n IH]; cbn [Nat.iter].
  - simpl. rewrite app_nil_r. repeat split; try done; try lia; try set_solver.
  - destruct IH as (I1 & I2 & I3 & I4 & I5 & I6 & I7 & I8 & I9 & I10 & I11 & I12).
    change (Nat.iter (S n) (createNode random) s)
      with (createNode random (Nat.iter n (createNode random) s)).
    set (s1 := Nat.iter n (createNode random) s) in *.
    assert (Hfs1 : (0 <= fieldSize (CONFIG s1))%R) by (by rewrite I8).
    pose proof (createNode_spec s1 Hfs1) as Hc. cbv zeta in Hc.
    destruct Hc as (C1 & C2 & C3 & (d & Hd & Hshell) & C5 & C6 & C7 & C8 & C9 & C10 & C11 & C12).
    rewrite seq_S. rewrite I2 in *.
    split; [by rewrite C1, I1, <- app_assoc|]. split; [lia|]. split.
    { rewrite C3, I3, list_to_set_app_L. set_solver. }
    split.
    { intros x [Hx|Hx]%elem_of_app.
      - destruct (I4 x Hx) as (dx & Hdx & Hsx). exists dx. split; [|done].
        rewrite C5; [done|]. apply elem_of_seq in Hx. lia.
      - apply list_elem_of_singleton in Hx. subst x. exists d. split; [done|].
        by rewrite <- I8. }
    split.
    { intros x Hx. rewrite C5 by lia. by apply I5. }
    repeat split; congruence.
Qed.

(** X8: [createNodes] appends exactly [CONFIG.nodeCount] new node objects
    to [nodes] (none when the count is undefined) and adds them to the
    scene; each is placed at rest at its original position, at a distance
    from the origin between 0.3 and 1 times the field size; connections
    and the nodes already there are left alone. *)
Theorem createNodes_shell s :
  (0 <= fieldSize (CONFIG s))%R →
  let s' := createNodes random s in
  ∃ new,
    nodes s' = nodes s ++ new
    ∧ length new = default 0 (nodeCount (CONFIG s))
    ∧ connections s' = connections s
    ∧ ∀ x, x ∈ new →
        x ∈ scene s'
        ∧ ∃ d, meshes s' !! x = Some d ∧ in_shell (fieldSize (CONFIG s)) d.
Proof.
  intros Hfs. cbv zeta. unfold createNodes.
  pose proof (createNodes_spec (default 0 (nodeCount (CONFIG s))) s Hfs) as H.
  cbv zeta in H. destruct H as (H1 & _ & H3 & H4 & _ & H6 & _).
  exists (seq (next_ref s) (default 0 (nodeCount (CONFIG s)))).
  split; [done|]. split; [by rewrite length_seq|]. split; [done|].
  intros x Hx. split; [|by apply H4].
  rewrite H3. apply elem_of_union. right. by apply elem_of_list_to_set.
Qed.
End node_creation.

(** ** Creating the connections *)

Lemma add_lines_spec ds s :
  let s' := foldl (λ s d, add_line d s) s ds in
  connections s' = connections s ++ seq (next_ref s) (length ds)
  ∧ next_ref s' = next_ref s + length ds
  ∧ (∀ k d, ds !! k = Some d → lines s' !! (next_ref s + k) = Some d)
  ∧ (∀ x, x < next_ref s → lines s' !! x = lines s !! x)
  ∧ scene s' = scene s ∪ list_to_set (seq (next_ref s) (length ds))
  ∧ same_geometry s s'
  ∧ dataPulses s' = dataPulses s ∧ particleSystem s' = particleSystem s
  ∧ currentViz s' = currentViz s.
Proof.
  revert s. induction ds as [|d ds IH]; intros s; cbv zeta; cbn [foldl].
  - simpl. rewrite app_nil_r. repeat split; try done; try lia; set_solver.
  - specialize (IH (add_line d s)). cbv zeta in IH.
    destruct IH as (I1 & I2 & I3 & I4 & I5 & (G1 & G2 & G3) & I7 & I8 & I9).
    simpl in I1, I2, I3, I4, I5, G1, G2, G3, I7, I8, I9.
    split; [rewrite I1, <- app_assoc; done|]. split; [simpl; lia|]. split.
    { intros k d' Hk. destruct k as [|k]; simpl in Hk.
      - injection Hk as ->. rewrite Nat.add_0_r, I4 by lia. by rewrite lookup_insert_eq.
      - replace (next_ref s + S k) with (S (next_ref s) + k) by lia. by apply I3. }
    split.
    { intros x Hx. rewrite I4 by lia. rewrite lookup_insert_ne by lia. done. }
    split.
    { rewrite I5. simpl. set_solver. }
    done.
Qed.

Lemma same_geometry_refl s : same_geometry s s.
Proof. done. Qed.

Lemma same_geometry_add_lines ds s s' :
  same_geometry s s' → same_geometry s (foldl (λ s d, add_line d s) s' ds).
Proof.
  intros (G1 & G2 & G3).
  destruct (add_lines_spec ds s') as (_ & _ & _ & _ & _ & (H1 & H2 & H3) & _).
  unfold same_geometry. rewrite H1, H2, H3. done.
Qed.

Lemma connect_to_core_described s s' i :
  same_geometry s s' →
  connect_to_core i s' = foldl (λ s d, add_line d s) s' (core_line_of s i).
Proof.
  intros (G1 & G2 & G3). unfold connect_to_core, core_line_of, node_position.
  rewrite G1, G2, G3. destruct (nodes s !! i); [|done]. by destruct (lt_opt _ _).
Qed.

Lemma connect_pair_described s s' i j :
  same_geometry s s' →
  connect_pair i s' j = foldl (λ s d, add_line d s) s' (pair_line_of s i j).
Proof.
  intros (G1 & G2 & G3). unfold connect_pair, pair_line_of, node_position.
  rewrite G1, G2, G3. destruct (nodes s !! i); [|done].
  destruct (nodes s !! j); [|done]. by destruct (lt_opt _ _).
Qed.

Lemma connect_new_described s s' newNode i :
  same_geometry s s' →
  connect_new newNode s' i = foldl (λ s d, add_line d s) s' (new_line_of s newNode i).
Proof.
  intros (G1 & G2 & G3). unfold connect_new, new_line_of, node_position.
  rewrite G1, G2, G3. destruct (nodes s !! i); [|done]. by destruct (lt_opt _ _).
Qed.

(** A loop whose turns each add some lines adds the lines of all turns. *)
Lemma foldl_described {A} (f : State → A → State) (g : A → list Line) s xs :
  (∀ s' x, same_geometry s s' → f s' x = foldl (λ s d, add_line d s) s' (g x)) →
  ∀ s', same_geometry s s' →
    foldl f s' xs = foldl (λ s d, add_line d s) s' (flat_map g xs).
Proof.
  intros Hf. induction xs as [|x xs IH]; intros s' Hs'; [done|].
  cbn [foldl flat_map]. rewrite foldl_app, <- Hf by done.
  apply IH. rewrite Hf by done. by apply same_geometry_add_lines.
Qed.

Lemma createConnections_described s :
  createConnections s = foldl (λ s d, add_line d s) s (lines_described s).
Proof.
  unfold createConnections, lines_described.
  apply (foldl_described
           (λ s0 i, foldl (connect_pair i) (connect_to_core i s0)
                      (seq (S i) (length (nodes (connect_to_core i s0)) - S i)))
           (λ i, core_line_of s i
                 ++ flat_map (pair_line_of s i) (seq (S i) (length (nodes s) - S i))) s);
    [|apply same_geometry_refl].
  intros s' i Hs'. rewrite foldl_app.
  rewrite (connect_to_core_described s s' i Hs').
  pose proof (same_geometry_add_lines (core_line_of s i) s s' Hs') as Hs1.
  destruct Hs1 as (G1 & G2 & G3). rewrite G1.
  apply (foldl_described (connect_pair i) (pair_line_of s i) s); [|done].
  intros s2 j Hs2. by apply connect_pair_described.
Qed.

Lemma lt_opt_spec a b : lt_opt a b = true ↔ closer_than a b.
Proof.
  unfold lt_opt, closer_than. destruct b as [c|].
  - rewrite bool_decide_eq_true. split; [by exists c|]. by intros (c' & [= <-] & H).
  - split; [done|]. by intros (c & ? & _).
Qed.

(** The lines added, in the order of their creation *)
Lemma created_lines ds s :
  let s' := foldl (λ s d, add_line d s) s ds in
  new_connections s s' = seq (next_ref s) (length ds)
  ∧ line_data s' <$> new_connections s s' = ds.
Proof.
  cbv zeta. destruct (add_lines_spec ds s) as (H1 & _ & H3 & _).
  unfold new_connections. rewrite H1, drop_app_length. split; [done|].
  apply list_eq. intros k. rewrite list_lookup_fmap.
  destruct (ds !! k) as [d|] eqn:Hk.
  - rewrite lookup_seq_lt by (by eapply lookup_lt_Some). simpl.
    unfold line_data. by rewrite (H3 k d Hk).
  - rewrite lookup_seq_ge; [done|]. by apply lookup_ge_None.
Qed.

Lemma core_line_of_elem s i d :
  d ∈ core_line_of s i ↔
  node_near_core s i
  ∧ ∃ ni, nodes s !! i = Some ni
          ∧ d = core_line Vector3_new (node_position s ni) (Z.of_nat i).
Proof.
  unfold core_line_of, node_near_core. destruct (nodes s !! i) as [ni|].
  - destruct (lt_opt _ _) eqn:Hlt.
    + apply lt_opt_spec in Hlt. rewrite list_elem_of_singleton. split.
      * intros ->. split; [by exists ni|]. by exists ni.
      * by intros (_ & ni' & [= <-] & ->).
    + split; [by intros ?%elem_of_nil|].
      intros ((ni' & [= <-] & Hc) & _). apply lt_opt_spec in Hc. congruence.
  - split; [by intros ?%elem_of_nil|]. by intros ((? & ? & _) & _).
Qed.

Lemma pair_line_of_elem s i j d :
  d ∈ pair_line_of s i j ↔
  nodes_close s i j
  ∧ ∃ ni nj, nodes s !! i = Some ni ∧ nodes s !! j = Some nj
             ∧ d = pair_line (node_position s ni) (node_position s nj)
                     (Z.of_nat i) (Z.of_nat j).
Proof.
  unfold pair_line_of, nodes_close.
  destruct (nodes s !! i) as [ni|]; [destruct (nodes s !! j) as [nj|]|].
  - destruct (lt_opt _ _) eqn:Hlt.
    + apply lt_opt_spec in Hlt. rewrite list_elem_of_singleton. split.
      * intros ->. split; [by exists ni, nj|]. by exists ni, nj.
      * by intros (_ & ni' & nj' & [= <-] & [= <-] & ->).
    + split; [by intros ?%elem_of_nil|].
      intros ((ni' & nj' & [= <-] & [= <-] & Hc) & _). apply lt_opt_spec in Hc. congruence.
  - split; [by intros ?%elem_of_nil|]. by intros ((? & ? & _ & ? & _) & _).
  - split; [by intros ?%elem_of_nil|]. by intros ((? & ? & ? & _) & _).
Qed.

(** X9: the lines that [createConnections] adds are, in order, those
    described by the node positions: a line to the core for exactly the
    nodes nearer to the origin than 1.5 times the connection distance, and
    a line storing the indices i and j for exactly the pairs i < j of nodes
    nearer to each other than the connection distance. *)
Theorem createConnections_exact s :
  let s' := createConnections s in
  line_data s' <$> new_connections s s' = lines_described s
  ∧ nodes s' = nodes s
  ∧ (∀ i, (∃ c, c ∈ new_connections s s' ∧ toCore (line_data s' c) = true
                ∧ nodeIndex (line_data s' c) = Some (Z.of_nat i))
          ↔ node_near_core s i)
  ∧ (∀ i j, (∃ c, c ∈ new_connections s s'
                  ∧ nodeIndex1 (line_data s' c) = Some (Z.of_nat i)
                  ∧ nodeIndex2 (line_data s' c) = Some (Z.of_nat j))
            ↔ i < j ∧ nodes_close s i j).
Proof.
  cbv zeta. rewrite createConnections_described.
  pose proof (created_lines (lines_described s) s) as Hc. cbv zeta in Hc.
  destruct Hc as [_ Hdata].
  destruct (add_lines_spec (lines_described s) s) as (_ & _ & _ & _ & _ & (G1 & _) & _).
  set (s' := foldl (λ s d, add_line d s) s (lines_described s)) in *.
  split; [done|]. split; [done|].
  assert (Helem : ∀ Q : Line → Prop,
            (∃ c, c ∈ new_connections s s' ∧ Q (line_data s' c))
            ↔ ∃ d, d ∈ lines_described s ∧ Q d).
  { intros Q. rewrite <- Hdata. split.
    - intros (c & Hc & HQ). exists (line_data s' c). split; [|done].
      apply list_elem_of_fmap. by exists c.
    - intros (d & Hd & HQ). apply list_elem_of_fmap in Hd as (c & -> & Hc). by exists c. }
  assert (Hdesc : ∀ d, d ∈ lines_described s ↔
            ∃ i, i < length (nodes s)
                 ∧ (d ∈ core_line_of s i
                    ∨ ∃ j, i < j ∧ j < length (nodes s) ∧ d ∈ pair_line_of s i j)).
  { intros d. unfold lines_described. rewrite list_elem_of_In, in_flat_map. split.
    - intros (i & Hi & Hd). apply list_elem_of_In, elem_of_seq in Hi.
      apply list_elem_of_In, elem_of_app in Hd. exists i. split; [lia|].
      destruct Hd as [Hd|Hd]; [by left|right].
      apply list_elem_of_In, in_flat_map in Hd as (j & Hj & Hd).
      apply list_elem_of_In, elem_of_seq in Hj. apply list_elem_of_In in Hd.
      exists j. split; [lia|]. split; [lia|done].
    - intros (i & Hi & Hd). exists i. split; [apply list_elem_of_In, elem_of_seq; lia|].
      apply list_elem_of_In, elem_of_app. destruct Hd as [Hd|(j & Hij & Hj & Hd)]; [by left|].
      right. apply list_elem_of_In, in_flat_map. exists j.
      split; [apply list_elem_of_In, elem_of_seq; lia|by apply list_elem_of_In]. }
  split.
  - intros i.
    rewrite (Helem (λ d, toCore d = true ∧ nodeIndex d = Some (Z.of_nat i))). split.
    + intros (d & Hd & Hcore & Hidx). apply Hdesc in Hd as (i0 & Hi0 & [Hd|(j & _ & _ & Hd)]).
      * apply core_line_of_elem in Hd as (Hnear & ni & Hni & ->). simpl in Hidx.
        injection Hidx as Hidx. apply Nat2Z.inj in Hidx. by subst i0.
      * apply pair_line_of_elem in Hd as (_ & ni & nj & _ & _ & ->). done.
    + intros Hnear. pose proof Hnear as (ni & Hni & _).
      exists (core_line Vector3_new (node_position s ni) (Z.of_nat i)).
      split; [|done]. apply Hdesc. exists i. split; [by eapply lookup_lt_Some|].
      left. apply core_line_of_elem. split; [done|]. by exists ni.
  - intros i j.
    rewrite (Helem (λ d, nodeIndex1 d = Some (Z.of_nat i) ∧ nodeIndex2 d = Some (Z.of_nat j))).
    split.
    + intros (d & Hd & H1 & H2). apply Hdesc in Hd as (i0 & Hi0 & [Hd|(j0 & Hij & Hj0 & Hd)]).
      * apply core_line_of_elem in Hd as (_ & ni & _ & ->). done.
      * apply pair_line_of_elem in Hd as (Hclose & ni & nj & _ & _ & ->). simpl in H1, H2.
        injection H1 as H1. injection H2 as H2.
        apply Nat2Z.inj in H1. apply Nat2Z.inj in H2. subst i0 j0. done.
    + intros (Hij & Hclose). pose proof Hclose as (ni & nj & Hni & Hnj & _).
      exists (pair_line (node_position s ni) (node_position s nj) (Z.of_nat i) (Z.of_nat j)).
      split; [|done]. apply Hdesc. exists i. split; [by eapply lookup_lt_Some|].
      right. exists j. split; [done|]. split; [by eapply lookup_lt_Some|].
      apply pair_line_of_elem. split; [done|]. by exists ni, nj.
Qed.

Lemma connect_new_lines newNode s xs :
  foldl (connect_new newNode) s xs
  = foldl (λ s d, add_line d s) s (flat_map (new_line_of s newNode) xs).
Proof.
  apply (foldl_described (connect_new newNode) (new_line_of s newNode) s);
    [|apply same_geometry_refl].
  intros s' i Hs'. by apply connect_new_described.
Qed.

Lemma new_line_of_elem s newNode i d :
  d ∈ new_line_of s newNode i ↔
  ∃ ni, nodes s !! i = Some ni
    ∧ closer_than (distanceTo (node_position s newNode) (node_position s ni))
        (scale_opt (15/10) (connectionDistance (CONFIG s)))
    ∧ d = pair_line (node_position s newNode) (node_position s ni)
            (Z.of_nat (length (nodes s)) - 1) (Z.of_nat i).
Proof.
  unfold new_line_of. destruct (nodes s !! i) as [ni|].
  - destruct (lt_opt _ _) eqn:Hlt.
    + apply lt_opt_spec in Hlt. rewrite list_elem_of_singleton. split.
      * intros ->. by exists ni.
      * by intros (ni' & [= <-] & _ & ->).
    + split; [by intros ?%elem_of_nil|].
      intros (ni' & [= <-] & Hc & _). apply lt_opt_spec in Hc. congruence.
  - split; [by intros ?%elem_of_nil|]. by intros (? & ? & _).
Qed.

Section adding.
Variable random : nat → R.

(** X10: in a well-formed graph [addNode] joins the new node, placed at
    [pos], to exactly the nodes that were there before and are nearer to
    [pos] than 1.5 times the connection distance. Each new line stores the
    new node's index first and the other node's index second, starts at
    [pos], and none is marked as a line to the core; the counters shown
    in the HUD are those of the arrays. *)
Theorem addNode_connects pos s :
  is_Some (lookup_colors (VIZ_PRESETS (currentViz s))) →
  graph_ok s →
  ∃ s', addNode random pos s = Returned s'
    ∧ nodes s' = nodes s ++ [next_ref s]
    ∧ connections s' = connections s ++ new_connections s s'
    ∧ (∀ c, c ∈ new_connections s s' →
         toCore (line_data s' c) = false
         ∧ nodeIndex (line_data s' c) = None
         ∧ nodeIndex1 (line_data s' c) = Some (Z.of_nat (length (nodes s)))
         ∧ l_start (line_data s' c) = pos)
    ∧ (∀ i, (∃ c, c ∈ new_connections s s'
                  ∧ nodeIndex2 (line_data s' c) = Some (Z.of_nat i))
            ↔ node_near s pos i)
    ∧ hud_node_count s' = S (length (nodes s))
    ∧ hud_connection_count s' = length (connections s').
Proof.
  intros [colors Hcol] (_ & _ & Hfresh & _). unfold addNode. rewrite Hcol. simpl.
  unfold connectNewNode. simpl. rewrite Hcol. simpl.
  eexists. split; [done|].
  match goal with |- context [foldl (connect_new _) ?s0 _] => set (s1 := s0) end.
  rewrite length_app, Nat.add_sub. simpl length. simpl.
  rewrite connect_new_lines.
  set (ds := flat_map (new_line_of s1 (next_ref s)) (seq 0 (length (nodes s)))).
  pose proof (created_lines ds s1) as Hc. cbv zeta in Hc. destruct Hc as [Hnew Hdata].
  destruct (add_lines_spec ds s1) as (H1 & _ & _ & _ & _ & (G1 & _) & _).
  set (s' := foldl (λ s d, add_line d s) s1 ds) in *.
  assert (Hnc : new_connections s (updateHUD s') = new_connections s1 s') by done.
  assert (Hld : ∀ c, line_data (updateHUD s') c = line_data s' c) by done.
  rewrite Hnc. setoid_rewrite Hld.
  assert (Hpos : node_position s1 (next_ref s) = pos).
  { unfold node_position, s1. simpl. by rewrite lookup_insert_eq. }
  assert (Hold : ∀ i ni, nodes s !! i = Some ni → node_position s1 ni = node_position s ni).
  { intros i ni Hni. unfold node_position, s1. simpl.
    rewrite lookup_insert_ne; [done|].
    assert (ni < next_ref s); [|lia].
    apply Hfresh. left. by eapply list_elem_of_lookup_2. }
  assert (Hds : ∀ d, d ∈ ds ↔
            ∃ i ni, nodes s !! i = Some ni
              ∧ closer_than (distanceTo pos (node_position s ni))
                  (scale_opt (15/10) (connectionDistance (CONFIG s)))
              ∧ d = pair_line pos (node_position s ni)
                      (Z.of_nat (length (nodes s))) (Z.of_nat i)).
  { intros d. unfold ds. rewrite list_elem_of_In, in_flat_map.
    assert (Hlen : (Z.of_nat (length (nodes s1)) - 1 = Z.of_nat (length (nodes s)))%Z).
    { unfold s1. simpl. rewrite length_app. simpl. lia. }
    split.
    - intros (i & Hi & Hd). apply list_elem_of_In, elem_of_seq in Hi.
      apply list_elem_of_In, new_line_of_elem in Hd as (ni & Hni & Hclose & ->).
      assert (Hni' : nodes s !! i = Some ni).
      { unfold s1 in Hni. simpl in Hni. rewrite lookup_app_l in Hni by lia. done. }
      exists i, ni. rewrite Hpos, (Hold i ni Hni'), Hlen in *. done.
    - intros (i & ni & Hni & Hclose & ->). exists i.
      split; [apply list_elem_of_In, elem_of_seq; apply lookup_lt_Some in Hni; lia|].
      apply list_elem_of_In, new_line_of_elem. exists ni.
      rewrite Hpos, (Hold i ni Hni), Hlen.
      split; [|done]. unfold s1. simpl. by apply lookup_app_l_Some. }
  assert (Helem : ∀ c, c ∈ new_connections s1 s' → line_data s' c ∈ ds).
  { intros c Hc. rewrite <- Hdata. apply list_elem_of_fmap. by exists c. }
  split; [by rewrite G1|]. split.
  { rewrite H1, Hnew. done. }
  split.
  { intros c Hc. apply Helem, Hds in Hc as (i & ni & _ & _ & ->). done. }
  split.
  { intros i. unfold node_near. split.
    - intros (c & Hc & Hidx). apply Helem, Hds in Hc as (i0 & ni & Hni & Hclose & Hd).
      rewrite Hd in Hidx. simpl in Hidx. injection Hidx as Hidx.
      apply Nat2Z.inj in Hidx. subst i0. by exists ni.
    - intros (ni & Hni & Hclose).
      assert (Hd : pair_line pos (node_position s ni) (Z.of_nat (length (nodes s)))
                     (Z.of_nat i) ∈ ds) by (apply Hds; by exists i, ni).
      rewrite <- Hdata in Hd. apply list_elem_of_fmap in Hd as (c & Hd & Hc).
      exists c. split; [done|]. by rewrite <- Hd. }
  split.
  { simpl. rewrite G1. unfold s1. simpl. rewrite length_app. simpl. lia. }
  done.
Qed.
End adding.

(** ** Where a click places the node *)

Section placement.
Variable random : nat → R.
Hypothesis random_range : ∀ n, (0 <= random n < 1)%R.

Lemma clamp_bounds x : (-10 <= Rmax (-10) (Rmin 10 x) <= 10)%R.
Proof.
  split; [apply Rmax_l|]. apply Rmax_lub; [lra|apply Rmin_l].
Qed.

(** X11: in add-node mode, whatever the ray of the click, the handler
    returns and the node it adds lies in the square |x|, |y| <= 10, at a
    depth -2 <= z < 2, and at least 2 away from the z axis through the
    core. *)
Theorem onCanvasClick_placement ray s :
  addingNode s = true →
  is_Some (lookup_colors (VIZ_PRESETS (currentViz s))) →
  ∃ s' p, onCanvasClick random ray s = Returned s'
    ∧ nodes s' = nodes s ++ [next_ref s]
    ∧ (position <$> meshes s' !! next_ref s) = Some p
    ∧ (-10 <= v_x p <= 10)%R ∧ (-10 <= v_y p <= 10)%R
    ∧ (-2 <= v_z p < 2)%R
    ∧ (2 <= sqrt (v_x p ^ 2 + v_y p ^ 2))%R.
Proof.
  intros Hadd Hcol. unfold onCanvasClick. rewrite Hadd. simpl.
  destruct (intersectPlane ray _ _) as [o q]. simpl.
  pose proof (random_range (rng s)) as Hr.
  pose proof (clamp_bounds (v_x q)) as Hx. pose proof (clamp_bounds (v_y q)) as Hy.
  set (x := Rmax (-10) (Rmin 10 (v_x q))) in *.
  set (y := Rmax (-10) (Rmin 10 (v_y q))) in *.
  destruct (decide (sqrt (x * (x * 1) + y * (y * 1)) < 2)%R) as [Hnear|Hfar].
  - set (a := Math_atan2 y x).
    destruct (addNode_adds random (mkVector3 (cos a * (25/10)) (sin a * (25/10))
                ((random (rng s) - 5/10) * 4)) (set_rng (S (rng s)) s) Hcol)
      as (s' & Hs' & Hn & _ & _ & Hp).
    exists s', (mkVector3 (cos a * (25/10)) (sin a * (25/10)) ((random (rng s) - 5/10) * 4)).
    split; [done|]. split; [done|]. split; [done|]. simpl.
    pose proof (COS_bound a). pose proof (SIN_bound a).
    split; [lra|]. split; [lra|]. split; [lra|].
    replace (cos a * (25/10) * (cos a * (25/10) * 1)
             + sin a * (25/10) * (sin a * (25/10) * 1))%R
      with ((25/10) * (25/10) * ((sin a)² + (cos a)²))%R by (unfold Rsqr; ring).
    rewrite sin2_cos2, Rmult_1_r, sqrt_square by lra. lra.
  - destruct (addNode_adds random (mkVector3 x y ((random (rng s) - 5/10) * 4))
                (set_rng (S (rng s)) s) Hcol) as (s' & Hs' & Hn & _ & _ & Hp).
    exists s', (mkVector3 x y ((random (rng s) - 5/10) * 4)).
    split; [done|]. split; [done|]. split; [done|]. simpl.
    split; [done|]. split; [done|]. split; [lra|]. lra.
Qed.
End placement.

(** ** Data pulses, frame by frame *)

Lemma advance_pulse_data rm s x d :
  pulses s !! x = Some d →
  ∃ d', pulses (advance_pulse (rm, s) x).2 !! x = Some d' ∧ pulse_advanced d d'.
Proof.
  intros Hd. unfold advance_pulse. rewrite Hd.
  destruct (decide (1 <= progress d + pulse_speed d)%R) as [Hge|Hlt]; simpl;
    rewrite lookup_insert_eq; eexists; (split; [done|]); unfold pulse_advanced; simpl.
  - repeat split; try done; lra.
  - do 4 (split; [done|]). intros _. split; [done|]. split; [|done].
    destruct (decide (progress d + pulse_speed d < 7/10)%R).
    + rewrite Rmin_left by lra. done.
    + rewrite Rmin_right by lra. field.
Qed.

Lemma advance_pulses_data xs rm s p d :
  NoDup xs → p ∈ xs → pulses s !! p = Some d →
  ∃ d', pulses (foldl advance_pulse (rm, s) xs).2 !! p = Some d' ∧ pulse_advanced d d'.
Proof.
  intros Hnd Hp Hd. apply list_elem_of_split in Hp as (l1 & l2 & ->).
  apply NoDup_app in Hnd as (Hnd1 & Hnot & Hnd2). apply NoDup_cons in Hnd2 as [Hp2 Hnd2].
  rewrite foldl_app. cbn [foldl].
  pose proof (advance_pulses_spec l1 rm s Hnd1) as H1. cbv zeta in H1.
  destruct H1 as (_ & _ & _ & Hsame1 & _).
  destruct (foldl advance_pulse (rm, s) l1) as [rm1 s1]. simpl in Hsame1.
  assert (Hd1 : pulses s1 !! p = Some d).
  { rewrite Hsame1; [done|]. intros Hin. apply (Hnot p Hin). left. }
  destruct (advance_pulse_data rm1 s1 p d Hd1) as (d' & Hd' & Hadv).
  exists d'. split; [|done].
  destruct (advance_pulse (rm1, s1) p) as [rm2 s2]. simpl in Hd'.
  pose proof (advance_pulses_spec l2 rm2 s2 Hnd2) as H2. cbv zeta in H2.
  destruct H2 as (_ & _ & _ & Hsame2 & _). by rewrite Hsame2.
Qed.

Lemma animateDataPulses_data s p d :
  NoDup (dataPulses s) → p ∈ dataPulses s → pulses s !! p = Some d →
  ∃ d', pulses (animateDataPulses s) !! p = Some d' ∧ pulse_advanced d d'.
Proof.
  intros Hnd Hp Hd. unfold animateDataPulses.
  destruct (advance_pulses_data (dataPulses s) [] s p d Hnd Hp Hd) as (d' & Hd' & Hadv).
  destruct (foldl advance_pulse ([], s) (dataPulses s)) as [rm s1]. simpl in Hd'.
  exists d'. by rewrite remove_pulses_pulses.
Qed.

(** X12: every pulse that a call of [animateDataPulses] leaves in
    [dataPulses] was there before, has moved on by its speed, and is drawn
    at the point [start + (end - start) * progress] of its line, with
    opacity min(0.9, 3 * (1 - progress)), which is positive and at most
    0.9, and its glow at 0.3 of that. Nothing else of the state changes:
    nodes, connections and the particle system are as before. *)
Theorem animateDataPulses_display s :
  pulses_ok s →
  let s' := animateDataPulses s in
  (∀ p, p ∈ dataPulses s' →
     p ∈ dataPulses s
     ∧ ∃ d d', pulses s !! p = Some d ∧ pulses s' !! p = Some d'
         ∧ pulse_advanced d d'
         ∧ pulse_position d' = lerpVectors (p_start d') (p_end d') (progress d')
         ∧ (0 < pulse_opacity d' <= 9/10)%R
         ∧ glow_opacity d' = (pulse_opacity d' * (3/10))%R)
  ∧ nodes s' = nodes s ∧ connections s' = connections s
  ∧ particleSystem s' = particleSystem s ∧ meshes s' = meshes s ∧ lines s' = lines s.
Proof.
  intros [Hnd Hobj] s'.
  pose proof (animateDataPulses_spec s Hnd) as Hspec. cbv zeta in Hspec.
  fold s' in Hspec. destruct Hspec as (Hdp & _ & _).
  split.
  - intros p Hp. rewrite Hdp in Hp. apply list_elem_of_filter in Hp as [Hnot Hp].
    split; [done|]. destruct (Hobj p Hp) as [_ [d Hd]].
    destruct (animateDataPulses_data s p d Hnd Hp Hd) as (d' & Hd' & Hadv).
    exists d, d'. split; [done|]. split; [done|]. split; [done|].
    unfold completes in Hnot. rewrite Hd in Hnot.
    destruct Hadv as (Hpr & Hsp & Hst & Hen & Hshow).
    destruct Hshow as (Hpos & Hop & Hglow); [lra|].
    rewrite Hst, Hen. split; [done|]. split; [|done].
    rewrite Hop. split.
    + apply Rmin_glb_lt; lra.
    + apply Rmin_l.
  - unfold s', animateDataPulses.
    assert (Hloop : ∀ xs acc,
              let r := foldl advance_pulse acc xs in
              nodes r.2 = nodes acc.2 ∧ connections r.2 = connections acc.2
              ∧ particleSystem r.2 = particleSystem acc.2 ∧ meshes r.2 = meshes acc.2
              ∧ lines r.2 = lines acc.2).
    { induction xs as [|x xs IH]; intros [rm s0]; cbv zeta; cbn [foldl]; [done|].
      specialize (IH (advance_pulse (rm, s0) x)). cbv zeta in IH.
      destruct IH as (I1 & I2 & I3 & I4 & I5). rewrite I1, I2, I3, I4, I5.
      unfold advance_pulse. destruct (pulses s0 !! x); [|done]. by case_decide. }
    specialize (Hloop (dataPulses s) ([], s)). cbv zeta in Hloop.
    destruct (foldl advance_pulse ([], s) (dataPulses s)) as [rm s1]. simpl in Hloop.
    destruct Hloop as (I1 & I2 & I3 & I4 & I5). rewrite <- I1, <- I2, <- I3, <- I4, <- I5.
    clear. revert s1. induction rm as [|x rm IH]; intros s1; simpl; [done|].
    destruct (IH (remove_pulse s1 x)) as (J1 & J2 & J3 & J4 & J5).
    rewrite J1, J2, J3, J4, J5. done.
Qed.

(** [Math.floor(r * n)] is an index of an array of length [n > 0] when
    [0 <= r < 1]. *)
Lemma floor_index r n :
  (0 <= r < 1)%R → 0 < n → Z.to_nat (Int_part (r * INR n)) < n.
Proof.
  intros Hr Hn. destruct (base_Int_part (r * INR n)) as [Hle Hgt].
  assert (Hn' : (0 < INR n)%R) by (apply lt_0_INR; lia).
  assert (Hlo : (IZR (-1) < IZR (Int_part (r * INR n)))%R).
  { assert (0 <= r * INR n)%R by (apply Rmult_le_pos; lra). simpl. lra. }
  assert (Hhi : (IZR (Int_part (r * INR n)) < IZR (Z.of_nat n))%R).
  { rewrite <- INR_IZR_INZ. assert (r * INR n < INR n)%R by nra. lra. }
  apply lt_IZR in Hlo, Hhi. lia.
Qed.

Section spawning.
Variable random : nat → R.
Hypothesis random_range : ∀ n, (0 <= random n < 1)%R.

(** X13: with at least one connection and the current visualization one of
    the presets, [spawnDataPulse] returns having appended one fresh pulse
    to [dataPulses] and added it to the scene. The pulse sits at the start
    of one of the existing connections, whose end points it stores, with
    progress 0, a speed of at least 0.015 and below 0.035, opacity 0.9 and
    its glow at 0.3; the glow is a second fresh object. Nodes, connections
    and the other pulses are untouched. *)
Theorem spawnDataPulse_spec s :
  connections s ≠ [] →
  is_Some (lookup_colors (VIZ_PRESETS (currentViz s))) →
  ∃ s' c v, spawnDataPulse random s = Returned s'
    ∧ c ∈ connections s
    ∧ (15/1000 <= v < 35/1000)%R
    ∧ dataPulses s' = dataPulses s ++ [next_ref s]
    ∧ pulses s' = <[next_ref s := mkPulse (l_start (line_data s c)) (9/10) (3/10)
                      (l_start (line_data s c)) (l_end (line_data s c)) 0 v]> (pulses s)
    ∧ scene s' = scene s ∪ {[next_ref s]}
    ∧ next_ref s' = next_ref s + 2
    ∧ nodes s' = nodes s ∧ connections s' = connections s
    ∧ meshes s' = meshes s ∧ lines s' = lines s.
Proof.
  intros Hne [colors Hcol]. unfold spawnDataPulse.
  rewrite decide_False by (by destruct (connections s)). simpl.
  assert (Hlen : 0 < length (connections s)) by (destruct (connections s); [done|simpl; lia]).
  pose proof (floor_index (random (rng s)) (length (connections s))
                (random_range (rng s)) Hlen) as Hidx.
  apply lookup_lt_is_Some_2 in Hidx as [c Hc]. rewrite Hc, Hcol. simpl.
  pose proof (random_range (S (rng s))) as Hr2.
  eexists _, c, (15/1000 + random (S (rng s)) * (2/100))%R.
  split; [done|]. split; [by eapply list_elem_of_lookup_2|]. split; [lra|].
  simpl. repeat split; try done. lia.
Qed.
End spawning.

(** ** Clearing and rebuilding the scene *)

Lemma scene_removes_scene l s :
  scene (foldl (λ s o, scene_remove o s) s l) = scene s ∖ list_to_set l.
Proof.
  revert s. induction l as [|x l IH]; intros s; simpl.
  - set_solver.
  - rewrite IH. simpl. set_solver.
Qed.

Lemma scene_removes_frame l s :
  let s' := foldl (λ s o, scene_remove o s) s l in
  nodes s' = nodes s ∧ connections s' = connections s
  ∧ particleSystem s' = particleSystem s ∧ coreNode s' = coreNode s
  ∧ dataPulses s' = dataPulses s ∧ pulses s' = pulses s ∧ meshes s' = meshes s
  ∧ lines s' = lines s ∧ CONFIG s' = CONFIG s ∧ currentViz s' = currentViz s
  ∧ next_ref s' = next_ref s ∧ rng s' = rng s.
Proof.
  cbv zeta. revert s. induction l as [|x l IH]; intros s; simpl; [done|].
  destruct (IH (scene_remove x s)) as (H1&H2&H3&H4&H5&H6&H7&H8&H9&H10&H11&H12).
  rewrite H1, H2, H3, H4, H5, H6, H7, H8, H9, H10, H11, H12. done.
Qed.

Lemma clearScene_facts s :
  let s' := clearScene s in
  nodes s' = [] ∧ connections s' = []
  ∧ particleSystem s' = None ∧ coreNode s' = None
  ∧ scene s' = scene s ∖ cleared s
  ∧ dataPulses s' = dataPulses s ∧ pulses s' = pulses s
  ∧ CONFIG s' = CONFIG s ∧ currentViz s' = currentViz s
  ∧ next_ref s' = next_ref s ∧ rng s' = rng s.
Proof.
  cbv zeta. unfold clearScene, cleared. cbv zeta.
  pose proof (scene_removes_frame (nodes s) s) as F1. cbv zeta in F1.
  pose proof (scene_removes_scene (nodes s) s) as S1.
  set (s1 := foldl (λ s node, scene_remove node s) s (nodes s)) in *.
  destruct F1 as (A1&A2&A3&A4&A5&A6&A7&A8&A9&A10&A11&A12).
  pose proof (scene_removes_frame (connections (set_nodes (λ _, []) s1))
                (set_nodes (λ _, []) s1)) as F2. cbv zeta in F2.
  pose proof (scene_removes_scene (connections (set_nodes (λ _, []) s1))
                (set_nodes (λ _, []) s1)) as S2.
  set (s2 := foldl (λ s conn, scene_remove conn s) (set_nodes (λ _, []) s1)
               (connections (set_nodes (λ _, []) s1))) in *.
  destruct F2 as (B1&B2&B3&B4&B5&B6&B7&B8&B9&B10&B11&B12).
  simpl in B1, B2, B3, B4, B5, B6, B7, B8, B9, B10, B11, B12, S2.
  assert (Hps : particleSystem (set_connections (λ _, []) s2) = particleSystem s)
    by (simpl; congruence).
  assert (Hcore : coreNode (set_connections (λ _, []) s2) = coreNode s)
    by (simpl; congruence).
  simpl in Hps, Hcore. simpl. rewrite Hps.
  destruct (particleSystem s) as [ps|]; simpl; rewrite Hcore;
    destruct (coreNode s) as [c|]; simpl;
    rewrite ?S2, ?S1, ?A2, ?B5, ?B6, ?B9, ?B10, ?B11, ?B12, ?A5, ?A6, ?A9, ?A10, ?A11, ?A12;
    repeat split; try done; set_solver.
Qed.

(** X14: [clearScene] empties [nodes] and [connections], forgets the
    particle system and the core, and takes exactly these objects out of
    the scene. Whatever else the scene holds stays in it, the data pulses
    among them, and no object identity is reused. *)
Theorem clearScene_spec s :
  let s' := clearScene s in
  nodes s' = [] ∧ connections s' = []
  ∧ particleSystem s' = None ∧ coreNode s' = None
  ∧ scene s' = scene s ∖ cleared s
  ∧ (∀ x, x ∈ dataPulses s → x ∈ scene s → x ∉ cleared s → x ∈ scene s')
  ∧ dataPulses s' = dataPulses s ∧ pulses s' = pulses s
  ∧ next_ref s' = next_ref s.
Proof.
  cbv zeta. destruct (clearScene_facts s) as (H1&H2&H3&H4&H5&H6&H7&_&_&H10&_).
  rewrite H5. repeat split; try done. intros x _ Hx Hnot. set_solver.
Qed.

Section rebuilding.
Variable random : nat → R.

Lemma createParticle_only_rng s :
  ∃ k, (createParticle random s).2 = set_rng k s.
Proof.
  destruct s. unfold createParticle. repeat case_decide; simpl; by eexists.
Qed.

Lemma createParticleBuffers_only_rng n s :
  ∃ k, (createParticleBuffers random n s).2 = set_rng k s.
Proof.
  revert s. induction n as [|n IH]; intros s; cbn [createParticleBuffers].
  - exists (rng s). by destruct s.
  - destruct (createParticle_only_rng s) as [k Hk].
    destruct (createParticle random s) as [[p v] s1]. simpl in Hk. subst s1.
    destruct (IH (set_rng k s)) as [k' Hk'].
    destruct (createParticleBuffers random n (set_rng k s)) as [[ps vs] s2].
    simpl in *. subst s2. exists k'. by destruct s.
Qed.

Lemma createNodes_frame n s :
  let s' := Nat.iter n (createNode random) s in
  nodes s' = nodes s ++ seq (next_ref s) n ∧ next_ref s' = next_ref s + n
  ∧ scene s' = scene s ∪ list_to_set (seq (next_ref s) n)
  ∧ connections s' = connections s ∧ lines s' = lines s ∧ CONFIG s' = CONFIG s
  ∧ currentViz s' = currentViz s ∧ dataPulses s' = dataPulses s
  ∧ pulses s' = pulses s
  ∧ particleSystem s' = particleSystem s ∧ coreNode s' = coreNode s.
Proof.
  cbv zeta. induction n as [|n IH].
  - simpl. rewrite app_nil_r. repeat split; try done; try lia; set_solver.
  - change (Nat.iter (S n) (createNode random) s)
      with (createNode random (Nat.iter n (createNode random) s)).
    destruct IH as (I1&I2&I3&I4&I5&I6&I7&I8&I9&I10&I11).
    set (s1 := Nat.iter n (createNode random) s) in *.
    rewrite seq_S. unfold createNode. simpl. rewrite I1, I2, I3, <- app_assoc.
    rewrite list_to_set_app_L. repeat split; try done; try lia. set_solver.
Qed.

Lemma add_lines_more ds s :
  let s' := foldl (λ s d, add_line d s) s ds in
  coreNode s' = coreNode s ∧ pulses s' = pulses s.
Proof.
  cbv zeta. revert s. induction ds as [|d ds IH]; intros s; cbn [foldl]; [done|].
  destruct (IH (add_line d s)) as [H1 H2]. by rewrite H1, H2.
Qed.

(** The scene as [switchVisualization] and [resetScene] rebuild it, with
    [L] the number of connections made; the object after the core is the
    inner core, a child of the core and no object of the scene. *)
Lemma rebuild_spec p s :
  let n := next_ref s in
  let count := default 0 (nodeCount (CONFIG s)) in
  let s' := createParticlesForPreset random p
              (createConnections (createNodes random (createCoreNode (clearScene s)))) in
  ∃ L ps,
    nodes s' = seq (n + 3) count
    ∧ connections s' = seq (n + 3 + count) L
    ∧ coreNode s' = Some (S n)
    ∧ particleSystem s' = Some ps ∧ pts_id ps = n + 3 + count + L
    ∧ pts_preset ps = Some p ∧ length (positions ps) = 3 * particleCount p
    ∧ velocities ps ≠ None
    ∧ next_ref s' = n + 3 + count + L + 1
    ∧ (∀ x, x ∈ scene s' ↔
         (x ∈ scene s ∧ x ∉ cleared s) ∨ (n ≤ x < next_ref s' ∧ x ≠ n + 2))
    ∧ dataPulses s' = dataPulses s ∧ pulses s' = pulses s
    ∧ CONFIG s' = CONFIG s ∧ currentViz s' = currentViz s.
Proof.
  cbv zeta.
  destruct (clearScene_facts s) as (C1&C2&C3&C4&C5&C6&C7&C8&C9&C10&C11).
  set (s0 := clearScene s) in *.
  set (s1 := createCoreNode s0).
  assert (Hs1 : nodes s1 = [] ∧ connections s1 = [] ∧ coreNode s1 = Some (S (next_ref s))
                ∧ next_ref s1 = next_ref s + 3
                ∧ scene s1 = scene s0 ∪ {[next_ref s]} ∪ {[S (next_ref s)]}
                ∧ dataPulses s1 = dataPulses s ∧ pulses s1 = pulses s
                ∧ CONFIG s1 = CONFIG s ∧ currentViz s1 = currentViz s).
  { unfold s1, createCoreNode. simpl. rewrite C10.
    repeat split; try done. lia. }
  destruct Hs1 as (D1&D2&D3&D4&D5&D6&D7&D8&D9).
  unfold createNodes. rewrite D8.
  pose proof (createNodes_frame (default 0 (nodeCount (CONFIG s))) s1) as Hn.
  cbv zeta in Hn. set (count := default 0 (nodeCount (CONFIG s))) in *.
  set (s2 := Nat.iter count (createNode random) s1) in *.
  destruct Hn as (N1&N2&N3&N4&N5&N6&N7&N8&N9&N10&N11).
  rewrite createConnections_described.
  destruct (add_lines_spec (lines_described s2) s2)
    as (L1&L2&L3&L4&L5&(G1&G2&G3)&L7&L8&L9).
  destruct (add_lines_more (lines_described s2) s2) as [L10 L11].
  set (L := length (lines_described s2)) in *.
  set (s3 := foldl (λ s d, add_line d s) s2 (lines_described s2)) in *.
  unfold createParticlesForPreset.
  pose proof (createParticleBuffers_shape random (particleCount p) s3) as Hshape.
  cbv zeta in Hshape.
  destruct (createParticleBuffers_only_rng (particleCount p) s3) as [k Hk].
  destruct (createParticleBuffers random (particleCount p) s3) as [[ps vs] s4].
  cbn [fst snd] in Hshape, Hk. subst s4. destruct Hshape as (Hlen & _).
  simpl. exists L. eexists. simpl.
  rewrite G1, N1, D1, L1, N4, D2, L10, N11, D3, L2, N2, D4, L7, N8, D6, L11, N9, D7,
    G3, N6, D8, L9, N7, D9.
  split; [done|]. split; [done|]. split; [done|]. split; [done|].
  split; [done|]. split; [done|]. split; [done|]. split; [done|]. split; [lia|].
  split; [|done].
  intros x. rewrite L5, N3, D5, C5, N2, D4.
  rewrite !elem_of_union, elem_of_difference, !elem_of_list_to_set, !elem_of_seq,
    !elem_of_singleton.
  generalize (x ∈ scene s ∧ x ∉ cleared s). intros Q.
  split; [intros [[[[[HQ|Hx]|Hx]|Hx]|Hx]|Hx]; [by left|right; lia..]|].
  intros [HQ|Hx]; [by repeat left|].
  destruct (decide (x = next_ref s)); [left; left; left; left; by right|].
  destruct (decide (x = S (next_ref s))); [left; left; left; by right|].
  destruct (decide (x < next_ref s + 3 + count)); [left; left; right; lia|].
  destruct (decide (x < next_ref s + 3 + count + L)); [left; right; lia|].
  right; lia.
Qed.
End rebuilding.

Section switching.
Variable random : nat → R.

Lemma switchVisualization_facts vizKey p s :
  VIZ_PRESETS vizKey = JPreset p →
  ∃ s' L ps, switchVisualization random vizKey s = Returned s'
    ∧ currentViz s' = vizKey
    ∧ CONFIG s' = mkConfig (Some (p_nodeCount p)) (Some (p_connectionDistance p))
                    (nodeSize (CONFIG s)) (coreSize (CONFIG s)) (fieldSize (CONFIG s))
                    (Some (primary (p_colors p))) (Some (secondary (p_colors p)))
                    (Some (accent (p_colors p)))
    ∧ nodes s' = seq (next_ref s + 3) (p_nodeCount p)
    ∧ connections s' = seq (next_ref s + 3 + p_nodeCount p) L
    ∧ coreNode s' = Some (S (next_ref s))
    ∧ particleSystem s' = Some ps ∧ pts_id ps = next_ref s + 3 + p_nodeCount p + L
    ∧ pts_preset ps = Some p ∧ length (positions ps) = 3 * particleCount p
    ∧ hud_node_count s' = p_nodeCount p ∧ hud_connection_count s' = L
    ∧ dataPulses s' = dataPulses s ∧ pulses s' = pulses s
    ∧ next_ref s' = next_ref s + 3 + p_nodeCount p + L + 1
    ∧ (∀ x, x ∈ scene s' ↔
         (x ∈ scene s ∧ x ∉ cleared s) ∨ (next_ref s ≤ x < next_ref s' ∧ x ≠ next_ref s + 2)).
Proof.
  intros Hp.
  set (sc := set_CONFIG (λ c, mkConfig (Some (p_nodeCount p)) (Some (p_connectionDistance p))
                (nodeSize c) (coreSize c) (fieldSize c) (Some (primary (p_colors p)))
                (Some (secondary (p_colors p))) (Some (accent (p_colors p))))
              (set_currentViz vizKey s)).
  assert (Heq : switchVisualization random vizKey s
                = Returned (updateHUD (createParticlesForPreset random p
                    (createConnections (createNodes random (createCoreNode (clearScene sc))))))).
  { unfold switchVisualization. rewrite Hp. done. }
  rewrite Heq. clear Heq.
  pose proof (rebuild_spec random p sc) as Hr. cbv zeta in Hr.
  destruct Hr as (L & ps & R1&R2&R3&R4&R5&R6&R7&_&R9&R10&R11&R12&R13&R14).
  set (s3 := createParticlesForPreset random p
               (createConnections (createNodes random (createCoreNode (clearScene sc))))) in *.
  change (next_ref sc) with (next_ref s) in *.
  change (default 0 (nodeCount (CONFIG sc))) with (p_nodeCount p) in *.
  change (scene sc) with (scene s) in *. change (cleared sc) with (cleared s) in *.
  change (dataPulses sc) with (dataPulses s) in *. change (pulses sc) with (pulses s) in *.
  exists (updateHUD s3), L, ps. split; [done|].
  change (currentViz (updateHUD s3)) with (currentViz s3).
  change (CONFIG (updateHUD s3)) with (CONFIG s3).
  change (nodes (updateHUD s3)) with (nodes s3).
  change (connections (updateHUD s3)) with (connections s3).
  change (coreNode (updateHUD s3)) with (coreNode s3).
  change (particleSystem (updateHUD s3)) with (particleSystem s3).
  change (hud_node_count (updateHUD s3)) with (length (nodes s3)).
  change (hud_connection_count (updateHUD s3)) with (length (connections s3)).
  change (dataPulses (updateHUD s3)) with (dataPulses s3).
  change (pulses (updateHUD s3)) with (pulses s3).
  change (next_ref (updateHUD s3)) with (next_ref s3).
  change (scene (updateHUD s3)) with (scene s3).
  rewrite R14, R13, R1, R2, R3, R4, R11, R12, R9, !length_seq.
  repeat split; try done; rewrite <- R9; by apply R10.
Qed.

(** X15: for the key of a preset, [switchVisualization] returns with that
    preset in force: the key is the current visualization, the
    configuration holds the preset's node count, connection distance and
    colours (sizes untouched), [nodes] holds that many fresh nodes, there
    are a fresh core and a particle system of the preset with three
    coordinates per particle, and the HUD shows the sizes of the two
    arrays. The data pulses in flight are left as they were. *)
Theorem switchVisualization_preset vizKey p s :
  VIZ_PRESETS vizKey = JPreset p →
  ∃ s' ps, switchVisualization random vizKey s = Returned s'
    ∧ currentViz s' = vizKey
    ∧ CONFIG s' = mkConfig (Some (p_nodeCount p)) (Some (p_connectionDistance p))
                    (nodeSize (CONFIG s)) (coreSize (CONFIG s)) (fieldSize (CONFIG s))
                    (Some (primary (p_colors p))) (Some (secondary (p_colors p)))
                    (Some (accent (p_colors p)))
    ∧ length (nodes s') = p_nodeCount p
    ∧ (∀ x, x ∈ nodes s' ∨ x ∈ connections s' → next_ref s ≤ x ∧ x ∈ scene s')
    ∧ coreNode s' = Some (S (next_ref s))
    ∧ particleSystem s' = Some ps
    ∧ pts_preset ps = Some p ∧ length (positions ps) = 3 * particleCount p
    ∧ hud_node_count s' = length (nodes s')
    ∧ hud_connection_count s' = length (connections s')
    ∧ dataPulses s' = dataPulses s ∧ pulses s' = pulses s.
Proof.
  intros Hp.
  destruct (switchVisualization_facts vizKey p s Hp)
    as (s' & L & ps & F1&F2&F3&F4&F5&F6&F7&F8&F9&F10&F11&F12&F13&F14&F15&F16).
  exists s', ps. rewrite F4, F5, !length_seq.
  repeat split; try done.
  - destruct H as [H|H]; apply elem_of_seq in H; lia.
  - apply F16. right. destruct H as [H|H]; apply elem_of_seq in H; lia.
Qed.

(** X16: what a switch leaves behind. After a switch to a preset the
    scene holds the new glow sphere, the new core, the new nodes and
    connections. The next switch takes the core, the nodes, the
    connections and the particle system out of the scene again, but the
    glow sphere, which [clearScene] does not know, stays in the scene. *)
Theorem switchVisualization_orphans k1 p1 k2 p2 s :
  VIZ_PRESETS k1 = JPreset p1 → VIZ_PRESETS k2 = JPreset p2 →
  let s1 := outcome_state (switchVisualization random k1 s) in
  let s2 := outcome_state (switchVisualization random k2 s1) in
  let glow := next_ref s in
  glow ∈ scene s1 ∧ (glow ∉ cleared s1)
  ∧ (∀ x, x ∈ cleared s1 → x ∈ scene s1 ∧ (x ∉ scene s2))
  ∧ glow ∈ scene s2 ∧ (glow ∉ cleared s2).
Proof.
  intros Hp1 Hp2. cbv zeta.
  destruct (switchVisualization_facts k1 p1 s Hp1)
    as (s1 & L1 & ps1 & F1&F2&F3&F4&F5&F6&F7&F8&F9&F10&F11&F12&F13&F14&F15&F16).
  rewrite F1. simpl.
  destruct (switchVisualization_facts k2 p2 s1 Hp2)
    as (s2 & L2 & ps2 & G1&G2&G3&G4&G5&G6&G7&G8&G9&G10&G11&G12&G13&G14&G15&G16).
  rewrite G1. simpl.
  assert (Hcl1 : ∀ x, x ∈ cleared s1 ↔ next_ref s < x < next_ref s1 ∧ x ≠ next_ref s + 2).
  { intros x. unfold cleared. rewrite F4, F5, F6, F7, F8, F15.
    rewrite !elem_of_union, !elem_of_list_to_set, !elem_of_seq, !elem_of_singleton. lia. }
  assert (Hcl2 : ∀ x, x ∈ cleared s2 → next_ref s1 < x).
  { intros x. unfold cleared. rewrite G4, G5, G6, G7, G8.
    rewrite !elem_of_union, !elem_of_list_to_set, !elem_of_seq, !elem_of_singleton. lia. }
  assert (Hglow1 : next_ref s ∈ scene s1) by (apply F16; right; lia).
  assert (Hnot1 : next_ref s ∉ cleared s1) by (rewrite Hcl1; lia).
  split; [done|]. split; [done|]. split.
  { intros x Hx. pose proof Hx as Hx'. apply Hcl1 in Hx'. split.
    - apply F16. right. lia.
    - rewrite G16. intros [[_ Hn]|Hn]; [done|lia]. }
  split.
  - apply G16. by left.
  - intros Hc. apply Hcl2 in Hc. lia.
Qed.
End switching.

(** ** The further properties on the sample states

    As before [Math.random] is taken to return 0.5 at every call. *)

Lemma createParticlesForPreset_matrix_witness :
  ∃ ps V,
    particleSystem (createParticlesForPreset (λ _, (1/2)%R) matrix rain_state) = Some ps
    ∧ velocities ps = Some V
    ∧ ∀ k, k < particleCount matrix →
        let p := triple (positions ps) (3 * k) in
        let v := triple V (3 * k) in
        (-10 <= v_x p <= 10)%R ∧ (-5 <= v_y p <= 15)%R ∧ (-10 <= v_z p <= 10)%R
        ∧ v_x v = 0%R ∧ v_z v = 0%R
        ∧ (5368709 / 2 ^ 28 <= fall_speed (Some V) k <= 13421773 / 2 ^ 28)%R.
Proof.
  apply (createParticlesForPreset_matrix (λ _, (1/2)%R) half_in_range matrix rain_state).
  reflexivity.
Defined.

Lemma createParticlesForPreset_sphere_witness :
  ∃ ps V,
    particleSystem (createParticlesForPreset (λ _, (1/2)%R) storm storm_state) = Some ps
    ∧ velocities ps = Some V
    ∧ ∀ k, k < particleCount storm →
        let p := triple (positions ps) (3 * k) in
        let v := triple V (3 * k) in
        (currentViz storm_state = "storm" →
           stored_within p (fieldSize (CONFIG storm_state) * 2)
           ∧ (Rabs (v_x v) <= 1/100)%R ∧ (Rabs (v_y v) <= 1/100)%R
           ∧ (Rabs (v_z v) <= 1/100)%R)
        ∧ (currentViz storm_state = "swarm" →
             stored_within p (fieldSize (CONFIG storm_state) * (25/10))
             ∧ (Rabs (v_x v) <= 1/100)%R ∧ (Rabs (v_y v) <= 1/100)%R
             ∧ (Rabs (v_z v) <= 1/100)%R)
        ∧ (currentViz storm_state ≠ "storm" → currentViz storm_state ≠ "swarm" →
             stored_within p (fieldSize (CONFIG storm_state) * (15/10)) ∧ v = Vector3_new).
Proof.
  apply (createParticlesForPreset_sphere (λ _, (1/2)%R) half_in_range storm storm_state).
  - simpl. discriminate.
  - simpl. lra.
Defined.

Lemma rain_state_particles : particles_ok rain_state.
Proof. exists 2. split; [reflexivity|]. intros V [= <-]. reflexivity. Qed.

Lemma frame_keeps_buffers_witness :
  let s' := outcome_state (animateParticles (λ _, (1/2)%R) rain_state) in
  particles_ok s' ∧ particles_ok (applyMouseGravity s')
  ∧ nodes s' = nodes rain_state ∧ connections s' = connections rain_state
  ∧ dataPulses s' = dataPulses rain_state ∧ scene s' = scene rain_state.
Proof. apply (frame_keeps_buffers (λ _, (1/2)%R) rain_state), rain_state_particles. Defined.

Lemma animateParticles_matrix_floor_witness :
  ∃ s' ps',
    animateParticles (λ _, (1/2)%R) rain_state = Returned s' ∧ particleSystem s' = Some ps'
    ∧ ∀ k, k < 2 →
        let y := fallen (positions rain) (velocities rain) k in
        let y' := positions ps' !!! (3 * k + 1)%nat in
        (-10 <= y')%R ∧ (y' = 15%R ∨ y' = y).
Proof.
  apply (animateParticles_matrix_floor (λ _, (1/2)%R) rain_state rain 2); reflexivity.
Defined.

Lemma animateParticles_swarm_step_witness :
  ∃ s' ps' V',
    animateParticles (λ _, (1/2)%R) swarm_state = Returned s' ∧ particleSystem s' = Some ps'
    ∧ velocities ps' = Some V'
    ∧ ∀ k, k < 3 →
        let p := triple (positions boids) (3 * k) in
        let v := clamped (steered (swarm_after k (positions boids)
                                     [1; 0; 0; 0; 1/128; 0; 0; 0; 1/128]%R).1
                                  (swarm_after k (positions boids)
                                     [1; 0; 0; 0; 1/128; 0; 0; 0; 1/128]%R).2 (3 * k)) in
        triple (positions ps') (3 * k) = fround3 (v_add p v)
        ∧ triple V' (3 * k) = fround3 v
        ∧ (distanceTo (v_add p v) p <= 3/100)%R.
Proof.
  apply (animateParticles_swarm_step (λ _, (1/2)%R) swarm_state boids
           [1; 0; 0; 0; 1/128; 0; 0; 0; 1/128]%R 3); reflexivity.
Defined.

Lemma createNodes_shell_witness :
  let s' := createNodes (λ _, (1/2)%R) sample_state in
  ∃ new,
    nodes s' = nodes sample_state ++ new
    ∧ length new = default 0 (nodeCount (CONFIG sample_state))
    ∧ connections s' = connections sample_state
    ∧ ∀ x, x ∈ new →
        x ∈ scene s'
        ∧ ∃ d, meshes s' !! x = Some d ∧ in_shell (fieldSize (CONFIG sample_state)) d.
Proof.
  apply (createNodes_shell (λ _, (1/2)%R) half_in_range sample_state). simpl. lra.
Defined.

Lemma sample_state_preset : is_Some (lookup_colors (VIZ_PRESETS (currentViz sample_state))).
Proof. by eexists. Qed.

Lemma addNode_connects_witness :
  ∃ s', addNode (λ _, (1/2)%R) (mkVector3 3 1 0) sample_state = Returned s'
    ∧ nodes s' = nodes sample_state ++ [next_ref sample_state]
    ∧ connections s' = connections sample_state ++ new_connections sample_state s'
    ∧ (∀ c, c ∈ new_connections sample_state s' →
         toCore (line_data s' c) = false
         ∧ nodeIndex (line_data s' c) = None
         ∧ nodeIndex1 (line_data s' c) = Some (Z.of_nat (length (nodes sample_state)))
         ∧ l_start (line_data s' c) = mkVector3 3 1 0)
    ∧ (∀ i, (∃ c, c ∈ new_connections sample_state s'
                  ∧ nodeIndex2 (line_data s' c) = Some (Z.of_nat i))
            ↔ node_near sample_state (mkVector3 3 1 0) i)
    ∧ hud_node_count s' = S (length (nodes sample_state))
    ∧ hud_connection_count s' = length (connections s').
Proof.
  apply (addNode_connects (λ _, (1/2)%R) (mkVector3 3 1 0) sample_state).
  - apply sample_state_preset.
  - apply sample_state_ok.
Defined.

Lemma onCanvasClick_placement_witness :
  ∃ s' p, onCanvasClick (λ _, (1/2)%R) miss_ray sample_state = Returned s'
    ∧ nodes s' = nodes sample_state ++ [next_ref sample_state]
    ∧ (position <$> meshes s' !! next_ref sample_state) = Some p
    ∧ (-10 <= v_x p <= 10)%R ∧ (-10 <= v_y p <= 10)%R
    ∧ (-2 <= v_z p < 2)%R
    ∧ (2 <= sqrt (v_x p ^ 2 + v_y p ^ 2))%R.
Proof.
  apply (onCanvasClick_placement (λ _, (1/2)%R) half_in_range miss_ray sample_state).
  - reflexivity.
  - apply sample_state_preset.
Defined.

Lemma animateDataPulses_display_witness :
  let s' := animateDataPulses pulse_state in
  (∀ p, p ∈ dataPulses s' →
     p ∈ dataPulses pulse_state
     ∧ ∃ d d', pulses pulse_state !! p = Some d ∧ pulses s' !! p = Some d'
         ∧ pulse_advanced d d'
         ∧ pulse_position d' = lerpVectors (p_start d') (p_end d') (progress d')
         ∧ (0 < pulse_opacity d' <= 9/10)%R
         ∧ glow_opacity d' = (pulse_opacity d' * (3/10))%R)
  ∧ nodes s' = nodes pulse_state ∧ connections s' = connections pulse_state
  ∧ particleSystem s' = particleSystem pulse_state ∧ meshes s' = meshes pulse_state
  ∧ lines s' = lines pulse_state.
Proof. apply (animateDataPulses_display pulse_state), pulse_state_ok. Defined.

Lemma spawnDataPulse_spec_witness :
  ∃ s' c v, spawnDataPulse (λ _, (1/2)%R) sample_state = Returned s'
    ∧ c ∈ connections sample_state
    ∧ (15/1000 <= v < 35/1000)%R
    ∧ dataPulses s' = dataPulses sample_state ++ [next_ref sample_state]
    ∧ pulses s' = <[next_ref sample_state :=
                      mkPulse (l_start (line_data sample_state c)) (9/10) (3/10)
                        (l_start (line_data sample_state c))
                        (l_end (line_data sample_state c)) 0 v]> (pulses sample_state)
    ∧ scene s' = scene sample_state ∪ {[next_ref sample_state]}
    ∧ next_ref s' = next_ref sample_state + 2
    ∧ nodes s' = nodes sample_state ∧ connections s' = connections sample_state
    ∧ meshes s' = meshes sample_state ∧ lines s' = lines sample_state.
Proof.
  apply (spawnDataPulse_spec (λ _, (1/2)%R) half_in_range sample_state).
  - simpl. discriminate.
  - apply sample_state_preset.
Defined.

Lemma switchVisualization_preset_witness :
  ∃ s' ps, switchVisualization (λ _, (1/2)%R) "storm" sample_state = Returned s'
    ∧ currentViz s' = "storm"
    ∧ CONFIG s' = mkConfig (Some (p_nodeCount storm)) (Some (p_connectionDistance storm))
                    (nodeSize (CONFIG sample_state)) (coreSize (CONFIG sample_state))
                    (fieldSize (CONFIG sample_state))
                    (Some (primary (p_colors storm))) (Some (secondary (p_colors storm)))
                    (Some (accent (p_colors storm)))
    ∧ length (nodes s') = p_nodeCount storm
    ∧ (∀ x, x ∈ nodes s' ∨ x ∈ connections s' → next_ref sample_state ≤ x ∧ x ∈ scene s')
    ∧ coreNode s' = Some (S (next_ref sample_state))
    ∧ particleSystem s' = Some ps
    ∧ pts_preset ps = Some storm ∧ length (positions ps) = 3 * particleCount storm
    ∧ hud_node_count s' = length (nodes s')
    ∧ hud_connection_count s' = length (connections s')
    ∧ dataPulses s' = dataPulses sample_state ∧ pulses s' = pulses sample_state.
Proof.
  apply (switchVisualization_preset (λ _, (1/2)%R) "storm" storm sample_state). reflexivity.
Defined.

Lemma switchVisualization_orphans_witness :
  let s1 := outcome_state (switchVisualization (λ _, (1/2)%R) "storm" sample_state) in
  let s2 := outcome_state (switchVisualization (λ _, (1/2)%R) "matrix" s1) in
  let glow := next_ref sample_state in
  glow ∈ scene s1 ∧ (glow ∉ cleared s1)
  ∧ (∀ x, x ∈ cleared s1 → x ∈ scene s1 ∧ (x ∉ scene s2))
  ∧ glow ∈ scene s2 ∧ (glow ∉ cleared s2).
Proof.
  apply (switchVisualization_orphans (λ _, (1/2)%R) "storm" storm "matrix" matrix
           sample_state); reflexivity.
Defined.

(** * The frame loop, the handlers and the controls *)

(** ** The cursor *)

Lemma hit_on_plane ray t :
  distanceToPlane ray (mkPlane (mkVector3 0 0 1) 0) = Some t →
  v_z (at_ ray t) = 0%R ∧ (0 <= t)%R.
Proof.
  unfold distanceToPlane, dot, at_. simpl.
  destruct (decide _) as [Hden|Hden].
  - destruct (decide _) as [Hon|]; [|done]. intros [= <-]. split; lra.
  - destruct (decide _) as [Hpos|]; [|done]. intros [= <-]. split; [|done].
    assert (Hd : v_z (direction ray) ≠ 0%R) by lra.
    replace (0 * v_x (direction ray) + 0 * v_y (direction ray) + 1 * v_z (direction ray))%R
      with (v_z (direction ray)) by ring.
    field. done.
Qed.

(** X17: [onMouseMove] changes nothing but [mouseWorld]. When the ray of
    the cursor meets the plane z = 0, [mouseWorld] becomes the point of
    the ray at the distance where it meets the plane, a point with z = 0;
    when it does not, [mouseWorld] keeps its value. So a cursor position
    that starts on the plane, as the initial (0, 0, 0) does, stays on
    it. *)
Theorem onMouseMove_plane ray s :
  let plane := mkPlane (mkVector3 0 0 1) 0 in
  let s' := onMouseMove ray s in
  s' = set_mouseWorld (mouseWorld s') s
  ∧ (distanceToPlane ray plane = None → mouseWorld s' = mouseWorld s)
  ∧ (∀ t, distanceToPlane ray plane = Some t →
       (0 <= t)%R ∧ mouseWorld s' = at_ ray t ∧ v_z (mouseWorld s') = 0%R)
  ∧ (v_z (mouseWorld s) = 0%R → v_z (mouseWorld s') = 0%R).
Proof.
  cbv zeta. unfold onMouseMove, intersectPlane.
  destruct (distanceToPlane ray _) as [t|] eqn:Ht; simpl.
  - destruct (hit_on_plane ray t Ht) as [Hz Hpos].
    split; [done|]. split; [done|]. split; [|done]. by intros t' [= <-].
  - split; [done|]. split; [done|]. split; [done|]. done.
Qed.

(** ** Node animation *)

Lemma nodes_moved_refl a : nodes_moved a a.
Proof. split; [by destruct (state a)|by destruct a]. Qed.

Lemma nodes_moved_trans a b c : nodes_moved a b → nodes_moved b c → nodes_moved a c.
Proof.
  intros [H1 H2] [H3 H4]. split.
  - rewrite H3, H1. done.
  - rewrite H4. rewrite H2 at 1 2 3 4 5 6 7 8 9. done.
Qed.

Lemma nodes_moved_meshes f a : nodes_moved a (with_state (set_meshes f) a).
Proof. split; done. Qed.

Lemma nodes_moved_turn o dx dy a : nodes_moved a (turn o dx dy a).
Proof. split; simpl; [by destruct (state a)|done]. Qed.

Lemma nodes_moved_emissive f a : nodes_moved a (set_emissiveIntensity f a).
Proof. split; simpl; [by destruct (state a)|done]. Qed.

Lemma sin_range x k : (0 <= k)%R → (- k <= sin x * k <= k)%R.
Proof. intros Hk. pose proof (SIN_bound x). nra. Qed.

Lemma animateNode_step a node :
  let a' := animateNode a node in
  nodes_moved a a'
  ∧ (∀ x, x ≠ node →
       meshes (state a') !! x = meshes (state a) !! x
       ∧ rotation a' !! x = rotation a !! x
       ∧ emissiveIntensity a' !! x = emissiveIntensity a !! x)
  ∧ rotation_of a' node = ((rotation_of a node).1 + 1/100, (rotation_of a node).2 + 1/100)%R
  ∧ (∀ d, meshes (state a) !! node = Some d →
       ∃ d', meshes (state a') !! node = Some d' ∧ node_animated (currentMode a) d d'
         ∧ (currentMode a = "pulse" →
              ∃ e, emissiveIntensity a' !! node = Some e ∧ (0 <= e <= 6/10)%R)).
Proof.
  cbv zeta. unfold animateNode, rotation_of.
  destruct (meshes (state a) !! node) as [d|] eqn:Hd.
  - destruct (decide (currentMode a = "orbit")) as [Ho|Ho];
      [|destruct (decide (currentMode a = "pulse")) as [Hp|Hp];
        [|destruct (decide (currentMode a = "expand")) as [He|He]]].
    + split; [eauto using nodes_moved_trans, nodes_moved_meshes, nodes_moved_turn,
                nodes_moved_emissive, nodes_moved_refl|].
      split; [intros x Hx; simpl; by rewrite !lookup_insert_ne by congruence|].
      split; [simpl; by rewrite lookup_insert_eq|].
      intros d0 [= <-]. eexists. simpl. rewrite lookup_insert_eq. split; [done|].
      split; [|intros Hp; congruence].
      unfold node_animated. simpl. do 5 (split; [done|]).
      split; [|split; [intros; congruence|split; [intros; congruence|intros; congruence]]].
      intros _. do 3 (split; [done|]).
      pose proof (sin_range (time (state a) * speed d + phase d) (1/10)) as Hs.
      apply Rabs_le. lra.
    + split; [eauto using nodes_moved_trans, nodes_moved_meshes, nodes_moved_turn,
                nodes_moved_emissive, nodes_moved_refl|].
      split; [intros x Hx; simpl; by rewrite !lookup_insert_ne by congruence|].
      split; [simpl; by rewrite lookup_insert_eq|].
      intros d0 [= <-]. eexists. simpl. rewrite lookup_insert_eq. split; [done|].
      split.
      * unfold node_animated. simpl. do 5 (split; [done|]).
        split; [intros; congruence|]. split; [|split; [intros; congruence|intros; congruence]].
        intros _. split; [done|].
        pose proof (sin_range (time (state a) * 2 - v_length (position d) * (5/10)) (3/10)).
        lra.
      * intros _. eexists. rewrite lookup_insert_eq. split; [done|].
        pose proof (sin_range (time (state a) * 3 + phase d) (3/10)). lra.
    + split; [eauto using nodes_moved_trans, nodes_moved_meshes, nodes_moved_turn,
                nodes_moved_emissive, nodes_moved_refl|].
      split; [intros x Hx; simpl; by rewrite !lookup_insert_ne by congruence|].
      split; [simpl; by rewrite lookup_insert_eq|].
      intros d0 [= <-]. eexists. simpl. rewrite lookup_insert_eq. split; [done|].
      split; [|intros; congruence].
      unfold node_animated. simpl. do 5 (split; [done|]).
      split; [intros; congruence|]. split; [intros; congruence|].
      split; [|intros; congruence].
      intros _. split; [done|]. eexists. split; [|done].
      pose proof (sin_range (time (state a) * (5/10)) (5/10)). lra.
    + split; [eauto using nodes_moved_trans, nodes_moved_meshes, nodes_moved_turn,
                nodes_moved_emissive, nodes_moved_refl|].
      split; [intros x Hx; simpl; by rewrite !lookup_insert_ne by congruence|].
      split; [simpl; by rewrite lookup_insert_eq|].
      intros d0 [= <-]. exists d. simpl. split; [done|].
      split; [|intros; congruence].
      unfold node_animated. do 5 (split; [done|]).
      split; [intros; congruence|]. split; [intros; congruence|].
      split; [intros; congruence|done].
  - split; [apply nodes_moved_turn|].
    split; [intros x Hx; simpl; by rewrite !lookup_insert_ne by congruence|].
    split; [simpl; by rewrite lookup_insert_eq|]. done.
Qed.

Lemma animateNodes_other l a :
  let a' := foldl animateNode a l in
  nodes_moved a a'
  ∧ ∀ x, x ∉ l →
      meshes (state a') !! x = meshes (state a) !! x
      ∧ rotation a' !! x = rotation a !! x
      ∧ emissiveIntensity a' !! x = emissiveIntensity a !! x.
Proof.
  cbv zeta. revert a. induction l as [|n l IH]; intros a; cbn [foldl].
  - split; [apply nodes_moved_refl|done].
  - destruct (animateNode_step a n) as (M1 & O1 & _).
    destruct (IH (animateNode a n)) as (M2 & O2).
    split; [by eapply nodes_moved_trans|].
    intros x [Hne Hx]%not_elem_of_cons.
    destruct (O2 x Hx) as (A1 & A2 & A3). destruct (O1 x Hne) as (B1 & B2 & B3).
    rewrite A1, A2, A3. done.
Qed.

(** X18: [animateNodes] changes nothing but the position, the scale, the
    rotation and the emissive intensity of the nodes of the array; the
    graph and the [userData] of the nodes stay as they are. Each node
    turns by 0.01 about x and y. In mode [orbit] a node keeps x, z and
    scale and floats within 0.1 of the height of its original position;
    in mode [pulse] it keeps its position, its scale lies between 0.7 and
    1.3 and its emissive intensity between 0 and 0.6; in mode [expand] it
    sits at its original position scaled by a factor between 0.5 and 1.5;
    in any other mode it is only turned. *)
Theorem animateNodes_motion a :
  NoDup (nodes (state a)) →
  let a' := animateNodes a in
  nodes_moved a a'
  ∧ (∀ node d, node ∈ nodes (state a) → meshes (state a) !! node = Some d →
       ∃ d', meshes (state a') !! node = Some d'
         ∧ node_animated (currentMode a) d d'
         ∧ (currentMode a = "pulse" →
              ∃ e, emissiveIntensity a' !! node = Some e ∧ (0 <= e <= 6/10)%R))
  ∧ (∀ node, node ∈ nodes (state a) →
       rotation_of a' node
       = ((rotation_of a node).1 + 1/100, (rotation_of a node).2 + 1/100)%R)
  ∧ (∀ x, x ∉ nodes (state a) →
       meshes (state a') !! x = meshes (state a) !! x
       ∧ rotation a' !! x = rotation a !! x
       ∧ emissiveIntensity a' !! x = emissiveIntensity a !! x).
Proof.
  intros Hnd. cbv zeta. unfold animateNodes.
  destruct (animateNodes_other (nodes (state a)) a) as [Hmoved Hother].
  split; [done|]. split; [|split; [|done]].
  - intros node d Hin Hd. apply list_elem_of_split in Hin as (l1 & l2 & Hl).
    rewrite Hl in *. apply NoDup_app in Hnd as (_ & Hnot & Hnd2).
    apply NoDup_cons in Hnd2 as [Hn2 _].
    rewrite foldl_app. cbn [foldl].
    destruct (animateNodes_other l1 a) as ([_ M1] & O1).
    set (a1 := foldl animateNode a l1) in *.
    assert (Hmode : currentMode a1 = currentMode a) by (by rewrite M1).
    assert (Hd1 : meshes (state a1) !! node = Some d).
    { destruct (O1 node) as (-> & _); [|done]. intros Hin. apply (Hnot node Hin). left. }
    destruct (animateNode_step a1 node) as (_ & _ & _ & Hself).
    destruct (Hself d Hd1) as (d' & Hd' & Hanim & Hem). rewrite Hmode in Hanim, Hem.
    destruct (animateNodes_other l2 (animateNode a1 node)) as (_ & O2).
    destruct (O2 node Hn2) as (E1 & _ & E3).
    exists d'. rewrite E1. split; [done|]. split; [done|].
    intros Hp. destruct (Hem Hp) as (e & He & Hrange). exists e. by rewrite E3.
  - intros node Hin. apply list_elem_of_split in Hin as (l1 & l2 & Hl).
    rewrite Hl in *. apply NoDup_app in Hnd as (_ & Hnot & Hnd2).
    apply NoDup_cons in Hnd2 as [Hn2 _].
    rewrite foldl_app. cbn [foldl].
    destruct (animateNodes_other l1 a) as (_ & O1).
    set (a1 := foldl animateNode a l1) in *.
    destruct (O1 node) as (_ & R1 & _); [intros Hin; apply (Hnot node Hin); left|].
    destruct (animateNode_step a1 node) as (_ & _ & Hrot & _).
    destruct (animateNodes_other l2 (animateNode a1 node)) as (_ & O2).
    destruct (O2 node Hn2) as (_ & R2 & _).
    unfold rotation_of in *. rewrite R2, Hrot, R1. done.
Qed.

(** ** Connection animation *)

Lemma lines_moved_refl a : lines_moved a a.
Proof. split; [by destruct (state a)|by destruct a]. Qed.

Lemma lines_moved_trans a b c : lines_moved a b → lines_moved b c → lines_moved a c.
Proof.
  intros [H1 H2] [H3 H4]. split.
  - rewrite H3, H1. done.
  - rewrite H4. rewrite H2 at 1 2 3 4 5 6 7 8 9 10. done.
Qed.

Lemma lines_moved_lines f a : lines_moved a (with_state (set_lines f) a).
Proof. split; done. Qed.

Lemma lines_moved_opacity f a : lines_moved a (set_line_opacity f a).
Proof. split; simpl; [by destruct (state a)|done]. Qed.

Lemma lines_moved_geometry a a' :
  lines_moved a a' →
  nodes (state a') = nodes (state a) ∧ meshes (state a') = meshes (state a)
  ∧ connections (state a') = connections (state a) ∧ time (state a') = time (state a)
  ∧ next_ref (state a') = next_ref (state a).
Proof. intros [-> _]. done. Qed.

Lemma animateConnection_step a index c :
  line_form (line_data (state a) c) →
  valid_indices (nodes (state a)) (line_data (state a) c) →
  ∃ a', animateConnection a index c = Normal a'
    ∧ lines_moved a a'
    ∧ (∀ x, x ≠ c → lines (state a') !! x = lines (state a) !! x
                     ∧ line_opacity a' !! x = line_opacity a !! x)
    ∧ line_follows (state a) (line_data (state a) c) (line_data (state a') c)
    ∧ line_opacity a' !! c = Some (pulse_opacity_at (time (state a)) index).
Proof.
  intros Hform Hvalid. unfold animateConnection.
  set (d := line_data (state a) c) in *.
  destruct Hform as [(Hcore & [i Hi] & H1 & H2)|(Hcore & H0 & [i Hi] & [j Hj])].
  - rewrite Hcore. destruct (Hvalid i) as [node Hnode].
    { unfold stored. rewrite Hi. left. }
    unfold nodes_at. rewrite Hi. simpl. rewrite Hnode.
    eexists. split; [done|].
    split; [eauto using lines_moved_trans, lines_moved_lines, lines_moved_opacity|].
    split; [intros x Hx; simpl; by rewrite !lookup_insert_ne by congruence|].
    split; [|simpl; by rewrite lookup_insert_eq].
    unfold line_follows, line_data. simpl. rewrite !lookup_insert_eq. simpl.
    do 4 (split; [done|]). split; [|intros; congruence].
    intros _. split; [done|]. exists node. unfold nodes_at. rewrite Hi. done.
  - rewrite Hcore. rewrite decide_True by (by rewrite Hi).
    destruct (Hvalid i) as [node1 Hnode1].
    { unfold stored. rewrite Hi. right. left. }
    destruct (Hvalid j) as [node2 Hnode2].
    { unfold stored. rewrite Hj. right. right. left. }
    unfold nodes_at. rewrite Hi. simpl. rewrite Hnode1, Hj. simpl. rewrite Hnode2.
    eexists. split; [done|].
    split; [eauto 6 using lines_moved_trans, lines_moved_lines, lines_moved_opacity|].
    split; [intros x Hx; simpl; by rewrite !lookup_insert_ne by congruence|].
    split; [|simpl; by rewrite lookup_insert_eq].
    unfold line_follows, line_data. simpl. rewrite !lookup_insert_eq. simpl.
    do 4 (split; [done|]). split; [intros; congruence|].
    intros _. exists node1, node2. unfold nodes_at. rewrite Hi, Hj. done.
Qed.

Lemma animateConnections_from_spec ls index a :
  NoDup ls →
  (∀ c, c ∈ ls → line_form (line_data (state a) c)
                 ∧ valid_indices (nodes (state a)) (line_data (state a) c)) →
  ∃ a', animateConnections_from index ls a = Normal a'
    ∧ lines_moved a a'
    ∧ (∀ x, x ∉ ls → lines (state a') !! x = lines (state a) !! x
                     ∧ line_opacity a' !! x = line_opacity a !! x)
    ∧ (∀ i c, ls !! i = Some c →
         line_follows (state a) (line_data (state a) c) (line_data (state a') c)
         ∧ line_opacity a' !! c = Some (pulse_opacity_at (time (state a)) (index + i))).
Proof.
  revert index a. induction ls as [|c ls IH]; intros index a Hnd Hok.
  - exists a. split; [done|]. split; [apply lines_moved_refl|]. split; [done|].
    intros i c Hc. done.
  - apply NoDup_cons in Hnd as [Hc Hnd].
    destruct (Hok c) as [Hform Hvalid]; [left|].
    destruct (animateConnection_step a index c Hform Hvalid)
      as (a1 & Hstep & Hm1 & Ho1 & Hf1 & Hop1).
    pose proof (lines_moved_geometry a a1 Hm1) as (Gn & Gm & Gc & Gt & Gr).
    destruct (IH (S index) a1 Hnd) as (a' & Hrest & Hm2 & Ho2 & Hin2).
    { intros x Hx. unfold line_data. destruct (Ho1 x) as [-> _]; [by intros ->|].
      rewrite Gn. apply Hok. by right. }
    exists a'. split; [simpl; by rewrite Hstep|].
    split; [by eapply lines_moved_trans|]. split.
    { intros x [Hne Hx]%not_elem_of_cons. destruct (Ho2 x Hx) as [-> ->]. by apply Ho1. }
    intros i x Hi. destruct i as [|i]; simpl in Hi.
    + injection Hi as <-. destruct (Ho2 c Hc) as [E1 E2].
      unfold line_data at 2. rewrite E1, E2, Nat.add_0_r. done.
    + destruct (Hin2 i x Hi) as [Hf Hop].
      assert (Hxc : x ≠ c) by (intros ->; apply Hc; by eapply list_elem_of_lookup_2).
      destruct (Ho1 x Hxc) as [E1 _].
      replace (index + S i) with (S index + i) by lia. rewrite Gt in Hop.
      split; [|done].
      unfold line_follows, nodes_at, node_position, line_data in *.
      rewrite E1, Gn, Gm in Hf. done.
Qed.

(** The frame leaves a well-formed graph well formed. *)
Lemma lines_moved_ok a a' :
  lines_moved a a' →
  (∀ c, c ∈ connections (state a) →
     stored (line_data (state a') c) = stored (line_data (state a) c)
     ∧ toCore (line_data (state a') c) = toCore (line_data (state a) c)) →
  graph_ok (state a) ∧ lines_ok (state a) → graph_ok (state a') ∧ lines_ok (state a').
Proof.
  intros Hm Hsame [(G1 & G2 & G3 & G4) Hl].
  pose proof (lines_moved_geometry a a' Hm) as (Gn & Gm & Gc & Gt & Gr).
  split.
  - unfold graph_ok. rewrite Gn, Gc, Gr. do 3 (split; [done|]).
    intros c Hc. unfold valid_indices. destruct (Hsame c Hc) as [-> _]. by apply G4.
  - intros c Hc. rewrite Gc in Hc. specialize (Hl c Hc).
    destruct (Hsame c Hc) as [Hst Hcore]. unfold stored in Hst.
    injection Hst as E0 E1 E2. unfold line_form. rewrite Hcore, E0, E1, E2. done.
Qed.

(** X19: in a well-formed graph [animateConnections] returns normally. It
    changes nothing but the lines of [connections]: every line keeps its
    [userData]; a line to the core keeps its start and ends at the
    position of the node whose index it stores; a line between two nodes
    is drawn from the first to the second of the nodes whose indices it
    stores; and the line at index k gets the opacity
    0.2 + 0.15 sin(2 time + 0.1 k), between 0.05 and 0.35. The graph is
    well formed again. *)
Theorem animateConnections_follows a :
  graph_ok (state a) → lines_ok (state a) →
  ∃ a', animateConnections a = Normal a'
    ∧ lines_moved a a'
    ∧ (∀ k c, connections (state a) !! k = Some c →
         line_follows (state a) (line_data (state a) c) (line_data (state a') c)
         ∧ ∃ o, line_opacity a' !! c = Some o
                ∧ o = pulse_opacity_at (time (state a)) k ∧ (5/100 <= o <= 35/100)%R)
    ∧ (∀ x, x ∉ connections (state a) →
         lines (state a') !! x = lines (state a) !! x
         ∧ line_opacity a' !! x = line_opacity a !! x)
    ∧ graph_ok (state a') ∧ lines_ok (state a').
Proof.
  intros Hg Hl. pose proof Hg as (_ & Hnd & _ & Hvalid).
  destruct (animateConnections_from_spec (connections (state a)) 0 a Hnd)
    as (a' & Hrun & Hm & Hother & Hin).
  { intros c Hc. split; [by apply Hl|by apply Hvalid]. }
  exists a'. split; [done|]. split; [done|]. split; [|split; [done|]].
  - intros k c Hk. destruct (Hin k c Hk) as [Hf Hop]. split; [done|].
    eexists. split; [done|]. split; [done|].
    unfold pulse_opacity_at.
    pose proof (sin_range (time (state a) * 2 + INR (0 + k) * (1/10)) (15/100)). lra.
  - apply (lines_moved_ok a a' Hm); [|done].
    intros c Hc. apply list_elem_of_lookup in Hc as [k Hk].
    destruct (Hin k c Hk) as [(E0 & Ecore & E1 & E2 & _) _].
    unfold stored. by rewrite E0, E1, E2, Ecore.
Qed.

(** ** The state stays well formed

    Each function works on one part of the state and leaves the other
    parts alone; the three parts stay well formed one by one. *)

Lemma graph_part_view s s' :
  graph_view s' = graph_view s → next_ref s ≤ next_ref s' → graph_part s → graph_part s'.
Proof.
  intros [= Hn Hc Hm Hl Hh1 Hh2] Hr (Hg & Hlines & Hmesh & Hhud).
  split; [by apply (graph_ok_frame s s')|].
  unfold lines_ok, meshes_ok, hud_ok, line_data. rewrite Hn, Hc, Hm, Hl, Hh1, Hh2. done.
Qed.

Lemma pulses_ok_view s s' :
  pulse_view s' = pulse_view s → next_ref s ≤ next_ref s' → pulses_ok s → pulses_ok s'.
Proof.
  intros [= Hd Hp] Hr [Hnd Hobj]. unfold pulses_ok. rewrite Hd, Hp. split; [done|].
  intros p Hin. destruct (Hobj p Hin). split; [lia|done].
Qed.

Lemma particle_part_view s s' :
  particle_view s' = particle_view s → particle_part s → particle_part s'.
Proof.
  intros [= Hp Hv]. unfold particle_part, particles_ok, particles_fit, preset_ok.
  by rewrite Hp, Hv.
Qed.

Section particle_frames.
Variable random : nat → R.

Lemma animateParticles_views s :
  let s' := outcome_state (animateParticles random s) in
  graph_view s' = graph_view s ∧ pulse_view s' = pulse_view s
  ∧ next_ref s' = next_ref s ∧ currentViz s' = currentViz s ∧ scene s' = scene s
  ∧ time s' = time s ∧ coreNode s' = coreNode s.
Proof.
  cbv zeta. unfold animateParticles. destruct (particleSystem s) as [ps|]; [|done].
  destruct (decide (currentViz s = "matrix")); [by destruct (matrix_frame _ _ _ _)|].
  destruct (decide (currentViz s = "storm")).
  { destruct (velocities ps) as [V|]; [|by destruct (pts_preset ps)].
    destruct (storm_frame _ _ _ _) as [[P' V'] n']. by destruct (pts_preset ps). }
  destruct (decide (currentViz s = "swarm")).
  { destruct (velocities ps) as [V|]; [by destruct (swarm_frame _ _)|done]. }
  destruct (decide (currentViz s = "constellation")); [by destruct (pts_preset ps)|done].
Qed.

(** With a particle system that fits the visualization the particle
    update does not throw. *)
Lemma animateParticles_returns s :
  particles_fit s →
  ∃ s', animateParticles random s = Returned s' ∧ particles_fit s'.
Proof.
  unfold particles_fit, animateParticles.
  destruct (particleSystem s) as [ps|] eqn:Hps; [|intros _; exists s; by rewrite Hps].
  intros Hfit.
  destruct (decide (currentViz s = "matrix")) as [Hm|Hm].
  { destruct (matrix_frame _ _ _ _) as [P' n']. eexists. split; [done|]. simpl.
    destruct Hfit as [Hn|Hfit]; [left; done|by right]. }
  destruct (decide (currentViz s = "storm")) as [Hst|Hst].
  { destruct Hfit as [Hn|[[pr Hpr] [V HV]]]; [congruence|]. rewrite HV, Hpr.
    destruct (storm_frame _ _ _ _) as [[P' V'] n']. eexists. split; [done|]. simpl.
    right. rewrite Hpr. by split; eexists. }
  destruct (decide (currentViz s = "swarm")) as [Hsw|Hsw].
  { destruct Hfit as [Hn|[[pr Hpr] [V HV]]]; [congruence|]. rewrite HV.
    destruct (swarm_frame _ _) as [P' V']. eexists. split; [done|]. simpl.
    right. rewrite Hpr. by split; eexists. }
  destruct (decide (currentViz s = "constellation")) as [Hc|Hc].
  { destruct Hfit as [Hn|[[pr Hpr] HV]]; [congruence|]. rewrite Hpr.
    eexists. split; [done|]. simpl. right. rewrite Hpr. split; [by eexists|done]. }
  eexists. split; [done|]. simpl. done.
Qed.

Lemma animateParticles_part s :
  particle_part s →
  ∃ s', animateParticles random s = Returned s' ∧ particle_part s'
    ∧ graph_view s' = graph_view s ∧ pulse_view s' = pulse_view s
    ∧ next_ref s' = next_ref s ∧ scene s' = scene s ∧ time s' = time s
    ∧ coreNode s' = coreNode s ∧ currentViz s' = currentViz s.
Proof.
  intros (Hshape & Hfit & Hpre).
  destruct (animateParticles_returns s Hfit) as (s' & Hs' & Hfit').
  pose proof (animateParticles_keeps_shape random s Hshape) as Hshape'.
  pose proof (animateParticles_views s) as Hv. cbv zeta in Hv.
  rewrite Hs' in Hshape', Hv. simpl in Hshape', Hv.
  destruct Hv as (V1 & V2 & V3 & V4 & V5 & V6 & V7).
  exists s'. split; [done|]. split; [|done].
  split; [done|]. split; [done|]. unfold preset_ok. by rewrite V4.
Qed.
End particle_frames.

Lemma applyMouseGravity_part s :
  particle_part s →
  particle_part (applyMouseGravity s)
  ∧ graph_view (applyMouseGravity s) = graph_view s
  ∧ pulse_view (applyMouseGravity s) = pulse_view s
  ∧ next_ref (applyMouseGravity s) = next_ref s
  ∧ scene (applyMouseGravity s) = scene s ∧ time (applyMouseGravity s) = time s
  ∧ coreNode (applyMouseGravity s) = coreNode s
  ∧ currentViz (applyMouseGravity s) = currentViz s.
Proof.
  intros (Hshape & Hfit & Hpre).
  pose proof (applyMouseGravity_keeps_shape s Hshape) as Hshape'.
  unfold applyMouseGravity in *. unfold particle_part, particles_fit, preset_ok in *.
  destruct (particleSystem s) as [ps|] eqn:Hps; [|by rewrite Hps].
  simpl. done.
Qed.

Lemma advance_pulses_views xs acc :
  let r := foldl advance_pulse acc xs in
  graph_view r.2 = graph_view acc.2 ∧ particle_view r.2 = particle_view acc.2
  ∧ time r.2 = time acc.2 ∧ coreNode r.2 = coreNode acc.2.
Proof.
  cbv zeta. revert acc. induction xs as [|x xs IH]; intros [rm s0]; cbn [foldl]; [done|].
  destruct (IH (advance_pulse (rm, s0) x)) as (I1 & I2 & I3 & I4).
  rewrite I1, I2, I3, I4.
  unfold advance_pulse. destruct (pulses s0 !! x); [|done]. by case_decide.
Qed.

Lemma remove_pulses_views xs s :
  let s' := foldl remove_pulse s xs in
  graph_view s' = graph_view s ∧ particle_view s' = particle_view s
  ∧ time s' = time s ∧ coreNode s' = coreNode s.
Proof.
  cbv zeta. revert s. induction xs as [|x xs IH]; intros s; simpl; [done|].
  destruct (IH (remove_pulse s x)) as (I1 & I2 & I3 & I4). rewrite I1, I2, I3, I4. done.
Qed.

Lemma animateDataPulses_views s :
  let s' := animateDataPulses s in
  graph_view s' = graph_view s ∧ particle_view s' = particle_view s
  ∧ next_ref s' = next_ref s ∧ time s' = time s ∧ coreNode s' = coreNode s.
Proof.
  cbv zeta. pose proof (animateDataPulses_next_ref s) as Hn. revert Hn.
  unfold animateDataPulses.
  pose proof (advance_pulses_views (dataPulses s) ([], s)) as Ha. cbv zeta in Ha.
  destruct (foldl advance_pulse ([], s) (dataPulses s)) as [rm s1].
  pose proof (remove_pulses_views rm s1) as Hr. cbv zeta in Hr. simpl in Ha.
  destruct Ha as (A1 & A2 & A3 & A4). destruct Hr as (R1 & R2 & R3 & R4).
  intros Hn. rewrite R1, R2, R3, R4. done.
Qed.

Section pulse_frames.
Variable random : nat → R.
Hypothesis random_range : ∀ n, (0 <= random n < 1)%R.

Lemma spawnDataPulse_facts s :
  connections s ≠ [] →
  is_Some (lookup_colors (VIZ_PRESETS (currentViz s))) →
  ∃ s' c v, spawnDataPulse random s = Returned s'
    ∧ c ∈ connections s
    ∧ (15/1000 <= v < 35/1000)%R
    ∧ dataPulses s' = dataPulses s ++ [next_ref s]
    ∧ pulses s' = <[next_ref s := mkPulse (l_start (line_data s c)) (9/10) (3/10)
                      (l_start (line_data s c)) (l_end (line_data s c)) 0 v]> (pulses s)
    ∧ scene s' = scene s ∪ {[next_ref s]}
    ∧ next_ref s' = next_ref s + 2
    ∧ graph_view s' = graph_view s ∧ particle_view s' = particle_view s
    ∧ time s' = time s ∧ coreNode s' = coreNode s.
Proof.
  intros Hne [colors Hcol]. unfold spawnDataPulse.
  rewrite decide_False by (by destruct (connections s)). simpl.
  assert (Hlen : 0 < length (connections s)) by (destruct (connections s); [done|simpl; lia]).
  pose proof (floor_index (random (rng s)) (length (connections s))
                (random_range (rng s)) Hlen) as Hidx.
  apply lookup_lt_is_Some_2 in Hidx as [c Hc]. rewrite Hc, Hcol. simpl.
  pose proof (random_range (S (rng s))) as Hr2.
  eexists _, c, (15/1000 + random (S (rng s)) * (2/100))%R.
  split; [done|]. split; [by eapply list_elem_of_lookup_2|]. split; [lra|].
  simpl. repeat split; try done. lia.
Qed.
End pulse_frames.

(** *** Editing the graph *)

Lemma line_form_shift idx d : line_form d → line_form (shift_indices idx d).
Proof.
  unfold line_form, shift_indices, dec_if_gt. simpl.
  intros [(H1 & [i Hi] & H3 & H4)|(H1 & H2 & [i Hi] & [j Hj])].
  - left. rewrite H3, H4, Hi. simpl. split; [done|]. split; [|done]. by case_bool_decide.
  - right. rewrite H2, Hi, Hj. simpl. split; [done|]. split; [done|].
    split; by case_bool_decide.
Qed.

Lemma remove_connections_views xs s :
  let s' := foldl remove_connection s xs in
  pulse_view s' = pulse_view s ∧ particle_view s' = particle_view s
  ∧ meshes s' = meshes s ∧ time s' = time s ∧ coreNode s' = coreNode s.
Proof.
  cbv zeta. revert s. induction xs as [|x xs IH]; intros s; simpl; [done|].
  destruct (IH (remove_connection s x)) as (I1 & I2 & I3 & I4 & I5).
  rewrite I1, I2, I3, I4, I5. done.
Qed.

Lemma shift_connections_views idx xs s :
  let s' := foldl (shift_connection idx) s xs in
  pulse_view s' = pulse_view s ∧ particle_view s' = particle_view s
  ∧ meshes s' = meshes s ∧ time s' = time s ∧ coreNode s' = coreNode s.
Proof.
  cbv zeta. revert s. induction xs as [|x xs IH]; intros s; simpl; [done|].
  destruct (IH (shift_connection idx s x)) as (I1 & I2 & I3 & I4 & I5).
  rewrite I1, I2, I3, I4, I5. done.
Qed.

Lemma deleteNode_views node s :
  let s' := deleteNode node s in
  pulse_view s' = pulse_view s ∧ particle_view s' = particle_view s
  ∧ meshes s' = meshes s ∧ time s' = time s ∧ coreNode s' = coreNode s
  ∧ next_ref s' = next_ref s.
Proof.
  cbv zeta. pose proof (deleteNode_next_ref node s) as Hn. revert Hn.
  unfold deleteNode. case_decide; [done|]. intros Hn.
  match goal with |- context [foldl (shift_connection ?i) ?s0 ?l] =>
    destruct (shift_connections_views i l s0) as (S1 & S2 & S3 & S4 & S5) end.
  match goal with |- context [foldl remove_connection ?s0 ?l] =>
    destruct (remove_connections_views l s0) as (R1 & R2 & R3 & R4 & R5) end.
  unfold pulse_view, particle_view in *. simpl in *.
  repeat split; congruence.
Qed.

Lemma deleteNode_part node s : graph_part s → graph_part (deleteNode node s).
Proof.
  intros (Hg & Hl & Hm & Hh). destruct (decide (node ∈ nodes s)) as [Hin|Hout].
  2: { unfold deleteNode. rewrite indexOf_absent by done. by rewrite decide_True. }
  pose proof (deleteNode_ok node s Hg) as Hg'.
  destruct (elem_of_first_split _ _ Hin) as (pre & post & Hn & Hpre).
  destruct (deleteNode_present node s pre post Hn Hpre) as (Hn' & Hc' & Hdata & _).
  destruct (deleteNode_views node s) as (_ & _ & Hmesh & _).
  split; [done|]. split; [|split].
  - intros c Hc. rewrite Hdata by (done || apply Hg). apply line_form_shift, Hl.
    rewrite Hc' in Hc. by apply list_elem_of_filter in Hc as [_ Hc].
  - intros n Hin'. rewrite Hmesh. apply Hm. rewrite Hn' in Hin'. rewrite Hn.
    apply elem_of_app in Hin' as [?|?]; apply elem_of_app; [by left|right; by right].
  - unfold deleteNode. rewrite Hn, indexOf_first by done.
    rewrite decide_False by lia. done.
Qed.

Lemma add_lines_views ds s :
  let s' := foldl (λ s d, add_line d s) s ds in
  pulse_view s' = pulse_view s ∧ particle_view s' = particle_view s
  ∧ time s' = time s ∧ coreNode s' = coreNode s
  ∧ hud_node_count s' = hud_node_count s ∧ hud_connection_count s' = hud_connection_count s.
Proof.
  cbv zeta. revert s. induction ds as [|d ds IH]; intros s; cbn [foldl]; [done|].
  destruct (IH (add_line d s)) as (I1 & I2 & I3 & I4 & I5 & I6).
  rewrite I1, I2, I3, I4, I5, I6. done.
Qed.

(** Lines added to a graph with well-formed lines *)
Lemma add_lines_lines_ok ds s :
  (∀ r, r ∈ connections s → r < next_ref s) →
  lines_ok s → (∀ d, d ∈ ds → line_form d) →
  lines_ok (foldl (λ s d, add_line d s) s ds).
Proof.
  intros Hfresh Hl Hds.
  destruct (add_lines_spec ds s) as (H1 & _ & H3 & H4 & _).
  intros c Hc. rewrite H1 in Hc. unfold line_data.
  apply elem_of_app in Hc as [Hc|Hc].
  - rewrite H4 by (by apply Hfresh). by apply Hl.
  - apply elem_of_seq in Hc as [Hlo Hhi].
    destruct (lookup_lt_is_Some_2 ds (c - next_ref s)) as [d Hd]; [lia|].
    specialize (H3 _ _ Hd). replace (next_ref s + (c - next_ref s)) with c in H3 by lia.
    rewrite H3. simpl. apply Hds. by eapply list_elem_of_lookup_2.
Qed.

Lemma line_form_core a b i : line_form (core_line a b i).
Proof. left. simpl. by eauto. Qed.

Lemma line_form_pair a b i j : line_form (pair_line a b i j).
Proof. right. simpl. by eauto. Qed.

Section graph_frames.
Variable random : nat → R.

Lemma addNode_part pos s :
  graph_part s → preset_ok s →
  ∃ s', addNode random pos s = Returned s' ∧ graph_part s'
    ∧ pulse_view s' = pulse_view s ∧ particle_view s' = particle_view s
    ∧ next_ref s ≤ next_ref s' ∧ time s' = time s ∧ coreNode s' = coreNode s.
Proof.
  intros (Hg & Hl & Hm & Hh) Hpre.
  destruct (addNode_adds random pos s Hpre) as (s' & Hs' & _).
  pose proof (addNode_ok random pos s s' Hg Hs') as Hg'.
  exists s'. split; [done|]. revert Hs' Hg'.
  destruct Hpre as [colors Hcol]. unfold addNode. rewrite Hcol. simpl.
  unfold connectNewNode. simpl. rewrite Hcol. simpl.
  match goal with |- context [foldl (connect_new _) ?s0 ?xs] =>
    set (s1 := s0); set (l := xs) end.
  rewrite connect_new_lines.
  set (ds := flat_map (new_line_of s1 (next_ref s)) l).
  destruct (add_lines_spec ds s1) as (H1 & H2 & H3 & H4 & _ & (G1 & G2 & _) & _).
  destruct (add_lines_views ds s1) as (V1 & V2 & V3 & V4 & _).
  assert (Hlines : lines_ok (foldl (λ s d, add_line d s) s1 ds)).
  { apply add_lines_lines_ok.
    - intros r Hr. destruct Hg as (_ & _ & Hfresh & _).
      assert (r < next_ref s) by (apply Hfresh; by right). simpl. lia.
    - exact Hl.
    - intros d Hd. apply list_elem_of_In, in_flat_map in Hd as (i & _ & Hd).
      apply list_elem_of_In, new_line_of_elem in Hd as (ni & _ & _ & ->).
      apply line_form_pair. }
  set (s2 := foldl (λ s d, add_line d s) s1 ds) in *.
  intros [= <-] Hg'. split; [|split; [|split; [|split; [|split]]]].
  - split; [done|]. split; [done|]. split; [|done].
    intros n Hn. change (meshes (updateHUD s2)) with (meshes s2).
    change (nodes (updateHUD s2)) with (nodes s2) in Hn. rewrite G1 in Hn. rewrite G2.
    simpl in Hn. simpl. apply elem_of_app in Hn as [Hn|Hn].
    + apply lookup_insert_is_Some. destruct (decide (next_ref s = n)); [by left|right].
      split; [done|]. by apply Hm.
    + apply list_elem_of_singleton in Hn. subst n. apply lookup_insert_is_Some. by left.
  - change (pulse_view (updateHUD s2)) with (pulse_view s2). by rewrite V1.
  - change (particle_view (updateHUD s2)) with (particle_view s2). by rewrite V2.
  - change (next_ref (updateHUD s2)) with (next_ref s2). rewrite H2. simpl. lia.
  - change (time (updateHUD s2)) with (time s2). by rewrite V3.
  - change (coreNode (updateHUD s2)) with (coreNode s2). by rewrite V4.
Qed.

Lemma onCanvasClick_part ray s :
  graph_part s → preset_ok s →
  ∃ s', onCanvasClick random ray s = Returned s' ∧ graph_part s'
    ∧ pulse_view s' = pulse_view s ∧ particle_view s' = particle_view s
    ∧ next_ref s ≤ next_ref s' ∧ time s' = time s ∧ coreNode s' = coreNode s.
Proof.
  intros Hg Hpre. unfold onCanvasClick.
  destruct (addingNode s); simpl;
    [|exists s; split; [done|]; split; [done|]; split; [done|]; split; [done|];
      split; [lia|done]].
  destruct (intersectPlane ray _ _) as [o q]. simpl.
  destruct (decide _);
    match goal with |- context [addNode random ?p ?s0] =>
      destruct (addNode_part p s0) as (s' & Hs' & Hg' & V1 & V2 & V3 & V4 & V5) end;
    try done; by exists s'.
Qed.
End graph_frames.

(** *** Rebuilding the scene *)

Section rebuild_frames.
Variable random : nat → R.

Lemma createNodes_meshes n s :
  meshes_ok s → meshes_ok (Nat.iter n (createNode random) s).
Proof.
  intros Hs. induction n as [|n IH]; [done|].
  change (Nat.iter (S n) (createNode random) s)
    with (createNode random (Nat.iter n (createNode random) s)).
  set (s1 := Nat.iter n (createNode random) s) in *.
  unfold createNode. intros x. simpl. intros Hx.
  apply lookup_insert_is_Some. destruct (decide (next_ref s1 = x)); [by left|right].
  split; [done|]. apply IH. apply elem_of_app in Hx as [Hx|Hx]; [done|].
  apply list_elem_of_singleton in Hx. congruence.
Qed.

Lemma createNodes_time n s : time (Nat.iter n (createNode random) s) = time s.
Proof.
  induction n as [|n IH]; [done|].
  change (Nat.iter (S n) (createNode random) s)
    with (createNode random (Nat.iter n (createNode random) s)).
  rewrite <- IH. done.
Qed.

Lemma lines_described_form s d : d ∈ lines_described s → line_form d.
Proof.
  unfold lines_described. intros Hd.
  apply list_elem_of_In, in_flat_map in Hd as (i & _ & Hd).
  apply list_elem_of_In, elem_of_app in Hd as [Hd|Hd].
  - apply core_line_of_elem in Hd as (_ & ni & _ & ->). apply line_form_core.
  - apply list_elem_of_In, in_flat_map in Hd as (j & _ & Hd).
    apply list_elem_of_In, pair_line_of_elem in Hd as (_ & ni & nj & _ & _ & ->).
    apply line_form_pair.
Qed.

Lemma createConnections_lines_ok s :
  graph_ok s → lines_ok s → lines_ok (createConnections s).
Proof.
  intros (_ & _ & Hfresh & _) Hl. rewrite createConnections_described.
  apply add_lines_lines_ok; [|done|apply lines_described_form].
  intros r Hr. apply Hfresh. by right.
Qed.

Lemma createParticlesForPreset_views p s :
  let s' := createParticlesForPreset random p s in
  graph_view s' = graph_view s ∧ pulse_view s' = pulse_view s
  ∧ currentViz s' = currentViz s ∧ time s' = time s ∧ next_ref s' = S (next_ref s)
  ∧ ∃ ps V, particleSystem s' = Some ps ∧ pts_preset ps = Some p
      ∧ velocities ps = Some V
      ∧ length (positions ps) = 3 * particleCount p ∧ length V = 3 * particleCount p.
Proof.
  cbv zeta. unfold createParticlesForPreset.
  pose proof (createParticleBuffers_shape random (particleCount p) s) as Hshape.
  cbv zeta in Hshape.
  destruct (createParticleBuffers_only_rng random (particleCount p) s) as [k Hk].
  destruct (createParticleBuffers random (particleCount p) s) as [[ps vs] s4].
  cbn [fst snd] in Hshape, Hk. subst s4. destruct Hshape as (Hlen1 & Hlen2 & _).
  simpl. do 5 (split; [done|]). eexists _, _. simpl. done.
Qed.

Lemma createCoreNode_views s :
  let s' := createCoreNode s in
  graph_view s' = graph_view s ∧ pulse_view s' = pulse_view s
  ∧ particleSystem s' = particleSystem s
  ∧ currentViz s' = currentViz s ∧ time s' = time s ∧ next_ref s' = next_ref s + 3.
Proof. cbv zeta. unfold createCoreNode. simpl. repeat split; try done. lia. Qed.

Lemma createNodes_views s :
  let s' := createNodes random s in
  connections s' = connections s ∧ lines s' = lines s
  ∧ pulse_view s' = pulse_view s ∧ particleSystem s' = particleSystem s
  ∧ currentViz s' = currentViz s ∧ time s' = time s ∧ next_ref s ≤ next_ref s'.
Proof.
  cbv zeta. unfold createNodes.
  pose proof (createNodes_frame random (default 0 (nodeCount (CONFIG s))) s) as Hn.
  cbv zeta in Hn. destruct Hn as (N1&N2&N3&N4&N5&N6&N7&N8&N9&N10&N11).
  unfold pulse_view. rewrite N4, N5, N7, N8, N9, N10, N2, createNodes_time.
  repeat split; try done. lia.
Qed.

Lemma createConnections_views s :
  let s' := createConnections s in
  nodes s' = nodes s ∧ meshes s' = meshes s
  ∧ pulse_view s' = pulse_view s ∧ particleSystem s' = particleSystem s
  ∧ currentViz s' = currentViz s ∧ time s' = time s ∧ next_ref s ≤ next_ref s'.
Proof.
  cbv zeta. rewrite createConnections_described.
  destruct (add_lines_spec (lines_described s) s) as (_&L2&_&_&_&(G1&G2&_)&_).
  destruct (add_lines_views (lines_described s) s) as (V1 & V2 & V3 & _).
  injection V2 as V2 V2'. rewrite G1, G2, V1, V2, V2', V3, L2.
  repeat split; try done. lia.
Qed.

(** The rebuilt scene is well formed, whatever the scene was before. *)
Lemma rebuild_part p s :
  let s' := updateHUD (createParticlesForPreset random p
              (createConnections (createNodes random (createCoreNode (clearScene s))))) in
  graph_part s'
  ∧ particles_ok s'
  ∧ (∃ ps, particleSystem s' = Some ps ∧ is_Some (pts_preset ps) ∧ is_Some (velocities ps))
  ∧ pulse_view s' = pulse_view s ∧ currentViz s' = currentViz s
  ∧ next_ref s ≤ next_ref s' ∧ time s' = time s.
Proof.
  cbv zeta.
  destruct (clearScene_facts s) as (C1&C2&_&_&_&C6&C7&_&C9&C10&_).
  assert (Ct : time (clearScene s) = time s).
  { unfold clearScene. cbv zeta.
    destruct (scene_removes_frame (nodes s) s) as (_&_&A3&A4&_).
    set (s1 := foldl (λ s node, scene_remove node s) s (nodes s)) in *.
    destruct (scene_removes_frame (connections (set_nodes (λ _, []) s1))
                (set_nodes (λ _, []) s1)) as (_&_&B3&B4&_).
    assert (T1 : ∀ l s0, time (foldl (λ s o, scene_remove o s) s0 l) = time s0).
    { clear. induction l as [|x l IH]; intros s0; simpl; [done|]. by rewrite IH. }
    set (s2 := foldl (λ s conn, scene_remove conn s) (set_nodes (λ _, []) s1)
                 (connections (set_nodes (λ _, []) s1))) in *.
    assert (T2 : time s2 = time s).
    { unfold s2. rewrite T1. simpl. unfold s1. by rewrite T1. }
    change (particleSystem (set_connections (λ _, []) s2)) with (particleSystem s2).
    destruct (particleSystem s2); simpl;
      match goal with |- context [coreNode ?x] => destruct (coreNode x) end; simpl; done. }
  pose proof (clearScene_ok s) as Hg0.
  set (s0 := clearScene s) in *.
  pose proof (createCoreNode_ok s0 Hg0) as Hg1.
  destruct (createCoreNode_views s0) as (D1 & D2 & D3 & D4 & D5 & D6).
  set (s1 := createCoreNode s0) in *.
  pose proof (createNodes_ok random s1 Hg1) as Hg2.
  assert (Hm2 : meshes_ok (createNodes random s1)).
  { apply createNodes_meshes. intros x Hx.
    assert (Hn1 : nodes s1 = []) by exact C1.
    rewrite Hn1 in Hx. by apply elem_of_nil in Hx. }
  destruct (createNodes_views s1) as (N1 & N2 & N3 & N4 & N5 & N6 & N7).
  set (s2 := createNodes random s1) in *.
  pose proof (createConnections_ok s2 Hg2) as Hg3.
  assert (Hl3 : lines_ok (createConnections s2)).
  { apply createConnections_lines_ok; [done|].
    intros c Hc. rewrite N1 in Hc.
    assert (Hc1 : connections s1 = []) by exact C2.
    rewrite Hc1 in Hc. by apply elem_of_nil in Hc. }
  destruct (createConnections_views s2) as (L1 & L2 & L3 & L4 & L5 & L6 & L7).
  set (s3 := createConnections s2) in *.
  pose proof (createParticlesForPreset_ok random p s3 Hg3) as Hg4.
  destruct (createParticlesForPreset_views p s3)
    as (P1 & P2 & P3 & P4 & P5 & ps & V & P6 & P7 & P8 & P9 & P10).
  set (s4 := createParticlesForPreset random p s3) in *.
  injection P1 as Pn Pc Pm Pl _ _.
  split; [|split; [|split; [|split; [|split; [|split]]]]].
  - split; [by apply updateHUD_ok|]. split; [|split; [|done]].
    + intros c Hc. change (line_form (line_data s4 c)).
      change (c ∈ connections s4) in Hc. unfold line_data. rewrite Pl.
      rewrite Pc in Hc. by apply Hl3.
    + intros x Hx. change (is_Some (meshes s4 !! x)). change (x ∈ nodes s4) in Hx.
      rewrite Pm, L2. apply Hm2. by rewrite <- L1, <- Pn.
  - change (particles_ok s4). unfold particles_ok. rewrite P6.
    exists (particleCount p). split; [done|]. intros V' HV'. congruence.
  - exists ps. change (particleSystem s4 = Some ps ∧ is_Some (pts_preset ps)
                        ∧ is_Some (velocities ps)).
    split; [done|]. rewrite P7, P8. by split; eexists.
  - change (pulse_view s4 = pulse_view s). rewrite P2, L3, N3, D2.
    unfold pulse_view. by rewrite C6, C7.
  - change (currentViz s4 = currentViz s). rewrite P3, L5, N5, D4. done.
  - change (next_ref s ≤ next_ref s4). rewrite P5. rewrite C10 in D6. lia.
  - change (time s4 = time s). rewrite P4, L6, N6, D5. done.
Qed.

Lemma switchVisualization_part value s :
  (∀ name, VIZ_PRESETS value ≠ JInherited name) →
  state_ok s →
  ∃ s', switchVisualization random value s = Returned s' ∧ state_ok s'
    ∧ pulse_view s' = pulse_view s ∧ time s' = time s.
Proof.
  intros Hvalue Hs. destruct (VIZ_PRESETS value) as [|p|name] eqn:Hp.
  - exists s. unfold switchVisualization. rewrite Hp. done.
  - set (sc := set_CONFIG (λ c, mkConfig (Some (p_nodeCount p)) (Some (p_connectionDistance p))
                  (nodeSize c) (coreSize c) (fieldSize c) (Some (primary (p_colors p)))
                  (Some (secondary (p_colors p))) (Some (accent (p_colors p))))
                (set_currentViz value s)).
    assert (Heq : switchVisualization random value s
                  = Returned (updateHUD (createParticlesForPreset random p
                      (createConnections (createNodes random
                         (createCoreNode (clearScene sc))))))).
    { unfold switchVisualization. rewrite Hp. done. }
    rewrite Heq. clear Heq.
    pose proof (rebuild_part p sc) as Hr. cbv zeta in Hr.
    destruct Hr as (Hg & Hshape & (ps & Hps & Hpre & Hvel) & Hpv & Hviz & Hnext & Htime).
    eexists. split; [done|]. split; [|done].
    destruct Hs as (_ & Hpulses & _).
    split; [done|]. split.
    + revert Hpulses. apply pulses_ok_view; done.
    + split; [done|]. split.
      * unfold particles_fit. rewrite Hps. by right.
      * unfold preset_ok. rewrite Hviz. simpl. rewrite Hp. by eexists.
  - by destruct (Hvalue name).
Qed.
End rebuild_frames.

(** *** A frame *)

Lemma nodes_moved_views a a' :
  nodes_moved a a' →
  nodes (state a') = nodes (state a) ∧ connections (state a') = connections (state a)
  ∧ lines (state a') = lines (state a)
  ∧ hud_node_count (state a') = hud_node_count (state a)
  ∧ hud_connection_count (state a') = hud_connection_count (state a)
  ∧ pulse_view (state a') = pulse_view (state a)
  ∧ particle_view (state a') = particle_view (state a)
  ∧ next_ref (state a') = next_ref (state a) ∧ time (state a') = time (state a)
  ∧ coreNode (state a') = coreNode (state a)
  ∧ controls a' = controls a ∧ frameCount a' = frameCount a.
Proof.
  intros [H1 H2]. rewrite H1. do 10 (split; [done|]). rewrite H2. done.
Qed.

Lemma lines_moved_views a a' :
  lines_moved a a' →
  nodes (state a') = nodes (state a) ∧ connections (state a') = connections (state a)
  ∧ meshes (state a') = meshes (state a)
  ∧ hud_node_count (state a') = hud_node_count (state a)
  ∧ hud_connection_count (state a') = hud_connection_count (state a)
  ∧ pulse_view (state a') = pulse_view (state a)
  ∧ particle_view (state a') = particle_view (state a)
  ∧ next_ref (state a') = next_ref (state a) ∧ time (state a') = time (state a)
  ∧ coreNode (state a') = coreNode (state a)
  ∧ controls a' = controls a ∧ frameCount a' = frameCount a.
Proof.
  intros [H1 H2]. rewrite H1. do 10 (split; [done|]). rewrite H2. done.
Qed.

Lemma animateNodes_keeps_meshes l a x :
  is_Some (meshes (state a) !! x) → is_Some (meshes (state (foldl animateNode a l)) !! x).
Proof.
  revert a. induction l as [|n l IH]; intros a Hx; cbn [foldl]; [done|].
  apply IH. destruct (animateNode_step a n) as (_ & Hother & _ & Hself).
  destruct (decide (x = n)) as [->|Hne].
  - destruct Hx as [d Hd]. destruct (Hself d Hd) as (d' & Hd' & _). by eexists.
  - destruct (Hother x Hne) as [-> _]. done.
Qed.

Lemma animateNodes_part a :
  graph_part (state a) →
  nodes_moved a (animateNodes a) ∧ graph_part (state (animateNodes a)).
Proof.
  intros (Hg & Hl & Hm & Hh). unfold animateNodes.
  destruct (animateNodes_other (nodes (state a)) a) as [Hmoved _].
  split; [done|].
  pose proof (nodes_moved_views _ _ Hmoved) as (V1&V2&V3&V4&V5&_&_&V8&_).
  split; [|split; [|split]].
  - revert Hg. apply graph_ok_frame; (done || lia).
  - unfold lines_ok, line_data. by rewrite V2, V3.
  - intros n Hn. apply animateNodes_keeps_meshes. apply Hm. by rewrite <- V1.
  - unfold hud_ok. by rewrite V1, V2, V4, V5.
Qed.

Lemma animateConnections_part a :
  graph_part (state a) →
  ∃ a', animateConnections a = Normal a' ∧ lines_moved a a' ∧ graph_part (state a').
Proof.
  intros (Hg & Hl & Hm & Hh). pose proof Hg as (_ & Hnd & _ & Hvalid).
  destruct (animateConnections_from_spec (connections (state a)) 0 a Hnd)
    as (a' & Hrun & Hmoved & Hother & Hin).
  { intros c Hc. split; [by apply Hl|by apply Hvalid]. }
  exists a'. split; [done|]. split; [done|].
  pose proof (lines_moved_views _ _ Hmoved) as (V1&V2&V3&V4&V5&_).
  destruct (lines_moved_ok a a' Hmoved) as [Hg' Hl']; [|done|].
  { intros c Hc. apply list_elem_of_lookup in Hc as [k Hk].
    destruct (Hin k c Hk) as [(E0 & Ecore & E1 & E2 & _) _].
    unfold stored. by rewrite E0, E1, E2, Ecore. }
  split; [done|]. split; [done|]. split.
  - unfold meshes_ok. by rewrite V1, V3.
  - unfold hud_ok. by rewrite V1, V2, V4, V5.
Qed.

(** *** Recording *)

#[local] Arguments Nat.modulo : simpl never.

Lemma stopRecording_ok a : recording_ok a → recording_ok (stopRecording a).
Proof.
  intros (H1 & H2 & H3). unfold stopRecording. simpl. case_decide; [done|].
  unfold createGif, recording_ok. simpl. split; [done|]. split; [done|].
  intros g [Hg|Hg]%elem_of_app; [by apply H3|].
  apply list_elem_of_singleton in Hg. subst g. split; [lia|done].
Qed.

Lemma captureFrame_ok a : recording_ok a → recording_ok (captureFrame a).
Proof.
  intros Hok. unfold captureFrame. destruct (isRecording a); simpl; [|done].
  destruct (decide (frameCount a mod 3 ≠ 0)) as [|Hmod]; simpl; [done|].
  case_decide; [by apply stopRecording_ok|].
  destruct Hok as (H1 & H2 & H3). unfold recording_ok. simpl.
  rewrite length_app. simpl. split; [lia|]. split; [|done].
  intros f [Hf|Hf]%elem_of_app; [by apply H2|].
  apply list_elem_of_singleton in Hf. subst f. lia.
Qed.

Lemma startRecording_ok a : recording_ok a → recording_ok (startRecording a).
Proof.
  intros (H1 & H2 & H3). unfold startRecording, recording_ok. simpl.
  split; [lia|]. split; [|done]. intros f Hf. by apply elem_of_nil in Hf.
Qed.

Lemma toggleRecording_ok a : recording_ok a → recording_ok (toggleRecording a).
Proof.
  unfold toggleRecording. destruct (isRecording a);
    [apply stopRecording_ok|apply startRecording_ok].
Qed.

Lemma stopRecording_state a :
  state (stopRecording a) = state a ∧ pulsesEnabled (stopRecording a) = pulsesEnabled a.
Proof. unfold stopRecording. simpl. by case_decide. Qed.

Lemma captureFrame_state a :
  state (captureFrame a) = state a ∧ pulsesEnabled (captureFrame a) = pulsesEnabled a
  ∧ frameCount (captureFrame a) = frameCount a
  ∧ currentMode (captureFrame a) = currentMode a.
Proof.
  unfold captureFrame. destruct (isRecording a); simpl; [|done].
  case_decide; [done|]. case_decide; [|done].
  unfold stopRecording. simpl. by case_decide.
Qed.

Lemma recording_ok_controls a a' : controls a' = controls a → recording_ok a → recording_ok a'.
Proof. intros [= _ _ _ _ _ Hr Hg]. unfold recording_ok. by rewrite Hr, Hg. Qed.

Section frame_invariant.
Variable random : nat → R.
Hypothesis random_range : ∀ n, (0 <= random n < 1)%R.

(** The pulses of a frame: what [animate] does when pulses are enabled *)
Lemma pulses_step_part (a : App) :
  state_ok (state a) →
  ∃ a',
    (let a1 := with_state animateDataPulses a in
     if decide (frameCount a1 mod 30 = 0 ∧ 0 < length (connections (state a1)))
     then call (spawnDataPulse random) a1 else Normal a1) = Normal a'
    ∧ state_ok (state a')
    ∧ graph_view (state a') = graph_view (state a)
    ∧ particle_view (state a') = particle_view (state a)
    ∧ time (state a') = time (state a) ∧ coreNode (state a') = coreNode (state a)
    ∧ next_ref (state a) ≤ next_ref (state a')
    ∧ controls a' = controls a ∧ frameCount a' = frameCount a
    ∧ dataPulses (state a')
      = filter (λ p, ¬ completes (state a) p) (dataPulses (state a))
        ++ (if decide (frameCount a mod 30 = 0 ∧ 0 < length (connections (state a)))
            then [next_ref (state a)] else []).
Proof.
  intros (Hg & Hp & Hpp). cbv zeta.
  pose proof (animateDataPulses_views (state a)) as Hv. cbv zeta in Hv.
  destruct Hv as (V1 & V2 & V3 & V4 & V5).
  pose proof (animateDataPulses_ok (state a) Hp) as Hp1.
  destruct Hp as [Hnd Hobj].
  pose proof (animateDataPulses_spec (state a) Hnd) as Hspec. cbv zeta in Hspec.
  destruct Hspec as (Hdp & _ & _).
  assert (Hconn : connections (animateDataPulses (state a)) = connections (state a)).
  { by injection V1. }
  assert (Hok1 : state_ok (animateDataPulses (state a))).
  { split; [|split; [done|]].
    - revert Hg. apply graph_part_view; [done|lia].
    - revert Hpp. by apply particle_part_view. }
  simpl. rewrite Hconn.
  destruct (decide (frameCount a mod 30 = 0 ∧ 0 < length (connections (state a))))
    as [[Hmod Hlen]|Hno].
  - destruct (spawnDataPulse_facts random random_range (animateDataPulses (state a)))
      as (s' & c & v & Hs' & _ & _ & S1 & S2 & S3 & S4 & S5 & S6 & S7 & S8).
    { rewrite Hconn. destruct (connections (state a)); [simpl in Hlen; lia|done]. }
    { destruct Hpp as (_ & _ & Hpre). unfold preset_ok in Hpre.
      injection V2 as _ ->. done. }
    unfold call. simpl. rewrite Hs'. eexists. split; [done|]. simpl.
    split; [|split; [congruence|split; [congruence|split; [congruence|
      split; [congruence|split; [lia|split; [done|split; [done|]]]]]]]].
    + split; [|split].
      * destruct Hok1 as (Hg1 & _). revert Hg1. apply graph_part_view; [done|lia].
      * pose proof (spawnDataPulse_ok random (animateDataPulses (state a)) Hp1) as Hp2.
        by rewrite Hs' in Hp2.
      * destruct Hok1 as (_ & _ & Hpp1). revert Hpp1. by apply particle_part_view.
    + rewrite S1, Hdp, V3. done.
  - eexists. split; [done|]. simpl.
    split; [done|]. split; [done|]. split; [done|]. split; [done|]. split; [done|].
    split; [lia|]. split; [done|]. split; [done|]. by rewrite Hdp, app_nil_r.
Qed.

Lemma animate_part a :
  app_ok a →
  ∃ a', animate random a = Normal a' ∧ app_ok a'
    ∧ frameCount a' = S (frameCount a)
    ∧ time (state a') = (time (state a) + 16/1000)%R
    ∧ nodes (state a') = nodes (state a) ∧ connections (state a') = connections (state a)
    ∧ currentViz (state a') = currentViz (state a)
    ∧ currentMode a' = currentMode a ∧ pulsesEnabled a' = pulsesEnabled a
    ∧ next_ref (state a) ≤ next_ref (state a')
    ∧ dataPulses (state a')
      = if pulsesEnabled a
        then filter (λ p, ¬ completes (state a) p) (dataPulses (state a))
             ++ (if decide (S (frameCount a) mod 30 = 0 ∧ 0 < length (connections (state a)))
                 then [next_ref (state a)] else [])
        else dataPulses (state a).
Proof.
  intros ((Hg & Hp & Hpp) & Hflag & Hrec). unfold animate.
  match goal with |- context [animateNodes ?x] => set (a2 := x) end.
  assert (H2 : state a2 = set_time (time (state a) + 16/1000) (state a)
               ∧ controls a2 = controls a ∧ frameCount a2 = S (frameCount a)).
  { unfold a2. simpl. by destruct (coreNode (state a)). }
  destruct H2 as (Hs2 & Hc2 & Hf2).
  assert (Hg2 : graph_part (state a2)) by (by rewrite Hs2).
  destruct (animateNodes_part a2 Hg2) as [Hm3 Hg3].
  pose proof (nodes_moved_views _ _ Hm3) as (A1&A2&A3&A4&A5&A6&A7&A8&A9&A10&A11&A12).
  set (a3 := animateNodes a2) in *.
  destruct (animateConnections_part a3 Hg3) as (a4 & H4 & Hm4 & Hg4).
  pose proof (lines_moved_views _ _ Hm4) as (B1&B2&B3&B4&B5&B6&B7&B8&B9&B10&B11&B12).
  rewrite H4. cbn [and_then].
  assert (Hpp4 : particle_part (state a4)).
  { revert Hpp. apply particle_part_view. rewrite B7, A7, Hs2. done. }
  destruct (animateParticles_part random (state a4) Hpp4)
    as (s5 & Hs5 & Hpp5 & C1 & C2 & C3 & C4 & C5 & C6 & C7).
  unfold call at 1. rewrite Hs5. cbn [and_then].
  set (a5 := with_state (λ _, s5) a4).
  destruct (applyMouseGravity_part s5 Hpp5) as (Hpp6 & D1 & D2 & D3 & D4 & D5 & D6 & D7).
  set (a6 := with_state applyMouseGravity a5).
  assert (Hs6 : state a6 = applyMouseGravity s5) by done.
  assert (Hc6 : controls a6 = controls a) by (by rewrite <- Hc2, <- A11, <- B11).
  assert (Hf6 : frameCount a6 = S (frameCount a)) by (by rewrite <- Hf2, <- A12, <- B12).
  assert (Hpv6 : pulse_view (state a6) = pulse_view (state a)).
  { rewrite Hs6, D2, C2, B6, A6, Hs2. done. }
  assert (Hn6 : next_ref (state a6) = next_ref (state a)).
  { rewrite Hs6, D3, C3, B8, A8, Hs2. done. }
  assert (Hok6 : state_ok (state a6)).
  { rewrite Hs6. split; [|split; [|done]].
    - revert Hg4. apply graph_part_view; [by rewrite D1, C1|lia].
    - revert Hp. apply pulses_ok_view; [by rewrite <- Hs6, Hpv6|].
      rewrite <- Hs6, Hn6. done. }
  assert (Hgv6 : nodes (state a6) = nodes (state a)
                 ∧ connections (state a6) = connections (state a)).
  { rewrite Hs6. injection D1 as -> -> _ _ _ _. injection C1 as -> -> _ _ _ _.
    rewrite B1, B2, A1, A2, Hs2. done. }
  destruct Hgv6 as [Hnodes6 Hconn6].
  assert (Hviz6 : currentViz (state a6) = currentViz (state a)).
  { rewrite Hs6, D7, C7. injection B7 as _ ->. injection A7 as _ ->. by rewrite Hs2. }
  assert (Htime6 : time (state a6) = (time (state a) + 16/1000)%R).
  { rewrite Hs6, D5, C5, B9, A9, Hs2. done. }
  assert (Hpe6 : pulsesEnabled a6 = pulsesEnabled a) by (by injection Hc6).
  assert (Hmode6 : currentMode a6 = currentMode a) by (by injection Hc6).
  assert (Hrec6 : recording_ok a6) by (revert Hrec; by apply recording_ok_controls).
  destruct (pulsesEnabled a6) eqn:Hpe.
  - destruct (pulses_step_part a6 Hok6)
      as (a7 & H7 & Hok7 & E1 & E2 & E3 & E4 & E5 & E6 & E7 & E8).
    cbv zeta in H7. rewrite H7. cbn [and_then].
    assert (Hrec7 : recording_ok a7) by (revert Hrec6; by apply recording_ok_controls).
    assert (Hpe7 : pulsesEnabled a7 = true) by (injection E6 as _ -> _ _ _ _ _; done).
    eexists. split; [done|].
    assert (Hfinal : ∀ a8, state a8 = state a7 → pulsesEnabled a8 = pulsesEnabled a7 →
              frameCount a8 = frameCount a7 → recording_ok a8 → currentMode a8 = currentMode a7 →
              app_ok a8 ∧ frameCount a8 = S (frameCount a)
              ∧ time (state a8) = (time (state a) + 16/1000)%R
              ∧ nodes (state a8) = nodes (state a)
              ∧ connections (state a8) = connections (state a)
              ∧ currentViz (state a8) = currentViz (state a)
              ∧ currentMode a8 = currentMode a ∧ pulsesEnabled a8 = pulsesEnabled a
              ∧ next_ref (state a) ≤ next_ref (state a8)
              ∧ dataPulses (state a8)
                = if pulsesEnabled a
                  then filter (λ p, ¬ completes (state a) p) (dataPulses (state a))
                       ++ (if decide (S (frameCount a) mod 30 = 0
                                      ∧ 0 < length (connections (state a)))
                           then [next_ref (state a)] else [])
                  else dataPulses (state a)).
    { intros a8 F1 F2 F3 F4 F5. unfold app_ok. rewrite F1, F2, F3, F5.
      split; [split; [done|split; [rewrite Hpe7; done|done]]|].
      split; [by rewrite E7|]. split; [by rewrite E3|].
      injection E1 as -> -> _ _ _ _. injection E2 as _ ->.
      split; [done|]. split; [done|]. split; [done|].
      split; [injection E6 as -> _ _ _ _ _ _; done|]. split; [congruence|].
      split; [lia|]. rewrite <- Hpe6, E8, Hf6, Hconn6, Hn6.
      assert (Hdp6 : dataPulses (state a6) = dataPulses (state a)
                     ∧ pulses (state a6) = pulses (state a)) by (by injection Hpv6).
      destruct Hdp6 as [Hdp6 Hpm6]. rewrite Hdp6.
      f_equal. apply filter_ext_elem. intros p _. unfold completes.
      by rewrite Hpm6. }
    destruct (isRecording a7).
    + destruct (captureFrame_state a7) as (F1 & F2 & F3 & F4).
      apply Hfinal; try done. by apply captureFrame_ok.
    + by apply Hfinal.
  - cbn [and_then]. eexists. split; [done|].
    assert (Hfinal : ∀ a8, state a8 = state a6 → pulsesEnabled a8 = pulsesEnabled a6 →
              frameCount a8 = frameCount a6 → recording_ok a8 → currentMode a8 = currentMode a6 →
              app_ok a8 ∧ frameCount a8 = S (frameCount a)
              ∧ time (state a8) = (time (state a) + 16/1000)%R
              ∧ nodes (state a8) = nodes (state a)
              ∧ connections (state a8) = connections (state a)
              ∧ currentViz (state a8) = currentViz (state a)
              ∧ currentMode a8 = currentMode a ∧ pulsesEnabled a8 = pulsesEnabled a
              ∧ next_ref (state a) ≤ next_ref (state a8)
              ∧ dataPulses (state a8)
                = if pulsesEnabled a
                  then filter (λ p, ¬ completes (state a) p) (dataPulses (state a))
                       ++ (if decide (S (frameCount a) mod 30 = 0
                                      ∧ 0 < length (connections (state a)))
                           then [next_ref (state a)] else [])
                  else dataPulses (state a)).
    { intros a8 F1 F2 F3 F4 F5. unfold app_ok. rewrite F1, F2, F3, F5.
      assert (Hdp6 : dataPulses (state a6) = dataPulses (state a)) by (by injection Hpv6).
      split; [split; [done|split; [|done]]|].
      { intros _. rewrite Hdp6. apply Hflag. congruence. }
      rewrite <- Hpe6, Hpe.
      split; [done|]. split; [done|]. split; [done|]. split; [done|]. split; [done|].
      split; [done|]. split; [done|]. split; [lia|]. done. }
    destruct (isRecording a6).
    + destruct (captureFrame_state a6) as (F1 & F2 & F3 & F4).
      apply Hfinal; try done. by apply captureFrame_ok.
    + by apply Hfinal.
Qed.
End frame_invariant.

(** *** The handlers *)

Lemma set_meshes_ok f s :
  (∀ x, is_Some (meshes s !! x) → is_Some (f (meshes s) !! x)) →
  state_ok s → state_ok (set_meshes f s).
Proof.
  intros Hf ((Hg & Hl & Hm & Hh) & Hp & Hpp).
  split; [|split; [exact Hp|exact Hpp]].
  split; [revert Hg; by apply graph_ok_frame|]. split; [exact Hl|]. split; [|exact Hh].
  intros n Hn. apply Hf. by apply Hm.
Qed.

Lemma animateSpawn_ok node s : state_ok s → state_ok (animateSpawn node s).
Proof.
  intros Hs. unfold animateSpawn. destruct (meshes s !! node) as [d|] eqn:Hd; [|done].
  case_decide; apply set_meshes_ok; try done; intros x Hx;
    apply lookup_insert_is_Some; (destruct (decide (node = x)); [by left|by right]).
Qed.

Lemma resetScales_ok s : state_ok s → state_ok (resetScales s).
Proof.
  unfold resetScales. generalize (nodes s). intros l. revert s.
  induction l as [|n l IH]; intros s Hs; simpl; [done|].
  apply IH. destruct (meshes s !! n) as [d|] eqn:Hd; [|done].
  apply set_meshes_ok; [|done]. intros x Hx.
  apply lookup_insert_is_Some. destruct (decide (n = x)); [by left|by right].
Qed.

Lemma resetScales_dataPulses s : dataPulses (resetScales s) = dataPulses s.
Proof.
  unfold resetScales. generalize (nodes s). intros l. revert s.
  induction l as [|n l IH]; intros s; simpl; [done|].
  rewrite IH. by destruct (meshes s !! n).
Qed.

Lemma scene_removes_views l s :
  let s' := foldl (λ s o, scene_remove o s) s l in
  graph_view s' = graph_view s ∧ pulse_view s' = pulse_view s
  ∧ particle_view s' = particle_view s ∧ next_ref s' = next_ref s ∧ time s' = time s.
Proof.
  cbv zeta. revert s. induction l as [|x l IH]; intros s; simpl; [done|].
  destruct (IH (scene_remove x s)) as (I1 & I2 & I3 & I4 & I5).
  rewrite I1, I2, I3, I4, I5. done.
Qed.

Lemma clearPulses_ok s :
  state_ok s → state_ok (clearPulses s) ∧ dataPulses (clearPulses s) = [].
Proof.
  intros (Hg & Hp & Hpp). unfold clearPulses.
  destruct (scene_removes_views (dataPulses s) s) as (V1 & V2 & V3 & V4 & V5).
  set (s1 := foldl (λ s p, scene_remove p s) s (dataPulses s)) in *.
  split; [|done]. split; [|split].
  - revert Hg. apply graph_part_view; [exact V1|]. change (next_ref s ≤ next_ref s1). lia.
  - split; [apply NoDup_nil_2|]. intros p Hp'. by apply elem_of_nil in Hp'.
  - revert Hpp. apply particle_part_view. exact V3.
Qed.

Lemma onRightClick_ok intersects s : state_ok s → state_ok (onRightClick intersects s).
Proof.
  intros (Hg & Hp & Hpp). destruct intersects as [|o l]; [done|]. simpl.
  destruct (deleteNode_views o s) as (V1 & V2 & _ & _ & _ & V6).
  split; [by apply deleteNode_part|]. split.
  - revert Hp. apply pulses_ok_view; [done|lia].
  - revert Hpp. by apply particle_part_view.
Qed.

Lemma onRightClick_dataPulses intersects s :
  dataPulses (onRightClick intersects s) = dataPulses s.
Proof.
  destruct intersects as [|o l]; [done|]. simpl.
  destruct (deleteNode_views o s) as (V1 & _). by injection V1.
Qed.

Lemma onMouseMove_ok ray s :
  state_ok (onMouseMove ray s) = state_ok s
  ∧ dataPulses (onMouseMove ray s) = dataPulses s.
Proof. unfold onMouseMove. by destruct (intersectPlane ray _ _). Qed.

Lemma recordingTimeout_ok a : recording_ok a → recording_ok (recordingTimeout a).
Proof. unfold recordingTimeout. destruct (isRecording a); [apply stopRecording_ok|done]. Qed.

Lemma gifFinished_ok a : recording_ok a → recording_ok (gifFinished a).
Proof.
  intros (H1 & H2 & H3). unfold gifFinished, recording_ok. simpl.
  split; [lia|]. split; [|done]. intros f Hf. by apply elem_of_nil in Hf.
Qed.

Lemma toggleRecording_state a :
  state (toggleRecording a) = state a
  ∧ pulsesEnabled (toggleRecording a) = pulsesEnabled a.
Proof.
  unfold toggleRecording. destruct (isRecording a); [apply stopRecording_state|done].
Qed.

Lemma recordingTimeout_state a :
  state (recordingTimeout a) = state a
  ∧ pulsesEnabled (recordingTimeout a) = pulsesEnabled a.
Proof.
  unfold recordingTimeout. destruct (isRecording a); [apply stopRecording_state|done].
Qed.

Lemma app_ok_recording a a' :
  state a' = state a → pulsesEnabled a' = pulsesEnabled a → recording_ok a' →
  app_ok a → app_ok a'.
Proof. intros Hs Hp Hrec (H1 & H2 & _). unfold app_ok. by rewrite Hs, Hp. Qed.

Section handlers.
Variable random : nat → R.
Hypothesis random_range : ∀ n, (0 <= random n < 1)%R.

Lemma resetScene_eq a :
  let a0 := if isRecording a then stopRecording a else a in
  let sc := configure neural (set_currentViz "neural" (clearPulses (state a0))) in
  let s4 := createParticlesForPreset random neural
              (createConnections (createNodes random (createCoreNode (clearScene sc)))) in
  resetScene random a
  = mkApp (updateHUD (set_addingNode false s4)) "orbit" (frameCount a0)
      true true (uiHidden a0) (isRecording a0) (recordedFrames a0) (gifs a0)
      (rotation a0) (emissiveIntensity a0) (line_opacity a0).
Proof. reflexivity. Qed.

Lemma rebuilt_ok (s4 sc : State) (a0 : App) :
  graph_part (updateHUD s4) → particles_ok (updateHUD s4) →
  (∃ ps, particleSystem (updateHUD s4) = Some ps
         ∧ is_Some (pts_preset ps) ∧ is_Some (velocities ps)) →
  pulse_view (updateHUD s4) = pulse_view sc →
  currentViz (updateHUD s4) = currentViz sc →
  dataPulses sc = [] → preset_ok sc → recording_ok a0 →
  app_ok (mkApp (updateHUD (set_addingNode false s4)) "orbit" (frameCount a0)
            true true (uiHidden a0) (isRecording a0) (recordedFrames a0) (gifs a0)
            (rotation a0) (emissiveIntensity a0) (line_opacity a0)).
Proof.
  intros Hg Hshape (ps & Hps & Hpre & Hvel) Hpv Hviz Hsc1 Hsc2 Hrec0.
  unfold pulse_view in Hpv. simpl in Hpv, Hviz, Hps. injection Hpv as Hdp _.
  rewrite Hsc1 in Hdp.
  split; [|split; [intros _; exact Hdp|exact Hrec0]].
  split; [exact Hg|]. split.
  - split; [change (NoDup (dataPulses s4)); rewrite Hdp; apply NoDup_nil_2|].
    intros p Hin. change (p ∈ dataPulses s4) in Hin. rewrite Hdp in Hin.
    by apply elem_of_nil in Hin.
  - split; [exact Hshape|]. split.
    + change (particles_fit s4). unfold particles_fit. rewrite Hps. by right.
    + change (preset_ok s4). unfold preset_ok. rewrite Hviz. exact Hsc2.
Qed.

(** Whatever the state, [resetScene] leaves a well-formed program. *)
Lemma resetScene_ok a : recording_ok a → app_ok (resetScene random a).
Proof.
  intros Hrec. rewrite resetScene_eq.
  pose proof (rebuild_part random neural
                (configure neural (set_currentViz "neural"
                   (clearPulses (state (if isRecording a then stopRecording a else a))))))
    as (Hg & Hshape & Hps & Hpv & Hviz & _).
  apply (rebuilt_ok _ _ _ Hg Hshape Hps Hpv Hviz).
  - reflexivity.
  - by eexists.
  - destruct (isRecording a); [by apply stopRecording_ok|done].
Qed.

Lemma onModeClick_ok mode a : app_ok a → app_ok (onModeClick random mode a).
Proof.
  intros (Hs & Hflag & Hrec). unfold onModeClick.
  case_decide; [by apply resetScene_ok|]. case_decide; [|done].
  split; [by apply resetScales_ok|]. split; [|done].
  intros Hpe. change (dataPulses (resetScales (state a)) = []).
  rewrite resetScales_dataPulses. by apply Hflag.
Qed.

Lemma onPulsesClick_ok a : app_ok a → app_ok (onPulsesClick a).
Proof.
  intros (Hs & Hflag & Hrec). unfold onPulsesClick. simpl.
  destruct (pulsesEnabled a); simpl.
  - destruct (clearPulses_ok (state a) Hs) as [Hs' Hdp]. by split.
  - split; [done|]. split; [intros Hpe; simpl in Hpe; congruence|done].
Qed.

Lemma call_ok f a :
  app_ok a →
  (∃ s', f (state a) = Returned s' ∧ state_ok s' ∧ pulse_view s' = pulse_view (state a)) →
  ∃ a', call f a = Normal a' ∧ app_ok a'.
Proof.
  intros (Hs & Hflag & Hrec) (s' & Hf & Hs' & Hpv). unfold call. rewrite Hf.
  eexists. split; [done|]. split; [exact Hs'|]. split; [|exact Hrec].
  intros Hpe. change (dataPulses s' = []). injection Hpv as -> _. by apply Hflag.
Qed.

(** Every event is handled without an exception and leaves the program
    well formed. *)
Lemma handle_part e a :
  event_ok e → app_ok a → ∃ a', handle random e a = Normal a' ∧ app_ok a'.
Proof.
  intros He Ha. destruct e; simpl.
  - destruct (animate_part random random_range a Ha) as (a' & Ha' & Hok & _). by exists a'.
  - eexists. split; [done|]. destruct Ha as (Hs & Hflag & Hrec).
    split; [by apply animateSpawn_ok|]. split; [|done].
    intros Hpe. change (dataPulses (animateSpawn node (state a)) = []).
    unfold animateSpawn. destruct (meshes (state a) !! node); [case_decide|]; by apply Hflag.
  - eexists. split; [done|]. destruct Ha as (Hs & Hflag & Hrec).
    destruct (onMouseMove_ok ray (state a)) as [E1 E2].
    split; [change (state_ok (onMouseMove ray (state a))); by rewrite E1|].
    split; [|done]. intros Hpe. change (dataPulses (onMouseMove ray (state a)) = []).
    rewrite E2. by apply Hflag.
  - apply call_ok; [done|]. destruct Ha as ((Hg & Hp & Hpp) & _).
    destruct (onCanvasClick_part random ray (state a) Hg)
      as (s' & Hs' & Hg' & V1 & V2 & V3 & _); [apply Hpp|].
    exists s'. split; [done|]. split; [|done].
    split; [done|]. split.
    + revert Hp. by apply pulses_ok_view.
    + revert Hpp. by apply particle_part_view.
  - eexists. split; [done|]. destruct Ha as (Hs & Hflag & Hrec).
    split; [by apply onRightClick_ok|]. split; [|done].
    intros Hpe. change (dataPulses (onRightClick intersects (state a)) = []).
    rewrite onRightClick_dataPulses. by apply Hflag.
  - eexists. split; [done|]. by apply onModeClick_ok.
  - apply call_ok; [done|]. destruct Ha as (Hs & _).
    destruct (switchVisualization_part random value (state a) He Hs)
      as (s' & Hs' & Hok & Hpv & _). by exists s'.
  - eexists. split; [done|]. exact Ha.
  - eexists. split; [done|]. exact Ha.
  - eexists. split; [done|]. by apply onPulsesClick_ok.
  - eexists. split; [done|]. destruct (toggleRecording_state a) as [E1 E2].
    apply (app_ok_recording a); [done|done| |done]. apply toggleRecording_ok, Ha.
  - eexists. split; [done|]. exact Ha.
  - eexists. split; [done|]. unfold onKeyDown. case_decide; exact Ha.
  - eexists. split; [done|]. destruct (recordingTimeout_state a) as [E1 E2].
    apply (app_ok_recording a); [done|done| |done]. apply recordingTimeout_ok, Ha.
  - eexists. split; [done|].
    apply (app_ok_recording a); [done|done| |done]. apply gifFinished_ok, Ha.
Qed.
End handlers.

(** *** Start-up *)

Section startup.
Variable random : nat → R.
Hypothesis random_range : ∀ n, (0 <= random n < 1)%R.

Lemma createParticle0_spec s :
  let r := createParticle0 random s in
  length r.1 = 3 ∧ ∃ k, r.2 = set_rng k s.
Proof. cbv zeta. unfold createParticle0. simpl. split; [done|]. by eexists. Qed.

Lemma createParticleBuffer_spec n s :
  let r := createParticleBuffer random n s in
  length r.1 = 3 * n ∧ ∃ k, r.2 = set_rng k s.
Proof.
  cbv zeta. revert s. induction n as [|n IH]; intros s; cbn [createParticleBuffer].
  - split; [done|]. exists (rng s). by destruct s.
  - destruct (createParticle0_spec s) as [Hl [k Hk]].
    destruct (createParticle0 random s) as [p s1]. cbn [fst snd] in Hl, Hk. subst s1.
    destruct (IH (set_rng k s)) as [Hl' [k' Hk']].
    destruct (createParticleBuffer random n (set_rng k s)) as [ps s2].
    cbn [fst snd] in *. subst s2. rewrite length_app. split; [lia|].
    exists k'. by destruct s.
Qed.

Lemma createParticles_views s :
  let s' := createParticles random s in
  graph_view s' = graph_view s ∧ pulse_view s' = pulse_view s
  ∧ currentViz s' = currentViz s ∧ time s' = time s ∧ next_ref s' = S (next_ref s)
  ∧ ∃ ps, particleSystem s' = Some ps ∧ pts_preset ps = None ∧ velocities ps = None
      ∧ length (positions ps) = 3 * 500 ∧ pts_id ps = next_ref s
      ∧ pts_id ps ∈ scene s'.
Proof.
  cbv zeta. unfold createParticles.
  destruct (createParticleBuffer_spec 500 s) as [Hl [k Hk]].
  destruct (createParticleBuffer random 500 s) as [ps s1].
  cbn [fst snd] in Hl, Hk. subst s1. simpl.
  do 5 (split; [done|]). eexists. simpl. do 5 (split; [done|]). set_solver.
Qed.

Lemma createLights_views s :
  let s' := createLights s in
  graph_view s' = graph_view s ∧ pulse_view s' = pulse_view s
  ∧ particle_view s' = particle_view s ∧ time s' = time s
  ∧ next_ref s' = next_ref s + 4.
Proof. cbv zeta. unfold createLights. simpl. repeat split; try done. lia. Qed.

(** The graph that [createCoreNode], [createNodes] and
    [createConnections] build where there was none *)
Lemma build_graph s0 :
  graph_ok s0 → nodes s0 = [] → connections s0 = [] →
  let s3 := createConnections (createNodes random (createCoreNode s0)) in
  graph_ok s3 ∧ lines_ok s3 ∧ meshes_ok s3
  ∧ pulse_view s3 = pulse_view s0 ∧ particleSystem s3 = particleSystem s0
  ∧ currentViz s3 = currentViz s0 ∧ time s3 = time s0 ∧ next_ref s0 ≤ next_ref s3
  ∧ length (nodes s3) = default 0 (nodeCount (CONFIG s0)).
Proof.
  intros Hg0 Hn0 Hc0. cbv zeta.
  pose proof (createCoreNode_ok s0 Hg0) as Hg1.
  destruct (createCoreNode_views s0) as (D1 & D2 & D3 & D4 & D5 & D6).
  assert (Hn1 : nodes (createCoreNode s0) = []) by exact Hn0.
  assert (Hc1 : connections (createCoreNode s0) = []) by exact Hc0.
  assert (Hcfg : CONFIG (createCoreNode s0) = CONFIG s0) by reflexivity.
  revert Hg1 D2 D3 D4 D5 D6 Hn1 Hc1 Hcfg. generalize (createCoreNode s0). intros s1.
  intros Hg1 D2 D3 D4 D5 D6 Hn1 Hc1 Hcfg.
  pose proof (createNodes_ok random s1 Hg1) as Hg2.
  assert (Hm2 : meshes_ok (createNodes random s1)).
  { apply createNodes_meshes. intros x Hx. rewrite Hn1 in Hx. by apply elem_of_nil in Hx. }
  destruct (createNodes_views random s1) as (N1 & N2 & N3 & N4 & N5 & N6 & N7).
  assert (Hlen : length (nodes (createNodes random s1)) = default 0 (nodeCount (CONFIG s0))).
  { unfold createNodes.
    destruct (createNodes_frame random (default 0 (nodeCount (CONFIG s1))) s1) as (F1 & _).
    rewrite F1, Hn1. simpl. by rewrite length_seq, Hcfg. }
  revert Hg2 Hm2 N1 N2 N3 N4 N5 N6 N7 Hlen. generalize (createNodes random s1). intros s2.
  intros Hg2 Hm2 N1 N2 N3 N4 N5 N6 N7 Hlen.
  pose proof (createConnections_ok s2 Hg2) as Hg3.
  assert (Hl3 : lines_ok (createConnections s2)).
  { apply createConnections_lines_ok; [done|].
    intros c Hc. rewrite N1, Hc1 in Hc. by apply elem_of_nil in Hc. }
  destruct (createConnections_views s2) as (L1 & L2 & L3 & L4 & L5 & L6 & L7).
  split; [done|]. split; [done|]. split.
  { intros x Hx. rewrite L2. apply Hm2. by rewrite <- L1. }
  rewrite L3, L4, L5, L6, N3, N4, N5, N6, D2, D3, D4, D5, L1, Hlen.
  repeat split; try done. lia.
Qed.

(** The scene that [init] builds is well formed: 80 nodes, the HUD in
    step, and 500 particles without velocities or preset. *)
Lemma init_scene_ok :
  let s := init_scene random empty_state in
  state_ok s ∧ dataPulses s = [] ∧ length (nodes s) = 80
  ∧ currentViz s = "neural" ∧ time s = 0%R
  ∧ ∃ ps, particleSystem s = Some ps ∧ velocities ps = None ∧ pts_preset ps = None
          ∧ length (positions ps) = 1500.
Proof.
  cbv zeta. unfold init_scene.
  destruct (createLights_views empty_state) as (A1 & A2 & A3 & A4 & A5).
  assert (Hg0 : graph_ok (createLights empty_state)).
  { apply (graph_ok_frame empty_state); try done; [simpl; lia|apply graph_ok_empty]. }
  assert (Hcfg : CONFIG (createLights empty_state) = CONFIG0) by reflexivity.
  destruct (build_graph (createLights empty_state) Hg0 eq_refl eq_refl)
    as (Hg3 & Hl3 & Hm3 & B1 & B2 & B3 & B4 & B5 & B6).
  rewrite Hcfg in B6. change (default 0 (nodeCount CONFIG0)) with 80 in B6.
  revert Hg3 Hl3 Hm3 B1 B2 B3 B4 B5 B6.
  generalize (createConnections (createNodes random (createCoreNode (createLights empty_state)))).
  intros s3 Hg3 Hl3 Hm3 B1 B2 B3 B4 B5 B6.
  destruct (createParticles_views s3)
    as (P1 & P2 & P3 & P4 & P5 & ps & P6 & P7 & P8 & P9 & _).
  revert P1 P2 P3 P4 P5 P6. generalize (createParticles random s3). intros s4.
  intros P1 P2 P3 P4 P5 P6.
  unfold graph_view in P1. injection P1 as Pn Pc Pm Pl _ _.
  unfold pulse_view in P2, B1. injection P2 as Pd Pp. injection B1 as Bd Bp.
  assert (Hg4 : graph_ok s4).
  { revert Hg3. apply graph_ok_frame; try done. lia. }
  split; [|split; [|split; [|split; [|split]]]].
  - split; [|split].
    + split; [by apply updateHUD_ok|]. split; [|split; [|done]].
      * intros c Hc. change (line_form (line_data s4 c)). change (c ∈ connections s4) in Hc.
        unfold line_data. rewrite Pl. rewrite Pc in Hc. by apply Hl3.
      * intros x Hx. change (is_Some (meshes s4 !! x)). change (x ∈ nodes s4) in Hx.
        rewrite Pm. apply Hm3. by rewrite <- Pn.
    + split; [change (NoDup (dataPulses s4)); rewrite Pd, Bd; apply NoDup_nil_2|].
      intros p Hp. change (p ∈ dataPulses s4) in Hp. rewrite Pd, Bd in Hp.
      by apply elem_of_nil in Hp.
    + split; [|split].
      * change (particles_ok s4). unfold particles_ok. rewrite P6. exists 500.
        split; [done|]. intros V HV. congruence.
      * change (particles_fit s4). unfold particles_fit. rewrite P6. left.
        by rewrite P3, B3.
      * change (preset_ok s4). unfold preset_ok. rewrite P3, B3. by eexists.
  - change (dataPulses s4 = []). by rewrite Pd, Bd.
  - change (length (nodes s4) = 80). by rewrite Pn.
  - change (currentViz s4 = "neural"). by rewrite P3, B3.
  - change (time s4 = 0%R). by rewrite P4, B4.
  - exists ps. change (particleSystem s4 = Some ps ∧ velocities ps = None
                        ∧ pts_preset ps = None ∧ length (positions ps) = 1500).
    done.
Qed.
End startup.

(** ** The program as a whole *)

Lemma App0_ok (f : State → State) :
  state_ok (f empty_state) → dataPulses (f empty_state) = [] → app_ok (with_state f App0).
Proof.
  intros Hs Hdp. split; [exact Hs|]. split; [intros _; exact Hdp|].
  split; [simpl; lia|]. split; intros x Hx; simpl in Hx; by apply elem_of_nil in Hx.
Qed.

Lemma App0_fields (f : State → State) :
  state (with_state f App0) = f empty_state ∧ frameCount (with_state f App0) = 0
  ∧ pulsesEnabled (with_state f App0) = true ∧ currentMode (with_state f App0) = "orbit".
Proof. done. Qed.

Section program.
Variable random : nat → R.
Hypothesis random_range : ∀ n, (0 <= random n < 1)%R.

(** X20: a frame of a well-formed program does not throw and leaves the
    program well formed. It advances the time by 0.016 and the frame
    counter by one and keeps the arrays [nodes] and [connections], the
    visualization, the mode and the pulse switch. With pulses enabled the
    array of pulses after the frame is the array of those pulses that did
    not arrive in this frame, in their order, followed by one new pulse
    exactly when the new frame number is a multiple of 30 and there is a
    connection, and by nothing otherwise; so a frame adds at most one
    pulse. With pulses disabled the array of pulses is not touched. *)
Theorem animate_frame a :
  app_ok a →
  ∃ a', animate random a = Normal a' ∧ app_ok a'
    ∧ frameCount a' = S (frameCount a)
    ∧ time (state a') = (time (state a) + 16/1000)%R
    ∧ nodes (state a') = nodes (state a) ∧ connections (state a') = connections (state a)
    ∧ currentViz (state a') = currentViz (state a) ∧ currentMode a' = currentMode a
    ∧ pulsesEnabled a' = pulsesEnabled a
    ∧ dataPulses (state a')
      = (if pulsesEnabled a
         then filter (λ p, ¬ completes (state a) p) (dataPulses (state a))
              ++ (if decide (S (frameCount a) mod 30 = 0 ∧ connections (state a) ≠ [])
                  then [next_ref (state a)] else [])
         else dataPulses (state a))
    ∧ length (dataPulses (state a')) ≤ S (length (dataPulses (state a))).
Proof.
  intros Ha.
  destruct (animate_part random random_range a Ha)
    as (a' & Hrun & Hok & Hf & Ht & Hn & Hc & Hv & Hm & Hpe & Hnext & Hdp).
  exists a'. do 9 (split; [done|]).
  assert (Hspawn : (S (frameCount a) mod 30 = 0 ∧ 0 < length (connections (state a)))
                   ↔ (S (frameCount a) mod 30 = 0 ∧ connections (state a) ≠ [])).
  { destruct (connections (state a)); simpl; split; intros [? ?]; split; try done; lia. }
  rewrite Hdp. clear Hdp. destruct (pulsesEnabled a); [|split; [done|lia]].
  rewrite (decide_ext _ _ _ _ Hspawn). split; [done|].
  rewrite length_app.
  pose proof (length_filter (λ p, ¬ completes (state a) p) (dataPulses (state a))).
  case_decide; simpl; lia.
Qed.

Lemma run_part es a :
  app_ok a → Forall event_ok es →
  app_ok (run random es a)
  ∧ ∀ k e, es !! k = Some e → ∃ a', handle random e (run random (take k es) a) = Normal a'.
Proof.
  revert a. induction es as [|e es IH]; intros a Ha Hes.
  - split; [done|]. intros k e Hk. done.
  - apply Forall_cons in Hes as [He Hes].
    destruct (handle_part random random_range e a He Ha) as (a1 & H1 & Ha1).
    destruct (IH a1 Ha1 Hes) as [Hrun Hno].
    unfold run in *. cbn [foldl]. rewrite H1. cbn [completion_app].
    split; [done|]. intros k e' Hk. destruct k as [|k]; simpl in Hk.
    + injection Hk as <-. exists a1. done.
    + cbn [take foldl]. rewrite H1. cbn [completion_app]. by apply Hno.
Qed.

(** X21: the program never throws. [init] returns, and whatever events
    follow, frames, mouse moves, clicks, right clicks, buttons, keys,
    timers, as long as the visualization dropdown does not deliver a name
    that [VIZ_PRESETS] merely inherits, every handler returns normally and
    leaves a well-formed program: a graph with distinct nodes and lines
    whose stored indices name nodes of the array, a HUD that shows the
    sizes of the two arrays, distinct pulses, particle buffers with three
    numbers per particle that fit the visualization, no pulses while
    pulses are disabled, and recordings of at most 50 frames. *)
Theorem session_never_throws es :
  Forall event_ok es →
  ∃ a0, init random = Normal a0 ∧ app_ok a0
    ∧ app_ok (run random es a0)
    ∧ ∀ k e, es !! k = Some e →
        ∃ a', handle random e (run random (take k es) a0) = Normal a'.
Proof.
  intros Hes. unfold init.
  pose proof (init_scene_ok random random_range) as H0. cbv zeta in H0.
  destruct H0 as (Hs0 & Hdp0 & _).
  pose proof (App0_ok (init_scene random) Hs0 Hdp0) as Ha.
  destruct (animate_part random random_range _ Ha) as (a0 & Hrun & Hok & _).
  exists a0. split; [done|]. split; [done|]. by apply run_part.
Qed.

(** X22: after [init], that is after the scene is built and the first
    frame has run, there are 80 nodes, all shown by the HUD, the
    visualization is [neural] in mode [orbit], the frame counter is 1, the
    time 0.016, and no pulse has been spawned yet. *)
Theorem init_spec :
  ∃ a0, init random = Normal a0
    ∧ length (nodes (state a0)) = 80 ∧ hud_node_count (state a0) = 80
    ∧ hud_connection_count (state a0) = length (connections (state a0))
    ∧ currentViz (state a0) = "neural" ∧ currentMode a0 = "orbit"
    ∧ frameCount a0 = 1 ∧ time (state a0) = (16/1000)%R
    ∧ dataPulses (state a0) = [] ∧ pulsesEnabled a0 = true.
Proof.
  unfold init.
  pose proof (init_scene_ok random random_range) as H0. cbv zeta in H0.
  destruct H0 as (Hs0 & Hdp0 & Hlen & Hviz & Htime & _).
  pose proof (App0_ok (init_scene random) Hs0 Hdp0) as Ha.
  destruct (App0_fields (init_scene random)) as (F1 & F2 & F3 & F4).
  revert Ha F1 F2 F3 F4. generalize (with_state (init_scene random) App0).
  clear Hs0. revert Hdp0 Hlen Hviz Htime. generalize (init_scene random empty_state).
  intros s0 Hdp0 Hlen Hviz Htime ai Ha F1 F2 F3 F4.
  destruct (animate_part random random_range ai Ha)
    as (a0 & Hrun & Hok & Hf & Ht & Hn & Hc & Hv & Hm & Hpe & _ & Hdp).
  destruct Hok as (((_ & _ & _ & Hhud1 & Hhud2) & _) & _).
  rewrite F1 in *. rewrite F2 in Hf. rewrite F3 in Hdp, Hpe. rewrite F4 in Hm.
  exists a0. split; [exact Hrun|]. rewrite Hhud1, Hn, Hlen.
  split; [reflexivity|]. split; [reflexivity|]. split; [exact Hhud2|].
  split; [by rewrite Hv|]. split; [exact Hm|]. split; [exact Hf|].
  split; [rewrite Ht, Htime; lra|]. split; [|exact Hpe].
  rewrite Hdp, Hdp0, F2. rewrite decide_False; [reflexivity|]. intros [Hmod _]. done.
Qed.
End program.

(** ** The whole-program properties on the sample graph *)

Lemma sample_state_lines : lines_ok sample_state.
Proof.
  intros c Hc. simpl in Hc.
  assert (c = 3 ∨ c = 4 ∨ c = 5) as [-> | [-> | ->]] by set_solver.
  - apply (line_form_core Vector3_new (mkVector3 3 0 0) 0).
  - apply (line_form_pair (mkVector3 3 0 0) (mkVector3 3 2 0) 0 2).
  - apply (line_form_pair (mkVector3 0 (-9) 0) (mkVector3 3 2 0) 1 2).
Qed.

Lemma sample_app_ok : app_ok sample_app.
Proof.
  split; [|split; [done|]].
  - split; [|split].
    + split; [apply sample_state_ok|]. split; [apply sample_state_lines|]. split; [|done].
      intros n Hn. simpl in Hn.
      assert (n = 0 ∨ n = 1 ∨ n = 2) as [-> | [-> | ->]] by set_solver; by eexists.
    + apply pulses_ok_view with empty_state; [done|simpl; lia|apply pulses_ok_empty].
    + split; [done|]. split; [done|]. by eexists.
  - split; [simpl; lia|]. split; intros x Hx; simpl in Hx; by apply elem_of_nil in Hx.
Qed.

Lemma animateNodes_motion_witness :
  let a' := animateNodes sample_app in
  nodes_moved sample_app a'
  ∧ (∀ node d, node ∈ nodes (state sample_app) → meshes (state sample_app) !! node = Some d →
       ∃ d', meshes (state a') !! node = Some d'
         ∧ node_animated (currentMode sample_app) d d'
         ∧ (currentMode sample_app = "pulse" →
              ∃ e, emissiveIntensity a' !! node = Some e ∧ (0 <= e <= 6/10)%R))
  ∧ (∀ node, node ∈ nodes (state sample_app) →
       rotation_of a' node
       = ((rotation_of sample_app node).1 + 1/100,
          (rotation_of sample_app node).2 + 1/100)%R)
  ∧ (∀ x, x ∉ nodes (state sample_app) →
       meshes (state a') !! x = meshes (state sample_app) !! x
       ∧ rotation a' !! x = rotation sample_app !! x
       ∧ emissiveIntensity a' !! x = emissiveIntensity sample_app !! x).
Proof. apply (animateNodes_motion sample_app), sample_state_ok. Defined.

Lemma animateConnections_follows_witness :
  ∃ a', animateConnections sample_app = Normal a'
    ∧ lines_moved sample_app a'
    ∧ (∀ k c, connections (state sample_app) !! k = Some c →
         line_follows (state sample_app) (line_data (state sample_app) c)
           (line_data (state a') c)
         ∧ ∃ o, line_opacity a' !! c = Some o
                ∧ o = pulse_opacity_at (time (state sample_app)) k
                ∧ (5/100 <= o <= 35/100)%R)
    ∧ (∀ x, x ∉ connections (state sample_app) →
         lines (state a') !! x = lines (state sample_app) !! x
         ∧ line_opacity a' !! x = line_opacity sample_app !! x)
    ∧ graph_ok (state a') ∧ lines_ok (state a').
Proof.
  apply (animateConnections_follows sample_app);
    [apply sample_state_ok|apply sample_state_lines].
Defined.

Lemma animate_frame_witness :
  ∃ a', animate (λ _, (1/2)%R) sample_app = Normal a' ∧ app_ok a'
    ∧ frameCount a' = S (frameCount sample_app)
    ∧ time (state a') = (time (state sample_app) + 16/1000)%R
    ∧ nodes (state a') = nodes (state sample_app)
    ∧ connections (state a') = connections (state sample_app)
    ∧ currentViz (state a') = currentViz (state sample_app)
    ∧ currentMode a' = currentMode sample_app
    ∧ pulsesEnabled a' = pulsesEnabled sample_app
    ∧ dataPulses (state a')
      = (if pulsesEnabled sample_app
         then filter (λ p, ¬ completes (state sample_app) p)
                (dataPulses (state sample_app))
              ++ (if decide (S (frameCount sample_app) mod 30 = 0
                             ∧ connections (state sample_app) ≠ [])
                  then [next_ref (state sample_app)] else [])
         else dataPulses (state sample_app))
    ∧ length (dataPulses (state a')) ≤ S (length (dataPulses (state sample_app))).
Proof.
  apply (animate_frame (λ _, (1/2)%R) half_in_range sample_app), sample_app_ok.
Defined.

Lemma sample_events_ok :
  Forall event_ok [Frame; Click miss_ray; VizSelect "storm"; ContextMenu [7]; Frame].
Proof.
  repeat (apply Forall_cons; split); try apply Forall_nil_2; try exact I.
  intros name. simpl. discriminate.
Qed.

Lemma session_never_throws_witness :
  ∃ a0, init (λ _, (1/2)%R) = Normal a0 ∧ app_ok a0
    ∧ app_ok (run (λ _, (1/2)%R)
                [Frame; Click miss_ray; VizSelect "storm"; ContextMenu [7]; Frame] a0)
    ∧ ∀ k e,
        [Frame; Click miss_ray; VizSelect "storm"; ContextMenu [7]; Frame] !! k = Some e →
        ∃ a', handle (λ _, (1/2)%R) e
                (run (λ _, (1/2)%R)
                   (take k [Frame; Click miss_ray; VizSelect "storm"; ContextMenu [7]; Frame])
                   a0) = Normal a'.
Proof.
  apply (session_never_throws (λ _, (1/2)%R) half_in_range
           [Frame; Click miss_ray; VizSelect "storm"; ContextMenu [7]; Frame]),
    sample_events_ok.
Defined.

Lemma init_spec_witness :
  ∃ a0, init (λ _, (1/2)%R) = Normal a0
    ∧ length (nodes (state a0)) = 80 ∧ hud_node_count (state a0) = 80
    ∧ hud_connection_count (state a0) = length (connections (state a0))
    ∧ currentViz (state a0) = "neural" ∧ currentMode a0 = "orbit"
    ∧ frameCount a0 = 1 ∧ time (state a0) = (16/1000)%R
    ∧ dataPulses (state a0) = [] ∧ pulsesEnabled a0 = true.
Proof. apply (init_spec (λ _, (1/2)%R) half_in_range). Defined.
